(* ===== verification/_CoqProject ===== *)
-Q . S2P
Prelude.v
Model.v
Ports.v
MemState.v
MemGraph.v
MemGroups.v
MemSessions.v
MemTokens.v
MemAccounts.v
MemGrants.v
MemAudited.v
MemPorts.v
TokenSvc.v
PermissionSvc.v
DeviceSvc.v
LoginSvc.v
Status.v
RateLimit.v
GrpcAuth.v
GrpcRebac.v
SqlRows.v
SqlBase.v
SqlAuthz.v
SqlAccounts.v
SqlGroups.v
SqlGrants.v
SqlTokens.v
SqlSessions.v
SqlAudited.v
SqlStore.v
Files.v
Rs256.v
HttpBase.v
HttpSession.v
HttpTokens.v
HttpLogin.v
AdminBase.v
AdminPages.v
HttpServer.v
Config.v
IdpRegistry.v
Oidc.v
ServiceGraph.v
AuthCtl.v
Probe.v
MemTrace.v
ModelFacts.v
Demo.v
Rs256Facts.v
OidcFacts.v
AuthzFacts.v
SqlTuples.v
SqlAuthzFacts.v
SqlKeep.v
SqlSessionFacts.v
SqlSchema.v
SqlTyped.v
SqlReach.v
SqlLoginFacts.v
SqlEvidence.v
SqlResourceFacts.v
SqlAtomic.v
KeyFacts.v
TraceFacts.v
GraphFacts.v
AuditFacts.v
TokenFacts.v
SqlBearer.v
DeviceFacts.v
LoginFacts.v
InboundFacts.v
HttpMoves.v
HttpSqlite.v
HttpDemo.v
HttpText.v
HttpGuards.v
ServerFacts.v
AdminFacts.v
CtlFacts.v
ProbeFacts.v
