(* ===== verification/Prelude.v ===== *)
(** * A verification library for lore-auth-bridge

    The bridge signs users in through external identity providers, stores accounts,
    groups, grants and repositories, decides who may write to a repository, and issues
    tokens for repositories to clients that went through a browser, a polled session or
    a device code.  The source is a hexagon of crates: [lore-auth-core] holds the domain
    ([model.rs]), the outbound ports ([ports.rs]) and the services ([service/*.rs]);
    [lore-auth-adapters] implements the ports (in memory, on SQLite, by an RS256 signer, by
    an OIDC client) and reads the configuration; [lore-auth-inbound] is the gRPC and HTTP
    surface with the admin pages; [lore-auth-server] puts them together, [lore-authctl] is the
    operator's control tool, and [lore-claimprobe] mints tokens to try a Lore server with.
    This library models all of them, and proves what makes them correct, alone and together:
    from a single statement of SQL to sequences of requests at the server that a configuration
    starts.

    ** How the code is modelled

    A fallible [async fn] is a handler of the monad [M E S] below: from a world (the
    adapter state, and how many clock readings and UUIDs were consumed) to a result and
    a world.  A mutation made before an error stays, as in the source, unless a transaction
    of the database takes it back.  The methods of the in-memory adapter hold one mutex for
    their whole body, and those of the SQLite adapter run on one connection, so each is one
    atomic step; concurrency is the interleaving of such steps.  What the standard library
    and third-party crates decide is a field of the class [Env]: the clock, the UUIDs, the
    SHA-256 digest, debug rendering, and the iteration order of hash maps and sets, which is
    any permutation, so no theorem depends on it.  [HashMap] is [gmap]; a table is the list of
    its rows; integers are [Z], with the wrap-around of a release build written out
    ([wrap_i64]) where the source adds without checking; strings are their UTF-8 bytes.  Ports
    are classes of operations over the adapter state ([Ports]), and a trait object is an
    explicit value of the class, so the services are proved over any implementation, over the
    in-memory one and over the one of production.  The control tool runs over a database next
    to files, and the lines it prints are its result; what the claim probe prints is part of its
    state, since it may fail after it has printed.

    Other crates are classes of operations, named after what they stand for: [Sqlite] (the
    text of a failed constraint), [SerdeJson], [AuthzCore] (resolver and schema parser),
    [HttpLib] (http, url, form and percent encodings), [AdminLib] (templates, dictionaries),
    [ConfigLib] (YAML, addresses), [IpNets], [JwtLib] (RSA, base64, PEM, jsonwebtoken),
    [OidcLib] (openidconnect), [FileSystem], [CtlLib] and [ProbeLib] (the process).

    ** Files

    - [Prelude]: results, worlds, handlers, time, strings, stable sorting, hash maps, and
      the tactics: [minv] inverts a run of a handler, [mrun] computes one, [preserve] and
      [evolve] prove an invariant or a relation of worlds by the structure of a handler,
      with the hint database [handler].
    - [Model] ([lib.rs], [model.rs]), [Ports] ([ports.rs]).
    - The in-memory adapter ([memory/*.rs]): [MemState] (the state and the helpers of
      [mod.rs]), [MemGraph] (closure, path search and cycle check of the group graph),
      [MemGroups], [MemSessions] (devices, sessions, logins, CSRF), [MemTokens] (tokens and
      repositories), [MemAccounts], [MemGrants], [MemAudited] (one definition per method) and
      [MemPorts] (the instances of the ports).
    - The services ([service/*.rs]): [TokenSvc], [PermissionSvc] (with [resource.rs]),
      [DeviceSvc] (with the adapters' [device.rs]) and [LoginSvc].
    - The gRPC surface: [Status], [RateLimit], [GrpcAuth], [GrpcRebac] (with [peer.rs]).
    - The SQLite adapter ([sqlite/*.rs]): [SqlRows] ([migrations.rs]: tables as lists of
      rows, the relational operations, the recursive query), [SqlBase] ([mod.rs]: statements,
      constraints, transactions), [SqlAuthz] ([authz.rs], [permissions.rs]: tuples, readers,
      snapshots, the policy), [SqlAccounts], [SqlGroups], [SqlGrants], [SqlTokens] (issued
      tokens, signing keys and repositories), [SqlSessions] ([devices.rs], [state.rs]),
      [SqlAudited], and [SqlStore] (all writes of the store as data).
    - Keys and providers: [Files] (the file system), [Rs256] ([rs256.rs]: claims, signer, key
      files, key administration), [Oidc] ([oidc.rs]), [IdpRegistry] ([idpregistry.rs],
      [staticidp.rs]).
    - The HTTP surface: [HttpBase], [HttpSession], [HttpTokens] (with the device flow),
      [HttpLogin], [AdminBase] and [AdminPages] ([admin/*.rs]), [HttpServer] (routes, limits,
      and a request through the layers).
    - The binaries: [Config] ([config.rs]), [ServiceGraph] (the server's [main.rs]: from a
      configuration to running services), [AuthCtl] ([lore-authctl]), [Probe]
      ([lore-claimprobe]).
    - Support for the proofs: [MemTrace] and [SqlKeep] (operations as data, runs, and the
      induction over them), [HttpMoves] and [HttpSqlite] (requests move a world only by calls
      of the ports), and [Demo] and [HttpDemo], concrete surroundings for the examples.

    ** What is shown

    - The domain.  [ModelFacts]: repository ids are canonical, identity keys do not collide,
      tokens never carry [admin].
    - Access.  [AuthzFacts]: the specification [granted] of access through nested groups;
      deciding implements it, listing agrees, grants take effect and are taken back.
      [SqlTuples], [SqlAuthzFacts]: what relation tuples mean; the snapshots and pushed-down
      filters lose nothing; over any resolver with the interface [ResolverLaws] the policy of
      production decides by the grants of the database, fails closed on unknown roles, lists
      what it allows, and refines the in-memory policy.  [SqlReach]: what that assumes of the
      rows holds of every database that calls reach.  [SqlEvidence]: the evidence shown to an
      administrator is every grant that counts, with a chain of memberships to it.
      [GraphFacts]: the searches of the group graph terminate and compute reachability.
    - The database.  [SqlSchema], [SqlTyped]: keys, foreign keys, status columns, roles,
      subjects and the acyclic group graph are an invariant of every call.  [SqlAtomic]: a call
      that fails changes nothing, and an audited write is the plain write with one audit row.
      [AuditFacts] says the latter of the in-memory store.  [SqlResourceFacts]: stored
      repositories are found and deleted ones are not; searches are substring searches.
    - Credentials in every interleaving.  [TraceFacts] in memory, [SqlSessionFacts] on SQLite:
      they are used at most once, rows follow their state machines, revoked sessions stay
      revoked; the calls on SQLite refine those in memory.
    - Tokens.  [TokenFacts]: they are signed only for what the policy allows, over any adapter
      with the interface [ReadPorts].  [Rs256Facts]: the signer verifies what it signs and
      nothing else.  [KeyFacts]: generating a key overwrites nothing and the key can be loaded.
      [SqlBearer]: in production a minted token is accepted exactly while it runs, is not
      revoked and its user is active.
    - Signing in.  [LoginFacts], [SqlLoginFacts], [DeviceFacts], [OidcFacts]: who gets in, that
      bindings last and codes are used once, that the device flow completes, that a completed
      sign-in stands on a verified ID token and PKCE binds it to its request.
    - The surfaces.  [InboundFacts]: agreement of permission checks with token exchange, what
      answers reveal, the limiter.  [HttpText], [HttpGuards]: data carries no markup into pages;
      what a [POST] must bring before it writes.
    - The system.  [ServerFacts], [AdminFacts]: of every sequence of requests at the server of
      any configuration: the database stays well typed, form tokens work once, tokens stand on
      grants, sign-ins on ID tokens, and changes by the admin pages on audit rows; [AdminFacts]
      also has the calendar of their dates.  [CtlFacts]: every change by the control tool has its
      audit row, and its tokens sign in at the server.  [ProbeFacts]: the tokens of the claim
      probe are what their labels promise to a verifier, and it serves the key it generated.

    ** Fuel and bounds

    The loops of the group graph carry fuel.  Their callers pass one unit per group (the
    closure and the path search add one group per pass or step) or per edge (the cycle check
    pushes each edge once); [GraphFacts] proves that this is enough on every graph, cyclic
    ones included.  The recursive query has one unit per row of the two membership tables, the
    closure over a snapshot one per tuple, and the path search on SQLite one per group;
    [SqlRows], [SqlTuples] and [SqlEvidence] prove that this is enough.  Paths of files have
    one unit per byte, since each step drops one.

    ** Assumptions of theorems

    Hypotheses of the theorems that need them, which hold of the environment of [Demo]:
    [uuid_unique] (UUIDs and their digests do not repeat) and [uuid_format] (a UUID is a
    non-empty string of hexadecimal digits and dashes; on SQLite, that it is a plain id).
    [ResolverLaws]: the resolver of [authz-core] answers membership by the tuples it reads and
    fails only on chains of groups longer than its recursion limit; [SqlAuthzFacts] proves it of
    a depth-first search.  [JwtLaws]: JSON, base64 and PEM can be read back, a signature made
    with a private key is valid under its public key, and decoding a token checks signature and
    expiry; [Rs256Facts] proves it of a concrete instance.  [BesideStore]: signer and providers
    do not hold the database; [HttpSqlite] proves it of the ones of production.

    ** Not modelled

    Opening and migrating the database, driver failures other than constraints, and writes of
    other processes between the statements of one call.  The HTTP requests of the OIDC client,
    and the algorithms behind RSA, JWT, base64, YAML and JSON text.  The rendering of templates;
    the routing, extractors and rejections of axum and the tower and tonic wrappers around the
    handlers.  Sockets, logging, timeouts and shutdown of the server, and the command-line
    parsers of the tools.  The protocol crates are generated code, and the support code of
    end-to-end tests and the benchmarks are no part of the programs.  Poisoned
    locks, allocation failure and the overflow panics of debug builds are left out. *)

From Stdlib Require Import ZArith Lia Ascii.
From Stdlib Require DecimalString.
From stdpp Require Import base gmap strings list sorting.

Declare Scope bridge_scope.
Delimit Scope bridge_scope with bridge.
Open Scope bridge_scope.

(** * Results, worlds and handlers *)

(** [Result<A, E>] of the source. *)
Inductive result (E A : Type) : Type :=
  | Ok (a : A)
  | Err (e : E).
Arguments Ok {E A} a.
Arguments Err {E A} e.

#[export] Instance result_eq_dec `{EqDecision E, EqDecision A} : EqDecision (result E A).
Proof. solve_decision. Defined.

(** The standard library and third-party facts a run depends on.  [clock n] is
    the [n]-th reading of [SystemTime::now()] in whole seconds from the epoch
    (negative before it), [uuid_src n] the [n]-th [Uuid::new_v4().to_string()],
    [sha256_hex] the hex digest of the [sha2] and [hex] crates, [str_debug] the
    [{:?}] rendering of a string, and [hash_iter] / [hashset_iter] the
    unspecified iteration order of [HashMap] and [HashSet]. *)
Class Env := {
  clock : nat → Z;
  uuid_src : nat → string;
  sha256_hex : string → string;
  str_debug : string → string;
  hash_iter : ∀ {K V : Type} `{Countable K}, gmap K V → list (K * V);
  hash_iter_perm : ∀ {K V : Type} `{Countable K} (m : gmap K V), hash_iter m ≡ₚ map_to_list m;
  hashset_iter : ∀ {K : Type} `{Countable K}, gset K → list K;
  hashset_iter_perm : ∀ {K : Type} `{Countable K} (s : gset K), hashset_iter s ≡ₚ elements s
}.

(** The state of an adapter together with the number of clock readings and
    UUIDs consumed so far. *)
Record World (S : Type) : Type := mkWorld {
  st : S;
  ticks : nat;
  draws : nat
}.
Arguments mkWorld {S} st ticks draws.
Arguments st {S} w : rename.
Arguments ticks {S} w : rename.
Arguments draws {S} w : rename.

(** A handler: it may fail, and the state it had reached stays (Rust does not
    roll back a mutation when a later [?] returns). *)
Definition M (E S A : Type) : Type := World S → result E A * World S.

Section Monad.
Context {E S : Type}.

Definition ret {A} (a : A) : M E S A := λ w, (Ok a, w).

Definition bind {A B} (m : M E S A) (k : A → M E S B) : M E S B := λ w,
  match m w with
  | (Ok a, w') => k a w'
  | (Err e, w') => (Err e, w')
  end.

Definition throw {A} (e : E) : M E S A := λ w, (Err e, w).

(** [match m.await { Ok(..) => .., Err(..) => .. }] *)
Definition attempt {E' A} (m : M E S A) : M E' S (result E A) := λ w,
  match m w with (r, w') => (Ok r, w') end.

Definition get_state : M E S S := λ w, (Ok (st w), w).

Definition put_state (s : S) : M E S () := λ w, (Ok tt, mkWorld s (ticks w) (draws w)).

(** An in-place mutation behind a lock guard. *)
Definition modify_state (f : S → S) : M E S () := λ w,
  (Ok tt, mkWorld (f (st w)) (ticks w) (draws w)).

(** [Option::ok_or] followed by [?]. *)
Definition ok_or {A} (o : option A) (e : E) : M E S A :=
  match o with Some a => ret a | None => throw e end.

(** A pure [Result] followed by [?]. *)
Definition lift {A} (r : result E A) : M E S A := λ w, (r, w).

(** A [for] loop that collects one value per iteration. *)
Fixpoint map_m {A B} (f : A → M E S B) (l : list A) : M E S (list B) :=
  match l with
  | [] => ret []
  | a :: l' => bind (f a) (λ b, bind (map_m f l') (λ bs, ret (b :: bs)))
  end.
End Monad.

(** [Result::map_err]. *)
Definition map_err {E E' S A} (f : E → E') (m : M E S A) : M E' S A := λ w,
  match m w with
  | (Ok a, w') => (Ok a, w')
  | (Err e, w') => (Err (f e), w')
  end.

Definition map_ok {E S A B} (f : A → B) (m : M E S A) : M E S B :=
  bind m (λ a, ret (f a)).

Notation "x <- c ;; k" := (bind c (λ x, k))
  (at level 100, c at next level, right associativity) : bridge_scope.
Notation "'let!' p ':=' c 'in' k" := (bind c (λ x, match x with p => k end))
  (at level 100, p pattern, c at next level, right associativity) : bridge_scope.
Notation "c1 ;;; c2" := (bind c1 (λ _, c2))
  (at level 100, right associativity) : bridge_scope.

(** * Time and identifiers *)

Definition i64_max : Z := 2 ^ 63 - 1.

(** [i64] addition and subtraction of a release build wrap around. *)
Definition wrap_i64 (z : Z) : Z := (z + 2 ^ 63) mod 2 ^ 64 - 2 ^ 63.

(** [std::time::Duration]: whole seconds ([u64]) and nanoseconds. *)
Record Duration := mkDuration {
  dur_secs : Z;
  dur_nanos : Z
}.

Definition from_secs (n : Z) : Duration := mkDuration n 0.
Definition dur_zero : Duration := from_secs 0.
Definition is_zero (d : Duration) : bool := (dur_secs d =? 0)%Z && (dur_nanos d =? 0)%Z.

(** [i64::try_from(n).unwrap_or(i64::MAX)] for an unsigned [n]. *)
Definition i64_saturate (n : Z) : Z := Z.min n i64_max.

(** [t.duration_since(UNIX_EPOCH)] in whole seconds as an [i64], 0 before the epoch. *)
Definition unix_of (t : Z) : Z := if (t <? 0)%Z then 0%Z else i64_saturate t.

Section Clock.
Context `{Env} {E S : Type}.

(** [SystemTime::now()] *)
Definition system_now : M E S Z := λ w,
  (Ok (clock (ticks w)), mkWorld (st w) (Datatypes.S (ticks w)) (draws w)).

Definition now_unix : M E S Z := t <- system_now ;; ret (unix_of t).

Definition uuid_v4 : M E S string := λ w,
  (Ok (uuid_src (draws w)), mkWorld (st w) (ticks w) (Datatypes.S (draws w))).
End Clock.

(** [Uuid::as_simple().to_string()]: the hyphenated form without its dashes. *)
Fixpoint as_simple (uuid : string) : string :=
  match uuid with
  | EmptyString => EmptyString
  | String c s => if Ascii.eqb c "-"%char then as_simple s else String c (as_simple s)
  end.

(** * Strings: UTF-8 bytes *)

Definition is_ws1 (c : ascii) : bool :=
  let n := nat_of_ascii c in ((9 <=? n) && (n <=? 13)) || (n =? 32).

(** U+0085 and U+00A0. *)
Definition is_ws2 (c d : ascii) : bool :=
  (nat_of_ascii c =? 194) && ((nat_of_ascii d =? 133) || (nat_of_ascii d =? 160)).

(** U+1680, U+2000 to U+200A, U+2028, U+2029, U+202F, U+205F and U+3000. *)
Definition is_ws3 (c d e : ascii) : bool :=
  let x := nat_of_ascii c in let y := nat_of_ascii d in let z := nat_of_ascii e in
  ((x =? 225) && (y =? 154) && (z =? 128))
  || ((x =? 226) && (y =? 128)
      && (((128 <=? z) && (z <=? 138)) || (z =? 168) || (z =? 169) || (z =? 175)))
  || ((x =? 226) && (y =? 129) && (z =? 159))
  || ((x =? 227) && (y =? 128) && (z =? 128)).

(** Drop leading [White_Space] characters ([str::trim_start]). *)
Fixpoint trim_start (s : string) : string :=
  match s with
  | EmptyString => EmptyString
  | String c s1 =>
      if is_ws1 c then trim_start s1 else
      match s1 with
      | EmptyString => s
      | String d s2 =>
          if is_ws2 c d then trim_start s2 else
          match s2 with
          | EmptyString => s
          | String e s3 => if is_ws3 c d e then trim_start s3 else s
          end
      end
  end.

(** The same on a reversed string: an encoding is read from its last byte. *)
Fixpoint trim_start_rev (s : string) : string :=
  match s with
  | EmptyString => EmptyString
  | String c s1 =>
      if is_ws1 c then trim_start_rev s1 else
      match s1 with
      | EmptyString => s
      | String d s2 =>
          if is_ws2 d c then trim_start_rev s2 else
          match s2 with
          | EmptyString => s
          | String e s3 => if is_ws3 e d c then trim_start_rev s3 else s
          end
      end
  end.

Definition trim_end (s : string) : string := String.rev (trim_start_rev (String.rev s)).
Definition trim (s : string) : string := trim_end (trim_start s).

(** [s.chars().any(char::is_whitespace)] *)
Fixpoint has_whitespace (s : string) : bool :=
  match s with
  | EmptyString => false
  | String c s1 =>
      is_ws1 c
      || match s1 with
         | EmptyString => false
         | String d s2 =>
             is_ws2 c d || match s2 with EmptyString => false | String e _ => is_ws3 c d e end
         end
      || has_whitespace s1
  end.

Definition ascii_lower (c : ascii) : ascii :=
  let n := nat_of_ascii c in
  if (65 <=? n) && (n <=? 90) then ascii_of_nat (n + 32) else c.
Definition ascii_upper (c : ascii) : ascii :=
  let n := nat_of_ascii c in
  if (97 <=? n) && (n <=? 122) then ascii_of_nat (n - 32) else c.

Fixpoint map_bytes (f : ascii → ascii) (s : string) : string :=
  match s with EmptyString => EmptyString | String c s' => String (f c) (map_bytes f s') end.
Fixpoint all_bytes (p : ascii → bool) (s : string) : bool :=
  match s with EmptyString => true | String c s' => p c && all_bytes p s' end.

Definition to_ascii_lowercase : string → string := map_bytes ascii_lower.
Definition to_ascii_uppercase : string → string := map_bytes ascii_upper.
Definition eq_ignore_ascii_case (a b : string) : bool :=
  String.eqb (to_ascii_lowercase a) (to_ascii_lowercase b).

Definition is_empty (s : string) : bool :=
  match s with EmptyString => true | String _ _ => false end.

Definition contains_byte (c : ascii) (s : string) : bool :=
  negb (all_bytes (λ d, negb (Ascii.eqb c d)) s).

Definition starts_with (p s : string) : bool := String.prefix p s.

(** [str::strip_prefix] and [str::strip_suffix]. *)
Fixpoint strip_prefix (p s : string) : option string :=
  match p, s with
  | EmptyString, _ => Some s
  | String c p', String d s' => if Ascii.eqb c d then strip_prefix p' s' else None
  | String _ _, EmptyString => None
  end.
Definition strip_suffix (p s : string) : option string :=
  String.rev <$> strip_prefix (String.rev p) (String.rev s).

(** [haystack.contains(needle)] on strings. *)
Fixpoint contains (needle s : string) : bool :=
  String.prefix needle s
  || match s with EmptyString => false | String _ s' => contains needle s' end.

(** [s.split(c)] and [s.split_once(c)] for an ASCII character. *)
Fixpoint split (c : ascii) (s : string) : list string :=
  match s with
  | EmptyString => [""]
  | String d rest =>
      if Ascii.eqb d c then "" :: split c rest
      else match split c rest with
           | [] => [String d EmptyString]
           | part :: parts => String d part :: parts
           end
  end.

Fixpoint split_once (c : ascii) (s : string) : option (string * string) :=
  match s with
  | EmptyString => None
  | String d rest =>
      if Ascii.eqb d c then Some ("", rest)
      else '(a, b) ← split_once c rest; Some (String d a, b)
  end.

(** [s.rsplit_once(c)] for an ASCII character: the parts around its last occurrence. *)
Fixpoint rsplit_once (c : ascii) (s : string) : option (string * string) :=
  match s with
  | EmptyString => None
  | String d s' =>
      match rsplit_once c s' with
      | Some (a, b) => Some (String d a, b)
      | None => if Ascii.eqb c d then Some (EmptyString, s') else None
      end
  end.

(** [s.trim_end_matches(c)] *)
Fixpoint strip_leading (c : ascii) (s : string) : string :=
  match s with
  | EmptyString => EmptyString
  | String d s' => if Ascii.eqb c d then strip_leading c s' else s
  end.
Definition trim_end_matches (c : ascii) (s : string) : string :=
  String.rev (strip_leading c (String.rev s)).

(** [{}] of an integer in a format string. *)
Definition show_int (n : Z) : string := DecimalString.NilZero.string_of_int (Z.to_int n).

Definition str_leb (a b : string) : bool := String.leb a b.

(** * Lists, options and hash maps *)

(** [slice::sort_by]: a stable sort. *)
Section Sort.
Context {A : Type} (leb : A → A → bool).

Fixpoint sort_insert (x : A) (l : list A) : list A :=
  match l with
  | [] => [x]
  | y :: l' => if leb x y then x :: l else y :: sort_insert x l'
  end.

Definition sort_by (l : list A) : list A := foldr sort_insert [] l.
End Sort.

(** [option.filter(p)] *)
Definition keep_if {A} (p : A → bool) (o : option A) : option A :=
  a ← o; if p a then Some a else None.

(** [Vec::truncate] and [LIMIT]: at most [limit] elements, a machine integer. *)
Definition truncate {A} (limit : Z) (l : list A) : list A :=
  take (Z.to_nat (Z.min limit (Z.of_nat (length l)))) l.

(** Lexicographic order on the key pairs and tuples that the source compares. *)
Fixpoint lex_leb (a b : list string) : bool :=
  match a, b with
  | [], _ => true
  | _ :: _, [] => false
  | x :: a', y :: b' => match String.compare x y with Lt => true | Gt => false | Eq => lex_leb a' b' end
  end.

Section HashMaps.
Context `{Env} `{Countable K} {V : Type}.

(** [map.values()] in the unspecified order of the map. *)
Definition hash_values (m : gmap K V) : list V := (hash_iter m).*2.

(** [map.values().find(p)] *)
Definition find_value (p : V → bool) (m : gmap K V) : option V := List.find p (hash_values m).

(** [map.iter().find(p)] *)
Definition find_entry (p : K * V → bool) (m : gmap K V) : option (K * V) :=
  List.find p (hash_iter m).
End HashMaps.

(** * Acyclic relations *)

Section Acyclic.
Context {A : Type} (R R' : A → A → Prop) (a b : A).
Hypothesis Hsub : ∀ x y, R' x y → R x y ∨ x = a ∧ y = b.

(** A path that does not use the new edge is one of the old relation. *)
Lemma rtc_add_edge x y : rtc R' x y → rtc R x y ∨ rtc R x a ∧ rtc R b y.
Proof.
  intros Hr. induction Hr as [x|x y z Hxy _ IH]; [left; apply rtc_refl|].
  destruct (Hsub _ _ Hxy) as [Hxy'|[-> ->]].
  - destruct IH as [?|[??]]; [left; by eapply rtc_l|right; split; [by eapply rtc_l|done]].
  - right. split; [apply rtc_refl|]. destruct IH as [?|[??]]; done.
Qed.

(** An edge between two nodes that are not connected the other way closes no cycle. *)
Lemma acyclic_add x : (∀ x, ¬ tc R x x) → ¬ rtc R b a → ¬ tc R' x x.
Proof.
  intros Hac Hnr Hx.
  assert (∃ y, R' x y ∧ rtc R' y x) as (y & Hxy & Hyx).
  { inversion Hx; subst; [eexists; split; [done|apply rtc_refl]|].
    eexists; split; [done|]. by apply tc_rtc. }
  destruct (Hsub _ _ Hxy) as [Hxy'|[-> ->]]; destruct (rtc_add_edge _ _ Hyx) as [Hr|[Hr1 Hr2]].
  - apply (Hac x). by eapply tc_rtc_r; [apply tc_once|].
  - apply Hnr. etrans; [done|]. by eapply rtc_l.
  - by apply Hnr.
  - by apply Hnr.
Qed.
End Acyclic.

(** * Reasoning about handlers *)

Create HintDb handler.

(** Invert a successful or failed run of the monad's operations. *)
Section MonadLemmas.
Context {E S : Type}.
Implicit Types w : World S.

Lemma bind_Ok_inv {A B} (m : M E S A) (k : A → M E S B) w b w' :
  bind m k w = (Ok b, w') → ∃ a w1, m w = (Ok a, w1) ∧ k a w1 = (Ok b, w').
Proof. unfold bind. destruct (m w) as [[a|e] w1]; naive_solver. Qed.

Lemma bind_Err_inv {A B} (m : M E S A) (k : A → M E S B) w e w' :
  bind m k w = (Err e, w') →
  m w = (Err e, w') ∨ ∃ a w1, m w = (Ok a, w1) ∧ k a w1 = (Err e, w').
Proof. unfold bind. destruct (m w) as [[a|e'] w1]; naive_solver. Qed.

Lemma map_err_Ok_inv {E' A} (f : E → E') (m : M E S A) w a w' :
  map_err f m w = (Ok a, w') → m w = (Ok a, w').
Proof. unfold map_err. destruct (m w) as [[]]; naive_solver. Qed.

Lemma map_err_Err_inv {E' A} (f : E → E') (m : M E S A) w e w' :
  map_err f m w = (Err e, w') → ∃ e0, m w = (Err e0, w') ∧ e = f e0.
Proof. unfold map_err. destruct (m w) as [[]]; naive_solver. Qed.

Lemma ok_or_Ok_inv {A} (o : option A) (e : E) w a w' :
  ok_or o e w = (Ok a, w') → o = Some a ∧ w' = w.
Proof. destruct o; unfold ok_or, ret, throw; naive_solver. Qed.

Lemma ok_or_Err_inv {A} (o : option A) (e : E) w e' w' :
  ok_or o e w = (Err e', w') → o = None ∧ e' = e ∧ w' = w.
Proof. destruct o; unfold ok_or, ret, throw; naive_solver. Qed.

Lemma map_m_Ok_length {A B} (f : A → M E S B) l w bs w' :
  map_m f l w = (Ok bs, w') → length bs = length l.
Proof.
  revert w bs. induction l as [|a l IH]; simpl; intros w bs; unfold ret; [naive_solver|].
  intros (b & w1 & _ & (bs' & w2 & Hl & [= <- <-])%bind_Ok_inv)%bind_Ok_inv.
  simpl. f_equal. eauto.
Qed.
End MonadLemmas.

(** Turn [m w = (Ok a, w')] and [m w = (Err e, w')] into facts about the parts of [m]. *)
Ltac minv_one :=
  match goal with
  | H : bind _ _ _ = (Ok _, _) |- _ =>
      apply bind_Ok_inv in H; destruct H as (? & ? & ? & H)
  | H : bind _ _ _ = (Err _, _) |- _ =>
      apply bind_Err_inv in H; destruct H as [H|(? & ? & ? & H)]
  | H : map_err _ _ _ = (Ok _, _) |- _ => apply map_err_Ok_inv in H
  | H : map_err _ _ _ = (Err _, _) |- _ =>
      apply map_err_Err_inv in H; destruct H as (? & H & ?)
  | H : ok_or _ _ _ = (Ok _, _) |- _ => apply ok_or_Ok_inv in H; destruct H as [? ?]
  | H : ok_or _ _ _ = (Err _, _) |- _ => apply ok_or_Err_inv in H; destruct H as (? & ? & ?)
  | H : ret _ _ = _ |- _ => unfold ret in H
  | H : throw _ _ = _ |- _ => unfold throw in H
  | H : lift _ _ = _ |- _ => unfold lift in H
  | H : get_state _ = _ |- _ => unfold get_state in H
  | H : put_state _ _ = _ |- _ => unfold put_state in H
  | H : modify_state _ _ = _ |- _ => unfold modify_state in H
  | H : now_unix _ = _ |- _ => unfold now_unix in H
  | H : system_now _ = _ |- _ => unfold system_now in H
  | H : uuid_v4 _ = _ |- _ => unfold uuid_v4 in H
  | H : map_ok _ _ _ = _ |- _ => unfold map_ok in H
  | H : (_, _) = (_, _) |- _ => simplify_eq/=
  | H : Ok _ = Ok _ |- _ => simplify_eq/=
  | H : Err _ = Err _ |- _ => simplify_eq/=
  | H : (if ?b then _ else _) _ = (_, _) |- _ => destruct b eqn:?
  end.
Ltac minv := repeat (minv_one; simplify_eq/=).

(** Run the monad's operations in the goal and split on the remaining tests. *)
Ltac mrun :=
  unfold map_ok, now_unix, system_now, uuid_v4, get_state, put_state, modify_state, attempt, map_err,
    lift, bind, ok_or, ret, throw in *; simpl in *.

(** [preserves I m]: every run of [m], failed ones included, keeps [I]. *)
Definition preserves {E S A} (I : S → Prop) (m : M E S A) : Prop :=
  ∀ w, I (st w) → I (st (m w).2).

(** [readonly m]: no run of [m] changes the adapter's state. *)
Definition readonly {E S A} (m : M E S A) : Prop := ∀ w, st (m w).2 = st w.

Section Preserves.
Context `{Env} {E S : Type} (I : S → Prop).

Lemma preserves_ret {A} (a : A) : preserves (E := E) I (ret a).
Proof. intros w Hw. exact Hw. Qed.
Lemma preserves_throw {A} (e : E) : preserves (A := A) I (throw e).
Proof. intros w Hw. exact Hw. Qed.
Lemma preserves_lift {A} (r : result E A) : preserves I (lift r).
Proof. intros w Hw. exact Hw. Qed.
Lemma preserves_ok_or {A} (o : option A) (e : E) : preserves I (ok_or o e).
Proof. intros w Hw. by destruct o. Qed.
Lemma preserves_get : preserves (E := E) I get_state.
Proof. intros w Hw. exact Hw. Qed.
Lemma preserves_put s : I s → preserves (E := E) I (put_state s).
Proof. by intros Hs w Hw. Qed.
Lemma preserves_modify f : (∀ s, I s → I (f s)) → preserves (E := E) I (modify_state f).
Proof. intros Hf w Hw. by apply Hf. Qed.
Lemma preserves_now : preserves (E := E) I now_unix.
Proof. intros w Hw. exact Hw. Qed.
Lemma preserves_system_now : preserves (E := E) I system_now.
Proof. intros w Hw. exact Hw. Qed.
Lemma preserves_uuid : preserves (E := E) I uuid_v4.
Proof. intros w Hw. exact Hw. Qed.

Lemma preserves_bind {A B} (m : M E S A) (k : A → M E S B) :
  preserves I m → (∀ a, preserves I (k a)) → preserves I (bind m k).
Proof.
  intros Hm Hk w Hw. specialize (Hm w Hw). unfold bind.
  destruct (m w) as [[a|e] w1]; simpl in *; [by apply Hk|done].
Qed.

(** The continuation of a state read may use that the invariant holds of what it read. *)
Lemma preserves_bind_get {B} (k : S → M E S B) :
  (∀ s, I s → ∀ w, st w = s → I (st (k s w).2)) → preserves I (bind get_state k).
Proof. intros Hk w Hw. unfold bind, get_state. simpl. by apply Hk. Qed.

(** The continuation of a pure result may use what the result is. *)
Lemma preserves_bind_lift {A B} (r : result E A) (k : A → M E S B) :
  (∀ a, r = Ok a → preserves I (k a)) → preserves I (bind (lift r) k).
Proof. intros Hk w Hw. unfold bind, lift. destruct r; [by apply Hk|done]. Qed.

Lemma preserves_bind_uuid {B} (k : string → M E S B) :
  (∀ i, preserves I (k (uuid_src i))) → preserves I (bind uuid_v4 k).
Proof. intros Hk w Hw. by apply Hk. Qed.

Lemma preserves_attempt {E' A} (m : M E S A) : preserves I m → preserves I (attempt (E' := E') m).
Proof.
  intros Hm w Hw. specialize (Hm w Hw). unfold attempt. by destruct (m w).
Qed.

Lemma preserves_map_err {E' A} (f : E → E') (m : M E S A) :
  preserves I m → preserves I (map_err f m).
Proof.
  intros Hm w Hw. specialize (Hm w Hw). unfold map_err. by destruct (m w) as [[]].
Qed.

Lemma preserves_if {A} (b : bool) (m1 m2 : M E S A) :
  preserves I m1 → preserves I m2 → preserves I (if b then m1 else m2).
Proof. by destruct b. Qed.

Lemma preserves_map_m {A B} (f : A → M E S B) l :
  (∀ a, preserves I (f a)) → preserves I (map_m f l).
Proof.
  intros Hf. induction l as [|a l IH]; simpl; [apply preserves_ret|].
  apply preserves_bind; [done|]. intros b. apply preserves_bind; [done|].
  intros bs. apply preserves_ret.
Qed.
End Preserves.

#[export] Hint Resolve preserves_ret preserves_throw preserves_lift preserves_ok_or preserves_get
  preserves_now preserves_system_now preserves_uuid preserves_attempt preserves_map_err
  preserves_if preserves_map_m : handler.

Section Readonly.
Context {E S : Type}.

Lemma readonly_preserves {A} (m : M E S A) :
  readonly m ↔ ∀ s, preserves (eq s) m.
Proof.
  split.
  - intros Hm s w ->. by rewrite Hm.
  - intros Hm w. by rewrite <- (Hm (st w) w).
Qed.

Lemma readonly_bind {A B} (m : M E S A) (k : A → M E S B) :
  readonly m → (∀ a, readonly (k a)) → readonly (bind m k).
Proof.
  intros Hm Hk w. unfold bind. specialize (Hm w). destruct (m w) as [[a|e] w1]; simpl in *.
  - by rewrite Hk.
  - done.
Qed.

Lemma readonly_bind_get {B} (k : S → M E S B) : (∀ s, readonly (k s)) → readonly (bind get_state k).
Proof. intros Hk w. apply (Hk (st w) w). Qed.

Lemma readonly_eq {A} (m : M E S A) w r w' : readonly m → m w = (r, w') → st w' = st w.
Proof. intros Hm Heq. specialize (Hm w). by rewrite Heq in Hm. Qed.
End Readonly.

(** A handler made of reads, clock readings and failures is read-only. *)
Lemma readonly_of_preserves {E S A} (m : M E S A) : (∀ I, preserves I m) → readonly m.
Proof. intros Hm. apply readonly_preserves. auto. Qed.

(** Structural proof of [preserves]: the leaves that change the state are left open. *)
Ltac preserve_step :=
  match goal with
  | |- preserves _ (bind uuid_v4 _) => apply preserves_bind_uuid; intros ?
  | |- preserves _ (bind _ _) => apply preserves_bind; [|intros ?]
  | |- preserves _ (map_ok _ _) => unfold map_ok
  | |- preserves _ (if _ then _ else _) => apply preserves_if
  | |- preserves _ (match ?x with _ => _ end) => destruct x eqn:?
  | |- preserves _ _ => solve [eauto with handler]
  end.
Ltac preserve := repeat preserve_step.

(** [evolves R m]: every run of [m] moves the world along [R]. *)
Definition evolves {E S A} (R : World S → World S → Prop) (m : M E S A) : Prop :=
  ∀ w, R w (m w).2.

(** A preorder on worlds that allows clock readings and UUID draws. *)
Class WorldOrder {S} (R : World S → World S → Prop) := {
  wo_refl : ∀ w, R w w;
  wo_trans : ∀ w1 w2 w3, R w1 w2 → R w2 w3 → R w1 w3;
  wo_tick : ∀ s t d, R (mkWorld s t d) (mkWorld s (Datatypes.S t) d);
  wo_draw : ∀ s t d, R (mkWorld s t d) (mkWorld s t (Datatypes.S d))
}.

Section Evolves.
Context `{Env} {E S : Type} (R : World S → World S → Prop) `{!WorldOrder R}.

Lemma evolves_ret {A} (a : A) : evolves (E := E) R (ret a).
Proof. intros w. apply wo_refl. Qed.
Lemma evolves_throw {A} (e : E) : evolves (A := A) R (throw e).
Proof. intros w. apply wo_refl. Qed.
Lemma evolves_lift {A} (r : result E A) : evolves R (lift r).
Proof. intros w. apply wo_refl. Qed.
Lemma evolves_ok_or {A} (o : option A) (e : E) : evolves R (ok_or o e).
Proof. intros w. destruct o; apply wo_refl. Qed.
Lemma evolves_get : evolves (E := E) R get_state.
Proof. intros w. apply wo_refl. Qed.
Lemma evolves_now : evolves (E := E) R now_unix.
Proof. intros [s t d]. apply wo_tick. Qed.
Lemma evolves_system_now : evolves (E := E) R system_now.
Proof. intros [s t d]. apply wo_tick. Qed.
Lemma evolves_uuid : evolves (E := E) R uuid_v4.
Proof. intros [s t d]. apply wo_draw. Qed.

Lemma evolves_bind {A B} (m : M E S A) (k : A → M E S B) :
  evolves R m → (∀ a, evolves R (k a)) → evolves R (bind m k).
Proof.
  intros Hm Hk w. specialize (Hm w). unfold bind.
  destruct (m w) as [[a|e] w1]; simpl in *; [eapply wo_trans; [done|apply Hk]|done].
Qed.

(** The continuation of a state read runs in the state it read. *)
Lemma evolves_bind_get {B} (k : S → M E S B) :
  (∀ w, R w (k (st w) w).2) → evolves R (bind get_state k).
Proof. intros Hk w. apply Hk. Qed.

Lemma evolves_attempt {E' A} (m : M E S A) : evolves R m → evolves R (attempt (E' := E') m).
Proof. intros Hm w. specialize (Hm w). unfold attempt. by destruct (m w). Qed.

Lemma evolves_map_err {E' A} (f : E → E') (m : M E S A) : evolves R m → evolves R (map_err f m).
Proof. intros Hm w. specialize (Hm w). unfold map_err. by destruct (m w) as [[]]. Qed.

Lemma evolves_map_m {A B} (f : A → M E S B) l :
  (∀ a, evolves R (f a)) → evolves R (map_m f l).
Proof.
  intros Hf. induction l as [|a l IH]; simpl; [apply evolves_ret|].
  apply evolves_bind; [done|]. intros b. apply evolves_bind; [done|].
  intros bs. apply evolves_ret.
Qed.
End Evolves.

(** [keeps I]: the relation of worlds between which [I] survives. *)
Definition keeps {S} (I : S → Prop) (w w' : World S) : Prop := I (st w) → I (st w').

#[export] Instance keeps_order {S} (I : S → Prop) : WorldOrder (keeps I).
Proof. split; unfold keeps; auto. Qed.

Lemma evolves_keeps {E S A} (I : S → Prop) (m : M E S A) : evolves (keeps I) m ↔ preserves I m.
Proof. done. Qed.

Section Order.
Context {E S : Type} (R : World S → World S → Prop) `{!WorldOrder R}.

(** A run that only reads the clock and draws UUIDs moves along every order. *)
Lemma world_order_same w w' :
  st w' = st w → ticks w ≤ ticks w' → draws w ≤ draws w' → R w w'.
Proof.
  destruct w as [s t d], w' as [s' t' d']. simpl. intros -> Ht Hd.
  apply (wo_trans _ (mkWorld s t' d)).
  - induction Ht as [|t' _ IH]; [apply wo_refl|]. eapply wo_trans; [done|apply wo_tick].
  - induction Hd as [|d' _ IH]; [apply wo_refl|]. eapply wo_trans; [done|apply wo_draw].
Qed.

Lemma evolves_map_ok {A B} (f : A → B) (m : M E S A) : evolves R (map_ok f m) ↔ evolves R m.
Proof.
  assert (∀ w, (map_ok f m w).2 = (m w).2) as Heq.
  { intros w. unfold map_ok, bind, ret. by destruct (m w) as [[]]. }
  unfold evolves. setoid_rewrite Heq. done.
Qed.
End Order.

#[export] Hint Resolve evolves_ret evolves_throw evolves_lift evolves_ok_or evolves_get evolves_now
  evolves_system_now evolves_uuid evolves_attempt evolves_map_err evolves_map_m : handler.

(** Structural proof of [evolves]: the leaves that change the state are left open. *)
Ltac evolve_step :=
  match goal with
  | |- evolves _ (bind _ _) => apply evolves_bind; [try typeclasses eauto| |intros ?]
  | |- evolves _ (map_ok _ _) => unfold map_ok
  | |- evolves _ (if ?b then _ else _) => destruct b eqn:?
  | |- evolves _ (match ?x with _ => _ end) => destruct x eqn:?
  | |- evolves _ _ => solve [eauto with handler typeclass_instances]
  end.
Ltac evolve := repeat evolve_step.

(** * Lemmas on lists and hash maps *)

Section SortLemmas.
Context {A : Type} (leb : A → A → bool).

Lemma sort_insert_perm x l : sort_insert leb x l ≡ₚ x :: l.
Proof.
  induction l as [|y l IH]; simpl; [done|]. destruct (leb x y); [done|].
  rewrite IH. by rewrite Permutation_swap.
Qed.

Lemma sort_by_perm l : sort_by leb l ≡ₚ l.
Proof. induction l as [|x l IH]; simpl; [done|]. by rewrite sort_insert_perm, IH. Qed.

Lemma elem_of_sort_by x l : x ∈ sort_by leb l ↔ x ∈ l.
Proof. by rewrite sort_by_perm. Qed.

Lemma length_sort_by l : length (sort_by leb l) = length l.
Proof. apply Permutation_length, sort_by_perm. Qed.

Hypothesis leb_total : ∀ x y, leb x y = true ∨ leb y x = true.

Lemma sort_insert_hd x y l :
  HdRel (λ a b, leb a b = true) y l → leb y x = true →
  HdRel (λ a b, leb a b = true) y (sort_insert leb x l).
Proof.
  intros Hl Hyx. destruct l as [|z l]; simpl; [by constructor|].
  destruct (leb x z); constructor; [done|]. by inversion Hl.
Qed.

Lemma sort_by_sorted l : Sorted (λ a b, leb a b = true) (sort_by leb l).
Proof.
  induction l as [|x l IH]; simpl; [constructor|].
  induction IH as [|y l' Hs IH' Hhd]; simpl; [by repeat constructor|].
  destruct (leb x y) eqn:Hxy; [by repeat constructor|].
  constructor; [done|]. apply sort_insert_hd; [done|].
  destruct (leb_total x y); congruence.
Qed.
End SortLemmas.

Section HashMapLemmas.
Context `{Env} `{Countable K} {V : Type}.
Implicit Types m : gmap K V.

Lemma elem_of_hash_iter m k v : (k, v) ∈ hash_iter m ↔ m !! k = Some v.
Proof. by rewrite hash_iter_perm, elem_of_map_to_list. Qed.

Lemma elem_of_hash_values m v : v ∈ hash_values m ↔ ∃ k, m !! k = Some v.
Proof.
  unfold hash_values. rewrite list_elem_of_fmap. split.
  - intros ([k v'] & -> & Hk). exists k. by apply elem_of_hash_iter.
  - intros [k Hk]. exists (k, v). split; [done|]. by apply elem_of_hash_iter.
Qed.

Lemma hash_iter_NoDup m : NoDup (hash_iter m).
Proof. rewrite hash_iter_perm. apply NoDup_map_to_list. Qed.

Lemma find_value_Some p m v : find_value p m = Some v → ∃ k, m !! k = Some v ∧ p v = true.
Proof.
  intros [Hin Hp]%find_some. rewrite <- list_elem_of_In in Hin.
  apply elem_of_hash_values in Hin as [k Hk]. eauto.
Qed.

Lemma find_value_None p m : find_value p m = None ↔ ∀ k v, m !! k = Some v → p v = false.
Proof.
  split.
  - intros Hf k v Hk. eapply find_none; [exact Hf|].
    apply list_elem_of_In, elem_of_hash_values. eauto.
  - intros Hall. destruct (find_value p m) as [v|] eqn:Hf; [|done].
    apply find_value_Some in Hf as (k & Hk & Hp). by rewrite (Hall k v Hk) in Hp.
Qed.

Lemma find_value_is_Some p m k v :
  m !! k = Some v → p v = true → is_Some (find_value p m).
Proof.
  intros Hk Hp. destruct (find_value p m) eqn:Hf; [eauto|].
  rewrite find_value_None in Hf. by rewrite (Hf k v Hk) in Hp.
Qed.

(** A search whose predicate holds of one value only does not depend on the order. *)
Lemma find_value_unique p m k v :
  m !! k = Some v → p v = true → (∀ k' v', m !! k' = Some v' → p v' = true → v' = v) →
  find_value p m = Some v.
Proof.
  intros Hk Hp Hu. destruct (find_value_is_Some p m k v Hk Hp) as [v' Hf].
  rewrite Hf. apply find_value_Some in Hf as (k' & Hk' & Hp'). f_equal. eauto.
Qed.

Lemma find_entry_Some p m k v :
  find_entry p m = Some (k, v) → m !! k = Some v ∧ p (k, v) = true.
Proof.
  intros [Hin Hp]%find_some. rewrite <- list_elem_of_In in Hin.
  by rewrite elem_of_hash_iter in Hin.
Qed.

Lemma find_entry_None p m :
  find_entry p m = None ↔ ∀ k v, m !! k = Some v → p (k, v) = false.
Proof.
  split.
  - intros Hf k v Hk. eapply find_none; [exact Hf|].
    by apply list_elem_of_In, elem_of_hash_iter.
  - intros Hall. destruct (find_entry p m) as [[k v]|] eqn:Hf; [|done].
    apply find_entry_Some in Hf as (Hk & Hp). by rewrite (Hall k v Hk) in Hp.
Qed.
End HashMapLemmas.

(** * Lemmas on strings and integers *)

Lemma string_eqb_spec (a b : string) : reflect (a = b) (String.eqb a b).
Proof. apply String.eqb_spec. Qed.

Lemma str_leb_total a b : str_leb a b = true ∨ str_leb b a = true.
Proof. apply String.leb_total. Qed.

Lemma lex_leb_total a b : lex_leb a b = true ∨ lex_leb b a = true.
Proof.
  revert b. induction a as [|x a IH]; intros [|y b]; simpl; try by auto.
  rewrite (String.compare_antisym y x). destruct (String.compare x y); simpl; auto.
Qed.

Lemma wrap_i64_small z : (- 2 ^ 63 <= z <= i64_max)%Z → wrap_i64 z = z.
Proof. unfold wrap_i64, i64_max. intros Hz. rewrite Z.mod_small; lia. Qed.

Lemma wrap_i64_range z : (- 2 ^ 63 <= wrap_i64 z <= i64_max)%Z.
Proof. unfold wrap_i64, i64_max. pose proof (Z.mod_pos_bound (z + 2 ^ 63) (2 ^ 64)). lia. Qed.

Lemma unix_of_range t : (0 <= unix_of t <= i64_max)%Z.
Proof. unfold unix_of, i64_saturate, i64_max. destruct (Z.ltb_spec t 0); lia. Qed.

Lemma is_empty_true s : is_empty s = true ↔ s = "".
Proof. by destruct s. Qed.
Lemma is_empty_false s : is_empty s = false ↔ s ≠ "".
Proof. by destruct s. Qed.

Lemma strip_prefix_app p s : strip_prefix p (p +:+ s) = Some s.
Proof. induction p as [|c p IH]; simpl; [done|]. by rewrite Ascii.eqb_refl. Qed.

Lemma strip_prefix_Some p s r : strip_prefix p s = Some r ↔ s = p +:+ r.
Proof.
  split; [|intros ->; apply strip_prefix_app].
  revert s. induction p as [|c p IH]; intros [|d s]; simpl; try naive_solver.
  destruct (Ascii.eqb_spec c d) as [<-|]; [|done]. intros ->%IH. done.
Qed.

Lemma starts_with_strip p s : starts_with p s = true ↔ is_Some (strip_prefix p s).
Proof.
  unfold starts_with. revert s. induction p as [|c p IH]; intros s.
  - split; [eauto|]. by destruct s.
  - destruct s as [|d s]; simpl; [split; [done|by intros []]|].
    destruct (ascii_dec c d) as [<-|Hne].
    + rewrite Ascii.eqb_refl. apply IH.
    + destruct (Ascii.eqb_spec c d); [done|]. split; [done|by intros []].
Qed.

Lemma starts_with_app p s : starts_with p (p +:+ s) = true.
Proof. apply starts_with_strip. rewrite strip_prefix_app. eauto. Qed.

(** ** Reversal and trimming *)

Lemma string_app_cons c (a b : string) : String c a +:+ b = String c (a +:+ b).
Proof. done. Qed.
Lemma string_app_nil_l (b : string) : "" +:+ b = b.
Proof. done. Qed.
Lemma string_app_assoc (a b c : string) : (a +:+ b) +:+ c = a +:+ (b +:+ c).
Proof. induction a as [|x a IH]; [done|]. by rewrite !string_app_cons, IH. Qed.
Lemma string_app_nil_r (a : string) : a +:+ "" = a.
Proof. induction a as [|x a IH]; [done|]. by rewrite string_app_cons, IH. Qed.
Lemma string_app_inj_l (a b c : string) : a +:+ b = a +:+ c → b = c.
Proof. induction a as [|x a IH]; [done|]. rewrite !string_app_cons. intros [= ?]. auto. Qed.

Lemma rev_app_spec s t : String.rev_app s t = String.rev s +:+ t.
Proof.
  unfold String.rev. revert t. induction s as [|c s IH]; intros t; [done|].
  cbn [String.rev_app].
  rewrite (IH (String c t)), (IH (String c "")), string_app_assoc. done.
Qed.

Lemma rev_cons c s : String.rev (String c s) = String.rev s +:+ String c "".
Proof. unfold String.rev at 1. cbn [String.rev_app]. apply rev_app_spec. Qed.

Lemma rev_app a b : String.rev (a +:+ b) = String.rev b +:+ String.rev a.
Proof.
  induction a as [|c a IH]; [by rewrite string_app_nil_r|].
  by rewrite string_app_cons, !rev_cons, IH, string_app_assoc.
Qed.

Lemma rev_involutive s : String.rev (String.rev s) = s.
Proof. induction s as [|c s IH]; [done|]. by rewrite rev_cons, rev_app, IH. Qed.

Lemma all_bytes_app p a b : all_bytes p (a +:+ b) = all_bytes p a && all_bytes p b.
Proof.
  induction a as [|c a IH]; [done|]. rewrite string_app_cons. simpl. by rewrite IH, andb_assoc.
Qed.

Lemma all_bytes_rev p s : all_bytes p (String.rev s) = all_bytes p s.
Proof.
  induction s as [|c s IH]; [done|]. rewrite rev_cons, all_bytes_app, IH. simpl.
  by rewrite andb_true_r, andb_comm.
Qed.

Lemma all_bytes_impl (p q : ascii → bool) s :
  (∀ c, p c = true → q c = true) → all_bytes p s = true → all_bytes q s = true.
Proof.
  intros Hpq. induction s as [|c s IH]; simpl; [done|].
  intros [Hc Hs]%andb_true_iff. by rewrite (Hpq c Hc), IH.
Qed.

Definition no_byte (c : ascii) (s : string) : bool := all_bytes (λ d, negb (Ascii.eqb d c)) s.

Lemma split_cons c d s : Ascii.eqb d c = false →
  split c (String d s) = match split c s with
                         | [] => [String d EmptyString]
                         | part :: parts => String d part :: parts
                         end.
Proof. intros Hd. simpl. by rewrite Hd. Qed.

Lemma split_no_byte c s : no_byte c s = true → split c s = [s].
Proof.
  unfold no_byte. induction s as [|d s IH]; [done|]. simpl.
  intros [Hd%negb_true_iff Hs]%andb_true_iff. by rewrite Hd, IH.
Qed.

Lemma split_app c a s : no_byte c a = true → split c (a +:+ String c s) = a :: split c s.
Proof.
  unfold no_byte. induction a as [|d a IH]; simpl.
  - intros _. by rewrite Ascii.eqb_refl.
  - intros [Hd%negb_true_iff Ha]%andb_true_iff. by rewrite Hd, IH.
Qed.

Lemma split_once_app c a b : no_byte c a = true → split_once c (a +:+ String c b) = Some (a, b).
Proof.
  unfold no_byte. induction a as [|d a IH]; simpl.
  - intros _. by rewrite Ascii.eqb_refl.
  - intros [Hd%negb_true_iff Ha]%andb_true_iff. by rewrite Hd, IH.
Qed.

Lemma concat_split c s : String.concat (String c "") (split c s) = s.
Proof.
  induction s as [|d s IH]; [done|]. simpl. destruct (Ascii.eqb_spec d c) as [->|].
  - destruct (split c s) as [|part parts] eqn:Hs; [by destruct s; simpl in Hs; repeat case_match|].
    simpl in *. by rewrite IH.
  - destruct (split c s) as [|part parts] eqn:Hs; [by rewrite <- IH|].
    simpl in *. destruct parts; simpl in *; by rewrite <- IH.
Qed.

(** An ASCII byte that is not white space: it is never trimmed. *)
Definition solid (c : ascii) : bool := (nat_of_ascii c <? 128) && negb (is_ws1 c).

Lemma solid_start c s : solid c = true → trim_start (String c s) = String c s.
Proof.
  unfold solid, is_ws2, is_ws3. intros [Hc%Nat.ltb_lt Hw%negb_true_iff]%andb_true_iff. simpl.
  rewrite Hw. destruct s as [|d s]; [done|]. unfold is_ws2.
  destruct (Nat.eqb_spec (nat_of_ascii c) 194); [lia|]. simpl.
  destruct s as [|e s]; [done|]. unfold is_ws3.
  repeat match goal with |- context [nat_of_ascii c =? ?n] =>
    destruct (Nat.eqb_spec (nat_of_ascii c) n); [lia|] end.
  done.
Qed.

Lemma solid_start_rev c s : solid c = true → trim_start_rev (String c s) = String c s.
Proof.
  unfold solid. intros [Hc%Nat.ltb_lt Hw%negb_true_iff]%andb_true_iff. simpl.
  rewrite Hw. destruct s as [|d s]; [done|]. unfold is_ws2.
  repeat match goal with |- context [nat_of_ascii c =? ?n] =>
    destruct (Nat.eqb_spec (nat_of_ascii c) n); [lia|] end.
  simpl. rewrite andb_false_r. destruct s as [|e s]; [done|]. unfold is_ws3.
  repeat match goal with |- context [nat_of_ascii c =? ?n] =>
    destruct (Nat.eqb_spec (nat_of_ascii c) n); [lia|] end.
  destruct (Nat.leb_spec 128 (nat_of_ascii c)); [lia|].
  simpl. by rewrite !andb_false_r.
Qed.

Lemma trim_solid c d s : solid c = true → solid d = true →
  trim (String c (s +:+ String d "")) = String c (s +:+ String d "").
Proof.
  intros Hc Hd. unfold trim. rewrite solid_start by done. unfold trim_end.
  change (String c (s +:+ String d "")) with (String c s +:+ String d "").
  rewrite rev_app. change (String.rev (String d "")) with (String d "").
  rewrite string_app_cons, solid_start_rev, rev_cons by done.
  by rewrite string_app_nil_l, rev_involutive.
Qed.

(** A string of bytes that are all solid is its own trimming. *)
Lemma trim_all_solid s : all_bytes solid s = true → trim s = s.
Proof.
  destruct s as [|c s]; [done|]. simpl. intros [Hc Hs]%andb_true_iff.
  destruct (String.rev s) as [|d r] eqn:Hr.
  - assert (s = "") as -> by (rewrite <- (rev_involutive s), Hr; done).
    unfold trim. rewrite solid_start by done. unfold trim_end.
    change (String.rev (String c "")) with (String c "").
    by rewrite solid_start_rev.
  - assert (s = String.rev r +:+ String d "") as ->.
    { by rewrite <- (rev_involutive s), Hr, rev_cons. }
    apply trim_solid; [done|]. rewrite all_bytes_app in Hs.
    apply andb_true_iff in Hs as [_ Hs]. simpl in Hs. by rewrite andb_true_r in Hs.
Qed.
