(* ===== verification/Model.v ===== *)
(** The domain: [CoreError] of [lore-auth-core/src/lib.rs] and the data and pure
    rules of [lore-auth-core/src/model.rs].  A record's fields carry a short
    prefix, since Rust's field names repeat across structs. *)

From Stdlib Require Import ZArith Lia Ascii.
From stdpp Require Import base gmap strings list.
From S2P Require Import Prelude.

(** * Errors (lib.rs) *)

Inductive CoreError :=
  | NotFound
  | AuthSessionNotFound
  | InvalidArgument (message : string)
  | PermissionDenied
  | Unauthenticated
  | Unsupported
  | SigningKeyUnavailable
  | TokenIssueFailed
  | DeviceInvalidCode
  | DeviceExpiredCode
  | DeviceAuthorizationNotPending
  | DeviceIncompleteAuthorization
  | AdminAuditFailed (message : string).

#[export] Instance CoreError_eq_dec : EqDecision CoreError.
Proof. solve_decision. Defined.

(** [impl Display for CoreError], derived from the [#\[error(..)\]] attributes. *)
Definition core_error_to_string (e : CoreError) : string :=
  match e with
  | NotFound => "not found"
  | AuthSessionNotFound => "auth session not found"
  | InvalidArgument m => "invalid argument: " +:+ m
  | PermissionDenied => "permission denied"
  | Unauthenticated => "unauthenticated"
  | Unsupported => "unsupported"
  | SigningKeyUnavailable => "signing key unavailable"
  | TokenIssueFailed => "token issue failed"
  | DeviceInvalidCode => "device invalid code"
  | DeviceExpiredCode => "device expired code"
  | DeviceAuthorizationNotPending => "device authorization is not pending"
  | DeviceIncompleteAuthorization => "device incomplete authorization"
  | AdminAuditFailed m => "operation rolled back because audit logging failed: " +:+ m
  end.

(** Handlers of the core: they fail with a [CoreError]. *)
Abbreviation H := (M CoreError).

(** * Permissions and roles (model.rs) *)

Definition WILDCARD_RESOURCE_ID : string := "urc-*".

Inductive Permission := PermRead | PermWrite | PermAdmin.

#[export] Instance Permission_eq_dec : EqDecision Permission.
Proof. solve_decision. Defined.
#[export] Instance Permission_countable : Countable Permission.
Proof.
  refine (inj_countable' (λ p, match p with PermRead => 0 | PermWrite => 1 | PermAdmin => 2 end)
    (λ n, match n with 0 => PermRead | 1 => PermWrite | _ => PermAdmin end) _).
  by intros [].
Defined.

Definition permission_as_str (p : Permission) : string :=
  match p with PermRead => "read" | PermWrite => "write" | PermAdmin => "admin" end.

Definition permission_from_name (value : string) : option Permission :=
  if String.eqb value "read" then Some PermRead
  else if String.eqb value "write" then Some PermWrite
  else if String.eqb value "admin" then Some PermAdmin
  else None.

Inductive Role := Reader | Writer | Admin.

#[export] Instance Role_eq_dec : EqDecision Role.
Proof. solve_decision. Defined.

Definition role_as_str (r : Role) : string :=
  match r with Reader => "reader" | Writer => "writer" | Admin => "admin" end.

Definition role_from_name (value : string) : option Role :=
  if String.eqb value "reader" then Some Reader
  else if String.eqb value "writer" then Some Writer
  else if String.eqb value "admin" then Some Admin
  else None.

(** [Role::permissions], an [Option] that is always [Some]. *)
Definition permissions (r : Role) : option (list Permission) :=
  Some match r with
       | Reader => [PermRead]
       | Writer => [PermRead; PermWrite]
       | Admin => [PermRead; PermWrite; PermAdmin]
       end.

Definition token_permissions (r : Role) : option (list Permission) :=
  match r with
  | Admin => Some [PermRead; PermWrite]
  | _ => permissions r
  end.

(** [Role::allows] *)
Definition allows (r : Role) (action : Permission) : bool :=
  match permissions r with
  | Some ps => bool_decide (action ∈ ps)
  | None => false
  end.

Definition role_permissions (role : string) : option (list Permission) :=
  role_from_name role ≫= permissions.

Definition is_known_role (role : string) : bool := bool_decide (is_Some (role_from_name role)).

Definition role_allows (role action : string) : bool :=
  match role_from_name role with
  | None => false
  | Some r =>
      match permission_from_name action with
      | None => false
      | Some a => allows r a
      end
  end.

Definition token_permissions_for_role (role : string) : option (list Permission) :=
  role_from_name role ≫= token_permissions.

(** * Identifiers and e-mail addresses (model.rs) *)

(** [ResourceID::for_repository_id] *)
Definition for_repository_id (repository_id : string) : option string :=
  if is_empty repository_id then None
  else if starts_with "urc-" repository_id then Some repository_id
  else Some ("urc-" +:+ repository_id).

(** [ResourceID::repository_id_from_resource_id] *)
Definition repository_id_from_resource_id (resource_id : string) : string :=
  default resource_id (strip_prefix "urc-" resource_id).

Definition normalize_email (email : string) : string := to_ascii_lowercase (trim email).

Definition normalize_valid_account_email (email : string) : option string :=
  let normalized := normalize_email email in
  if is_empty normalized || negb (contains_byte "@"%char normalized) || has_whitespace normalized
  then None else Some normalized.

Definition is_ascii_alphanumeric (c : ascii) : bool :=
  let n := nat_of_ascii c in
  ((48 <=? n) && (n <=? 57)) || ((65 <=? n) && (n <=? 90)) || ((97 <=? n) && (n <=? 122)).

Definition repository_id_byte (c : ascii) : bool :=
  is_ascii_alphanumeric c || Ascii.eqb c "-"%char || Ascii.eqb c "_"%char.

Definition normalize_valid_lore_repository_id (value : string) : option string :=
  let value := trim value in
  if is_empty value || (128 <? String.length value) || negb (all_bytes repository_id_byte value)
  then None else Some value.

(** * Records (model.rs) *)

Record Group := mkGroup {
  g_id : string;
  g_name : string;
  g_description : string
}.

Record Grant := mkGrant {
  gr_id : string;
  gr_subject_type : string;
  gr_subject_id : string;
  gr_repository_id : string;
  gr_role : string
}.

Record GrantEvidence := mkGrantEvidence {
  ge_subject_type : string;
  ge_subject_id : string;
  ge_subject_name : string;
  ge_role : string;
  ge_path : string
}.

Record AdminAuditEntry := mkAdminAuditEntry {
  aa_id : string;
  aa_actor : string;
  aa_action : string;
  aa_object_type : string;
  aa_object_id : string;
  aa_detail : string;
  aa_created_at : Z
}.

Record SigningKeyMeta := mkSigningKeyMeta {
  sk_kid : string;
  sk_alg : string;
  sk_public_jwk_json : string;
  sk_private_key_path : string;
  sk_status : string
}.

Record ExternalIdentity := mkExternalIdentity {
  ei_id : string;
  ei_user_id : string;
  ei_provider_id : string;
  ei_issuer : string;
  ei_subject : string;
  ei_subject_strategy : string;
  ei_email : string;
  ei_email_verified : bool;
  ei_display_name : string;
  ei_picture_url : string;
  ei_hosted_domain : string;
  ei_status : string
}.

Record User := mkUser {
  u_id : string;
  u_email : string;
  u_display_name : string;
  u_status : string;
  u_last_login_at : Z
}.

Definition default_User : User := mkUser "" "" "" "" 0.

Record UserListFilter := mkUserListFilter {
  ulf_query : string;
  ulf_limit : Z
}.

(** [User::bridge_subject], [User::display] and [User::preferred_username]. *)
Definition bridge_subject (u : User) : string := "user:" +:+ u_id u.

Definition display (u : User) : string :=
  if is_empty (u_display_name u) then bridge_subject u else u_display_name u.

Definition preferred_username (u : User) : string :=
  if is_empty (u_email u) then bridge_subject u else u_email u.

Record TokenPrincipal := mkTokenPrincipal {
  tp_user_id : string;
  tp_token_subject : string;
  tp_token_idp : string;
  tp_display_name : string;
  tp_preferred_username : string;
  tp_groups : list string
}.

Record LoginBindingResult := mkLoginBindingResult {
  lb_status : string;
  lb_external_identity_id : string;
  lb_invitation_id : string
}.

Definition LOGIN_EMAIL_BINDING_DISABLED : string := "disabled".
Definition LOGIN_EMAIL_BINDING_VERIFIED_EMAIL_INVITATION : string := "verified_email_invitation".

Record LoginTrustPolicy := mkLoginTrustPolicy {
  ltp_email_binding : string;
  ltp_allowed_email_domains : list string
}.

Record LoginResolutionRequest := mkLoginResolutionRequest {
  lrr_identity : ExternalIdentity;
  lrr_policy : LoginTrustPolicy
}.

Record AddUserInput := mkAddUserInput {
  aui_email : string;
  aui_display_name : string
}.

Record IdentityInvitation := mkIdentityInvitation {
  ii_id : string;
  ii_user_id : string;
  ii_provider_id : string;
  ii_issuer : string;
  ii_email : string;
  ii_binding_policy : string;
  ii_status : string;
  ii_accepted_identity_id : string;
  ii_expires_at : Z;
  ii_accepted_at : Z
}.

Record AddInvitationInput := mkAddInvitationInput {
  aii_provider_id : string;
  aii_issuer : string;
  aii_email : string;
  aii_display_name : string;
  aii_binding_policy : string;
  aii_expires_at : Z
}.

Record Resource := mkResource {
  r_id : string;
  r_name : string;
  r_remote_url : string;
  r_lore_repository_id : string;
  r_resource_id : string;
  r_status : string
}.

Definition default_Resource : Resource := mkResource "" "" "" "" "" "".

Record ResourcePermission := mkResourcePermission {
  rp_resource_id : string;
  rp_permission : list Permission
}.

Record ResourceFilter := mkResourceFilter { rf_prefix : string }.

Record CreateDeviceAuthorizationInput := mkCreateDeviceAuthorizationInput {
  cda_device_code : string;
  cda_user_code : string;
  cda_requested_remote_url : string;
  cda_requested_repository_id : string;
  cda_ttl : Duration
}.

Record DeviceAuthorization := mkDeviceAuthorization {
  da_id : string;
  da_requested_remote_url : string;
  da_requested_repository_id : string;
  da_approved_user_id : string;
  da_status : string;
  da_created_at : Z;
  da_expires_at : Z;
  da_approved_at : Z;
  da_consumed_at : Z
}.

Record AuthSession := mkAuthSession {
  as_id : string;
  as_client_state_hash : string;
  as_status : string;
  as_user_id : string;
  as_login_url_nonce : string;
  as_expires_at : Z
}.

Record LoginStateInput := mkLoginStateInput {
  lsi_provider_id : string;
  lsi_nonce : string;
  lsi_login_url_nonce : string;
  lsi_return_path : string;
  lsi_private_state : list Byte.byte
}.

Record LoginState := mkLoginState {
  ls_id : string;
  ls_provider_id : string;
  ls_nonce : string;
  ls_login_url_nonce : string;
  ls_return_path : string;
  ls_private_state : list Byte.byte;
  ls_expires_at : Z
}.

Record BrowserSession := mkBrowserSession {
  bs_id : string;
  bs_user_id : string;
  bs_expires_at : Z
}.

Definition default_BrowserSession : BrowserSession := mkBrowserSession "" "" 0.

(** [now : Option<SystemTime>] is an instant in seconds from the epoch. *)
Record AuthnTokenInput := mkAuthnTokenInput {
  ani_issuer : string;
  ani_audience : list string;
  ani_subject : string;
  ani_name : string;
  ani_preferred_username : string;
  ani_groups : list string;
  ani_idp : string;
  ani_ttl : Duration;
  ani_now : option Z;
  ani_jti : string
}.

Record AuthzTokenInput := mkAuthzTokenInput {
  azi_issuer : string;
  azi_audience : list string;
  azi_subject : string;
  azi_name : string;
  azi_preferred_username : string;
  azi_groups : list string;
  azi_idp : string;
  azi_resources : list ResourcePermission;
  azi_ttl : Duration;
  azi_now : option Z;
  azi_jti : string
}.

Record SignedToken := mkSignedToken {
  stk_token : string;
  stk_jti : string;
  stk_kid : string;
  stk_lore_resource_id : string;
  stk_issued_at : Z;
  stk_expires_at : Z;
  stk_permissions : list Permission;
  stk_audience : list string
}.

Definition default_SignedToken : SignedToken := mkSignedToken "" "" "" "" 0 0 [] [].

Record VerifiedToken := mkVerifiedToken {
  vt_subject : string;
  vt_jti : string;
  vt_idp : string;
  vt_expires_at : Z;
  vt_audience : list string;
  vt_raw_claims : list Byte.byte
}.

Record VerifyOptions := mkVerifyOptions {
  vo_issuer : string;
  vo_audience : string
}.

Record IssuedToken := mkIssuedToken {
  it_jti : string;
  it_kind : string;
  it_user_id : string;
  it_repository_id : string;
  it_lore_resource_id : string;
  it_role : string;
  it_kid : string;
  it_audience : list string;
  it_issued_at : Z;
  it_expires_at : Z
}.

Record VerifiedAuthn := mkVerifiedAuthn {
  va_subject : string;
  va_principal : TokenPrincipal;
  va_user : User
}.

#[export] Instance User_eq_dec : EqDecision User.
Proof. solve_decision. Defined.
#[export] Instance Resource_eq_dec : EqDecision Resource.
Proof. solve_decision. Defined.
#[export] Instance ResourcePermission_eq_dec : EqDecision ResourcePermission.
Proof. solve_decision. Defined.
#[export] Instance Group_eq_dec : EqDecision Group.
Proof. solve_decision. Defined.
