(* ===== verification/Ports.v ===== *)
(** The outbound port traits of [lore-auth-core/src/ports.rs].  A trait is a class
    of operations over the adapter state [S]; a value of the class is the trait
    object ([Arc<dyn ..>]) that a service holds, so an operation takes it
    explicitly.  A supertrait is a field. *)

From Stdlib Require Import ZArith.
From stdpp Require Import base gmap strings list.
From S2P Require Import Prelude Model.

Class AccountQuery (S : Type) := {
  user_by_id : string → H S User;
  list_users : UserListFilter → H S (list User)
}.

Class AccountDirectory (S : Type) := {
  account_query : AccountQuery S;
  resolve_login : LoginResolutionRequest → H S (TokenPrincipal * LoginBindingResult);
  principal_by_user_id : string → H S TokenPrincipal;
  principal_by_authn_token_jti : string → H S TokenPrincipal;
  add_user : AddUserInput → H S User;
  add_invitation : AddInvitationInput → H S (User * IdentityInvitation);
  disable_user : string → H S ();
  enable_user : string → H S ()
}.

Class AuthorizationPolicy (S : Type) := {
  can_access : string → string → string → H S bool;
  list_accessible : string → ResourceFilter → H S (list ResourcePermission)
}.

Record IdentityProviderDescriptor := mkIdentityProviderDescriptor {
  ipd_id : string;
  ipd_provider_type : string;
  ipd_display_name : string;
  ipd_issuer : string;
  ipd_trust_policy : LoginTrustPolicy
}.

Record BeginAuthRequest := mkBeginAuthRequest {
  bar_state : string;
  bar_nonce : string;
  bar_redirect_url : string;
  bar_login_hint : string
}.

Definition default_BeginAuthRequest : BeginAuthRequest := mkBeginAuthRequest "" "" "" "".

Record BeginAuthResult := mkBeginAuthResult {
  bares_redirect_url : string;
  bares_private_state : list Byte.byte
}.

Record CompleteAuthRequest := mkCompleteAuthRequest {
  car_code : string;
  car_state : string;
  car_nonce : string;
  car_redirect_url : string;
  car_params : gmap string (list string);
  car_private_state : list Byte.byte
}.

Definition default_CompleteAuthRequest : CompleteAuthRequest :=
  mkCompleteAuthRequest "" "" "" "" ∅ [].

Class IdentityProvider (S : Type) := {
  descriptor : IdentityProviderDescriptor;
  begin_auth : BeginAuthRequest → H S BeginAuthResult;
  complete_auth : CompleteAuthRequest → H S ExternalIdentity
}.

Class IdentityProviderRegistry (S : Type) := {
  idp_get : string → option (IdentityProvider S);
  idp_default_id : string;
  idp_list : list IdentityProviderDescriptor
}.

Class ResourceQuery (S : Type) := {
  get_by_id : string → H S Resource;
  get_by_resource_id : string → H S Resource;
  get_by_name : string → H S Resource;
  list_resources : H S (list Resource)
}.

Class ResourceStore (S : Type) := {
  resource_query : ResourceQuery S;
  upsert : Resource → H S ();
  delete_resource_row : string → H S ()
}.

Class DeviceAuthorizationStore (S : Type) := {
  create_device_authorization : CreateDeviceAuthorizationInput → H S DeviceAuthorization;
  device_by_user_code : string → H S DeviceAuthorization;
  device_by_device_code : string → H S DeviceAuthorization;
  approve_device_authorization : string → string → H S ();
  consume_device_authorization : string → H S ();
  expire_device_authorization : string → H S ()
}.

Class DeviceCodeGenerator (S : Type) := {
  gen_device_code : H S string;
  gen_user_code : H S string
}.

Class StateStore (S : Type) := {
  create_auth_session : string → Duration → H S (string * AuthSession);
  get_auth_session_by_code : string → H S AuthSession;
  get_auth_session_by_nonce : string → H S AuthSession;
  complete_auth_session : string → string → H S ();
  consume_auth_session : string → H S ();
  create_login_state : LoginStateInput → Duration → H S (string * LoginState);
  set_login_state_private_state : string → list Byte.byte → H S ();
  consume_login_state : string → H S LoginState;
  create_browser_session : string → Duration → H S BrowserSession;
  user_by_browser_session : string → H S User;
  revoke_browser_session : string → H S ();
  create_csrf_token : string → Duration → H S string;
  consume_csrf_token : string → string → H S ();
  match_client_state : AuthSession → string → bool
}.

Class TokenSigner (S : Type) := {
  sign_authn : AuthnTokenInput → H S SignedToken;
  sign_authz : AuthzTokenInput → H S SignedToken;
  verify : string → VerifyOptions → H S VerifiedToken;
  jwks : H S (list Byte.byte)
}.

Class IssuedTokenLog (S : Type) := { record_issued : IssuedToken → H S () }.

Class AdminAuditLog (S : Type) := { record_audit : AdminAuditEntry → H S () }.

Class GroupQuery (S : Type) := {
  list_groups : H S (list Group);
  list_group_members : string → H S (list User);
  list_group_groups : string → H S (list Group)
}.

Class GroupAdmin (S : Type) := {
  add_group : string → string → H S Group;
  add_group_member : string → string → H S ();
  remove_group_member : string → string → H S ();
  add_group_group : string → string → H S ();
  remove_group_group : string → string → H S ()
}.

Class GrantQuery (S : Type) := {
  list_grants : string → H S (list Grant);
  grants_for_user_on_repository : string → string → H S (list GrantEvidence)
}.

Class GrantAdmin (S : Type) := {
  add_grant : string → string → string → string → H S Grant;
  remove_grant : string → string → string → string → H S ()
}.

Class SigningKeyAdmin (S : Type) := {
  generate_active_key : string → string → N → H S SigningKeyMeta;
  list_keys : H S (list SigningKeyMeta)
}.

(** [AdminWritePorts] and its factory [AdminWritePortFactory]. *)
Record AdminWritePorts (S : Type) := mkAdminWritePorts {
  awp_accounts : AccountDirectory S;
  awp_resources : ResourceStore S;
  awp_groups : GroupAdmin S;
  awp_grants : GrantAdmin S
}.

Class AdminWritePortFactory (S : Type) := { for_actor : string → AdminWritePorts S }.

(** The trait object is the explicit first argument of each operation. *)
Arguments user_by_id {S} _ : rename.
Arguments list_users {S} _ : rename.
Arguments account_query {S} _ : rename.
Arguments resolve_login {S} _ : rename.
Arguments principal_by_user_id {S} _ : rename.
Arguments principal_by_authn_token_jti {S} _ : rename.
Arguments add_user {S} _ : rename.
Arguments add_invitation {S} _ : rename.
Arguments disable_user {S} _ : rename.
Arguments enable_user {S} _ : rename.
Arguments can_access {S} _ : rename.
Arguments list_accessible {S} _ : rename.
Arguments descriptor {S} _ : rename.
Arguments begin_auth {S} _ : rename.
Arguments complete_auth {S} _ : rename.
Arguments idp_get {S} _ : rename.
Arguments idp_default_id {S} _ : rename.
Arguments idp_list {S} _ : rename.
Arguments get_by_id {S} _ : rename.
Arguments get_by_resource_id {S} _ : rename.
Arguments get_by_name {S} _ : rename.
Arguments list_resources {S} _ : rename.
Arguments resource_query {S} _ : rename.
Arguments upsert {S} _ : rename.
Arguments delete_resource_row {S} _ : rename.
Arguments create_device_authorization {S} _ : rename.
Arguments device_by_user_code {S} _ : rename.
Arguments device_by_device_code {S} _ : rename.
Arguments approve_device_authorization {S} _ : rename.
Arguments consume_device_authorization {S} _ : rename.
Arguments expire_device_authorization {S} _ : rename.
Arguments gen_device_code {S} _ : rename.
Arguments gen_user_code {S} _ : rename.
Arguments create_auth_session {S} _ : rename.
Arguments get_auth_session_by_code {S} _ : rename.
Arguments get_auth_session_by_nonce {S} _ : rename.
Arguments complete_auth_session {S} _ : rename.
Arguments consume_auth_session {S} _ : rename.
Arguments create_login_state {S} _ : rename.
Arguments set_login_state_private_state {S} _ : rename.
Arguments consume_login_state {S} _ : rename.
Arguments create_browser_session {S} _ : rename.
Arguments user_by_browser_session {S} _ : rename.
Arguments revoke_browser_session {S} _ : rename.
Arguments create_csrf_token {S} _ : rename.
Arguments consume_csrf_token {S} _ : rename.
Arguments match_client_state {S} _ : rename.
Arguments sign_authn {S} _ : rename.
Arguments sign_authz {S} _ : rename.
Arguments verify {S} _ : rename.
Arguments jwks {S} _ : rename.
Arguments record_issued {S} _ : rename.
Arguments record_audit {S} _ : rename.
Arguments list_groups {S} _ : rename.
Arguments list_group_members {S} _ : rename.
Arguments list_group_groups {S} _ : rename.
Arguments add_group {S} _ : rename.
Arguments add_group_member {S} _ : rename.
Arguments remove_group_member {S} _ : rename.
Arguments add_group_group {S} _ : rename.
Arguments remove_group_group {S} _ : rename.
Arguments list_grants {S} _ : rename.
Arguments grants_for_user_on_repository {S} _ : rename.
Arguments add_grant {S} _ : rename.
Arguments remove_grant {S} _ : rename.
Arguments generate_active_key {S} _ : rename.
Arguments list_keys {S} _ : rename.
Arguments for_actor {S} _ : rename.
