(* ===== verification/MemState.v ===== *)
(** The shared state of the in-memory adapter and the helpers its operations use
    ([lore-auth-adapters/src/memory/mod.rs], and [ensure_jti] of that crate's
    [lib.rs]).  A [HashMap] is a [gmap] whose iteration order is [hash_iter]. *)

From Stdlib Require Import ZArith Lia Ascii.
From stdpp Require Import base gmap strings list.
From S2P Require Import Prelude Model.

Record CsrfToken := mkCsrfToken {
  ct_session_id : string;
  ct_expires_at : Z;
  ct_consumed : bool
}.

Record State := mkState {
  users : gmap string User;
  identities : gmap string ExternalIdentity;
  invitations : gmap string IdentityInvitation;
  resources : gmap string Resource;
  grants : gmap (string * string) (gmap string string);
  groups : gmap string Group;
  group_members : gmap string (list string);
  group_groups : gmap string (list string);
  auth_sessions : gmap string AuthSession;
  auth_session_codes : gmap string string;
  login_states : gmap string LoginState;
  browser_sessions : gmap string string;
  csrf_tokens : gmap string CsrfToken;
  tokens : gmap string VerifiedToken;
  issued_tokens : gmap string IssuedToken;
  admin_audit : list AdminAuditEntry;
  device_authorizations : gmap string DeviceAuthorization;
  device_code_index : gmap string string;
  user_code_index : gmap string string
}.

(** [State::default()], the state of [Store::new()]. *)
Definition default_State : State :=
  mkState ∅ ∅ ∅ ∅ ∅ ∅ ∅ ∅ ∅ ∅ ∅ ∅ ∅ ∅ ∅ [] ∅ ∅ ∅.

(** In-place updates of one field. *)
Definition upd_users (f : gmap string User → gmap string User) (s : State) : State :=
  mkState (f (users s)) (identities s) (invitations s) (resources s) (grants s) (groups s)
    (group_members s) (group_groups s) (auth_sessions s) (auth_session_codes s) (login_states s)
    (browser_sessions s) (csrf_tokens s) (tokens s) (issued_tokens s) (admin_audit s)
    (device_authorizations s) (device_code_index s) (user_code_index s).
Definition upd_identities (f : gmap string ExternalIdentity → gmap string ExternalIdentity) (s : State) : State :=
  mkState (users s) (f (identities s)) (invitations s) (resources s) (grants s) (groups s)
    (group_members s) (group_groups s) (auth_sessions s) (auth_session_codes s) (login_states s)
    (browser_sessions s) (csrf_tokens s) (tokens s) (issued_tokens s) (admin_audit s)
    (device_authorizations s) (device_code_index s) (user_code_index s).
Definition upd_invitations (f : gmap string IdentityInvitation → gmap string IdentityInvitation) (s : State) : State :=
  mkState (users s) (identities s) (f (invitations s)) (resources s) (grants s) (groups s)
    (group_members s) (group_groups s) (auth_sessions s) (auth_session_codes s) (login_states s)
    (browser_sessions s) (csrf_tokens s) (tokens s) (issued_tokens s) (admin_audit s)
    (device_authorizations s) (device_code_index s) (user_code_index s).
Definition upd_resources (f : gmap string Resource → gmap string Resource) (s : State) : State :=
  mkState (users s) (identities s) (invitations s) (f (resources s)) (grants s) (groups s)
    (group_members s) (group_groups s) (auth_sessions s) (auth_session_codes s) (login_states s)
    (browser_sessions s) (csrf_tokens s) (tokens s) (issued_tokens s) (admin_audit s)
    (device_authorizations s) (device_code_index s) (user_code_index s).
Definition upd_grants (f : gmap (string * string) (gmap string string) → gmap (string * string) (gmap string string)) (s : State) : State :=
  mkState (users s) (identities s) (invitations s) (resources s) (f (grants s)) (groups s)
    (group_members s) (group_groups s) (auth_sessions s) (auth_session_codes s) (login_states s)
    (browser_sessions s) (csrf_tokens s) (tokens s) (issued_tokens s) (admin_audit s)
    (device_authorizations s) (device_code_index s) (user_code_index s).
Definition upd_groups (f : gmap string Group → gmap string Group) (s : State) : State :=
  mkState (users s) (identities s) (invitations s) (resources s) (grants s) (f (groups s))
    (group_members s) (group_groups s) (auth_sessions s) (auth_session_codes s) (login_states s)
    (browser_sessions s) (csrf_tokens s) (tokens s) (issued_tokens s) (admin_audit s)
    (device_authorizations s) (device_code_index s) (user_code_index s).
Definition upd_group_members (f : gmap string (list string) → gmap string (list string)) (s : State) : State :=
  mkState (users s) (identities s) (invitations s) (resources s) (grants s) (groups s) (f
    (group_members s)) (group_groups s) (auth_sessions s) (auth_session_codes s) (login_states
    s) (browser_sessions s) (csrf_tokens s) (tokens s) (issued_tokens s) (admin_audit s)
    (device_authorizations s) (device_code_index s) (user_code_index s).
Definition upd_group_groups (f : gmap string (list string) → gmap string (list string)) (s : State) : State :=
  mkState (users s) (identities s) (invitations s) (resources s) (grants s) (groups s)
    (group_members s) (f (group_groups s)) (auth_sessions s) (auth_session_codes s)
    (login_states s) (browser_sessions s) (csrf_tokens s) (tokens s) (issued_tokens s)
    (admin_audit s) (device_authorizations s) (device_code_index s) (user_code_index s).
Definition upd_auth_sessions (f : gmap string AuthSession → gmap string AuthSession) (s : State) : State :=
  mkState (users s) (identities s) (invitations s) (resources s) (grants s) (groups s)
    (group_members s) (group_groups s) (f (auth_sessions s)) (auth_session_codes s)
    (login_states s) (browser_sessions s) (csrf_tokens s) (tokens s) (issued_tokens s)
    (admin_audit s) (device_authorizations s) (device_code_index s) (user_code_index s).
Definition upd_auth_session_codes (f : gmap string string → gmap string string) (s : State) : State :=
  mkState (users s) (identities s) (invitations s) (resources s) (grants s) (groups s)
    (group_members s) (group_groups s) (auth_sessions s) (f (auth_session_codes s))
    (login_states s) (browser_sessions s) (csrf_tokens s) (tokens s) (issued_tokens s)
    (admin_audit s) (device_authorizations s) (device_code_index s) (user_code_index s).
Definition upd_login_states (f : gmap string LoginState → gmap string LoginState) (s : State) : State :=
  mkState (users s) (identities s) (invitations s) (resources s) (grants s) (groups s)
    (group_members s) (group_groups s) (auth_sessions s) (auth_session_codes s) (f (login_states
    s)) (browser_sessions s) (csrf_tokens s) (tokens s) (issued_tokens s) (admin_audit s)
    (device_authorizations s) (device_code_index s) (user_code_index s).
Definition upd_browser_sessions (f : gmap string string → gmap string string) (s : State) : State :=
  mkState (users s) (identities s) (invitations s) (resources s) (grants s) (groups s)
    (group_members s) (group_groups s) (auth_sessions s) (auth_session_codes s) (login_states s)
    (f (browser_sessions s)) (csrf_tokens s) (tokens s) (issued_tokens s) (admin_audit s)
    (device_authorizations s) (device_code_index s) (user_code_index s).
Definition upd_csrf_tokens (f : gmap string CsrfToken → gmap string CsrfToken) (s : State) : State :=
  mkState (users s) (identities s) (invitations s) (resources s) (grants s) (groups s)
    (group_members s) (group_groups s) (auth_sessions s) (auth_session_codes s) (login_states s)
    (browser_sessions s) (f (csrf_tokens s)) (tokens s) (issued_tokens s) (admin_audit s)
    (device_authorizations s) (device_code_index s) (user_code_index s).
Definition upd_tokens (f : gmap string VerifiedToken → gmap string VerifiedToken) (s : State) : State :=
  mkState (users s) (identities s) (invitations s) (resources s) (grants s) (groups s)
    (group_members s) (group_groups s) (auth_sessions s) (auth_session_codes s) (login_states s)
    (browser_sessions s) (csrf_tokens s) (f (tokens s)) (issued_tokens s) (admin_audit s)
    (device_authorizations s) (device_code_index s) (user_code_index s).
Definition upd_issued_tokens (f : gmap string IssuedToken → gmap string IssuedToken) (s : State) : State :=
  mkState (users s) (identities s) (invitations s) (resources s) (grants s) (groups s)
    (group_members s) (group_groups s) (auth_sessions s) (auth_session_codes s) (login_states s)
    (browser_sessions s) (csrf_tokens s) (tokens s) (f (issued_tokens s)) (admin_audit s)
    (device_authorizations s) (device_code_index s) (user_code_index s).
Definition upd_admin_audit (f : list AdminAuditEntry → list AdminAuditEntry) (s : State) : State :=
  mkState (users s) (identities s) (invitations s) (resources s) (grants s) (groups s)
    (group_members s) (group_groups s) (auth_sessions s) (auth_session_codes s) (login_states s)
    (browser_sessions s) (csrf_tokens s) (tokens s) (issued_tokens s) (f (admin_audit s))
    (device_authorizations s) (device_code_index s) (user_code_index s).
Definition upd_device_authorizations (f : gmap string DeviceAuthorization → gmap string DeviceAuthorization) (s : State) : State :=
  mkState (users s) (identities s) (invitations s) (resources s) (grants s) (groups s)
    (group_members s) (group_groups s) (auth_sessions s) (auth_session_codes s) (login_states s)
    (browser_sessions s) (csrf_tokens s) (tokens s) (issued_tokens s) (admin_audit s) (f
    (device_authorizations s)) (device_code_index s) (user_code_index s).
Definition upd_device_code_index (f : gmap string string → gmap string string) (s : State) : State :=
  mkState (users s) (identities s) (invitations s) (resources s) (grants s) (groups s)
    (group_members s) (group_groups s) (auth_sessions s) (auth_session_codes s) (login_states s)
    (browser_sessions s) (csrf_tokens s) (tokens s) (issued_tokens s) (admin_audit s)
    (device_authorizations s) (f (device_code_index s)) (user_code_index s).
Definition upd_user_code_index (f : gmap string string → gmap string string) (s : State) : State :=
  mkState (users s) (identities s) (invitations s) (resources s) (grants s) (groups s)
    (group_members s) (group_groups s) (auth_sessions s) (auth_session_codes s) (login_states s)
    (browser_sessions s) (csrf_tokens s) (tokens s) (issued_tokens s) (admin_audit s)
    (device_authorizations s) (device_code_index s) (f (user_code_index s)).

(** * Validation and string helpers *)

Definition validated_lore_repository_id (value : string) : result CoreError string :=
  match normalize_valid_lore_repository_id value with
  | Some id => Ok id
  | None =>
      Err (InvalidArgument
        "lore_repository_id must be 1-128 characters of A-Z, a-z, 0-9, '-' or '_'")
  end.

Definition validated_account_email (value : string) : result CoreError string :=
  let email := trim value in
  match normalize_valid_account_email email with
  | Some _ => Ok email
  | None => Err (InvalidArgument "email must contain '@' and no whitespace")
  end.

Definition normalize_resource_for_upsert (resource : Resource) : result CoreError Resource :=
  let repository_id :=
    if is_empty (trim (r_resource_id resource))
    then validated_lore_repository_id (r_lore_repository_id resource)
    else validated_lore_repository_id
           (repository_id_from_resource_id (trim (r_resource_id resource))) in
  match repository_id with
  | Err e => Err e
  | Ok repository_id =>
      match for_repository_id repository_id with
      | None => Err (InvalidArgument "resource_id is required")
      | Some resource_id =>
          Ok (mkResource (r_id resource) (r_name resource) (r_remote_url resource)
                repository_id resource_id (r_status resource))
      end
  end.

Definition nul : string := String "000"%char EmptyString.

Definition external_identity_key (identity : ExternalIdentity) : string :=
  ei_provider_id identity +:+ nul +:+ ei_issuer identity +:+ nul +:+ ei_subject identity.

Definition allows_verified_email_invitation_binding (policy : LoginTrustPolicy) : bool :=
  String.eqb (trim (ltp_email_binding policy)) "verified_email_invitation".

Definition email_domain (email : string) : option string :=
  let email := to_ascii_lowercase (trim email) in
  match rsplit_once "@"%char email with
  | None => None
  | Some (_, domain) => if is_empty domain then None else Some domain
  end.

Definition email_domain_allowed (email : string) (allowed : list string) : bool :=
  match allowed with
  | [] => true
  | _ =>
      match email_domain email with
      | None => false
      | Some domain =>
          existsb (λ allowed_domain, eq_ignore_ascii_case (trim allowed_domain) domain) allowed
      end
  end.

Definition principal_from_user (user : User) (token_idp : string) (groups : list string)
    : TokenPrincipal :=
  mkTokenPrincipal (u_id user) (bridge_subject user) token_idp (display user)
    (preferred_username user) groups.

Definition grant_detail (subject_type subject_id repo role : string) : string :=
  "subject_type=" +:+ subject_type +:+ " subject_id=" +:+ subject_id +:+ " repo=" +:+ repo
    +:+ " role=" +:+ role.

Definition effective_limit (limit : Z) : Z := Z.max limit 1.

(** * Time and secrets *)

Definition seconds_or_default (ttl : Duration) (default_secs : Z) : Z :=
  i64_saturate (if is_zero ttl then default_secs else dur_secs ttl).

Section Effects.
Context `{Env}.

Definition hash_secret (value : string) : string := sha256_hex (trim value).

Definition hash_code (value : string) : string := hash_secret (to_ascii_uppercase (trim value)).

Definition unix_or_now (time : option Z) : H State Z :=
  t <- match time with Some t => ret t | None => system_now end ;;
  ret (unix_of t).

Definition unix_after (ttl : Duration) : H State Z :=
  now <- now_unix ;;
  ret (wrap_i64 (now + seconds_or_default ttl 0)).

Definition not_expired (session : AuthSession) : H State AuthSession :=
  now <- now_unix ;;
  if (as_expires_at session <=? now)%Z then throw AuthSessionNotFound else ret session.

Definition ensure_jti (jti : string) : H State string :=
  if is_empty jti then uuid_v4 else ret jti.

Definition admin_audit_entry (actor action object_type object_id detail : string)
    : H State AdminAuditEntry :=
  id <- uuid_v4 ;;
  created_at <- now_unix ;;
  ret (mkAdminAuditEntry id actor action object_type object_id detail created_at).
End Effects.

(** * Lookups *)

Section Lookups.
Context `{Env}.

Definition active_user (s : State) (user_id : string) : result CoreError User :=
  match users s !! user_id with
  | None => Err NotFound
  | Some user =>
      if negb (String.eqb (u_status user) "active") then Err PermissionDenied else Ok user
  end.

Definition resolve_user_id (s : State) (email_or_id : string) : result CoreError string :=
  match find_value (λ u, String.eqb (u_id u) email_or_id || String.eqb (u_email u) email_or_id)
          (users s) with
  | Some u => Ok (u_id u)
  | None => Err NotFound
  end.

Definition group_by_name_or_id (s : State) (group : string) : result CoreError Group :=
  match find_value (λ g, String.eqb (g_id g) group) (groups s) with
  | Some g => Ok g
  | None =>
      match find_value (λ g, String.eqb (g_name g) group) (groups s) with
      | Some g => Ok g
      | None => Err NotFound
      end
  end.

Definition resolve_group_id (s : State) (group : string) : result CoreError string :=
  match group_by_name_or_id s group with Ok g => Ok (g_id g) | Err e => Err e end.

Definition resolve_grant_subject_id (s : State) (subject_type subject : string)
    : result CoreError string :=
  if String.eqb subject_type "user" then
    match resolve_user_id s subject with
    | Ok id => Ok id
    | Err _ => Err (InvalidArgument ("unknown grant user " +:+ str_debug subject))
    end
  else if String.eqb subject_type "group" then
    match resolve_group_id s subject with
    | Ok id => Ok id
    | Err _ => Err (InvalidArgument ("unknown grant group " +:+ str_debug subject))
    end
  else Err (InvalidArgument ("unknown grant subject_type " +:+ str_debug subject_type)).

Definition resolve_resource_id_for_repo (s : State) (repo : string) : result CoreError string :=
  let repo := trim repo in
  if is_empty repo then Err (InvalidArgument "repo must not be empty") else
  match find_value (λ r, negb (String.eqb (r_status r) "deleted") && String.eqb (r_name r) repo)
          (resources s) with
  | Some r => Ok (r_resource_id r)
  | None => Err NotFound
  end.

Definition resolve_exact_resource_id (s : State) (resource_id : string)
    : result CoreError string :=
  let repository_id := repository_id_from_resource_id (trim resource_id) in
  match for_repository_id repository_id with
  | None => Err (InvalidArgument "resource_id must not be empty")
  | Some resource_id =>
      match resources s !! resource_id with
      | Some r => if negb (String.eqb (r_status r) "deleted") then Ok (r_resource_id r)
                  else Err NotFound
      | None => Err NotFound
      end
  end.

Definition repository_pk_for_resource_id (s : State) (resource_id : string) : option string :=
  match resources s !! resource_id with
  | Some r => if negb (is_empty (r_id r)) then Some (r_id r) else None
  | None => None
  end.

Definition group_label (s : State) (group_id : string) : string :=
  match find_value (λ g, String.eqb (g_id g) group_id) (groups s) with
  | Some g => g_name g
  | None => group_id
  end.
End Lookups.
