(* ===== verification/MemGraph.v ===== *)
(** The group graph of the in-memory adapter ([memory/mod.rs]): the transitive
    closure of a user's groups, the breadth-first search that labels it with
    paths, and the depth-first search that rejects a cycle.  Each loop carries
    fuel; the fuel its caller passes is proved sufficient. *)

From Stdlib Require Import ZArith Lia Ascii.
From stdpp Require Import base gmap strings list.
From S2P Require Import Prelude Model MemState.

(** * The algorithms *)

Section Algorithms.
Context `{Env}.

Definition direct_group_ids_for_user (s : State) (user_id : string) : gset string :=
  list_to_set (omap (λ group, match resolve_group_id s group with Ok id => Some id | Err _ => None end)
    (default [] (group_members s !! user_id))).

(** One [for] loop of [grant_subject_keys_for_user]; the flag is [changed]. *)
Definition closure_pass (gg : list (string * list string)) (gs : gset string) (changed : bool)
    : gset string * bool :=
  foldl (λ acc entry,
    if existsb (λ member_group_id, bool_decide (member_group_id ∈ acc.1)) entry.2
       && bool_decide (entry.1 ∉ acc.1)
    then ({[entry.1]} ∪ acc.1, true) else acc) (gs, changed) gg.

(** [while changed { .. }] *)
Fixpoint closure_loop (fuel : nat) (gg : list (string * list string)) (gs : gset string)
    : option (gset string) :=
  match fuel with
  | 0 => None
  | S fuel =>
      let '(gs', changed) := closure_pass gg gs false in
      if changed then closure_loop fuel gg gs' else Some gs'
  end.

Definition group_closure (s : State) (user_id : string) : gset string :=
  default ∅ (closure_loop (S (size (group_groups s))) (hash_iter (group_groups s))
    (direct_group_ids_for_user s user_id)).

Definition grant_subject_keys_for_user (s : State) (user_id : string) : list (string * string) :=
  ("user", user_id) :: ((λ group_id, ("group", group_id)) <$> hashset_iter (group_closure s user_id)).

(** The body of the [while let Some(child_group_id) = queue.pop_front()] loop. *)
Definition bfs_expand (s : State) (child child_path : string) (gg : list (string * list string))
    (paths : gmap string string) (queue : list string) : gmap string string * list string :=
  foldl (λ acc entry,
    if negb (bool_decide (child ∈ entry.2)) || bool_decide (is_Some (acc.1 !! entry.1)) then acc
    else (<[entry.1 := child_path +:+ " -> " +:+ group_label s entry.1]> acc.1, acc.2 ++ [entry.1]))
    (paths, queue) gg.

Fixpoint bfs_loop (fuel : nat) (s : State) (paths : gmap string string) (queue : list string)
    : option (gmap string string) :=
  match fuel with
  | 0 => None
  | S fuel =>
      match queue with
      | [] => Some paths
      | child :: queue =>
          match paths !! child with
          | None => bfs_loop fuel s paths queue
          | Some child_path =>
              let '(paths', queue') :=
                bfs_expand s child child_path (hash_iter (group_groups s)) paths queue in
              bfs_loop fuel s paths' queue'
          end
      end
  end.

Definition bfs_init (s : State) (direct : list string) : gmap string string * list string :=
  foldl (λ acc group_id,
    (<[group_id := group_label s group_id]> acc.1,
     match acc.1 !! group_id with None => acc.2 ++ [group_id] | Some _ => acc.2 end))
    (∅, []) direct.

Definition group_paths_for_user (s : State) (user_id : string) : gmap string string :=
  let direct := direct_group_ids_for_user s user_id in
  let '(paths, queue) := bfs_init s (hashset_iter direct) in
  default ∅ (bfs_loop (S (size direct + size (group_groups s))) s paths queue).

(** [while let Some(group_id) = stack.pop()]; the head of the list is the top. *)
Fixpoint cycle_loop (fuel : nat) (gg : gmap string (list string)) (parent_group_id : string)
    (seen : gset string) (stack : list string) : option bool :=
  match fuel with
  | 0 => None
  | S fuel =>
      match stack with
      | [] => Some false
      | group_id :: stack =>
          if String.eqb group_id parent_group_id then Some true
          else if bool_decide (group_id ∈ seen) then cycle_loop fuel gg parent_group_id seen stack
          else
            cycle_loop fuel gg parent_group_id ({[group_id]} ∪ seen)
              (foldl (λ st member, member :: st) stack (default [] (gg !! group_id)))
      end
  end.

(** Enough fuel for [cycle_loop]: one step per push. *)
Definition edge_count (gg : gmap string (list string)) : nat :=
  map_fold (λ _ members n, length members + n) 0 gg.

Definition group_group_would_cycle (s : State) (parent_group_id member_group_id : string) : bool :=
  default false (cycle_loop (S (S (edge_count (group_groups s)))) (group_groups s)
    parent_group_id ∅ [member_group_id]).
End Algorithms.

(** * Specification: reachability in the group graph *)

(** [member] is a direct member group of [parent]. *)
Definition member_edge (gg : gmap string (list string)) (parent member : string) : Prop :=
  ∃ members, gg !! parent = Some members ∧ member ∈ members.

(** A group contains a user when a chain of memberships leads up to it from a direct group. *)
Definition contains_transitively (gg : gmap string (list string)) (direct : gset string)
    (group_id : string) : Prop :=
  ∃ d, d ∈ direct ∧ rtc (λ child parent, member_edge gg parent child) d group_id.

(** No group is a (transitive) member of itself. *)
Definition acyclic (gg : gmap string (list string)) : Prop :=
  ∀ g, ¬ tc (member_edge gg) g g.

(** * Correctness of the closure *)

Section Closure.
Implicit Types (gg : list (string * list string)) (gs : gset string).

Lemma closure_pass_subseteq gg gs c : gs ⊆ (closure_pass gg gs c).1.
Proof.
  unfold closure_pass. revert gs c. induction gg as [|[p ms] gg IH]; intros gs c; simpl; [done|].
  case_match; simpl.
  - etrans; [|apply IH]. set_solver.
  - apply IH.
Qed.

Lemma closure_pass_changed gg gs c :
  c = true → (closure_pass gg gs c).2 = true.
Proof.
  unfold closure_pass. revert gs c. induction gg as [|[p ms] gg IH]; intros gs c ->; simpl; [done|].
  case_match; by apply IH.
Qed.

(** A pass that changes nothing leaves a set closed under parents. *)
Lemma closure_pass_stable gg gs c gs' :
  closure_pass gg gs c = (gs', false) →
  gs' = gs ∧ ∀ p ms m, (p, ms) ∈ gg → m ∈ ms → m ∈ gs → p ∈ gs.
Proof.
  unfold closure_pass. revert gs c. induction gg as [|[p ms] gg IH]; intros gs c; simpl.
  - intros [= -> ->]. split; [done|]. intros p ms m Hin. by apply not_elem_of_nil in Hin.
  - case_match eqn:Ht; intros Heq.
    + pose proof (closure_pass_changed gg ({[p]} ∪ gs) true eq_refl) as Hc.
      unfold closure_pass in Hc. rewrite Heq in Hc. done.
    + apply IH in Heq as [-> Hcl]. split; [done|].
      intros p' ms' m [[= -> ->]|Hin]%elem_of_cons Hm Hgs; [|by eapply Hcl].
      apply andb_false_iff in Ht as [Ht|Ht].
      * apply not_true_iff_false in Ht. destruct Ht. apply existsb_exists.
        exists m. split; [by apply list_elem_of_In|]. by apply bool_decide_eq_true.
      * apply bool_decide_eq_false in Ht. by destruct (decide (p ∈ gs)).
Qed.

(** A pass that changes something adds a key of the map. *)
Lemma closure_pass_grows gg gs gs' :
  closure_pass gg gs false = (gs', true) → ∃ p, p ∈ gg.*1 ∧ p ∉ gs ∧ p ∈ gs'.
Proof.
  unfold closure_pass. revert gs. induction gg as [|[p ms] gg IH]; intros gs; simpl; [done|].
  case_match eqn:Ht; intros Heq.
  - apply andb_true_iff in Ht as [_ Ht%bool_decide_eq_true]. exists p.
    split_and!; [set_solver|done|].
    pose proof (closure_pass_subseteq gg ({[p]} ∪ gs) true) as Hsub.
    unfold closure_pass in Hsub. rewrite Heq in Hsub. set_solver.
  - apply IH in Heq as (p' & ? & ? & ?). exists p'. split_and!; [|done..]. set_solver.
Qed.

Lemma closure_pass_sound gg gs c (P : string → Prop) :
  (∀ p ms m, (p, ms) ∈ gg → m ∈ ms → P m → P p) → (∀ x, x ∈ gs → P x) →
  ∀ x, x ∈ (closure_pass gg gs c).1 → P x.
Proof.
  unfold closure_pass. revert gs c. induction gg as [|[p ms] gg IH]; intros gs c HP Hgs; simpl; [done|].
  case_match eqn:Ht; apply IH; try set_solver.
  intros x [Hx%elem_of_singleton|Hx]%elem_of_union; [subst|by apply Hgs].
  apply andb_true_iff in Ht as [(m & Hm & Hin)%existsb_exists _]; simpl in *.
  apply bool_decide_eq_true in Hin. eapply HP; [left| |by apply Hgs].
  by apply list_elem_of_In.
Qed.

Lemma closure_loop_total fuel gg gs :
  size (list_to_set (gg.*1) ∖ gs : gset string) < fuel → is_Some (closure_loop fuel gg gs).
Proof.
  revert gs. induction fuel as [|fuel IH]; intros gs Hsz; [lia|]. simpl.
  destruct (closure_pass gg gs false) as [gs' []] eqn:Hp; [|eauto].
  apply IH. pose proof (closure_pass_grows _ _ _ Hp) as (p & Hp1 & Hp2 & Hp3).
  pose proof (closure_pass_subseteq gg gs false) as Hsub. rewrite Hp in Hsub. simpl in Hsub.
  eapply Nat.lt_le_trans; [apply subset_size|apply PeanoNat.lt_n_Sm_le, Hsz].
  set_solver.
Qed.

Lemma closure_loop_spec fuel gg gs gs' :
  closure_loop fuel gg gs = Some gs' →
  gs ⊆ gs'
  ∧ (∀ p ms m, (p, ms) ∈ gg → m ∈ ms → m ∈ gs' → p ∈ gs')
  ∧ ∀ P : string → Prop,
      (∀ p ms m, (p, ms) ∈ gg → m ∈ ms → P m → P p) → (∀ x, x ∈ gs → P x) → ∀ x, x ∈ gs' → P x.
Proof.
  revert gs. induction fuel as [|fuel IH]; intros gs; [done|]. simpl.
  destruct (closure_pass gg gs false) as [g1 c] eqn:Hp.
  pose proof (closure_pass_subseteq gg gs false) as Hsub.
  pose proof (closure_pass_sound gg gs false) as Hsound. rewrite Hp in Hsub, Hsound. simpl in *.
  destruct c.
  - intros (Hs & Hc & HP)%IH. split_and!; [set_solver|done|].
    intros P Hcl Hgs x Hx. eapply HP; [done| |done]. intros y Hy. by eapply Hsound.
  - intros [= <-]. apply closure_pass_stable in Hp as [-> Hcl]. split_and!; [done|done|].
    intros P _ Hgs. done.
Qed.
End Closure.

Section ClosureSpec.
Context `{Env}.

Lemma hash_iter_keys_size (gg : gmap string (list string)) (gs : gset string) :
  size (list_to_set (hash_iter gg).*1 ∖ gs : gset string) ≤ size gg.
Proof.
  etrans; [apply (subseteq_size _ (dom gg))|by rewrite size_dom].
  intros x [Hx _]%elem_of_difference.
  apply elem_of_list_to_set, list_elem_of_fmap in Hx as ([k v] & -> & Hk).
  apply elem_of_hash_iter in Hk. apply elem_of_dom. eauto.
Qed.

(** The closure loop ends within its fuel, with exactly the groups that contain the user. *)
Lemma elem_of_group_closure s user_id g :
  g ∈ group_closure s user_id
  ↔ contains_transitively (group_groups s) (direct_group_ids_for_user s user_id) g.
Proof.
  unfold group_closure.
  destruct (closure_loop_total (S (size (group_groups s))) (hash_iter (group_groups s))
    (direct_group_ids_for_user s user_id)) as [gs' Hgs'].
  { pose proof (hash_iter_keys_size (group_groups s) (direct_group_ids_for_user s user_id)). lia. }
  rewrite Hgs'. simpl. apply closure_loop_spec in Hgs' as (Hsub & Hcl & HP). split.
  - apply HP.
    + intros p ms m Hin Hm (d & Hd & Hr). exists d. split; [done|].
      eapply rtc_r; [done|]. exists ms. split; [|done]. by apply elem_of_hash_iter.
    + intros x Hx. exists x. split; [done|]. apply rtc_refl.
  - intros (d & Hd & Hr). refine (rtc_ind_r (λ y, y ∈ gs') d _ _ g Hr); [set_solver|].
    intros m p _ (ms & Hms & Hm) IH.
    eapply Hcl; [by apply elem_of_hash_iter|done|done].
Qed.
End ClosureSpec.

(** * Correctness of the cycle check *)

Section Cycle.
Implicit Types (gg : gmap string (list string)) (seen : gset string) (stack : list string).

(** Pushes still possible: the members of the groups not expanded yet. *)
Definition unseen_edges gg seen : nat := edge_count (filter (λ e, e.1 ∉ seen) gg).

Lemma edge_count_insert gg g ms :
  gg !! g = None → edge_count (<[g := ms]> gg) = length ms + edge_count gg.
Proof.
  intros Hg. unfold edge_count. rewrite map_fold_insert_L; [done| |done].
  intros j1 j2 z1 z2 y. intros. lia.
Qed.

Lemma unseen_edges_step gg seen g :
  g ∉ seen →
  unseen_edges gg seen = length (default [] (gg !! g)) + unseen_edges gg ({[g]} ∪ seen).
Proof.
  intros Hg. unfold unseen_edges.
  assert (filter (λ e : string * list string, e.1 ∉ {[g]} ∪ seen) gg
          = delete g (filter (λ e, e.1 ∉ seen) gg)) as ->.
  { apply map_eq. intros i. destruct (decide (i = g)) as [->|Hne].
    - rewrite lookup_delete_eq. apply map_lookup_filter_None. right. intros x _. set_solver.
    - rewrite lookup_delete_ne by done. rewrite !map_lookup_filter.
      destruct (gg !! i) as [ms|]; simpl; [|done].
      destruct (decide (i ∈ seen)); [rewrite !option_guard_False by set_solver|
        rewrite !option_guard_True by set_solver]; done. }
  destruct (gg !! g) as [ms|] eqn:Hms; simpl.
  - rewrite <- edge_count_insert with (g := g) by apply lookup_delete_eq.
    rewrite insert_delete_eq. rewrite insert_id; [done|].
    by apply map_lookup_filter_Some.
  - rewrite delete_id; [done|]. apply map_lookup_filter_None. by left.
Qed.

Lemma push_all_elem stack members x :
  x ∈ foldl (λ st member, member :: st) stack members ↔ x ∈ members ∨ x ∈ stack.
Proof.
  revert stack. induction members as [|m ms IH]; intros stack; simpl.
  - split; [by right|]. intros [Hx|Hx]; [by apply not_elem_of_nil in Hx|done].
  - rewrite IH, !elem_of_cons. tauto.
Qed.

Lemma push_all_length stack members :
  length (foldl (λ st member, member :: st) stack members) = length members + length stack.
Proof. revert stack. induction members as [|m ms IH]; intros stack; simpl; [done|]. rewrite IH. simpl. lia. Qed.

Lemma cycle_loop_total fuel gg parent seen stack :
  length stack + unseen_edges gg seen < fuel → is_Some (cycle_loop fuel gg parent seen stack).
Proof.
  revert seen stack. induction fuel as [|fuel IH]; intros seen stack Hf; [lia|]. simpl.
  destruct stack as [|g stack]; [eauto|]. simpl in Hf.
  destruct (String.eqb g parent); [eauto|].
  case_bool_decide; [apply IH; lia|]. apply IH.
  rewrite push_all_length. rewrite (unseen_edges_step gg seen g) in Hf by done. lia.
Qed.

(** The search only visits groups below the member it starts from. *)
Lemma cycle_loop_true fuel gg parent seen stack :
  cycle_loop fuel gg parent seen stack = Some true →
  ∃ g, g ∈ stack ∧ rtc (member_edge gg) g parent.
Proof.
  revert seen stack. induction fuel as [|fuel IH]; intros seen stack; [done|]. simpl.
  destruct stack as [|g stack]; [done|].
  destruct (String.eqb_spec g parent) as [->|Hne].
  { intros _. exists parent. split; [left|apply rtc_refl]. }
  case_bool_decide; intros (g' & Hg' & Hr)%IH.
  - exists g'. split; [by right|done].
  - apply push_all_elem in Hg' as [Hg'|Hg']; [|exists g'; split; [by right|done]].
    exists g. split; [left|]. eapply rtc_l; [|done].
    destruct (gg !! g) as [ms|] eqn:Hms; simpl in Hg'; [by exists ms|].
    by apply not_elem_of_nil in Hg'.
Qed.

(** When it answers no, what it has seen is closed under membership and avoids the parent. *)
Lemma cycle_loop_false fuel gg parent seen stack :
  (∀ g m, g ∈ seen → member_edge gg g m → m ∈ seen ∨ m ∈ stack) → parent ∉ seen →
  cycle_loop fuel gg parent seen stack = Some false →
  ∀ g, g ∈ stack ∨ g ∈ seen → ¬ rtc (member_edge gg) g parent.
Proof.
  revert seen stack. induction fuel as [|fuel IH]; intros seen stack Hcl Hp; [done|]. simpl.
  destruct stack as [|g stack].
  { intros _ g [Hg|Hg]; [by apply not_elem_of_nil in Hg|]. intros Hr. apply Hp.
    refine (rtc_ind_r (λ y, y ∈ seen) g Hg _ parent Hr).
    intros y z _ Hyz Hy. destruct (Hcl y z Hy Hyz) as [?|Hz]; [done|].
    by apply not_elem_of_nil in Hz. }
  destruct (String.eqb_spec g parent) as [->|Hne]; [done|].
  case_bool_decide as Hseen; intros Heq.
  - intros g' Hg'. eapply (IH seen stack); [|done|done|].
    + intros g0 m Hg0 Hm. destruct (Hcl g0 m Hg0 Hm) as [?|[->|?]%elem_of_cons]; auto.
    + destruct Hg' as [[->|?]%elem_of_cons|?]; auto.
  - intros g' Hg'. eapply IH; [| |exact Heq|].
    + intros g0 m [Hg0%elem_of_singleton|Hg0]%elem_of_union Hm.
      * subst. destruct Hm as (ms & Hms & Hm). right. apply push_all_elem. left.
        by rewrite Hms.
      * destruct (Hcl g0 m Hg0 Hm) as [?|[->|?]%elem_of_cons];
          [left; set_solver|left; set_solver|right; apply push_all_elem; auto].
    + set_solver.
    + destruct Hg' as [[->|?]%elem_of_cons|?];
        [right; set_solver|left; apply push_all_elem; auto|right; set_solver].
Qed.

Lemma unseen_edges_empty gg : unseen_edges gg ∅ = edge_count gg.
Proof.
  unfold unseen_edges. f_equal. apply map_filter_id. intros i x _. set_solver.
Qed.

(** The check ends within its fuel and decides whether the parent is below the member. *)
Lemma group_group_would_cycle_spec s parent member :
  group_group_would_cycle s parent member = true
  ↔ rtc (member_edge (group_groups s)) member parent.
Proof.
  unfold group_group_would_cycle.
  destruct (cycle_loop_total (S (S (edge_count (group_groups s)))) (group_groups s) parent ∅ [member])
    as [b Hb]; [rewrite unseen_edges_empty; simpl; lia|].
  rewrite Hb. simpl. destruct b.
  - apply cycle_loop_true in Hb as (g & Hg & Hr). split; [|done]. intros _.
    apply list_elem_of_singleton in Hg as ->. done.
  - split; [done|]. intros Hr. exfalso. eapply cycle_loop_false; [| |exact Hb| |exact Hr];
      [set_solver|set_solver|left; by apply list_elem_of_singleton].
Qed.
End Cycle.

Lemma member_edge_insert gg p ms g m :
  member_edge (<[p := ms]> gg) g m ↔ (g = p ∧ m ∈ ms) ∨ (g ≠ p ∧ member_edge gg g m).
Proof.
  unfold member_edge. destruct (decide (g = p)) as [->|Hne].
  - rewrite lookup_insert_eq. naive_solver.
  - rewrite lookup_insert_ne by done. naive_solver.
Qed.

(** Adding an edge between two groups that are not already connected downwards the
    other way keeps the graph acyclic. *)
Lemma acyclic_add_edge gg parent member :
  acyclic gg → ¬ rtc (member_edge gg) member parent →
  acyclic (<[parent := default [] (gg !! parent) ++ [member]]> gg).
Proof.
  intros Hac Hnr.
  set (gg' := <[parent := default [] (gg !! parent) ++ [member]]> gg).
  assert (∀ a b, member_edge gg' a b → member_edge gg a b ∨ a = parent ∧ b = member) as Hedge.
  { intros a b [[-> Hb]|[Hne Hb]]%member_edge_insert; [|by left].
    apply elem_of_app in Hb as [Hb|Hb%list_elem_of_singleton]; [|by right].
    left. destruct (gg !! parent) as [ms|] eqn:Hms; simpl in Hb; [by exists ms|].
    by apply not_elem_of_nil in Hb. }
  intros g. by eapply acyclic_add.
Qed.

(** * Correctness of the path search *)

Section Paths.
Context `{Env}.
Implicit Types (gg : list (string * list string)) (paths : gmap string string)
  (queue : list string).

(** A path renders a chain of memberships that ends in [group_id]. *)
Inductive renders_chain (s : State) (direct : gset string) : string → string → Prop :=
  | renders_direct g : g ∈ direct → renders_chain s direct g (group_label s g)
  | renders_step c g p :
      renders_chain s direct c p → member_edge (group_groups s) g c →
      renders_chain s direct g (p +:+ " -> " +:+ group_label s g).

Lemma renders_chain_sound s direct g p :
  renders_chain s direct g p → contains_transitively (group_groups s) direct g.
Proof.
  induction 1 as [g Hg|c g p _ (d & Hd & Hr) Hgc].
  - exists g. split; [done|apply rtc_refl].
  - exists d. split; [done|]. by eapply rtc_r.
Qed.

Record expand_spec (s : State) (child cp : string) gg (K : gset string) paths queue paths' queue'
    : Prop := {
  ex_mono : ∀ x v, paths !! x = Some v → paths' !! x = Some v;
  ex_queue : ∀ x, x ∈ queue' ↔ x ∈ queue ∨ (is_Some (paths' !! x) ∧ paths !! x = None);
  ex_new : ∀ x v, paths' !! x = Some v → paths !! x = None →
    v = cp +:+ " -> " +:+ group_label s x ∧ ∃ ms, (x, ms) ∈ gg ∧ child ∈ ms;
  ex_all : ∀ x ms, (x, ms) ∈ gg → child ∈ ms → is_Some (paths' !! x);
  ex_size : length queue' + size (K ∖ dom paths') ≤ length queue + size (K ∖ dom paths)
}.

Lemma bfs_expand_spec s child cp gg (K : gset string) paths queue paths' queue' :
  (∀ x, x ∈ gg.*1 → x ∈ K) →
  bfs_expand s child cp gg paths queue = (paths', queue') →
  expand_spec s child cp gg K paths queue paths' queue'.
Proof.
  unfold bfs_expand. revert paths queue.
  induction gg as [|[p ms] gg IH]; intros paths queue HK; simpl.
  - intros [= <- <-]. split; [done| |congruence| |done].
    + intros x. split; [by left|]. intros [?|[[v Hv] Hx]]; [done|congruence].
    + intros x ms' Hin. by apply not_elem_of_nil in Hin.
  - assert (∀ x, x ∈ gg.*1 → x ∈ K) as HK' by set_solver.
    case_match eqn:Ht; intros Heq; apply IH in Heq as [Hm Hq Hn Ha Hs]; try done; simpl in *.
    + split; [done|done| | |done].
      * intros x v Hx Hx0. destruct (Hn x v Hx Hx0) as (-> & ms' & ? & ?).
        split; [done|]. exists ms'. split; [by right|done].
      * intros x ms' [[= -> ->]|Hin]%elem_of_cons Hc; [|by eapply Ha].
        apply orb_true_iff in Ht as [Ht|Ht%bool_decide_eq_true].
        { by rewrite bool_decide_true in Ht. }
        destruct Ht as [v Hv]. exists v. by apply Hm.
    + apply orb_false_iff in Ht as [Ht1 Ht2].
      apply negb_false_iff, bool_decide_eq_true in Ht1.
      apply bool_decide_eq_false in Ht2. rewrite <- eq_None_not_Some in Ht2.
      assert (paths' !! p = Some (cp +:+ " -> " +:+ group_label s p)) as Hp'.
      { apply Hm. apply lookup_insert_eq. }
      split.
      * intros x v Hx. apply Hm. rewrite lookup_insert_ne; [done|]. congruence.
      * intros x. rewrite Hq, elem_of_app, list_elem_of_singleton.
        destruct (decide (x = p)) as [->|Hne]; [naive_solver|].
        rewrite lookup_insert_ne by done. naive_solver.
      * intros x v Hx Hx0. destruct (decide (x = p)) as [->|Hne].
        { rewrite Hp' in Hx. simplify_eq. split; [done|]. exists ms. split; [by left|done]. }
        destruct (Hn x v Hx) as (-> & ms' & ? & ?); [by rewrite lookup_insert_ne|].
        split; [done|]. exists ms'. split; [by right|done].
      * intros x ms' [[= -> ->]|Hin]%elem_of_cons Hc; [by eexists|by eapply Ha].
      * rewrite length_app in Hs. simpl in Hs. etrans; [exact Hs|].
        rewrite dom_insert_L.
        assert (size (K ∖ ({[p]} ∪ dom paths)) < size (K ∖ dom paths)) as Hlt; [|lia].
        apply subset_size. split; [set_solver|]. intros Hsub.
        assert (p ∈ K ∖ dom paths) as Hin.
        { apply elem_of_difference. split; [apply HK; set_solver|].
          by apply not_elem_of_dom. }
        apply Hsub in Hin. set_solver.
Qed.

(** What the search keeps true of its map and queue. *)
Record bfs_inv (s : State) (direct : gset string) paths queue : Prop := {
  bi_direct : ∀ x, x ∈ direct → is_Some (paths !! x);
  bi_queue : ∀ x, x ∈ queue → is_Some (paths !! x);
  bi_closed : ∀ x g, is_Some (paths !! x) → member_edge (group_groups s) g x →
    x ∈ queue ∨ is_Some (paths !! g);
  bi_chain : ∀ x p, paths !! x = Some p → renders_chain s direct x p
}.

Lemma bfs_inv_step s direct child cp paths queue paths' queue' :
  bfs_inv s direct paths (child :: queue) → paths !! child = Some cp →
  expand_spec s child cp (hash_iter (group_groups s)) (dom (group_groups s))
    paths queue paths' queue' →
  bfs_inv s direct paths' queue'.
Proof.
  intros [Hd Hq Hc Hch] Hcp [Hm Hq' Hn Ha _]. split.
  - intros x Hx. destruct (Hd x Hx) as [v Hv]. eexists. by apply Hm.
  - intros x Hx. apply Hq' in Hx as [Hx|[Hx _]]; [|done].
    destruct (Hq x) as [v Hv]; [by right|]. eexists. by apply Hm.
  - intros x g [v Hx] Hg. destruct (paths !! x) as [v0|] eqn:Hx0.
    + destruct (Hc x g) as [[->|Hin]%elem_of_cons|[u Hu]]; [by eauto|done| | |].
      * right. destruct Hg as (ms & Hms & Hin). eapply Ha; [|done].
        by apply elem_of_hash_iter.
      * left. apply Hq'. by left.
      * right. eexists. by apply Hm.
    + left. apply Hq'. right. split; [by eexists|done].
  - intros x p Hx. destruct (paths !! x) as [v0|] eqn:Hx0.
    + rewrite (Hm _ _ Hx0) in Hx. simplify_eq. by apply Hch.
    + destruct (Hn x p Hx Hx0) as (-> & ms & Hms & Hin). econstructor; [by apply Hch|].
      exists ms. split; [|done]. by apply elem_of_hash_iter.
Qed.

Lemma hash_iter_keys (gg : gmap string (list string)) x : x ∈ (hash_iter gg).*1 → x ∈ dom gg.
Proof.
  intros ([k v] & -> & Hk)%list_elem_of_fmap. apply elem_of_hash_iter in Hk.
  apply elem_of_dom. eauto.
Qed.

Lemma bfs_loop_spec fuel s direct paths queue :
  bfs_inv s direct paths queue →
  length queue + size (dom (group_groups s) ∖ dom paths) < fuel →
  ∃ paths', bfs_loop fuel s paths queue = Some paths' ∧ bfs_inv s direct paths' [].
Proof.
  revert paths queue. induction fuel as [|fuel IH]; intros paths queue Hinv Hf; [lia|]. simpl.
  destruct queue as [|child queue]; [by eauto|].
  destruct (bi_queue _ _ _ _ Hinv child) as [cp Hcp]; [by left|]. rewrite Hcp.
  destruct (bfs_expand s child cp (hash_iter (group_groups s)) paths queue)
    as [paths' queue'] eqn:He.
  apply bfs_expand_spec with (K := (dom (group_groups s) : gset string)) in He; [|apply hash_iter_keys].
  apply IH; [by eapply bfs_inv_step|].
  pose proof (ex_size _ _ _ _ _ _ _ _ _ He). simpl in Hf. lia.
Qed.

Lemma bfs_init_spec s l paths0 queue0 paths queue :
  foldl (λ acc group_id,
    (<[group_id := group_label s group_id]> acc.1,
     match acc.1 !! group_id with None => acc.2 ++ [group_id] | Some _ => acc.2 end))
    (paths0, queue0) l = (paths, queue) →
  (∀ x p, paths0 !! x = Some p → p = group_label s x) →
  (∀ x, x ∈ queue0 ↔ is_Some (paths0 !! x)) →
  (∀ x p, paths !! x = Some p → p = group_label s x ∧ (is_Some (paths0 !! x) ∨ x ∈ l))
  ∧ (∀ x, x ∈ queue ↔ is_Some (paths !! x))
  ∧ (∀ x, x ∈ l ∨ is_Some (paths0 !! x) → is_Some (paths !! x))
  ∧ length queue ≤ length queue0 + length l.
Proof.
  revert paths0 queue0. induction l as [|g l IH]; intros paths0 queue0; simpl.
  - intros [= <- <-] Hp Hq. split_and!; [naive_solver|done| |lia].
    intros x [Hx|Hx]; [by apply not_elem_of_nil in Hx|done].
  - intros Heq Hp Hq. apply IH in Heq as (H1 & H2 & H3 & H4); clear IH.
    + split_and!; [|done| |].
      * intros x p Hx. destruct (H1 x p Hx) as [-> [Hin|Hin]]; (split; [done|]); [|right; by right].
        destruct (decide (x = g)) as [->|Hne]; [right; left|].
        rewrite lookup_insert_ne in Hin by done. by left.
      * intros x Hx. apply H3. destruct (decide (x = g)) as [->|Hne].
        { right. rewrite lookup_insert_eq. eauto. }
        rewrite lookup_insert_ne by done. destruct Hx as [[?|?]%elem_of_cons|?]; naive_solver.
      * etrans; [exact H4|]. destruct (paths0 !! g); [lia|]. rewrite length_app. simpl. lia.
    + intros x p. destruct (decide (x = g)) as [->|Hne].
      * rewrite lookup_insert_eq. congruence.
      * rewrite lookup_insert_ne by done. apply Hp.
    + intros x. destruct (decide (x = g)) as [->|Hne].
      * rewrite lookup_insert_eq. split; [by eauto|]. intros _.
        destruct (paths0 !! g) eqn:Hg; [apply Hq; eauto|]. apply elem_of_app. right. by left.
      * rewrite lookup_insert_ne by done. rewrite <- Hq.
        destruct (paths0 !! g); [done|]. rewrite elem_of_app, list_elem_of_singleton. naive_solver.
Qed.

(** The search ends within its fuel; it labels exactly the groups that contain the
    user, each with a rendering of a chain of memberships. *)
Lemma group_paths_for_user_inv s user_id :
  bfs_inv s (direct_group_ids_for_user s user_id) (group_paths_for_user s user_id) [].
Proof.
  unfold group_paths_for_user, bfs_init. set (direct := direct_group_ids_for_user s user_id).
  destruct (foldl _ _ _) as [paths queue] eqn:Hi.
  apply bfs_init_spec in Hi as (H1 & H2 & H3 & H4);
    [|intros x p; by rewrite lookup_empty|intros x; rewrite lookup_empty; split; [by intros ?%not_elem_of_nil|by intros []]].
  destruct (bfs_loop_spec (S (size direct + size (group_groups s))) s direct paths queue)
    as (paths' & -> & Hinv); [| |done].
  - split.
    + intros x Hx. apply H3. left. rewrite hashset_iter_perm. by apply elem_of_elements.
    + intros x Hx. by apply H2.
    + intros x g Hx _. left. by apply H2.
    + intros x p Hx. destruct (H1 x p Hx) as [-> [[? Hx0]|Hin]]; [by rewrite lookup_empty in Hx0|].
      constructor. rewrite hashset_iter_perm in Hin. by apply elem_of_elements in Hin.
  - simpl in H4. rewrite (Permutation_length (hashset_iter_perm direct)) in H4.
    assert (length (elements direct) = size direct) as Hsz by done.
    assert (size (dom (group_groups s) ∖ dom paths) ≤ size (group_groups s)); [|lia].
    rewrite <- size_dom. apply subseteq_size. set_solver.
Qed.

Lemma group_paths_for_user_dom s user_id g :
  is_Some (group_paths_for_user s user_id !! g) ↔ g ∈ group_closure s user_id.
Proof.
  rewrite elem_of_group_closure.
  destruct (group_paths_for_user_inv s user_id) as [Hd _ Hc Hch]. split.
  - intros [p Hp]. eapply renders_chain_sound, Hch, Hp.
  - intros (d & Hdd & Hr).
    refine (rtc_ind_r (λ y, is_Some (group_paths_for_user s user_id !! y)) d _ _ g Hr); [by apply Hd|].
    intros y z _ Hyz Hy. destruct (Hc y z Hy Hyz) as [Hin|?]; [|done].
    by apply not_elem_of_nil in Hin.
Qed.
End Paths.
