(* ===== verification/MemGroups.v ===== *)
(** Group administration and queries of the in-memory adapter ([memory/groups.rs]). *)

From Stdlib Require Import ZArith Lia Ascii.
From stdpp Require Import base gmap strings list.
From S2P Require Import Prelude Model MemState MemGraph.

(** * Operations *)

(** The key [(normalize_email(email), id)] that user lists are sorted by. *)
Definition user_leb (left right : User) : bool :=
  lex_leb [normalize_email (u_email left); u_id left] [normalize_email (u_email right); u_id right].

Module Groups.
Section Ops.
Context `{Env}.

Definition add_group (name description : string) : H State Group :=
  if is_empty (trim name) then throw (InvalidArgument "group name must not be empty") else
  id <- uuid_v4 ;;
  let group := mkGroup id (trim name) description in
  modify_state (upd_groups (<[g_name group := group]>)) ;;;
  ret group.

Definition add_group_member (group user_email_or_id : string) : H State () :=
  s <- get_state ;;
  user_id <- lift (resolve_user_id s user_email_or_id) ;;
  modify_state (upd_group_members (λ m, <[user_id := default [] (m !! user_id) ++ [group]]> m)).

Definition remove_group_member (group user_email_or_id : string) : H State () :=
  s <- get_state ;;
  user_id <- lift (resolve_user_id s user_email_or_id) ;;
  match group_members s !! user_id with
  | Some groups =>
      modify_state (upd_group_members (<[user_id := filter (λ name, name ≠ group) groups]>))
  | None => ret tt
  end.

Definition add_group_group (parent_group member_group : string) : H State () :=
  s <- get_state ;;
  parent_group_id <- lift (resolve_group_id s parent_group) ;;
  member_group_id <- lift (resolve_group_id s member_group) ;;
  if String.eqb parent_group_id member_group_id
  then throw (InvalidArgument "group cannot contain itself")
  else if bool_decide (member_group_id ∈ default [] (group_groups s !! parent_group_id))
  then ret tt
  else if group_group_would_cycle s parent_group_id member_group_id
  then throw (InvalidArgument "group nesting would create a cycle")
  else modify_state (upd_group_groups (λ m,
         <[parent_group_id := default [] (m !! parent_group_id) ++ [member_group_id]]> m)).

Definition remove_group_group (parent_group member_group : string) : H State () :=
  s <- get_state ;;
  parent_group_id <- lift (resolve_group_id s parent_group) ;;
  member_group_id <- lift (resolve_group_id s member_group) ;;
  members <- ok_or (group_groups s !! parent_group_id) NotFound ;;
  match list_find (λ id, id = member_group_id) members with
  | None => throw NotFound
  | Some (index, _) => modify_state (upd_group_groups (<[parent_group_id := delete index members]>))
  end.

Definition list_groups : H State (list Group) :=
  s <- get_state ;;
  ret (sort_by (λ left right, str_leb (g_name left) (g_name right)) (hash_values (groups s))).

Definition list_group_members (group : string) : H State (list User) :=
  s <- get_state ;;
  group <- lift (group_by_name_or_id s group) ;;
  ret (sort_by user_leb
    (omap (λ entry, u ← users s !! entry.1;
                    if negb (String.eqb (u_status u) "deleted") then Some u else None)
      (filter (λ entry, existsb (λ member, String.eqb member (g_id group)
                                           || String.eqb member (g_name group)) entry.2 = true)
        (hash_iter (group_members s))))).

Definition list_group_groups (group : string) : H State (list Group) :=
  s <- get_state ;;
  group <- lift (group_by_name_or_id s group) ;;
  ret (sort_by (λ left right, str_leb (g_name left) (g_name right))
    (omap (λ group_id, find_value (λ g, String.eqb (g_id g) group_id) (groups s))
      (default [] (group_groups s !! g_id group)))).
End Ops.
End Groups.

(** * The group graph stays acyclic *)

(** Acyclic, and no group is listed twice as a member of the same parent. *)
Definition group_graph_ok (gg : gmap string (list string)) : Prop :=
  acyclic gg ∧ ∀ p ms, gg !! p = Some ms → NoDup ms.

Section GraphInvariant.
Context `{Env}.

Lemma acyclic_subgraph gg gg' :
  (∀ a b, member_edge gg' a b → member_edge gg a b) → acyclic gg → acyclic gg'.
Proof.
  intros Hsub Hac g Hg. apply (Hac g). eapply tc_congruence with (f := λ x, x); [|done]. done.
Qed.

Lemma group_graph_ok_empty : group_graph_ok ∅.
Proof.
  split; [|intros p ms Hp; by rewrite lookup_empty in Hp].
  intros g Hg. inversion Hg as [x y Hxy|x y z Hxy Hr]; subst;
    destruct Hxy as (ms & Hms & _); by rewrite lookup_empty in Hms.
Qed.

Lemma group_graph_ok_add gg p m :
  group_graph_ok gg → m ∉ default [] (gg !! p) → ¬ rtc (member_edge gg) m p →
  group_graph_ok (<[p := default [] (gg !! p) ++ [m]]> gg).
Proof.
  intros [Hac Hnd] Hm Hr. split; [by apply acyclic_add_edge|].
  intros q ms. destruct (decide (q = p)) as [->|Hne]; [|rewrite lookup_insert_ne by done; apply Hnd].
  rewrite lookup_insert_eq. intros [= <-]. apply NoDup_app. split_and!.
  - destruct (gg !! p) eqn:Hp; simpl; [by eapply Hnd|constructor].
  - intros x Hx Hx'%list_elem_of_singleton. by subst.
  - apply NoDup_singleton.
Qed.

Lemma group_graph_ok_delete gg p ms i :
  group_graph_ok gg → gg !! p = Some ms → group_graph_ok (<[p := delete i ms]> gg).
Proof.
  intros [Hac Hnd] Hp. split.
  - eapply acyclic_subgraph; [|exact Hac].
    intros a b [[-> Hb]|[_ Hb]]%member_edge_insert; [|done].
    exists ms. split; [done|]. by eapply list_elem_of_delete_inv.
  - intros q ms'. destruct (decide (q = p)) as [->|Hne]; [|rewrite lookup_insert_ne by done; apply Hnd].
    rewrite lookup_insert_eq. intros [= <-].
    eapply sublist_NoDup; [by eapply Hnd|apply sublist_delete].
Qed.

Lemma add_group_group_graph_ok parent_group member_group w :
  group_graph_ok (group_groups (st w)) →
  group_graph_ok (group_groups (st (Groups.add_group_group parent_group member_group w).2)).
Proof.
  intros Hok. unfold Groups.add_group_group. mrun.
  destruct (resolve_group_id (st w) parent_group) as [p|]; [|done].
  destruct (resolve_group_id (st w) member_group) as [m|]; [|done].
  destruct (String.eqb p m); [done|].
  case_bool_decide as Hm; [done|].
  destruct (group_group_would_cycle (st w) p m) eqn:Hc; [done|]. simpl.
  apply group_graph_ok_add; [done..|]. intros Hr.
  apply group_group_would_cycle_spec in Hr. congruence.
Qed.

Lemma remove_group_group_graph_ok parent_group member_group w :
  group_graph_ok (group_groups (st w)) →
  group_graph_ok (group_groups (st (Groups.remove_group_group parent_group member_group w).2)).
Proof.
  intros Hok. unfold Groups.remove_group_group. mrun.
  destruct (resolve_group_id (st w) parent_group) as [p|]; [|done].
  destruct (resolve_group_id (st w) member_group) as [m|]; [|done].
  destruct (group_groups (st w) !! p) as [ms|] eqn:Hp; [|done].
  destruct (list_find _ ms) as [[i x]|]; [|done]. simpl. by apply group_graph_ok_delete.
Qed.
End GraphInvariant.
