(* ===== verification/MemSessions.v ===== *)
(** Device authorizations of the in-memory adapter ([memory/devices.rs]), and its auth
    sessions, login states, browser sessions and CSRF tokens ([memory/state.rs]). *)

From Stdlib Require Import ZArith Lia Ascii.
From stdpp Require Import base gmap strings list.
From S2P Require Import Prelude Model MemState.

(** In-place updates of a device row. *)
Definition device_approved (user_id : string) (now : Z) (d : DeviceAuthorization)
    : DeviceAuthorization :=
  mkDeviceAuthorization (da_id d) (da_requested_remote_url d) (da_requested_repository_id d)
    user_id "approved" (da_created_at d) (da_expires_at d) now (da_consumed_at d).
Definition device_consumed (now : Z) (d : DeviceAuthorization) : DeviceAuthorization :=
  mkDeviceAuthorization (da_id d) (da_requested_remote_url d) (da_requested_repository_id d)
    (da_approved_user_id d) "consumed" (da_created_at d) (da_expires_at d) (da_approved_at d) now.
Definition device_expired (d : DeviceAuthorization) : DeviceAuthorization :=
  mkDeviceAuthorization (da_id d) (da_requested_remote_url d) (da_requested_repository_id d)
    (da_approved_user_id d) "expired" (da_created_at d) (da_expires_at d) (da_approved_at d)
    (da_consumed_at d).

Module Devices.
Section Ops.
Context `{Env}.

Definition create_device_authorization (input : CreateDeviceAuthorizationInput)
    : H State DeviceAuthorization :=
  if is_empty (trim (cda_device_code input)) || is_empty (trim (cda_user_code input))
     || is_empty (trim (cda_requested_repository_id input))
  then throw (InvalidArgument
         "device_code, user_code, and requested_repository_id are required")
  else
    id <- uuid_v4 ;;
    created_at <- now_unix ;;
    expires_at <- unix_after (cda_ttl input) ;;
    let device := mkDeviceAuthorization id (cda_requested_remote_url input)
      (cda_requested_repository_id input) "" "pending" created_at expires_at 0 0 in
    modify_state (upd_device_code_index (<[hash_code (cda_device_code input) := id]>)) ;;;
    modify_state (upd_user_code_index (<[hash_code (cda_user_code input) := id]>)) ;;;
    modify_state (upd_device_authorizations (<[id := device]>)) ;;;
    ret device.

Definition device_by_user_code (user_code : string) : H State DeviceAuthorization :=
  s <- get_state ;;
  id <- ok_or (user_code_index s !! hash_code user_code) NotFound ;;
  ok_or (device_authorizations s !! id) NotFound.

Definition device_by_device_code (device_code : string) : H State DeviceAuthorization :=
  s <- get_state ;;
  id <- ok_or (device_code_index s !! hash_code device_code) NotFound ;;
  ok_or (device_authorizations s !! id) NotFound.

(** [||] reads the clock only when the device is pending. *)
Definition approve_device_authorization (id user_id : string) : H State () :=
  s <- get_state ;;
  device <- ok_or (device_authorizations s !! id) NotFound ;;
  if negb (String.eqb (da_status device) "pending") then throw NotFound else
  now <- now_unix ;;
  if (da_expires_at device <=? now)%Z then throw NotFound else
  approved_at <- now_unix ;;
  modify_state (upd_device_authorizations (<[id := device_approved user_id approved_at device]>)).

Definition consume_device_authorization (id : string) : H State () :=
  s <- get_state ;;
  device <- ok_or (device_authorizations s !! id) NotFound ;;
  if negb (String.eqb (da_status device) "approved") then throw NotFound else
  consumed_at <- now_unix ;;
  modify_state (upd_device_authorizations (<[id := device_consumed consumed_at device]>)).

Definition expire_device_authorization (id : string) : H State () :=
  s <- get_state ;;
  match device_authorizations s !! id with
  | Some device =>
      if String.eqb (da_status device) "pending"
      then modify_state (upd_device_authorizations (<[id := device_expired device]>))
      else ret tt
  | None => ret tt
  end.
End Ops.
End Devices.

(** In-place updates of a session row. *)
Definition session_completed (user_id : string) (s : AuthSession) : AuthSession :=
  mkAuthSession (as_id s) (as_client_state_hash s) "completed" user_id (as_login_url_nonce s)
    (as_expires_at s).
Definition session_consumed (s : AuthSession) : AuthSession :=
  mkAuthSession (as_id s) (as_client_state_hash s) "consumed" (as_user_id s)
    (as_login_url_nonce s) (as_expires_at s).

Module Sessions.
Section Ops.
Context `{Env}.

Definition create_auth_session (client_state : string) (ttl : Duration)
    : H State (string * AuthSession) :=
  code <- uuid_v4 ;;
  id <- uuid_v4 ;;
  login_url_nonce <- uuid_v4 ;;
  expires_at <- unix_after ttl ;;
  let session :=
    mkAuthSession id (hash_secret client_state) "pending" "" login_url_nonce expires_at in
  modify_state (upd_auth_session_codes (<[hash_secret code := id]>)) ;;;
  modify_state (upd_auth_sessions (<[id := session]>)) ;;;
  ret (code, session).

Definition get_auth_session_by_code (code : string) : H State AuthSession :=
  s <- get_state ;;
  id <- ok_or (auth_session_codes s !! hash_secret code) AuthSessionNotFound ;;
  session <- ok_or (auth_sessions s !! id) AuthSessionNotFound ;;
  not_expired session.

Definition get_auth_session_by_nonce (nonce : string) : H State AuthSession :=
  s <- get_state ;;
  session <- ok_or (find_value (λ session, String.eqb (as_login_url_nonce session) nonce)
                      (auth_sessions s)) AuthSessionNotFound ;;
  not_expired session.

Definition complete_auth_session (id user_id : string) : H State () :=
  s <- get_state ;;
  session <- ok_or (auth_sessions s !! id) AuthSessionNotFound ;;
  if negb (String.eqb (as_status session) "pending") then throw AuthSessionNotFound else
  now <- now_unix ;;
  if (as_expires_at session <=? now)%Z then throw AuthSessionNotFound else
  modify_state (upd_auth_sessions (<[id := session_completed user_id session]>)).

Definition consume_auth_session (id : string) : H State () :=
  s <- get_state ;;
  session <- ok_or (auth_sessions s !! id) AuthSessionNotFound ;;
  if negb (String.eqb (as_status session) "completed") then throw AuthSessionNotFound else
  now <- now_unix ;;
  if (as_expires_at session <=? now)%Z then throw AuthSessionNotFound else
  modify_state (upd_auth_sessions (<[id := session_consumed session]>)).

Definition create_login_state (input : LoginStateInput) (ttl : Duration)
    : H State (string * LoginState) :=
  state_value <- uuid_v4 ;;
  id <- uuid_v4 ;;
  expires_at <- unix_after ttl ;;
  let login_state := mkLoginState id (lsi_provider_id input) (lsi_nonce input)
    (lsi_login_url_nonce input) (lsi_return_path input) (lsi_private_state input) expires_at in
  modify_state (upd_login_states (<[hash_secret state_value := login_state]>)) ;;;
  ret (state_value, login_state).

Definition set_login_state_private_state (state : string) (private_state : list Byte.byte)
    : H State () :=
  s <- get_state ;;
  l <- ok_or (login_states s !! hash_secret state) NotFound ;;
  now <- now_unix ;;
  if (ls_expires_at l <=? now)%Z then throw NotFound else
  modify_state (upd_login_states (<[hash_secret state :=
    mkLoginState (ls_id l) (ls_provider_id l) (ls_nonce l) (ls_login_url_nonce l)
      (ls_return_path l) private_state (ls_expires_at l)]>)).

(** The row is removed even when it turns out to be expired. *)
Definition consume_login_state (state : string) : H State LoginState :=
  s <- get_state ;;
  modify_state (upd_login_states (delete (hash_secret state))) ;;;
  match login_states s !! hash_secret state with
  | None => throw NotFound
  | Some login_state =>
      now <- now_unix ;;
      if (now <? ls_expires_at login_state)%Z then ret login_state else throw NotFound
  end.

Definition create_browser_session (user_id : string) (ttl : Duration) : H State BrowserSession :=
  id <- uuid_v4 ;;
  expires_at <- unix_after ttl ;;
  modify_state (upd_browser_sessions (<[id := user_id]>)) ;;;
  ret (mkBrowserSession id user_id expires_at).

Definition user_by_browser_session (session_id : string) : H State User :=
  s <- get_state ;;
  user_id <- ok_or (browser_sessions s !! session_id) NotFound ;;
  user <- ok_or (users s !! user_id) NotFound ;;
  if String.eqb (u_status user) "active" then ret user else throw NotFound.

Definition revoke_browser_session (session_id : string) : H State () :=
  modify_state (upd_browser_sessions (delete session_id)).

Definition create_csrf_token (session_id : string) (ttl : Duration) : H State string :=
  token <- uuid_v4 ;;
  expires_at <- unix_after ttl ;;
  modify_state (upd_csrf_tokens (<[hash_secret token := mkCsrfToken session_id expires_at false]>)) ;;;
  ret token.

Definition consume_csrf_token (session_id token : string) : H State () :=
  s <- get_state ;;
  csrf <- ok_or (csrf_tokens s !! hash_secret token) NotFound ;;
  if negb (String.eqb (ct_session_id csrf) session_id) || ct_consumed csrf then throw NotFound else
  now <- now_unix ;;
  if (ct_expires_at csrf <=? now)%Z then throw NotFound else
  modify_state (upd_csrf_tokens (<[hash_secret token :=
    mkCsrfToken (ct_session_id csrf) (ct_expires_at csrf) true]>)).

Definition match_client_state (session : AuthSession) (client_state : string) : bool :=
  String.eqb (as_client_state_hash session) (hash_secret client_state).
End Ops.
End Sessions.
