(* ===== verification/MemTokens.v ===== *)
(** Tokens, the logs and the signing-key stubs of the in-memory adapter ([memory/tokens.rs]),
    and its repositories ([memory/resources.rs]) with the fixture methods of [Store] that they
    call ([memory/mod.rs]). *)

From Stdlib Require Import ZArith Lia Ascii.
From stdpp Require Import base gmap strings list.
From S2P Require Import Prelude Model MemState.

Module Tokens.
Section Ops.
Context `{Env}.

Definition sign_authn (input : AuthnTokenInput) : H State SignedToken :=
  jti <- ensure_jti (ani_jti input) ;;
  issued_at <- unix_or_now (ani_now input) ;;
  let expires_at := wrap_i64 (issued_at + seconds_or_default (ani_ttl input) (60 * 60)) in
  suffix <- uuid_v4 ;;
  let token := "authn:" +:+ ani_subject input +:+ ":" +:+ suffix in
  modify_state (upd_tokens (<[token :=
    mkVerifiedToken (ani_subject input) jti (ani_idp input) expires_at (ani_audience input) []]>)) ;;;
  ret (mkSignedToken token jti "memory" "" issued_at expires_at [] (ani_audience input)).

Definition sign_authz (input : AuthzTokenInput) : H State SignedToken :=
  jti <- ensure_jti (azi_jti input) ;;
  issued_at <- unix_or_now (azi_now input) ;;
  let expires_at := wrap_i64 (issued_at + seconds_or_default (azi_ttl input) (15 * 60)) in
  suffix <- uuid_v4 ;;
  let token := "authz:" +:+ azi_subject input +:+ ":" +:+ suffix in
  let '(lore_resource_id, permissions) :=
    match head (azi_resources input) with
    | Some resource => (rp_resource_id resource, rp_permission resource)
    | None => ("", [])
    end in
  ret (mkSignedToken token jti "memory" lore_resource_id issued_at expires_at permissions
         (azi_audience input)).

Definition verify (compact : string) (_opts : VerifyOptions) : H State VerifiedToken :=
  let token := default compact (strip_prefix "Bearer " compact) in
  s <- get_state ;;
  ok_or (tokens s !! token) Unauthenticated.

(** The bytes of [{"keys":[]}]. *)
Definition jwks : H State (list Byte.byte) :=
  ret [Byte.x7b; Byte.x22; Byte.x6b; Byte.x65; Byte.x79; Byte.x73; Byte.x22; Byte.x3a;
       Byte.x5b; Byte.x5d; Byte.x7d].

Definition record_issued (token : IssuedToken) : H State () :=
  modify_state (upd_issued_tokens (<[it_jti token := token]>)).

Definition record_audit (entry : AdminAuditEntry) : H State () :=
  modify_state (upd_admin_audit (λ l, l ++ [entry])).

Definition generate_active_key (_kid _alg : string) (_bits : N) : H State SigningKeyMeta :=
  throw Unsupported.

Definition list_keys : H State (list SigningKeyMeta) := ret [].
End Ops.
End Tokens.

Definition or_else_str (s alternative : string) : string := if is_empty s then alternative else s.

Module Resources.
Section Ops.
Context `{Env}.

Definition add_test_resource (resource : Resource) : H State Resource :=
  id <- (if is_empty (r_id resource) then uuid_v4 else ret (r_id resource)) ;;
  let resource_id := or_else_str (r_resource_id resource)
    (default "" (for_repository_id (r_lore_repository_id resource))) in
  let lore_repository_id := or_else_str (r_lore_repository_id resource)
    (repository_id_from_resource_id resource_id) in
  let status := or_else_str (r_status resource) "active" in
  let resource := mkResource id (r_name resource) (r_remote_url resource) lore_repository_id
    resource_id status in
  modify_state (upd_resources (<[resource_id := resource]>)) ;;;
  ret resource.

Definition upsert (resource : Resource) : H State () :=
  resource <- lift (normalize_resource_for_upsert resource) ;;
  add_test_resource resource ;;;
  ret tt.

Definition delete_resource (resource_id : string) : H State () :=
  s <- get_state ;;
  match resources s !! resource_id with
  | Some _ => modify_state (upd_resources (delete resource_id))
  | None => throw NotFound
  end.

Definition get_by_id (id : string) : H State Resource :=
  s <- get_state ;;
  ok_or (find_value (λ r, String.eqb (r_id r) id) (resources s)) NotFound.

Definition get_by_resource_id (resource_id : string) : H State Resource :=
  s <- get_state ;;
  ok_or (resources s !! resource_id) NotFound.

Definition get_by_name (name : string) : H State Resource :=
  s <- get_state ;;
  ok_or (find_value (λ r, String.eqb (r_name r) name) (resources s)) NotFound.

Definition list_resources : H State (list Resource) :=
  s <- get_state ;;
  ret (sort_by (λ left right, str_leb (r_resource_id left) (r_resource_id right))
    (filter (λ r, r_status r ≠ "deleted") (hash_values (resources s)))).
End Ops.
End Resources.
