(* ===== verification/MemAccounts.v ===== *)
(** The account directory of the in-memory adapter ([memory/accounts.rs]) and the
    user and identity fixtures of [Store] ([memory/mod.rs]). *)

From Stdlib Require Import ZArith Lia Ascii.
From stdpp Require Import base gmap strings list.
From S2P Require Import Prelude Model MemState MemGroups.

(** In-place updates of a user or invitation row. *)
Definition user_with_status (status : string) (u : User) : User :=
  mkUser (u_id u) (u_email u) (u_display_name u) status (u_last_login_at u).
Definition user_bound (email display_name : string) (u : User) : User :=
  mkUser (u_id u) email display_name "active" (u_last_login_at u).
Definition invitation_accepted (identity_id : string) (i : IdentityInvitation)
    : IdentityInvitation :=
  mkIdentityInvitation (ii_id i) (ii_user_id i) (ii_provider_id i) (ii_issuer i) (ii_email i)
    (ii_binding_policy i) "accepted" identity_id (ii_expires_at i) (ii_accepted_at i).

Module Accounts.
Section Ops.
Context `{Env}.

Definition groups_of (s : State) (user_id : string) : list string :=
  default [] (group_members s !! user_id).

(** The filter that selects the invitation a verified e-mail address may claim. *)
Definition invitation_matches (identity : ExternalIdentity) (now : Z)
    (invitation : IdentityInvitation) : bool :=
  String.eqb (ii_provider_id invitation) (ei_provider_id identity)
  && String.eqb (ii_issuer invitation) (ei_issuer identity)
  && String.eqb (ii_status invitation) "pending"
  && ((ii_expires_at invitation =? 0)%Z || (now <? ii_expires_at invitation)%Z)
  && String.eqb (trim (ii_binding_policy invitation)) "verified_email_invitation"
  && eq_ignore_ascii_case (trim (ii_email invitation)) (trim (ei_email identity)).

Definition bound_identity (identity : ExternalIdentity) (id user_id : string)
    : ExternalIdentity :=
  mkExternalIdentity id user_id (ei_provider_id identity) (ei_issuer identity)
    (ei_subject identity)
    (if is_empty (ei_subject_strategy identity) then "oidc_sub" else ei_subject_strategy identity)
    (ei_email identity) (ei_email_verified identity) (ei_display_name identity)
    (ei_picture_url identity) (ei_hosted_domain identity) "active".

Definition existing_login (identity existing : ExternalIdentity)
    : H State (TokenPrincipal * LoginBindingResult) :=
  s <- get_state ;;
  user <- lift (active_user s (ei_user_id existing)) ;;
  ret (principal_from_user user (ei_provider_id identity) (groups_of s (ei_user_id existing)),
       mkLoginBindingResult "existing" (ei_id existing) "").

(** The identity row is inserted before the invited user is looked up. *)
Definition bind_invitation (identity : ExternalIdentity) (key invitation_id : string)
    : H State (TokenPrincipal * LoginBindingResult) :=
  s <- get_state ;;
  invitation <- ok_or (invitations s !! invitation_id) NotFound ;;
  id <- uuid_v4 ;;
  let user_id := ii_user_id invitation in
  modify_state (upd_identities (<[key := bound_identity identity id user_id]>)) ;;;
  user <- ok_or (users s !! user_id) NotFound ;;
  modify_state (upd_users (<[user_id :=
    user_bound (ei_email identity) (ei_display_name identity) user]>)) ;;;
  modify_state (upd_invitations (alter (invitation_accepted id) invitation_id)) ;;;
  s <- get_state ;;
  user <- lift (active_user s user_id) ;;
  ret (principal_from_user user (ei_provider_id identity) (groups_of s user_id),
       mkLoginBindingResult "bound_invitation" id invitation_id).

(** The second half of [resolve_login]: claim a pending invitation, or fail. *)
Definition claim_invitation (req : LoginResolutionRequest) (key : string)
    : H State (TokenPrincipal * LoginBindingResult) :=
  let identity := lrr_identity req in
  if ei_email_verified identity
     && negb (is_empty (trim (ei_email identity)))
     && allows_verified_email_invitation_binding (lrr_policy req)
     && email_domain_allowed (ei_email identity) (ltp_allowed_email_domains (lrr_policy req))
  then
    now <- now_unix ;;
    s <- get_state ;;
    match find_entry (λ entry, invitation_matches identity now entry.2) (invitations s) with
    | Some (invitation_id, _) => bind_invitation identity key invitation_id
    | None => throw NotFound
    end
  else throw NotFound.

Definition resolve_login (req : LoginResolutionRequest)
    : H State (TokenPrincipal * LoginBindingResult) :=
  let identity := lrr_identity req in
  let key := external_identity_key identity in
  s <- get_state ;;
  match identities s !! key with
  | Some existing =>
      if String.eqb (ei_status existing) "active" then existing_login identity existing
      else claim_invitation req key
  | None => claim_invitation req key
  end.

Definition principal_by_user_id (user_id : string) : H State TokenPrincipal :=
  s <- get_state ;;
  user <- lift (active_user s user_id) ;;
  ret (principal_from_user user "bridge" (groups_of s user_id)).

Definition principal_by_authn_token_jti (jti : string) : H State TokenPrincipal :=
  s <- get_state ;;
  token <- ok_or (issued_tokens s !! jti) NotFound ;;
  if negb (String.eqb (it_kind token) "authn") then throw NotFound else
  now <- now_unix ;;
  if negb (now <? it_expires_at token)%Z || is_empty (it_user_id token) then throw NotFound else
  user <- ok_or (users s !! it_user_id token) NotFound ;;
  if negb (String.eqb (u_status user) "active") then throw NotFound else
  ret (principal_from_user user "bridge" (groups_of s (it_user_id token))).

Definition add_user (input : AddUserInput) : H State User :=
  email <- lift (validated_account_email (aui_email input)) ;;
  id <- uuid_v4 ;;
  let user := mkUser id email (aui_display_name input) "active" 0 in
  modify_state (upd_users (<[id := user]>)) ;;;
  ret user.

(** The user and invitation rows that [add_invitation] builds. *)
Definition invited (input : AddInvitationInput) : H State (User * IdentityInvitation) :=
  if is_empty (trim (aii_provider_id input)) || is_empty (trim (aii_issuer input))
  then throw (InvalidArgument "provider_id, issuer, and email are required")
  else
    email <- lift (validated_account_email (aii_email input)) ;;
    user_id <- uuid_v4 ;;
    let user := mkUser user_id email (aii_display_name input) "pending" 0 in
    id <- uuid_v4 ;;
    ret (user, mkIdentityInvitation id user_id (aii_provider_id input) (aii_issuer input) email
      (if is_empty (trim (aii_binding_policy input)) then "verified_email_invitation"
       else aii_binding_policy input)
      "pending" "" (aii_expires_at input) 0).

Definition add_invitation (input : AddInvitationInput) : H State (User * IdentityInvitation) :=
  let! (user, invitation) := invited input in
  modify_state (upd_users (<[u_id user := user]>)) ;;;
  modify_state (upd_invitations (<[ii_id invitation := invitation]>)) ;;;
  ret (user, invitation).

Definition disable_user (user_id_or_email : string) : H State () :=
  s <- get_state ;;
  user_id <- lift (resolve_user_id s user_id_or_email) ;;
  user <- ok_or (users s !! user_id) NotFound ;;
  modify_state (upd_users (<[user_id := user_with_status "disabled" user]>)).

Definition enable_user (user_id_or_email : string) : H State () :=
  s <- get_state ;;
  user_id <- lift (resolve_user_id s user_id_or_email) ;;
  user <- ok_or (users s !! user_id) NotFound ;;
  if negb (String.eqb (u_status user) "deleted")
  then modify_state (upd_users (<[user_id := user_with_status "active" user]>))
  else throw NotFound.

Definition user_by_id (user_id : string) : H State User :=
  s <- get_state ;;
  user <- ok_or (users s !! user_id) NotFound ;;
  if negb (String.eqb (u_status user) "deleted") then ret user else throw NotFound.

Definition user_selected (query : string) (user : User) : bool :=
  negb (String.eqb (u_status user) "deleted")
  && (is_empty query
      || contains query (normalize_email (u_email user))
      || contains query (to_ascii_lowercase (u_display_name user))).

Definition list_users (f : UserListFilter) : H State (list User) :=
  let query := to_ascii_lowercase (trim (ulf_query f)) in
  s <- get_state ;;
  ret (truncate (effective_limit (ulf_limit f))
    (sort_by user_leb (filter (λ u, user_selected query u = true) (hash_values (users s))))).

(** Fixtures of [Store]. *)
Definition add_test_user (user : User) : H State User :=
  id <- (if is_empty (u_id user) then uuid_v4 else ret (u_id user)) ;;
  let user := mkUser id (u_email user) (u_display_name user)
    (if is_empty (u_status user) then "active" else u_status user) (u_last_login_at user) in
  modify_state (upd_users (<[id := user]>)) ;;;
  ret user.

Definition disable_test_user (user_id : string) : H State () :=
  modify_state (upd_users (alter (user_with_status "disabled") user_id)).

Definition add_test_external_identity (identity : ExternalIdentity) : H State ExternalIdentity :=
  id <- (if is_empty (ei_id identity) then uuid_v4 else ret (ei_id identity)) ;;
  let identity := mkExternalIdentity id (ei_user_id identity) (ei_provider_id identity)
    (ei_issuer identity) (ei_subject identity)
    (if is_empty (ei_subject_strategy identity) then "oidc_sub" else ei_subject_strategy identity)
    (ei_email identity) (ei_email_verified identity) (ei_display_name identity)
    (ei_picture_url identity) (ei_hosted_domain identity)
    (if is_empty (ei_status identity) then "active" else ei_status identity) in
  modify_state (upd_identities (<[external_identity_key identity := identity]>)) ;;;
  ret identity.
End Ops.
End Accounts.
