(* ===== verification/MemGrants.v ===== *)
(** Grants and the authorization policy of the in-memory adapter ([memory/grants.rs]). *)

From Stdlib Require Import ZArith Lia Ascii.
From stdpp Require Import base gmap strings list.
From S2P Require Import Prelude Model MemState MemGraph.

Module Grants.
Section Ops.
Context `{Env}.

Definition can_access (user_id resource_id action : string) : H State bool :=
  s <- get_state ;;
  ret (existsb (λ role, role_allows role action)
    (omap (λ subject, resources ← grants s !! subject; resources !! resource_id)
      (grant_subject_keys_for_user s user_id))).

(** The nested loops of [list_accessible]: one entry of the result per resource. *)
Fixpoint accessible_entries (prefix : string) (entries : list (string * string))
    (acc : gmap string (gset Permission)) : H State (gmap string (gset Permission)) :=
  match entries with
  | [] => ret acc
  | (resource_id, role) :: entries =>
      if negb (is_empty prefix) && negb (starts_with prefix resource_id)
      then accessible_entries prefix entries acc
      else
        permission <- ok_or (role_permissions role)
          (InvalidArgument ("unknown role " +:+ str_debug role)) ;;
        accessible_entries prefix entries
          (<[resource_id := default ∅ (acc !! resource_id) ∪ list_to_set permission]> acc)
  end.

Fixpoint accessible_subjects (s : State) (prefix : string) (subjects : list (string * string))
    (acc : gmap string (gset Permission)) : H State (gmap string (gset Permission)) :=
  match subjects with
  | [] => ret acc
  | subject :: subjects =>
      acc <- accessible_entries prefix (hash_iter (default ∅ (grants s !! subject))) acc ;;
      accessible_subjects s prefix subjects acc
  end.

Definition list_accessible (user_id : string) (f : ResourceFilter)
    : H State (list ResourcePermission) :=
  s <- get_state ;;
  resources <- accessible_subjects s (rf_prefix f) (grant_subject_keys_for_user s user_id) ∅ ;;
  ret (sort_by (λ left right, str_leb (rp_resource_id left) (rp_resource_id right))
    ((λ entry, mkResourcePermission entry.1
       (sort_by (λ left right, str_leb (permission_as_str left) (permission_as_str right))
         (hashset_iter entry.2))) <$> hash_iter resources)).

Definition insert_grant (subject : string * string) (resource_id role : string)
    (m : gmap (string * string) (gmap string string)) : gmap (string * string) (gmap string string) :=
  <[subject := <[resource_id := role]> (default ∅ (m !! subject))]> m.

Definition add_grant (subject_type subject_id repo role : string) : H State Grant :=
  if negb (is_known_role role)
  then throw (InvalidArgument ("unknown grant role " +:+ str_debug role)) else
  s <- get_state ;;
  subject_id <- lift (resolve_grant_subject_id s subject_type subject_id) ;;
  resource_id <- lift (resolve_resource_id_for_repo s repo) ;;
  modify_state (upd_grants (insert_grant (subject_type, subject_id) resource_id role)) ;;;
  id <- uuid_v4 ;;
  ret (mkGrant id subject_type subject_id repo role).

Definition remove_grant (subject_type subject_id repo _role : string) : H State () :=
  s <- get_state ;;
  subject_id <- lift (resolve_grant_subject_id s subject_type subject_id) ;;
  resource_id <- lift (resolve_resource_id_for_repo s repo) ;;
  modify_state (upd_grants (alter (delete resource_id) (subject_type, subject_id))).

Definition grant_leb (left right : Grant) : bool :=
  lex_leb [gr_repository_id left; gr_subject_type left; gr_subject_id left; gr_role left]
          [gr_repository_id right; gr_subject_type right; gr_subject_id right; gr_role right].

Definition list_grants (repo : string) : H State (list Grant) :=
  s <- get_state ;;
  resource_filter <-
    (if is_empty (trim repo) then ret None
     else id <- lift (resolve_resource_id_for_repo s repo) ;; ret (Some id)) ;;
  ret (sort_by grant_leb
    (concat ((λ entry : (string * string) * gmap string string,
      omap (λ rr : string * string,
        if match resource_filter with
           | Some resource_filter => negb (String.eqb resource_filter rr.1)
           | None => false
           end
        then None
        else Some (mkGrant "" entry.1.1 entry.1.2
          (default (repository_id_from_resource_id rr.1) (repository_pk_for_resource_id s rr.1))
          rr.2))
      (hash_iter entry.2)) <$> hash_iter (grants s)))).

Definition evidence_leb (left right : GrantEvidence) : bool :=
  lex_leb [ge_path left; ge_subject_type left; ge_subject_id left; ge_role left]
          [ge_path right; ge_subject_type right; ge_subject_id right; ge_role right].

Definition grants_for_user_on_repository (user_id resource_id : string)
    : H State (list GrantEvidence) :=
  s <- get_state ;;
  resource_id <- lift (resolve_exact_resource_id s resource_id) ;;
  user <- match users s !! user_id with
          | Some user => if negb (String.eqb (u_status user) "deleted") then ret user
                         else throw NotFound
          | None => throw NotFound
          end ;;
  let user_label := if is_empty (trim (u_email user)) then u_id user else u_email user in
  let direct :=
    match (grants s !! ("user", user_id)) ≫= (.!! resource_id) with
    | Some role =>
        [mkGrantEvidence "user" user_id user_label role ("user:" +:+ user_label +:+ " -> grant")]
    | None => []
    end in
  let via_groups :=
    omap (λ entry : string * string,
      match (grants s !! ("group", entry.1)) ≫= (.!! resource_id) with
      | Some role =>
          Some (mkGrantEvidence "group" entry.1 (group_label s entry.1) role
            ("user:" +:+ user_label +:+ " -> " +:+ entry.2 +:+ " -> grant"))
      | None => None
      end) (hash_iter (group_paths_for_user s user_id)) in
  ret (sort_by evidence_leb (direct ++ via_groups)).

(** Fixtures of [Store] ([memory/mod.rs]). *)
Definition grant_role (user_id resource_id role : string) : H State () :=
  modify_state (upd_grants (insert_grant ("user", user_id) resource_id role)).

Definition grant (user_id resource_id : string) : H State () :=
  grant_role user_id resource_id "writer".
End Ops.
End Grants.
