(* ===== verification/MemAudited.v ===== *)
(** The audited store of the in-memory adapter ([memory/audited.rs]): every admin
    write also appends an audit entry for the actor, under the same lock. *)

From Stdlib Require Import ZArith Lia Ascii.
From stdpp Require Import base gmap strings list.
From S2P Require Import Prelude Model MemState MemGraph MemGroups MemGrants MemAccounts.
From S2P Require Import MemTokens.

Module Audited.
Section Ops.
Context `{Env} (actor : string).

Definition push_audit (action object_type object_id detail : string) : H State () :=
  entry <- admin_audit_entry actor action object_type object_id detail ;;
  modify_state (upd_admin_audit (λ l, l ++ [entry])).

Definition add_group (name description : string) : H State Group :=
  if is_empty (trim name) then throw (InvalidArgument "group name must not be empty") else
  id <- uuid_v4 ;;
  let group := mkGroup id (trim name) description in
  modify_state (upd_groups (<[g_name group := group]>)) ;;;
  push_audit "group.add" "group" (g_id group) ("name=" +:+ g_name group) ;;;
  ret group.

Definition add_group_member (group user_email_or_id : string) : H State () :=
  s <- get_state ;;
  user_id <- lift (resolve_user_id s user_email_or_id) ;;
  modify_state (upd_group_members (λ m, <[user_id := default [] (m !! user_id) ++ [group]]> m)) ;;;
  push_audit "group.member.add" "group" group ("user=" +:+ user_email_or_id).

Definition remove_group_member (group user_email_or_id : string) : H State () :=
  s <- get_state ;;
  user_id <- lift (resolve_user_id s user_email_or_id) ;;
  match group_members s !! user_id with
  | Some groups =>
      modify_state (upd_group_members (<[user_id := filter (λ name, name ≠ group) groups]>))
  | None => ret tt
  end ;;;
  push_audit "group.member.remove" "group" group ("user=" +:+ user_email_or_id).

Definition add_group_group (parent_group member_group : string) : H State () :=
  s <- get_state ;;
  parent_group_id <- lift (resolve_group_id s parent_group) ;;
  member_group_id <- lift (resolve_group_id s member_group) ;;
  if String.eqb parent_group_id member_group_id
  then throw (InvalidArgument "group cannot contain itself")
  else if bool_decide (member_group_id ∈ default [] (group_groups s !! parent_group_id))
  then ret tt
  else if group_group_would_cycle s parent_group_id member_group_id
  then throw (InvalidArgument "group nesting would create a cycle")
  else
    modify_state (upd_group_groups (λ m,
      <[parent_group_id := default [] (m !! parent_group_id) ++ [member_group_id]]> m)) ;;;
    push_audit "group.nest.add" "group" parent_group ("member_group=" +:+ member_group).

Definition remove_group_group (parent_group member_group : string) : H State () :=
  s <- get_state ;;
  parent_group_id <- lift (resolve_group_id s parent_group) ;;
  member_group_id <- lift (resolve_group_id s member_group) ;;
  members <- ok_or (group_groups s !! parent_group_id) NotFound ;;
  match list_find (λ id, id = member_group_id) members with
  | None => throw NotFound
  | Some (index, _) =>
      modify_state (upd_group_groups (<[parent_group_id := delete index members]>)) ;;;
      push_audit "group.nest.remove" "group" parent_group ("member_group=" +:+ member_group)
  end.

Definition add_grant (subject_type subject_id repo role : string) : H State Grant :=
  if negb (is_known_role role)
  then throw (InvalidArgument ("unknown grant role " +:+ str_debug role)) else
  id <- uuid_v4 ;;
  s <- get_state ;;
  subject_id <- lift (resolve_grant_subject_id s subject_type subject_id) ;;
  resource_id <- lift (resolve_resource_id_for_repo s repo) ;;
  modify_state (upd_grants (Grants.insert_grant (subject_type, subject_id) resource_id role)) ;;;
  push_audit "grant.add" "grant" id (grant_detail subject_type subject_id repo role) ;;;
  ret (mkGrant id subject_type subject_id repo role).

Definition remove_grant (subject_type subject_id repo role : string) : H State () :=
  s <- get_state ;;
  subject_id <- lift (resolve_grant_subject_id s subject_type subject_id) ;;
  resource_id <- lift (resolve_resource_id_for_repo s repo) ;;
  modify_state (upd_grants (alter (delete resource_id) (subject_type, subject_id))) ;;;
  push_audit "grant.remove" "grant"
    (subject_type +:+ ":" +:+ subject_id +:+ ":" +:+ repo +:+ ":" +:+ role)
    (grant_detail subject_type subject_id repo role).

Definition add_user (input : AddUserInput) : H State User :=
  email <- lift (validated_account_email (aui_email input)) ;;
  id <- uuid_v4 ;;
  let user := mkUser id email (aui_display_name input) "active" 0 in
  modify_state (upd_users (<[id := user]>)) ;;;
  push_audit "user.add" "user" id ("email=" +:+ u_email user) ;;;
  ret user.

Definition add_invitation (input : AddInvitationInput) : H State (User * IdentityInvitation) :=
  let! (user, invitation) := Accounts.invited input in
  modify_state (upd_users (<[u_id user := user]>)) ;;;
  modify_state (upd_invitations (<[ii_id invitation := invitation]>)) ;;;
  push_audit "user.invite" "user" (u_id user)
    ("email=" +:+ u_email user +:+ " invitation_id=" +:+ ii_id invitation) ;;;
  ret (user, invitation).

Definition disable_user (user_id_or_email : string) : H State () :=
  s <- get_state ;;
  user_id <- lift (resolve_user_id s user_id_or_email) ;;
  user <- ok_or (users s !! user_id) NotFound ;;
  modify_state (upd_users (<[user_id := user_with_status "disabled" user]>)) ;;;
  push_audit "user.disable" "user" user_id ("email=" +:+ u_email user).

Definition enable_user (user_id_or_email : string) : H State () :=
  s <- get_state ;;
  user_id <- lift (resolve_user_id s user_id_or_email) ;;
  user <- ok_or (users s !! user_id) NotFound ;;
  if String.eqb (u_status user) "deleted" then throw NotFound else
  modify_state (upd_users (<[user_id := user_with_status "active" user]>)) ;;;
  push_audit "user.enable" "user" user_id ("email=" +:+ u_email user).

Definition upsert (resource : Resource) : H State () :=
  resource <- lift (normalize_resource_for_upsert resource) ;;
  id <- (if is_empty (r_id resource) then uuid_v4 else ret (r_id resource)) ;;
  let resource := mkResource id (r_name resource) (r_remote_url resource)
    (r_lore_repository_id resource) (r_resource_id resource)
    (if is_empty (r_status resource) then "active" else r_status resource) in
  modify_state (upd_resources (<[r_resource_id resource := resource]>)) ;;;
  push_audit "repository.add" "repository" (r_resource_id resource)
    ("name=" +:+ r_name resource +:+ " lore_repository_id=" +:+ r_lore_repository_id resource).

(** Unlike [Store::delete], the row stays, with status [deleted]. *)
Definition delete_resource (resource_id : string) : H State () :=
  s <- get_state ;;
  id <- ok_or (for_repository_id resource_id) (InvalidArgument "resource_id must not be empty") ;;
  r <- ok_or (resources s !! id) NotFound ;;
  modify_state (upd_resources (<[id :=
    mkResource (r_id r) (r_name r) (r_remote_url r) (r_lore_repository_id r) (r_resource_id r)
      "deleted"]>)) ;;;
  push_audit "repository.disable" "repository" id "".
End Ops.
End Audited.
