(* ===== verification/MemPorts.v ===== *)
(** The in-memory adapter as an implementation of the core's ports: [Store] and the
    actor-scoped [AuditedStore] with its factory ([memory/audited.rs]). *)

From Stdlib Require Import ZArith Lia Ascii.
From stdpp Require Import base gmap strings list.
From S2P Require Import Prelude Model Ports MemState MemGraph MemGroups MemSessions.
From S2P Require Import MemTokens MemAccounts MemGrants MemAudited.

Section Store.
Context `{Env}.

#[export] Instance store_account_query : AccountQuery State := {|
  user_by_id := Accounts.user_by_id;
  list_users := Accounts.list_users
|}.

#[export] Instance store_accounts : AccountDirectory State := {|
  account_query := store_account_query;
  resolve_login := Accounts.resolve_login;
  principal_by_user_id := Accounts.principal_by_user_id;
  principal_by_authn_token_jti := Accounts.principal_by_authn_token_jti;
  add_user := Accounts.add_user;
  add_invitation := Accounts.add_invitation;
  disable_user := Accounts.disable_user;
  enable_user := Accounts.enable_user
|}.

#[export] Instance store_authz : AuthorizationPolicy State := {|
  can_access := Grants.can_access;
  list_accessible := Grants.list_accessible
|}.

#[export] Instance store_resource_query : ResourceQuery State := {|
  get_by_id := Resources.get_by_id;
  get_by_resource_id := Resources.get_by_resource_id;
  get_by_name := Resources.get_by_name;
  list_resources := Resources.list_resources
|}.

#[export] Instance store_resources : ResourceStore State := {|
  resource_query := store_resource_query;
  upsert := Resources.upsert;
  delete_resource_row := Resources.delete_resource
|}.

#[export] Instance store_devices : DeviceAuthorizationStore State := {|
  create_device_authorization := Devices.create_device_authorization;
  device_by_user_code := Devices.device_by_user_code;
  device_by_device_code := Devices.device_by_device_code;
  approve_device_authorization := Devices.approve_device_authorization;
  consume_device_authorization := Devices.consume_device_authorization;
  expire_device_authorization := Devices.expire_device_authorization
|}.

#[export] Instance store_state : StateStore State := {|
  create_auth_session := Sessions.create_auth_session;
  get_auth_session_by_code := Sessions.get_auth_session_by_code;
  get_auth_session_by_nonce := Sessions.get_auth_session_by_nonce;
  complete_auth_session := Sessions.complete_auth_session;
  consume_auth_session := Sessions.consume_auth_session;
  create_login_state := Sessions.create_login_state;
  set_login_state_private_state := Sessions.set_login_state_private_state;
  consume_login_state := Sessions.consume_login_state;
  create_browser_session := Sessions.create_browser_session;
  user_by_browser_session := Sessions.user_by_browser_session;
  revoke_browser_session := Sessions.revoke_browser_session;
  create_csrf_token := Sessions.create_csrf_token;
  consume_csrf_token := Sessions.consume_csrf_token;
  match_client_state := Sessions.match_client_state
|}.

#[export] Instance store_signer : TokenSigner State := {|
  sign_authn := Tokens.sign_authn;
  sign_authz := Tokens.sign_authz;
  verify := Tokens.verify;
  jwks := Tokens.jwks
|}.

#[export] Instance store_issued_log : IssuedTokenLog State := {|
  record_issued := Tokens.record_issued
|}.

#[export] Instance store_audit_log : AdminAuditLog State := {|
  record_audit := Tokens.record_audit
|}.

#[export] Instance store_group_query : GroupQuery State := {|
  list_groups := Groups.list_groups;
  list_group_members := Groups.list_group_members;
  list_group_groups := Groups.list_group_groups
|}.

#[export] Instance store_group_admin : GroupAdmin State := {|
  add_group := Groups.add_group;
  add_group_member := Groups.add_group_member;
  remove_group_member := Groups.remove_group_member;
  add_group_group := Groups.add_group_group;
  remove_group_group := Groups.remove_group_group
|}.

#[export] Instance store_grant_query : GrantQuery State := {|
  list_grants := Grants.list_grants;
  grants_for_user_on_repository := Grants.grants_for_user_on_repository
|}.

#[export] Instance store_grant_admin : GrantAdmin State := {|
  add_grant := Grants.add_grant;
  remove_grant := Grants.remove_grant
|}.

#[export] Instance store_signing_keys : SigningKeyAdmin State := {|
  generate_active_key := Tokens.generate_active_key;
  list_keys := Tokens.list_keys
|}.

(** [AuditedStore]: reads go to the inner store, writes are audited. *)
Definition audited_accounts (actor : string) : AccountDirectory State := {|
  account_query := store_account_query;
  resolve_login := Accounts.resolve_login;
  principal_by_user_id := Accounts.principal_by_user_id;
  principal_by_authn_token_jti := Accounts.principal_by_authn_token_jti;
  add_user := Audited.add_user actor;
  add_invitation := Audited.add_invitation actor;
  disable_user := Audited.disable_user actor;
  enable_user := Audited.enable_user actor
|}.

Definition audited_resources (actor : string) : ResourceStore State := {|
  resource_query := store_resource_query;
  upsert := Audited.upsert actor;
  delete_resource_row := Audited.delete_resource actor
|}.

Definition audited_groups (actor : string) : GroupAdmin State := {|
  add_group := Audited.add_group actor;
  add_group_member := Audited.add_group_member actor;
  remove_group_member := Audited.remove_group_member actor;
  add_group_group := Audited.add_group_group actor;
  remove_group_group := Audited.remove_group_group actor
|}.

Definition audited_grants (actor : string) : GrantAdmin State := {|
  add_grant := Audited.add_grant actor;
  remove_grant := Audited.remove_grant actor
|}.

(** [AuditedStoreFactory] *)
#[export] Instance audited_store_factory : AdminWritePortFactory State := {|
  for_actor := λ actor,
    mkAdminWritePorts State (audited_accounts actor) (audited_resources actor)
      (audited_groups actor) (audited_grants actor)
|}.
End Store.
