(* ===== verification/TokenSvc.v ===== *)
(** The token service of the core ([lore-auth-core/src/service/token.rs]). *)

From Stdlib Require Import ZArith Lia Ascii.
From stdpp Require Import base gmap strings list.
From S2P Require Import Prelude Model Ports.

Record TokenConfig := mkTokenConfig {
  tc_issuer : string;
  tc_audience : list string;
  tc_auth_service_audience : string;
  tc_authn_ttl : Duration;
  tc_authz_ttl : Duration
}.

(** The service holds trait objects, so it works over any adapter state. *)
Record TokenService (S : Type) := mkTokenService {
  ts_cfg : TokenConfig;
  ts_accounts : AccountDirectory S;
  ts_resources : ResourceStore S;
  ts_authz : AuthorizationPolicy S;
  ts_signer : TokenSigner S;
  ts_log : option (IssuedTokenLog S)
}.
Arguments mkTokenService {S}.
Arguments ts_cfg {S} _.
Arguments ts_accounts {S} _.
Arguments ts_resources {S} _.
Arguments ts_authz {S} _.
Arguments ts_signer {S} _.
Arguments ts_log {S} _.

Definition user_from_token_principal (principal : TokenPrincipal) : User :=
  mkUser (tp_user_id principal) (tp_preferred_username principal) (tp_display_name principal)
    "active" 0.

(** [expires_in_seconds(expires_at, now)]; [now] in seconds from the epoch. *)
Definition expires_in_seconds (expires_at now : Z) : Z := Z.max (wrap_i64 (expires_at - unix_of now)) 0.

Section Service.
Context `{Env} {S : Type} (self : TokenService S).

Definition authn_audience : list string :=
  let out := tc_audience (ts_cfg self) in
  let aud := tc_auth_service_audience (ts_cfg self) in
  if negb (is_empty aud) && negb (existsb (λ a, String.eqb a aud) out) then out ++ [aud] else out.

Definition record (signed : SignedToken) (user_id kind role : string) : H S () :=
  match ts_log self with
  | None => ret tt
  | Some log =>
      map_err (λ _, TokenIssueFailed)
        (record_issued log
          (mkIssuedToken (stk_jti signed) kind user_id "" (stk_lore_resource_id signed) role
            (stk_kid signed) (stk_audience signed) (stk_issued_at signed) (stk_expires_at signed)))
  end.

Definition mint_authn (user_id : string) (ttl : option Duration) : H S (SignedToken * User) :=
  principal <- principal_by_user_id (ts_accounts self) user_id ;;
  let user := user_from_token_principal principal in
  signed <- map_err (λ _, TokenIssueFailed)
    (sign_authn (ts_signer self)
      (mkAuthnTokenInput (tc_issuer (ts_cfg self)) authn_audience (tp_token_subject principal)
        (tp_display_name principal) (tp_preferred_username principal) (tp_groups principal)
        (tp_token_idp principal) (default (tc_authn_ttl (ts_cfg self)) ttl) None "")) ;;
  record signed (u_id user) "authn" "authn" ;;;
  ret (signed, user).

(** The compact token of an [Authorization] value. *)
Definition bearer_compact (bearer : string) : string :=
  trim (default bearer (strip_prefix "Bearer " (trim bearer))).

Definition with_idp (idp : string) (p : TokenPrincipal) : TokenPrincipal :=
  mkTokenPrincipal (tp_user_id p) (tp_token_subject p) idp (tp_display_name p)
    (tp_preferred_username p) (tp_groups p).

Definition verify_authn (bearer : string) : H S VerifiedAuthn :=
  let compact := bearer_compact bearer in
  if is_empty compact then throw Unauthenticated else
  verified <- map_err (λ _, Unauthenticated)
    (verify (ts_signer self) compact
      (mkVerifyOptions (tc_issuer (ts_cfg self)) (tc_auth_service_audience (ts_cfg self)))) ;;
  if is_empty (vt_jti verified) then throw Unauthenticated else
  principal <- principal_by_authn_token_jti (ts_accounts self) (vt_jti verified) ;;
  let principal := if negb (is_empty (vt_idp verified)) then with_idp (vt_idp verified) principal
                   else principal in
  ret (mkVerifiedAuthn (vt_subject verified) principal (user_from_token_principal principal)).

(** One iteration of the loop of [exchange_authz]. *)
Definition exchange_resource (user_id resource_id : string) : H S ResourcePermission :=
  resource <- get_by_resource_id (resource_query (ts_resources self)) resource_id ;;
  allowed <- can_access (ts_authz self) user_id (r_resource_id resource) "write" ;;
  if negb allowed then throw PermissionDenied else
  ret (mkResourcePermission (r_resource_id resource) [PermRead; PermWrite]).

Definition authz_input (authn : VerifiedAuthn) (resources : list ResourcePermission)
    (ttl : option Duration) : AuthzTokenInput :=
  let p := va_principal authn in
  mkAuthzTokenInput (tc_issuer (ts_cfg self)) (tc_audience (ts_cfg self)) (tp_token_subject p)
    (tp_display_name p) (tp_preferred_username p) (tp_groups p) (tp_token_idp p) resources
    (default (tc_authz_ttl (ts_cfg self)) ttl) None "".

Definition exchange_authz (authn : VerifiedAuthn) (resource_ids : list string)
    (ttl : option Duration) : H S SignedToken :=
  if is_empty (tp_user_id (va_principal authn)) then throw Unauthenticated else
  match resource_ids with
  | [] => throw (InvalidArgument "resource_id is required")
  | _ =>
      resources <- map_m (exchange_resource (tp_user_id (va_principal authn))) resource_ids ;;
      signed <- map_err (λ _, TokenIssueFailed)
        (sign_authz (ts_signer self) (authz_input authn resources ttl)) ;;
      record signed (tp_user_id (va_principal authn)) "authz" "authz" ;;;
      ret signed
  end.

Definition manual_mint_authz (user_id repo_name role : string) (ttl : option Duration)
    : H S SignedToken :=
  let role := if is_empty role then "writer" else role in
  if negb (String.eqb role "writer")
  then throw (InvalidArgument ("MVP only issues writer tokens; got " +:+ str_debug role)) else
  principal <- principal_by_user_id (ts_accounts self) user_id ;;
  resource <- get_by_name (resource_query (ts_resources self)) repo_name ;;
  allowed <- can_access (ts_authz self) (tp_user_id principal) (r_resource_id resource) "write" ;;
  if negb allowed then throw PermissionDenied else
  exchange_authz
    (mkVerifiedAuthn (tp_token_subject principal) principal (user_from_token_principal principal))
    [r_resource_id resource] ttl.
End Service.
