(* ===== verification/PermissionSvc.v ===== *)
(** The permission and resource services of the core
    ([lore-auth-core/src/service/permission.rs] and [resource.rs]). *)

From Stdlib Require Import ZArith Lia Ascii.
From stdpp Require Import base gmap strings list.
From S2P Require Import Prelude Model Ports.

Record CheckedPermission := mkCheckedPermission {
  cp_resource_id : string;
  cp_allowed : bool;
  cp_permission : list Permission
}.

Record PermissionService (S : Type) := mkPermissionService {
  ps_resources : ResourceStore S;
  ps_authz : AuthorizationPolicy S
}.
Arguments mkPermissionService {S}.
Arguments ps_resources {S} _.
Arguments ps_authz {S} _.

Module Permissions.
Section Service.
Context {S : Type} (self : PermissionService S).

Definition check_one (user_id resource_id : string) : H S CheckedPermission :=
  resource <- attempt (get_by_resource_id (resource_query (ps_resources self)) resource_id) ;;
  match resource with
  | Err _ => ret (mkCheckedPermission resource_id false [])
  | Ok resource =>
      allowed <- can_access (ps_authz self) user_id (r_resource_id resource) "write" ;;
      ret (mkCheckedPermission (r_resource_id resource) allowed [PermRead; PermWrite])
  end.

Definition check (user_id : string) (resource_ids : list string) : H S (list CheckedPermission) :=
  map_m (check_one user_id) resource_ids.

Definition lookup (user_id : string) (f : ResourceFilter) : H S (list ResourcePermission) :=
  list_accessible (ps_authz self) user_id f.

Definition can_access (user_id resource_id action : string) : H S bool :=
  Ports.can_access (ps_authz self) user_id resource_id action.
End Service.
End Permissions.

Record ResourceService (S : Type) := mkResourceService { rs_store : ResourceStore S }.
Arguments mkResourceService {S}.
Arguments rs_store {S} _.

Module ResourceSvc.
Section Service.
Context {S : Type} (self : ResourceService S).

Definition create_resource (resource_id resource_name : string) : H S () :=
  upsert (rs_store self) (mkResource "" resource_name "" "" resource_id "").

Definition delete_resource (resource_id : string) : H S () :=
  delete_resource_row (rs_store self) resource_id.

Definition get (resource_id : string) : H S Resource :=
  get_by_resource_id (resource_query (rs_store self)) resource_id.

Definition get_by_name (name : string) : H S Resource :=
  Ports.get_by_name (resource_query (rs_store self)) name.

Definition list : H S (list Resource) := list_resources (resource_query (rs_store self)).
End Service.
End ResourceSvc.
