(* ===== verification/DeviceSvc.v ===== *)
(** The device-authorization service of the core
    ([lore-auth-core/src/service/device.rs]) and the code generator of the adapters crate
    ([lore-auth-adapters/src/device.rs]). *)

From Stdlib Require Import ZArith Lia Ascii.
From stdpp Require Import base gmap strings list.
From S2P Require Import Prelude Model Ports TokenSvc.

Record DeviceConfig := mkDeviceConfig {
  dc_public_base_url : string;
  dc_auth_url : string;
  dc_device_code_ttl : Duration;
  dc_poll_interval : Duration
}.

Record StartResult := mkStartResult {
  sr_device_code : string;
  sr_user_code : string;
  sr_verification_uri : string;
  sr_expires_in : Z;
  sr_interval : Z
}.

Record TokenResult := mkTokenResult {
  tr_status : string;
  tr_token_type : string;
  tr_access_token : string;
  tr_expires_in : Z;
  tr_auth_url : string;
  tr_remote_url : string
}.

(** [TokenResult { status, ..TokenResult::default() }] *)
Definition status_result (status : string) : TokenResult := mkTokenResult status "" "" 0 "" "".

Record Repository := mkRepository {
  rep_name : string;
  rep_remote_url : string
}.

Record PreviewResult := mkPreviewResult {
  pr_repository : Repository;
  pr_requested_remote_url : string
}.

Record DeviceService (S : Type) := mkDeviceService {
  dsv_cfg : DeviceConfig;
  dsv_devices : DeviceAuthorizationStore S;
  dsv_resources : ResourceStore S;
  dsv_authz : AuthorizationPolicy S;
  dsv_accounts : AccountDirectory S;
  dsv_tokens : TokenService S;
  dsv_codes : DeviceCodeGenerator S
}.
Arguments mkDeviceService {S}.
Arguments dsv_cfg {S} _.
Arguments dsv_devices {S} _.
Arguments dsv_resources {S} _.
Arguments dsv_authz {S} _.
Arguments dsv_accounts {S} _.
Arguments dsv_tokens {S} _.
Arguments dsv_codes {S} _.

Definition invalid_device_code (err : CoreError) : CoreError :=
  match err with NotFound => DeviceInvalidCode | other => other end.

Definition first_nonzero (values : list Duration) : Duration :=
  default dur_zero (List.find (λ value, negb (is_zero value)) values).

Definition seconds (ttl : Duration) : Z := i64_saturate (dur_secs ttl).

Module Device.
Section Service.
Context `{Env} {S : Type} (self : DeviceService S).

Definition start (remote_url repo_name : string) : H S StartResult :=
  repo <- get_by_name (resource_query (dsv_resources self)) repo_name ;;
  device_code <- gen_device_code (dsv_codes self) ;;
  user_code <- gen_user_code (dsv_codes self) ;;
  let ttl := first_nonzero [dc_device_code_ttl (dsv_cfg self); from_secs (10 * 60)] in
  create_device_authorization (dsv_devices self)
    (mkCreateDeviceAuthorizationInput device_code user_code remote_url (r_id repo) ttl) ;;;
  ret (mkStartResult device_code user_code
         (trim_end_matches "/"%char (dc_public_base_url (dsv_cfg self)) +:+ "/device")
         (seconds ttl)
         (seconds (first_nonzero [dc_poll_interval (dsv_cfg self); from_secs 5]))).

Definition device_by_user_code (user_code : string) : H S DeviceAuthorization :=
  map_err invalid_device_code (Ports.device_by_user_code (dsv_devices self) user_code).

Definition device_by_device_code (device_code : string) : H S DeviceAuthorization :=
  map_err invalid_device_code (Ports.device_by_device_code (dsv_devices self) device_code).

Definition ensure_pending (device : DeviceAuthorization) : H S () :=
  if negb (String.eqb (da_status device) "pending") then throw DeviceAuthorizationNotPending else
  now <- now_unix ;;
  if (da_expires_at device <=? now)%Z
  then
    expire_device_authorization (dsv_devices self) (da_id device) ;;;
    throw DeviceExpiredCode
  else if is_empty (da_requested_repository_id device) then throw DeviceIncompleteAuthorization
  else ret tt.

Definition repository_for_device (device : DeviceAuthorization) : H S Resource :=
  if is_empty (da_requested_repository_id device) then throw DeviceIncompleteAuthorization else
  get_by_id (resource_query (dsv_resources self)) (da_requested_repository_id device).

Definition preview (user_code : string) : H S PreviewResult :=
  device <- device_by_user_code user_code ;;
  ensure_pending device ;;;
  repo <- repository_for_device device ;;
  ret (mkPreviewResult (mkRepository (r_name repo) (r_remote_url repo))
         (da_requested_remote_url device)).

Definition approve (user_id user_code : string) : H S Repository :=
  device <- device_by_user_code user_code ;;
  ensure_pending device ;;;
  repo <- repository_for_device device ;;
  allowed <- can_access (dsv_authz self) user_id (r_resource_id repo) "write" ;;
  if negb allowed then throw PermissionDenied else
  principal <- principal_by_user_id (dsv_accounts self) user_id ;;
  approve_device_authorization (dsv_devices self) (da_id device) (tp_user_id principal) ;;;
  ret (mkRepository (r_name repo) (r_remote_url repo)).

(** The part of [token] after the device turned out to be approved. *)
Definition redeem (device : DeviceAuthorization) : H S TokenResult :=
  if is_empty (da_approved_user_id device) || is_empty (da_requested_repository_id device)
  then throw DeviceIncompleteAuthorization else
  repo <- repository_for_device device ;;
  signed <- manual_mint_authz (dsv_tokens self) (da_approved_user_id device) (r_name repo)
              "writer" None ;;
  consume_device_authorization (dsv_devices self) (da_id device) ;;;
  now <- system_now ;;
  ret (mkTokenResult "ok" "lore" (stk_token signed) (expires_in_seconds (stk_expires_at signed) now)
         (dc_auth_url (dsv_cfg self)) (r_remote_url repo)).

Definition token (device_code : string) : H S TokenResult :=
  device <- device_by_device_code device_code ;;
  now <- now_unix ;;
  if (da_expires_at device <=? now)%Z && String.eqb (da_status device) "pending"
  then
    expire_device_authorization (dsv_devices self) (da_id device) ;;;
    ret (status_result "expired_token")
  else if String.eqb (da_status device) "pending" then ret (status_result "authorization_pending")
  else if String.eqb (da_status device) "approved" then redeem device
  else ret (status_result (da_status device)).
End Service.
End Device.

Module UuidDeviceCodeGenerator.
Section Ops.
Context `{Env} {S : Type}.

Definition device_code : H S string :=
  a <- uuid_v4 ;;
  b <- uuid_v4 ;;
  ret (as_simple a +:+ as_simple b).

(** [raw[..8]], and its halves; a simple UUID has 32 bytes. *)
Definition user_code : H S string :=
  raw <- uuid_v4 ;;
  let code := to_ascii_uppercase (String.substring 0 8 (as_simple raw)) in
  ret (String.substring 0 4 code +:+ "-" +:+ String.substring 4 (String.length code - 4) code).
End Ops.
End UuidDeviceCodeGenerator.

#[export] Instance uuid_device_codes `{Env} {S} : DeviceCodeGenerator S := {|
  gen_device_code := UuidDeviceCodeGenerator.device_code;
  gen_user_code := UuidDeviceCodeGenerator.user_code
|}.
