(* ===== verification/LoginSvc.v ===== *)
(** The login service of the core ([lore-auth-core/src/service/login.rs]). *)

From Stdlib Require Import ZArith Lia Ascii.
From stdpp Require Import base gmap strings list.
From S2P Require Import Prelude Model Ports TokenSvc DeviceSvc.

Record LoginConfig := mkLoginConfig {
  lc_public_base_url : string;
  lc_session_ttl : Duration;
  lc_auth_session_ttl : Duration
}.

Record LoginService (S : Type) := mkLoginService {
  lsv_cfg : LoginConfig;
  lsv_idps : IdentityProviderRegistry S;
  lsv_users : AccountDirectory S;
  lsv_state : StateStore S;
  lsv_tokens : TokenService S
}.
Arguments mkLoginService {S}.
Arguments lsv_cfg {S} _.
Arguments lsv_idps {S} _.
Arguments lsv_users {S} _.
Arguments lsv_state {S} _.
Arguments lsv_tokens {S} _.

Record StartAuthSessionResult := mkStartAuthSessionResult {
  sas_session_code : string;
  sas_login_url : string
}.

Record AuthSessionTokenResult := mkAuthSessionTokenResult {
  ast_token : SignedToken;
  ast_user : User;
  ast_ready : bool
}.

Definition default_AuthSessionTokenResult : AuthSessionTokenResult :=
  mkAuthSessionTokenResult default_SignedToken default_User false.

Record OAuthCallbackResult := mkOAuthCallbackResult {
  ocr_identity : ExternalIdentity;
  ocr_user : User;
  ocr_browser_session : BrowserSession;
  ocr_unknown_user : bool;
  ocr_cli_complete : bool
}.

Definition with_provider_issuer (provider_id issuer : string) (i : ExternalIdentity)
    : ExternalIdentity :=
  mkExternalIdentity (ei_id i) (ei_user_id i) provider_id issuer (ei_subject i)
    (ei_subject_strategy i) (ei_email i) (ei_email_verified i) (ei_display_name i)
    (ei_picture_url i) (ei_hosted_domain i) (ei_status i).

(** [normalize_identity] mutates its argument; here it returns the new value. *)
Definition normalize_identity (identity : ExternalIdentity) (d : IdentityProviderDescriptor)
    : result CoreError ExternalIdentity :=
  let provider_id := if is_empty (ei_provider_id identity) then ipd_id d
                     else ei_provider_id identity in
  if negb (String.eqb provider_id (ipd_id d)) then Err Unauthenticated else
  let issuer := if is_empty (ei_issuer identity) then ipd_issuer d else ei_issuer identity in
  if negb (is_empty (ipd_issuer d)) && negb (String.eqb issuer (ipd_issuer d))
  then Err Unauthenticated
  else Ok (with_provider_issuer provider_id issuer identity).

Definition user_from_principal (principal : TokenPrincipal) : User :=
  mkUser (tp_user_id principal) (tp_preferred_username principal) (tp_display_name principal)
    "active" 0.

Definition auth_session_not_found (err : CoreError) : CoreError :=
  match err with
  | NotFound | AuthSessionNotFound => AuthSessionNotFound
  | other => other
  end.

Module Login.
Section Service.
Context `{Env} {S : Type} (self : LoginService S).

Definition identity_provider (provider_id : string)
    : result CoreError (IdentityProvider S * IdentityProviderDescriptor) :=
  let provider_id := if is_empty provider_id then idp_default_id (lsv_idps self)
                     else provider_id in
  if is_empty provider_id then Err Unsupported else
  match idp_get (lsv_idps self) provider_id with
  | None => Err NotFound
  | Some provider =>
      let d := descriptor provider in
      Ok (provider,
          if is_empty (ipd_id d)
          then mkIdentityProviderDescriptor provider_id (ipd_provider_type d)
                 (ipd_display_name d) (ipd_issuer d) (ipd_trust_policy d)
          else d)
  end.

Definition begin_auth (provider_id : string) (req : BeginAuthRequest) : H S BeginAuthResult :=
  let! (provider, _) := lift (identity_provider provider_id) in
  Ports.begin_auth provider req.

Definition auth_code_url (state : string) : H S string :=
  r <- begin_auth "" (mkBeginAuthRequest state "" "" "") ;;
  ret (bares_redirect_url r).

Definition providers : list IdentityProviderDescriptor := idp_list (lsv_idps self).

Definition default_provider_id : string := idp_default_id (lsv_idps self).

Definition has_provider (provider_id : string) : bool :=
  let provider_id := if is_empty provider_id then idp_default_id (lsv_idps self)
                     else provider_id in
  negb (is_empty provider_id)
  && match idp_get (lsv_idps self) provider_id with Some _ => true | None => false end.

Definition start_auth_session (client_state : string) : H S StartAuthSessionResult :=
  let ttl := first_nonzero [lc_auth_session_ttl (lsv_cfg self); lc_session_ttl (lsv_cfg self);
                            from_secs (10 * 60)] in
  let! (code, session) := create_auth_session (lsv_state self) client_state ttl in
  ret (mkStartAuthSessionResult code
         (trim_end_matches "/"%char (lc_public_base_url (lsv_cfg self)) +:+ "/login/session/"
            +:+ as_login_url_nonce session)).

Definition get_auth_session (session_code client_state : string) : H S AuthSessionTokenResult :=
  session <- map_err auth_session_not_found
               (get_auth_session_by_code (lsv_state self) session_code) ;;
  now <- now_unix ;;
  if (as_expires_at session <=? now)%Z then throw AuthSessionNotFound else
  if negb (match_client_state (lsv_state self) session client_state)
  then throw (InvalidArgument "client_state mismatch") else
  if negb (String.eqb (as_status session) "completed") || is_empty (as_user_id session)
  then ret default_AuthSessionTokenResult else
  let! (tok, user) := mint_authn (lsv_tokens self) (as_user_id session) None in
  consume_auth_session (lsv_state self) (as_id session) ;;;
  ret (mkAuthSessionTokenResult tok user true).

(** After a known user signed in: finish a CLI session if the nonce names one, or
    open a browser session. *)
Definition finish_login (identity : ExternalIdentity) (user : User) (login_nonce : string)
    : H S OAuthCallbackResult :=
  let browser : H S OAuthCallbackResult :=
    let ttl := first_nonzero [lc_session_ttl (lsv_cfg self); from_secs (60 * 60)] in
    browser_session <- create_browser_session (lsv_state self) (u_id user) ttl ;;
    ret (mkOAuthCallbackResult identity user browser_session false false) in
  if is_empty login_nonce then browser else
  auth_session <- attempt (get_auth_session_by_nonce (lsv_state self) login_nonce) ;;
  match auth_session with
  | Ok auth_session =>
      complete_auth_session (lsv_state self) (as_id auth_session) (u_id user) ;;;
      ret (mkOAuthCallbackResult identity user default_BrowserSession false true)
  | Err NotFound | Err AuthSessionNotFound => browser
  | Err err => throw err
  end.

Definition complete_auth (provider_id : string) (req : CompleteAuthRequest) (login_nonce : string)
    : H S OAuthCallbackResult :=
  let! (provider, d) := lift (identity_provider provider_id) in
  identity <- map_err (λ _, Unauthenticated) (Ports.complete_auth provider req) ;;
  identity <- lift (normalize_identity identity d) ;;
  resolved <- attempt (resolve_login (lsv_users self)
                         (mkLoginResolutionRequest identity (ipd_trust_policy d))) ;;
  match resolved with
  | Ok (principal, _) => finish_login identity (user_from_principal principal) login_nonce
  | Err NotFound =>
      ret (mkOAuthCallbackResult identity default_User default_BrowserSession true false)
  | Err err => throw err
  end.

Definition complete_oauth_callback (code login_nonce : string) : H S OAuthCallbackResult :=
  complete_auth "" (mkCompleteAuthRequest code "" "" "" ∅ []) login_nonce.
End Service.
End Login.
