(* ===== verification/Status.v ===== *)
(** Mapping of core errors to gRPC statuses ([lore-auth-inbound/src/status.rs]). *)

From Stdlib Require Import ZArith Lia Ascii.
From stdpp Require Import base gmap strings list.
From S2P Require Import Prelude Model.

(** The codes of [tonic::Code] that the source uses. *)
Inductive Code :=
  | CodeNotFound
  | CodeInvalidArgument
  | CodePermissionDenied
  | CodeUnauthenticated
  | CodeUnimplemented
  | CodeInternal
  | CodeResourceExhausted.

#[export] Instance Code_eq_dec : EqDecision Code.
Proof. solve_decision. Defined.

Record Status := mkStatus {
  st_code : Code;
  st_message : string
}.

#[export] Instance Status_eq_dec : EqDecision Status.
Proof. solve_decision. Defined.

Definition core_error_to_status (err : CoreError) : Status :=
  match err with
  | NotFound | AuthSessionNotFound => mkStatus CodeNotFound "not found"
  | InvalidArgument message => mkStatus CodeInvalidArgument message
  | PermissionDenied => mkStatus CodePermissionDenied "permission denied"
  | Unauthenticated => mkStatus CodeUnauthenticated "unauthenticated"
  | Unsupported => mkStatus CodeUnimplemented "unsupported"
  | SigningKeyUnavailable | TokenIssueFailed => mkStatus CodeInternal "token issue failed"
  | AdminAuditFailed _ => mkStatus CodeInternal "admin audit failed"
  | DeviceInvalidCode
  | DeviceExpiredCode
  | DeviceAuthorizationNotPending
  | DeviceIncompleteAuthorization => mkStatus CodeInvalidArgument (core_error_to_string err)
  end.

Definition auth_session_status (err : CoreError) : Status :=
  match err with
  | AuthSessionNotFound | NotFound => mkStatus CodeNotFound "unknown session"
  | InvalidArgument _ => mkStatus CodeInvalidArgument "client_state mismatch"
  | SigningKeyUnavailable | TokenIssueFailed => mkStatus CodeInternal "failed to get auth session"
  | other => core_error_to_status other
  end.

Definition resource_token_exchange_status (err : CoreError) : Status :=
  match err with
  | InvalidArgument _ => mkStatus CodeInvalidArgument "invalid token exchange request"
  | NotFound | PermissionDenied => mkStatus CodePermissionDenied "resource not authorized"
  | Unauthenticated => mkStatus CodeUnauthenticated "invalid authn token"
  | SigningKeyUnavailable | TokenIssueFailed =>
      mkStatus CodeInternal "failed to issue resource token"
  | other => core_error_to_status other
  end.

Definition permission_lookup_status (err : CoreError) : Status :=
  match err with
  | Unauthenticated => mkStatus CodeUnauthenticated "invalid authn token"
  | other => core_error_to_status other
  end.
