(* ===== verification/RateLimit.v ===== *)
(** The fixed-window rate limiter in front of [StartAuthSession]
    ([lore-auth-inbound/src/ratelimit.rs]).  [Instant]s and the window are
    nanosecond counts; the request path and peer key are inputs. *)

From Stdlib Require Import ZArith Lia Ascii.
From stdpp Require Import base gmap strings list.
From S2P Require Import Prelude Model Status.

Definition START_AUTH_SESSION_PATH : string := "/epic_urc.UrcAuthApi/StartAuthSession".

Record Bucket := mkBucket {
  bk_start : Z;
  bk_count : nat
}.

Record Limiter := mkLimiter {
  lim_limit : nat;
  lim_window : Z
}.

(** [now.duration_since(start)] saturates at zero. *)
Definition duration_since (now start : Z) : Z := Z.max 0 (now - start).

Definition live (window now : Z) (bucket : Bucket) : bool :=
  (duration_since now (bk_start bucket) <? window)%Z.

Definition prune (buckets : gmap string Bucket) (now window : Z) : gmap string Bucket :=
  filter (λ entry, live window now entry.2 = true) buckets.

(** [Limiter::allow] at the instant [now]: the answer and the new buckets. *)
Definition allow (l : Limiter) (now : Z) (key : string) (buckets : gmap string Bucket)
    : bool * gmap string Bucket :=
  if (lim_limit l =? 0) || (lim_window l =? 0)%Z then (true, buckets) else
  let fresh :=
    (true, prune (<[key := mkBucket now 1]> buckets) now (lim_window l)) in
  match buckets !! key with
  | Some bucket =>
      if live (lim_window l) now bucket then
        if lim_limit l <=? bk_count bucket then (false, buckets)
        else (true, <[key := mkBucket (bk_start bucket) (S (bk_count bucket))]> buckets)
      else fresh
  | None => fresh
  end.

(** [RateLimitService::call]: the status it answers itself, or [None] to call the
    inner service. *)
Definition call (l : Limiter) (now : Z) (path peer_key : string) (buckets : gmap string Bucket)
    : option Status * gmap string Bucket :=
  if String.eqb path START_AUTH_SESSION_PATH then
    let '(ok, buckets') := allow l now peer_key buckets in
    (if ok then None else Some (mkStatus CodeResourceExhausted "rate limit exceeded"), buckets')
  else (None, buckets).

(** A run of the limiter over requests [(instant, peer key)]. *)
Fixpoint run (l : Limiter) (calls : list (Z * string)) (buckets : gmap string Bucket)
    : list bool :=
  match calls with
  | [] => []
  | (now, key) :: calls =>
      let '(ok, buckets') := allow l now key buckets in ok :: run l calls buckets'
  end.
