(* ===== verification/GrpcAuth.v ===== *)
(** The [epic_urc.UrcAuthApi] server ([lore-auth-inbound/src/grpcauth.rs]).  A
    request is its decoded message with the [authorization] metadata value, when
    there is one that is a visible-ASCII string. *)

From Stdlib Require Import ZArith Lia Ascii.
From stdpp Require Import base gmap strings list.
From S2P Require Import Prelude Model Ports TokenSvc PermissionSvc DeviceSvc LoginSvc Status.

(** Messages of [third_party/lore-proto/proto/epicurc]. *)
Record UserToken := mkUserToken {
  ut_user_token : string;
  ut_expires_at : Z;
  ut_user_id : string;
  ut_user_name : string
}.

Record PbResourcePermission := mkPbResourcePermission {
  prp_resource_id : string;
  prp_permission : list string
}.

Record StartAuthSessionResponse := mkStartAuthSessionResponse {
  sar_session_code : string;
  sar_login_url : string
}.

Record CheckUserPermissionRequest := mkCheckUserPermissionRequest {
  cur_resource_id : list string;
  (** [target_user], with its [oneof] (always a user token) when set. *)
  cur_target_user : option (option string)
}.

Record CheckUserPermissionResponse := mkCheckUserPermissionResponse {
  cur_allowed : list PbResourcePermission;
  cur_denied : list PbResourcePermission
}.

Record Request (T : Type) := mkRequest {
  rq_authorization : option string;
  rq_message : T
}.
Arguments mkRequest {T}.
Arguments rq_authorization {T} _.
Arguments rq_message {T} _.

Definition bearer_from_request {T} (request : Request T) : option string :=
  match rq_authorization request with
  | Some value => let value := trim value in if is_empty value then None else Some value
  | None => None
  end.

Definition user_token (token : SignedToken) (user : User) : UserToken :=
  mkUserToken (stk_token token) (stk_expires_at token) (bridge_subject user) (display user).

Definition permissions_to_strings (permissions : list Permission) : list string :=
  permission_as_str <$> permissions.

Definition unauthenticated (message : string) : Status := mkStatus CodeUnauthenticated message.
Definition internal (message : string) : Status := mkStatus CodeInternal message.
Definition invalid_argument (message : string) : Status := mkStatus CodeInvalidArgument message.
Definition unimplemented (message : string) : Status := mkStatus CodeUnimplemented message.

Record UrcAuthServer (S : Type) := mkUrcAuthServer {
  uas_login : LoginService S;
  uas_tokens : TokenService S;
  uas_permissions : PermissionService S
}.
Arguments mkUrcAuthServer {S}.
Arguments uas_login {S} _.
Arguments uas_tokens {S} _.
Arguments uas_permissions {S} _.

Module UrcAuth.
Section Server.
Context `{Env} {S : Type} (self : UrcAuthServer S).

Definition authn_from_request {T} (request : Request T) : M Status S VerifiedAuthn :=
  bearer <- ok_or (bearer_from_request request) (unauthenticated "authorization header required") ;;
  map_err (λ _, unauthenticated "invalid authn token") (verify_authn (uas_tokens self) bearer).

Definition resolve_subject_user (request : Request CheckUserPermissionRequest) : M Status S User :=
  let from_header :=
    authn <- authn_from_request request ;;
    ret (va_user authn) in
  match cur_target_user (rq_message request) with
  | Some (Some token) =>
      if negb (is_empty token)
      then
        authn <- map_err (λ _, invalid_argument "invalid target_user token")
                   (verify_authn (uas_tokens self) token) ;;
        ret (va_user authn)
      else from_header
  | _ => from_header
  end.

Definition health_check : M Status S string := ret "ok".

Definition start_auth_session (request : Request string) : M Status S StartAuthSessionResponse :=
  result <- map_err (λ _, internal "failed to start auth session")
              (Login.start_auth_session (uas_login self) (rq_message request)) ;;
  ret (mkStartAuthSessionResponse (sas_session_code result) (sas_login_url result)).

(** The message is [(session_code, client_state)]. *)
Definition get_auth_session (request : Request (string * string)) : M Status S (option UserToken) :=
  result <- map_err auth_session_status
              (Login.get_auth_session (uas_login self) (rq_message request).1
                 (rq_message request).2) ;;
  if negb (ast_ready result) then ret None
  else ret (Some (user_token (ast_token result) (ast_user result))).

Definition refresh_auth_session : M Status S (option UserToken) :=
  throw (unimplemented "method RefreshAuthSession not implemented").
Definition verify_user : M Status S () :=
  throw (unimplemented "method VerifyUser not implemented").
Definition exchange_external_token_for_user_token : M Status S (option UserToken) :=
  throw (unimplemented "method ExchangeExternalTokenForUserToken not implemented").
Definition exchange_api_key_for_user_token : M Status S (option UserToken) :=
  throw (unimplemented "method ExchangeAPIKeyForUserToken not implemented").
Definition get_user_info : M Status S () :=
  throw (unimplemented "method GetUserInfo not implemented").
Definition get_user_id : M Status S () :=
  throw (unimplemented "method GetUserId not implemented").
Definition get_provider_user_id : M Status S () :=
  throw (unimplemented "method GetProviderUserId not implemented").

Definition exchange_user_token_for_multiresource_token (request : Request (list string))
    : M Status S UserToken :=
  authn <- authn_from_request request ;;
  match rq_message request with
  | [] => throw (invalid_argument "resource_id is required")
  | _ =>
      token <- map_err resource_token_exchange_status
                 (exchange_authz (uas_tokens self) authn (rq_message request) None) ;;
      ret (user_token token (va_user authn))
  end.

(** The [for item in checked] loop. *)
Definition partition_checked (checked : list CheckedPermission) : CheckUserPermissionResponse :=
  foldl (λ response item,
    if cp_allowed item
    then mkCheckUserPermissionResponse
           (cur_allowed response
              ++ [mkPbResourcePermission (cp_resource_id item)
                    (permissions_to_strings (cp_permission item))])
           (cur_denied response)
    else mkCheckUserPermissionResponse (cur_allowed response)
           (cur_denied response ++ [mkPbResourcePermission (cp_resource_id item) []]))
    (mkCheckUserPermissionResponse [] []) checked.

Definition check_user_permission (request : Request CheckUserPermissionRequest)
    : M Status S CheckUserPermissionResponse :=
  user <- resolve_subject_user request ;;
  checked <- map_err (λ _, internal "acl evaluation failed")
               (Permissions.check (uas_permissions self) (u_id user)
                  (cur_resource_id (rq_message request))) ;;
  ret (partition_checked checked).

(** The message is the [resource_filter]; the answer has no next page. *)
Definition lookup_user_permissions (request : Request string)
    : M Status S (list PbResourcePermission) :=
  authn <- authn_from_request request ;;
  permissions <- map_err (λ _, internal "lookup failed")
                   (Permissions.lookup (uas_permissions self) (u_id (va_user authn))
                      (mkResourceFilter (rq_message request))) ;;
  ret ((λ p, mkPbResourcePermission (rp_resource_id p) (permissions_to_strings (rp_permission p)))
         <$> permissions).
End Server.
End UrcAuth.
