(* ===== verification/GrpcRebac.v ===== *)
(** The [ucs.auth.RebacApi] server, its peer allowlist
    ([lore-auth-inbound/src/grpcrebac.rs]) and the peer address
    ([lore-auth-inbound/src/peer.rs]). *)

From Stdlib Require Import ZArith Lia Ascii.
From stdpp Require Import base gmap strings list.
From S2P Require Import Prelude Model Ports PermissionSvc Status GrpcAuth.

(** [std::net::IpAddr]: 32-bit and 128-bit addresses. *)
Inductive IpAddr := V4 (bits : Z) | V6 (bits : Z).

#[export] Instance IpAddr_eq_dec : EqDecision IpAddr.
Proof. solve_decision. Defined.

(** [Ipv6Addr::to_ipv4_mapped]: [::ffff:a.b.c.d]. *)
Definition to_ipv4_mapped (v6 : Z) : option Z :=
  if (Z.shiftr v6 32 =? 65535)%Z then Some (Z.land v6 (Z.ones 32)) else None.

Definition normalize_ip (addr : IpAddr) : IpAddr :=
  match addr with
  | V4 _ => addr
  | V6 v6 => match to_ipv4_mapped v6 with Some v4 => V4 v4 | None => V6 v6 end
  end.

(** The connection's remote address, when tonic recorded one. *)
Definition peer_ip_from_request (remote_addr : option IpAddr) : option IpAddr :=
  normalize_ip <$> remote_addr.

Definition REBAC_SERVICE_METHOD_PREFIX : string := "/ucs.auth.RebacApi/".

(** The crate ipnet, and the parser of addresses of the standard library: [IpNet], its
    [contains], [FromStr] and [new]; the errors are those that parsing reports. *)
Class IpNets := {
  IpNet : Type;
  net_contains : IpNet → IpAddr → bool;
  net_from_str : string → result string IpNet;
  net_new : IpAddr → Z → result string IpNet;
  addr_from_str : string → result string IpAddr
}.

Section Allowlist.
Context `{IpNets}.

Definition parse_allowed_peer_cidr (value : string) : result string IpNet :=
  let value := trim value in
  if is_empty value then Err "CIDR must not be empty" else
  if contains_byte "/"%char value then net_from_str value else
  match addr_from_str value with
  | Err err => Err err
  | Ok addr => net_new addr (match addr with V4 _ => 32 | V6 _ => 128 end)
  end.

(** [iter().enumerate().map(..).collect()]: the first error, with its index. *)
Fixpoint parse_cidrs_from (index : Z) (values : list string) : result string (list IpNet) :=
  match values with
  | [] => Ok []
  | value :: values =>
      match parse_allowed_peer_cidr value with
      | Err err => Err ("entry " +:+ show_int index +:+ ": " +:+ err)
      | Ok net =>
          match parse_cidrs_from (index + 1) values with
          | Err err => Err err
          | Ok nets => Ok (net :: nets)
          end
      end
  end.

Definition parse_allowed_peer_cidrs (values : list string) : result string (list IpNet) :=
  parse_cidrs_from 0 values.

(** [expect] panics on an error. *)
Definition default_allowed_peer_cidrs : option (list IpNet) :=
  match parse_allowed_peer_cidrs ["127.0.0.1/32"; "::1/128"] with
  | Ok nets => Some nets
  | Err _ => None
  end.

Definition peer_allowed (addr : option IpAddr) (prefixes : list IpNet) : bool :=
  match addr with
  | None => false
  | Some addr => existsb (λ prefix, net_contains prefix addr) prefixes
  end.

(** [RebacPeerAllowlistService::call]: its own answer, or [None] for the inner service. *)
Definition allowlist_call (prefixes : list IpNet) (path : string) (remote_addr : option IpAddr)
    : option Status :=
  if starts_with REBAC_SERVICE_METHOD_PREFIX path
     && negb (peer_allowed (peer_ip_from_request remote_addr) prefixes)
  then Some (mkStatus CodePermissionDenied "rebac caller is not allowed")
  else None.
End Allowlist.

Record RebacServer (S : Type) := mkRebacServer { rbs_resources : ResourceService S }.
Arguments mkRebacServer {S}.
Arguments rbs_resources {S} _.

Module Rebac.
Section Server.
Context {S : Type} (self : RebacServer S).

(** The message is [(resource_id, resource_name)]. *)
Definition create_resource (req : string * string) : M Status S () :=
  if is_empty req.1 then throw (invalid_argument "resource_id is required") else
  map_err (λ _, internal "failed to create resource")
    (ResourceSvc.create_resource (rbs_resources self) req.1 req.2).

Definition delete_resource (resource_id : string) : M Status S () :=
  if is_empty resource_id then throw (invalid_argument "resource_id is required") else
  r <- attempt (ResourceSvc.delete_resource (rbs_resources self) resource_id) ;;
  match r with
  | Ok tt | Err NotFound => ret tt
  | Err _ => throw (internal "failed to delete resource")
  end.
End Server.
End Rebac.
