(* ===== verification/SqlRows.v ===== *)
(** The SQLite store as rows ([sqlite/migrations.rs]): the tables that the SQL policy
    reads, the relational operations its statements are made of, and the recursive
    query that collects the groups of a user, with its correctness.  A text column
    holds text, as every write of the adapter stores it; driver failures are left out. *)

From Stdlib Require Import ZArith Lia Ascii.
From stdpp Require Import base gmap strings list sorting.
From S2P Require Import Prelude.

(** * Tables *)

Record RepositoryRow := mkRepositoryRow {
  rep_id : string;
  rep_name : string;
  rep_remote_url : string;
  rep_lore_repository_id : string;
  rep_status : string;
  rep_created_by_source : string;
  rep_created_at : Z;
  rep_updated_at : Z
}.

Record GrantRow := mkGrantRow {
  gt_id : string;
  gt_subject_type : string;
  gt_subject_id : string;
  gt_repository_id : string;
  gt_role : string;
  gt_created_at : Z;
  gt_updated_at : Z
}.

Record GroupMemberRow := mkGroupMemberRow {
  gm_group_id : string;
  gm_user_id : string;
  gm_created_at : Z
}.

Record GroupGroupRow := mkGroupGroupRow {
  gg_group_id : string;
  gg_member_group_id : string;
  gg_created_at : Z
}.

Record UserRow := mkUserRow {
  ur_id : string;
  ur_display_name : option string;
  ur_primary_email : option string;
  ur_primary_email_normalized : option string;
  ur_status : string;
  ur_created_at : Z;
  ur_updated_at : Z;
  ur_last_login_at : option Z
}.

Record DeviceRow := mkDeviceRow {
  dr_id : string;
  dr_device_code_hash : string;
  dr_user_code_hash : string;
  dr_requested_remote_url : string;
  dr_requested_repository_id : option string;
  dr_approved_user_id : option string;
  dr_status : string;
  dr_created_at : Z;
  dr_expires_at : Z;
  dr_approved_at : option Z;
  dr_consumed_at : option Z
}.

Record AuthSessionRow := mkAuthSessionRow {
  sr_id : string;
  sr_session_code_hash : string;
  sr_client_state_hash : string;
  sr_status : string;
  sr_user_id : option string;
  sr_login_url_nonce : string;
  sr_created_at : Z;
  sr_expires_at : Z;
  sr_completed_at : option Z;
  sr_consumed_at : option Z
}.

Record LoginTransactionRow := mkLoginTransactionRow {
  lr_id : string;
  lr_state_hash : string;
  lr_provider_id : string;
  lr_nonce : option string;
  lr_login_url_nonce : option string;
  lr_return_path : option string;
  lr_private_state : option (list Byte.byte);
  lr_created_at : Z;
  lr_expires_at : Z;
  lr_consumed_at : option Z
}.

Record SessionRow := mkSessionRow {
  br_id : string;
  br_user_id : string;
  br_created_at : Z;
  br_expires_at : Z;
  br_revoked_at : option Z
}.

Record CsrfTokenRow := mkCsrfTokenRow {
  cr_token_hash : string;
  cr_session_id : string;
  cr_created_at : Z;
  cr_expires_at : Z;
  cr_consumed_at : option Z
}.

Record IdentityRow := mkIdentityRow {
  xr_id : string;
  xr_user_id : string;
  xr_provider_id : string;
  xr_issuer : string;
  xr_subject : string;
  xr_subject_strategy : string;
  xr_email : option string;
  xr_email_verified : Z;
  xr_display_name : option string;
  xr_picture_url : option string;
  xr_hosted_domain : option string;
  xr_status : string;
  xr_first_seen_at : Z;
  xr_last_seen_at : Z
}.

Record InvitationRow := mkInvitationRow {
  ir_id : string;
  ir_user_id : string;
  ir_provider_id : string;
  ir_issuer : string;
  ir_email : option string;
  ir_email_normalized : option string;
  ir_binding_policy : string;
  ir_status : string;
  ir_accepted_identity_id : option string;
  ir_created_at : Z;
  ir_expires_at : option Z;
  ir_accepted_at : option Z
}.

Record GroupRow := mkGroupRow {
  gp_id : string;
  gp_name : string;
  gp_description : option string;
  gp_created_at : Z;
  gp_updated_at : Z
}.

Record IssuedTokenRow := mkIssuedTokenRow {
  tk_jti : string;
  tk_token_kind : string;
  tk_user_id : option string;
  tk_service_account_id : option string;
  tk_repository_id : option string;
  tk_lore_resource_id : option string;
  tk_role : string;
  tk_kid : string;
  tk_audience_json : string;
  tk_issued_at : Z;
  tk_expires_at : Z;
  tk_revoked_at : option Z
}.

Record SigningKeyRow := mkSigningKeyRow {
  kr_kid : string;
  kr_alg : string;
  kr_public_jwk_json : string;
  kr_private_key_path : string;
  kr_status : string;
  kr_created_at : Z;
  kr_not_before : option Z;
  kr_retired_at : option Z
}.

Record AdminAuditRow := mkAdminAuditRow {
  ar_id : string;
  ar_actor : string;
  ar_action : string;
  ar_object_type : string;
  ar_object_id : string;
  ar_detail : string;
  ar_created_at : Z
}.

(** The tables of the database, each in row order.  [schema_migrations] and
    [audit_events], which no call of the adapter reads, are left out. *)
Record Db := mkDb {
  db_repositories : list RepositoryRow;
  db_grants : list GrantRow;
  db_group_members : list GroupMemberRow;
  db_group_groups : list GroupGroupRow;
  db_users : list UserRow;
  db_device_authorizations : list DeviceRow;
  db_auth_sessions : list AuthSessionRow;
  db_login_transactions : list LoginTransactionRow;
  db_sessions : list SessionRow;
  db_csrf_tokens : list CsrfTokenRow;
  db_external_identities : list IdentityRow;
  db_identity_invitations : list InvitationRow;
  db_groups : list GroupRow;
  db_issued_tokens : list IssuedTokenRow;
  db_signing_keys : list SigningKeyRow;
  db_admin_audit : list AdminAuditRow
}.

Definition empty_db : Db := mkDb [] [] [] [] [] [] [] [] [] [] [] [] [] [] [] [].

(** Writing one table. *)
Definition set_repositories (g : list RepositoryRow → list RepositoryRow) (d : Db) : Db :=
  mkDb (g (db_repositories d)) (db_grants d) (db_group_members d) (db_group_groups d) (db_users
    d) (db_device_authorizations d) (db_auth_sessions d) (db_login_transactions d) (db_sessions
    d) (db_csrf_tokens d) (db_external_identities d) (db_identity_invitations d) (db_groups d)
    (db_issued_tokens d) (db_signing_keys d) (db_admin_audit d).
Definition set_grants (g : list GrantRow → list GrantRow) (d : Db) : Db :=
  mkDb (db_repositories d) (g (db_grants d)) (db_group_members d) (db_group_groups d) (db_users
    d) (db_device_authorizations d) (db_auth_sessions d) (db_login_transactions d) (db_sessions
    d) (db_csrf_tokens d) (db_external_identities d) (db_identity_invitations d) (db_groups d)
    (db_issued_tokens d) (db_signing_keys d) (db_admin_audit d).
Definition set_group_members (g : list GroupMemberRow → list GroupMemberRow) (d : Db) : Db :=
  mkDb (db_repositories d) (db_grants d) (g (db_group_members d)) (db_group_groups d) (db_users
    d) (db_device_authorizations d) (db_auth_sessions d) (db_login_transactions d) (db_sessions
    d) (db_csrf_tokens d) (db_external_identities d) (db_identity_invitations d) (db_groups d)
    (db_issued_tokens d) (db_signing_keys d) (db_admin_audit d).
Definition set_group_groups (g : list GroupGroupRow → list GroupGroupRow) (d : Db) : Db :=
  mkDb (db_repositories d) (db_grants d) (db_group_members d) (g (db_group_groups d)) (db_users
    d) (db_device_authorizations d) (db_auth_sessions d) (db_login_transactions d) (db_sessions
    d) (db_csrf_tokens d) (db_external_identities d) (db_identity_invitations d) (db_groups d)
    (db_issued_tokens d) (db_signing_keys d) (db_admin_audit d).
Definition set_users (g : list UserRow → list UserRow) (d : Db) : Db :=
  mkDb (db_repositories d) (db_grants d) (db_group_members d) (db_group_groups d) (g (db_users
    d)) (db_device_authorizations d) (db_auth_sessions d) (db_login_transactions d) (db_sessions
    d) (db_csrf_tokens d) (db_external_identities d) (db_identity_invitations d) (db_groups d)
    (db_issued_tokens d) (db_signing_keys d) (db_admin_audit d).
Definition set_device_authorizations (g : list DeviceRow → list DeviceRow) (d : Db) : Db :=
  mkDb (db_repositories d) (db_grants d) (db_group_members d) (db_group_groups d) (db_users d)
    (g (db_device_authorizations d)) (db_auth_sessions d) (db_login_transactions d) (db_sessions
    d) (db_csrf_tokens d) (db_external_identities d) (db_identity_invitations d) (db_groups d)
    (db_issued_tokens d) (db_signing_keys d) (db_admin_audit d).
Definition set_auth_sessions (g : list AuthSessionRow → list AuthSessionRow) (d : Db) : Db :=
  mkDb (db_repositories d) (db_grants d) (db_group_members d) (db_group_groups d) (db_users d)
    (db_device_authorizations d) (g (db_auth_sessions d)) (db_login_transactions d) (db_sessions
    d) (db_csrf_tokens d) (db_external_identities d) (db_identity_invitations d) (db_groups d)
    (db_issued_tokens d) (db_signing_keys d) (db_admin_audit d).
Definition set_login_transactions (g : list LoginTransactionRow → list LoginTransactionRow) (d : Db) : Db :=
  mkDb (db_repositories d) (db_grants d) (db_group_members d) (db_group_groups d) (db_users d)
    (db_device_authorizations d) (db_auth_sessions d) (g (db_login_transactions d)) (db_sessions
    d) (db_csrf_tokens d) (db_external_identities d) (db_identity_invitations d) (db_groups d)
    (db_issued_tokens d) (db_signing_keys d) (db_admin_audit d).
Definition set_sessions (g : list SessionRow → list SessionRow) (d : Db) : Db :=
  mkDb (db_repositories d) (db_grants d) (db_group_members d) (db_group_groups d) (db_users d)
    (db_device_authorizations d) (db_auth_sessions d) (db_login_transactions d) (g (db_sessions
    d)) (db_csrf_tokens d) (db_external_identities d) (db_identity_invitations d) (db_groups d)
    (db_issued_tokens d) (db_signing_keys d) (db_admin_audit d).
Definition set_csrf_tokens (g : list CsrfTokenRow → list CsrfTokenRow) (d : Db) : Db :=
  mkDb (db_repositories d) (db_grants d) (db_group_members d) (db_group_groups d) (db_users d)
    (db_device_authorizations d) (db_auth_sessions d) (db_login_transactions d) (db_sessions d)
    (g (db_csrf_tokens d)) (db_external_identities d) (db_identity_invitations d) (db_groups d)
    (db_issued_tokens d) (db_signing_keys d) (db_admin_audit d).
Definition set_external_identities (g : list IdentityRow → list IdentityRow) (d : Db) : Db :=
  mkDb (db_repositories d) (db_grants d) (db_group_members d) (db_group_groups d) (db_users d)
    (db_device_authorizations d) (db_auth_sessions d) (db_login_transactions d) (db_sessions d)
    (db_csrf_tokens d) (g (db_external_identities d)) (db_identity_invitations d) (db_groups d)
    (db_issued_tokens d) (db_signing_keys d) (db_admin_audit d).
Definition set_identity_invitations (g : list InvitationRow → list InvitationRow) (d : Db) : Db :=
  mkDb (db_repositories d) (db_grants d) (db_group_members d) (db_group_groups d) (db_users d)
    (db_device_authorizations d) (db_auth_sessions d) (db_login_transactions d) (db_sessions d)
    (db_csrf_tokens d) (db_external_identities d) (g (db_identity_invitations d)) (db_groups d)
    (db_issued_tokens d) (db_signing_keys d) (db_admin_audit d).
Definition set_groups (g : list GroupRow → list GroupRow) (d : Db) : Db :=
  mkDb (db_repositories d) (db_grants d) (db_group_members d) (db_group_groups d) (db_users d)
    (db_device_authorizations d) (db_auth_sessions d) (db_login_transactions d) (db_sessions d)
    (db_csrf_tokens d) (db_external_identities d) (db_identity_invitations d) (g (db_groups d))
    (db_issued_tokens d) (db_signing_keys d) (db_admin_audit d).
Definition set_issued_tokens (g : list IssuedTokenRow → list IssuedTokenRow) (d : Db) : Db :=
  mkDb (db_repositories d) (db_grants d) (db_group_members d) (db_group_groups d) (db_users d)
    (db_device_authorizations d) (db_auth_sessions d) (db_login_transactions d) (db_sessions d)
    (db_csrf_tokens d) (db_external_identities d) (db_identity_invitations d) (db_groups d) (g
    (db_issued_tokens d)) (db_signing_keys d) (db_admin_audit d).
Definition set_signing_keys (g : list SigningKeyRow → list SigningKeyRow) (d : Db) : Db :=
  mkDb (db_repositories d) (db_grants d) (db_group_members d) (db_group_groups d) (db_users d)
    (db_device_authorizations d) (db_auth_sessions d) (db_login_transactions d) (db_sessions d)
    (db_csrf_tokens d) (db_external_identities d) (db_identity_invitations d) (db_groups d)
    (db_issued_tokens d) (g (db_signing_keys d)) (db_admin_audit d).
Definition set_admin_audit (g : list AdminAuditRow → list AdminAuditRow) (d : Db) : Db :=
  mkDb (db_repositories d) (db_grants d) (db_group_members d) (db_group_groups d) (db_users d)
    (db_device_authorizations d) (db_auth_sessions d) (db_login_transactions d) (db_sessions d)
    (db_csrf_tokens d) (db_external_identities d) (db_identity_invitations d) (db_groups d)
    (db_issued_tokens d) (db_signing_keys d) (g (db_admin_audit d)).

(** * Relational operations *)

(** [WHERE] *)
Definition where_ {A} (p : A → bool) (rows : list A) : list A := List.filter p rows.

(** [a JOIN b ON p] and [a LEFT JOIN b ON p]. *)
Definition join_on {A B} (p : A → B → bool) (la : list A) (lb : list B) : list (A * B) :=
  flat_map (λ a, map (λ b, (a, b)) (List.filter (p a) lb)) la.
Definition left_join_on {A B} (p : A → B → bool) (la : list A) (lb : list B)
    : list (A * option B) :=
  flat_map (λ a, match List.filter (p a) lb with
                 | [] => [(a, None)]
                 | bs => map (λ b, (a, Some b)) bs
                 end) la.

(** [UPDATE .. SET f WHERE p], and the number of rows it changes. *)
Definition update_where {A} (p : A → bool) (f : A → A) (rows : list A) : list A :=
  map (λ r, if p r then f r else r) rows.
Definition affected {A} (p : A → bool) (rows : list A) : nat := length (where_ p rows).

(** [ORDER BY] on text columns, which compare byte by byte. *)
Definition order_by {A} (key : A → list string) (rows : list A) : list A :=
  sort_by (λ a b, lex_leb (key a) (key b)) rows.

(** The rows of a [UNION] step that were not produced before, each once. *)
Definition new_rows (seen rows : list string) : list string :=
  foldl (λ acc r, if bool_decide (r ∈ seen ++ acc) then acc else acc ++ [r]) [] rows.

(** [WITH RECURSIVE t AS (initial UNION SELECT .. JOIN t ..)]: rows leave a queue one at a
    time, and the rows derived from them enter it unless they were produced before. *)
Fixpoint recursive_query (next : string → list string) (fuel : nat) (seen queue : list string)
    : option (list string) :=
  match fuel with
  | 0 => None
  | S fuel =>
      match queue with
      | [] => Some seen
      | row :: queue =>
          let rows := new_rows seen (next row) in
          recursive_query next fuel (seen ++ rows) (queue ++ rows)
      end
  end.

(** [SELECT gg.group_id FROM group_groups gg JOIN user_groups ug ON gg.member_group_id =
    ug.group_id], for one row of [user_groups]. *)
Definition parent_groups (db : Db) (group_id : string) : list string :=
  map gg_group_id
    (where_ (λ gg, String.eqb (gg_member_group_id gg) group_id) (db_group_groups db)).

(** A table has at most one group per row, so the loop takes at most this many steps. *)
Definition user_groups_fuel (db : Db) : nat :=
  S (length (db_group_members db) + length (db_group_groups db)).

(** [WITH RECURSIVE user_groups(group_id) AS (SELECT group_id FROM group_members WHERE
    user_id = ?1 UNION ..)]. *)
Definition user_groups (db : Db) (user_id : string) : list string :=
  let direct := new_rows []
    (map gm_group_id
      (where_ (λ gm, String.eqb (gm_user_id gm) user_id) (db_group_members db))) in
  default [] (recursive_query (parent_groups db) (user_groups_fuel db) direct direct).

(** * Specification *)

(** [child] is a member group of [parent]. *)
Definition nested_in (db : Db) (child parent : string) : Prop :=
  ∃ gg, gg ∈ db_group_groups db ∧ gg_group_id gg = parent ∧ gg_member_group_id gg = child.

Definition direct_group (db : Db) (user_id group_id : string) : Prop :=
  ∃ gm, gm ∈ db_group_members db ∧ gm_group_id gm = group_id ∧ gm_user_id gm = user_id.

(** The group contains the user through a chain of nested groups. *)
Definition in_group (db : Db) (user_id group_id : string) : Prop :=
  ∃ d, direct_group db user_id d ∧ rtc (nested_in db) d group_id.

(** At most [n] nestings lie below the group. *)
Fixpoint nesting_within (db : Db) (n : nat) (group_id : string) : Prop :=
  ∀ child, nested_in db child group_id →
    match n with 0 => False | S n => nesting_within db n child end.

(** * Lemmas *)

Lemma elem_of_where {A} (p : A → bool) rows x : x ∈ where_ p rows ↔ x ∈ rows ∧ p x = true.
Proof. unfold where_. by rewrite !list_elem_of_In, filter_In. Qed.

Lemma elem_of_map {A B} (f : A → B) l y : y ∈ map f l ↔ ∃ x, x ∈ l ∧ f x = y.
Proof.
  rewrite list_elem_of_In, in_map_iff. setoid_rewrite list_elem_of_In. naive_solver.
Qed.

Lemma elem_of_flat_map {A B} (f : A → list B) l y : y ∈ flat_map f l ↔ ∃ x, x ∈ l ∧ y ∈ f x.
Proof. rewrite list_elem_of_In, in_flat_map. by setoid_rewrite list_elem_of_In. Qed.

Lemma elem_of_join_on {A B} (p : A → B → bool) la lb a b :
  (a, b) ∈ join_on p la lb ↔ a ∈ la ∧ b ∈ lb ∧ p a b = true.
Proof.
  unfold join_on. rewrite elem_of_flat_map. setoid_rewrite elem_of_map. split.
  - intros (a' & Ha & b' & Hb%elem_of_where & [= -> ->]). naive_solver.
  - intros (Ha & Hb). exists a. split; [done|]. exists b. split; [|done]. by apply elem_of_where.
Qed.

Lemma elem_of_left_join_on {A B} (p : A → B → bool) la lb a ob :
  (a, ob) ∈ left_join_on p la lb ↔
    a ∈ la ∧ match ob with
             | Some b => b ∈ lb ∧ p a b = true
             | None => ∀ b, b ∈ lb → p a b = false
             end.
Proof.
  unfold left_join_on. rewrite elem_of_flat_map.
  assert (∀ a', (a, ob) ∈ match List.filter (p a') lb with
      | [] => [(a', None)] | bs => map (λ b, (a', Some b)) bs end
    ↔ a = a' ∧ match ob with
        | Some b => b ∈ lb ∧ p a' b = true | None => ∀ b, b ∈ lb → p a' b = false end) as Hm.
  { intros a'. pose proof (elem_of_where (p a') lb) as Hw. unfold where_ in Hw.
    destruct (List.filter (p a') lb) as [|b0 bs].
    - rewrite list_elem_of_singleton. destruct ob as [b|].
      + split; [done|]. intros [_ Hb%Hw]. by apply not_elem_of_nil in Hb.
      + split; [|by intros [-> _]]. intros [= ->]. split; [done|]. intros b Hb.
        apply not_true_iff_false. intros Hp. destruct (not_elem_of_nil b). by apply Hw.
    - rewrite elem_of_map. destruct ob as [b|].
      + split; [intros (b' & Hb & [= -> ->]); naive_solver|]. intros [-> Hb%Hw]. eauto.
      + split; [by intros (b' & _ & ?)|]. intros [_ Hall].
        destruct (Hw b0) as [[Hb0 Hp] _]; [left|]. by rewrite Hall in Hp. }
  setoid_rewrite Hm. naive_solver.
Qed.

Lemma elem_of_order_by {A} (key : A → list string) rows x : x ∈ order_by key rows ↔ x ∈ rows.
Proof. apply elem_of_sort_by. Qed.

#[export] Hint Rewrite @elem_of_where @elem_of_map @elem_of_flat_map @elem_of_join_on
  @elem_of_order_by : sql.

Section NewRows.
Implicit Types (seen rows acc : list string).

Lemma new_rows_foldl seen rows acc :
  NoDup acc →
  let acc' := foldl (λ acc r, if bool_decide (r ∈ seen ++ acc) then acc else acc ++ [r]) acc rows in
  (∀ x, x ∈ acc' ↔ x ∈ acc ∨ x ∈ rows ∧ x ∉ seen) ∧ NoDup acc'.
Proof.
  revert acc. induction rows as [|r rows IH]; intros acc Hnd; simpl; [set_solver|].
  case_bool_decide as Hr.
  - destruct (IH acc Hnd) as [H1 H2]. split; [|exact H2]. intros x. rewrite H1.
    apply elem_of_app in Hr. set_solver.
  - apply not_elem_of_app in Hr as [Hr1 Hr2]. destruct (IH (acc ++ [r])) as [H1 H2].
    { apply NoDup_app. split_and!; [done|set_solver|apply NoDup_singleton]. }
    split; [|exact H2]. intros x. rewrite H1. set_solver.
Qed.

Lemma new_rows_spec seen rows :
  (∀ x, x ∈ new_rows seen rows ↔ x ∈ rows ∧ x ∉ seen) ∧ NoDup (new_rows seen rows).
Proof.
  destruct (new_rows_foldl seen rows [] NoDup_nil_2) as [H1 H2].
  split; [|exact H2]. intros x. rewrite (H1 x). set_solver.
Qed.

Lemma elem_of_new_rows seen rows x : x ∈ new_rows seen rows ↔ x ∈ rows ∧ x ∉ seen.
Proof. apply new_rows_spec. Qed.

Lemma NoDup_new_rows seen rows : NoDup (new_rows seen rows).
Proof. apply new_rows_spec. Qed.
End NewRows.

(** * The recursive query computes reachability *)

Section RecursiveQuery.
Context (next : string → list string) (initial : list string).

(** The rows that the query should produce. *)
Definition derived (row : string) : Prop := ∃ x, x ∈ initial ∧ rtc (λ a b, b ∈ next a) x row.

(** What holds of the produced rows and of the queue between two steps. *)
Record queue_inv (universe seen queue : list string) : Prop := {
  qi_nodup : NoDup seen;
  qi_universe : seen ⊆ universe;
  qi_sound : ∀ g, g ∈ seen → derived g;
  qi_initial : initial ⊆ seen;
  qi_closed : ∀ g p, g ∈ seen → p ∈ next g → g ∈ queue ∨ p ∈ seen;
  qi_queue : queue ⊆ seen
}.

Lemma queue_inv_step universe seen g queue :
  (∀ c p, p ∈ next c → p ∈ universe) →
  queue_inv universe seen (g :: queue) →
  let rows := new_rows seen (next g) in
  queue_inv universe (seen ++ rows) (queue ++ rows).
Proof.
  intros Hu [H1 H2 H3 H4 H5 H6] rows.
  assert (∀ x, x ∈ rows ↔ x ∈ next g ∧ x ∉ seen) as Hn by (intros x; apply elem_of_new_rows).
  assert (derived g) as (d & Hd & Hr) by (apply H3, H6; left).
  split.
  - apply NoDup_app. split_and!; [done| |apply NoDup_new_rows]. intros x Hx [_ ?]%Hn. done.
  - intros x [Hx|[Hx _]%Hn]%elem_of_app; [by apply H2|by eapply Hu].
  - intros x [Hx|[Hx _]%Hn]%elem_of_app; [by apply H3|]. exists d. split; [done|]. by eapply rtc_r.
  - intros x Hx. apply elem_of_app. left. by apply H4.
  - intros x p [Hx|Hx]%elem_of_app Hxp; [|left; set_solver].
    destruct (H5 x p Hx Hxp) as [[->|Hq]%elem_of_cons|Hp]; [|left; set_solver|right; set_solver].
    right. apply elem_of_app. destruct (decide (p ∈ seen)); [by left|right]. by apply Hn.
  - intros x [Hx|Hx]%elem_of_app; apply elem_of_app; [left|by right]. apply H6. by right.
Qed.

Lemma recursive_query_loop fuel universe seen queue :
  (∀ c p, p ∈ next c → p ∈ universe) →
  queue_inv universe seen queue →
  length queue + length universe < fuel + length seen →
  ∃ rows, recursive_query next fuel seen queue = Some rows ∧ queue_inv universe rows [].
Proof.
  intros Hu. revert seen queue. induction fuel as [|fuel IH]; intros seen queue Hinv Hf; simpl.
  - pose proof (submseteq_length seen universe
      (NoDup_submseteq _ _ (qi_nodup _ _ _ Hinv) (qi_universe _ _ _ Hinv))). lia.
  - destruct queue as [|g queue]; [eauto|]. apply IH; [by apply queue_inv_step|].
    rewrite !length_app. simpl in Hf. lia.
Qed.

(** One unit of fuel per possible row is enough, and the answer is what is derived. *)
Lemma recursive_query_spec fuel universe :
  NoDup initial → initial ⊆ universe → (∀ c p, p ∈ next c → p ∈ universe) →
  length universe < fuel →
  ∃ rows, recursive_query next fuel initial initial = Some rows
          ∧ NoDup rows ∧ ∀ x, x ∈ rows ↔ derived x.
Proof.
  intros Hnd Hi Hu Hf.
  destruct (recursive_query_loop fuel universe initial initial Hu) as (rows & Hq & [H1 _ H3 H4 H5 _]).
  - split; [done|done| |done|by left|done]. intros x Hx. exists x. split; [done|apply rtc_refl].
  - lia.
  - exists rows. split_and!; [done|done|]. intros x. split; [apply H3|].
    intros (d & Hd & Hr). refine (rtc_ind_r (λ y, y ∈ rows) d _ _ x Hr); [by apply H4|].
    intros y z _ Hyz Hy. destruct (H5 y z Hy Hyz) as [Hq'|?]; [by apply not_elem_of_nil in Hq'|done].
Qed.
End RecursiveQuery.

Section UserGroups.
Context (db : Db) (user_id : string).

Lemma elem_of_parents g p : p ∈ parent_groups db g ↔ nested_in db g p.
Proof.
  unfold parent_groups. autorewrite with sql. setoid_rewrite elem_of_where.
  setoid_rewrite String.eqb_eq. unfold nested_in. naive_solver.
Qed.

Lemma elem_of_direct_rows g :
  g ∈ map gm_group_id (where_ (λ gm, String.eqb (gm_user_id gm) user_id) (db_group_members db))
  ↔ direct_group db user_id g.
Proof.
  autorewrite with sql. setoid_rewrite elem_of_where. setoid_rewrite String.eqb_eq.
  unfold direct_group. naive_solver.
Qed.

Lemma user_groups_spec :
  NoDup (user_groups db user_id) ∧ ∀ g, g ∈ user_groups db user_id ↔ in_group db user_id g.
Proof.
  unfold user_groups. set (direct := new_rows [] _).
  assert (∀ x, x ∈ direct ↔ direct_group db user_id x) as Hd.
  { intros x. unfold direct. rewrite elem_of_new_rows, elem_of_direct_rows.
    split; [by intros [? _]|]. intros ?. split; [done|apply not_elem_of_nil]. }
  destruct (recursive_query_spec (parent_groups db) direct (user_groups_fuel db)
    (map gm_group_id (db_group_members db) ++ map gg_group_id (db_group_groups db)))
    as (rows & -> & Hnd & Hrows).
  - apply NoDup_new_rows.
  - intros x (gm & Hin & <- & _)%Hd. apply elem_of_app. left. apply elem_of_map. eauto.
  - intros c p (gg & Hin & <- & _)%elem_of_parents. apply elem_of_app. right. apply elem_of_map. eauto.
  - unfold user_groups_fuel. rewrite length_app, !length_map. lia.
  - split; [done|]. intros g. simpl. rewrite Hrows. unfold derived, in_group.
    setoid_rewrite Hd. split; intros (d & ? & Hr); exists d; (split; [done|]);
      (eapply rtc_subrel; [|exact Hr]); intros a b; apply elem_of_parents.
Qed.

(** The query returns exactly the groups that contain the user, each once. *)
Lemma elem_of_user_groups g : g ∈ user_groups db user_id ↔ in_group db user_id g.
Proof. apply user_groups_spec. Qed.

Lemma NoDup_user_groups : NoDup (user_groups db user_id).
Proof. apply user_groups_spec. Qed.
End UserGroups.

Lemma in_group_direct db user_id g : direct_group db user_id g → in_group db user_id g.
Proof. intros ?. exists g. split; [done|apply rtc_refl]. Qed.

Lemma in_group_nested db user_id c p : in_group db user_id c → nested_in db c p → in_group db user_id p.
Proof. intros (d & ? & ?) ?. exists d. split; [done|]. by eapply rtc_r. Qed.

Lemma nesting_within_le db n m g : n ≤ m → nesting_within db n g → nesting_within db m g.
Proof.
  revert m g. induction n as [|n IH]; intros m g Hle Hn; destruct m as [|m]; try lia; simpl in *.
  - done.
  - intros c Hc. by destruct (Hn c Hc).
  - intros c Hc. apply IH; [lia|]. by apply Hn.
Qed.

(** * Keyed tables *)

(** Rows of a table whose [key] is unique, as the primary keys and the unique columns of
    the schema are. *)
Section Keyed.
Context {A K : Type} (key : A → K).
Implicit Types (rows : list A).

Definition unique_key (rows : list A) : Prop := NoDup (key <$> rows).

Lemma unique_key_eq rows x y : unique_key rows → x ∈ rows → y ∈ rows → key x = key y → x = y.
Proof.
  unfold unique_key. induction rows as [|z rows IH]; [by intros _ ?%not_elem_of_nil|].
  rewrite fmap_cons. intros [Hz Hnd]%NoDup_cons.
  assert (∀ u, u ∈ rows → key u ≠ key z) as Hne.
  { intros u Hu Heq. destruct Hz. rewrite <- Heq. by apply list_elem_of_fmap_2. }
  intros [->|Hx]%elem_of_cons [->|Hy]%elem_of_cons Hk; [done| | |by apply IH].
  - by destruct (Hne y).
  - by destruct (Hne x).
Qed.

Lemma unique_key_insert rows x : unique_key rows → key x ∉ key <$> rows → unique_key (rows ++ [x]).
Proof.
  unfold unique_key. intros Hu Hx. rewrite fmap_app. apply NoDup_app.
  split_and!; [done| |apply NoDup_singleton]. intros k Hk. simpl. set_solver.
Qed.

Lemma update_where_keys p (f : A → A) rows :
  (∀ r, key (f r) = key r) → key <$> update_where p f rows = key <$> rows.
Proof.
  intros Hf. unfold update_where. induction rows as [|r rows IH]; csimpl; [done|]. rewrite IH.
  by destruct (p r); rewrite ?Hf.
Qed.

Lemma unique_key_update p (f : A → A) rows :
  (∀ r, key (f r) = key r) → unique_key rows → unique_key (update_where p f rows).
Proof. intros Hf. unfold unique_key. by rewrite update_where_keys. Qed.
End Keyed.

Lemma elem_of_update_where {A} (p : A → bool) f rows x :
  x ∈ update_where p f rows ↔ ∃ r, r ∈ rows ∧ x = (if p r then f r else r).
Proof. unfold update_where. rewrite elem_of_map. naive_solver. Qed.

Lemma affected_zero {A} (p : A → bool) rows : affected p rows = 0 ↔ ∀ r, r ∈ rows → p r = false.
Proof.
  unfold affected. rewrite length_zero_iff_nil. split.
  - intros Hw r Hr. apply not_true_iff_false. intros Hp. destruct (not_elem_of_nil r).
    rewrite <- Hw. by apply elem_of_where.
  - intros Hp. destruct (where_ p rows) as [|r l] eqn:Hw; [done|].
    assert (r ∈ where_ p rows) as [Hr Ht]%elem_of_where by (rewrite Hw; left). by rewrite Hp in Ht.
Qed.

Lemma affected_pos {A} (p : A → bool) rows : affected p rows ≠ 0 ↔ ∃ r, r ∈ rows ∧ p r = true.
Proof.
  rewrite affected_zero. split.
  - intros Hn. destruct (where_ p rows) as [|r l] eqn:Hw.
    + destruct Hn. apply affected_zero. unfold affected. by rewrite Hw.
    + exists r. apply elem_of_where. rewrite Hw. left.
  - intros (r & Hr & Hp) Hall. by rewrite Hall in Hp.
Qed.

Lemma update_where_id {A} (p : A → bool) f rows : affected p rows = 0 → update_where p f rows = rows.
Proof.
  rewrite affected_zero. unfold update_where. induction rows as [|r rows IH]; intros Hp; simpl; [done|].
  rewrite Hp by left. f_equal. apply IH. intros x Hx. apply Hp. by right.
Qed.

(** The first row of a query on a unique column is the row. *)
Lemma hd_where_unique {A} (key : A → string) rows k :
  unique_key key rows →
  ∀ r, hd_error (where_ (λ r, String.eqb (key r) k) rows) = Some r ↔ r ∈ rows ∧ key r = k.
Proof.
  intros Hu r. split.
  - intros Hh. assert (r ∈ where_ (λ r, String.eqb (key r) k) rows) as Hr.
    { destruct (where_ _ rows); simpl in Hh; [done|]. injection Hh as ->. left. }
    apply elem_of_where in Hr as [? ?%String.eqb_eq]. done.
  - intros [Hr Hk].
    assert (r ∈ where_ (λ r, String.eqb (key r) k) rows) as Hin.
    { apply elem_of_where. split; [done|]. by apply String.eqb_eq. }
    destruct (where_ _ rows) as [|x l] eqn:Hw; [by apply not_elem_of_nil in Hin|]. simpl. f_equal.
    assert (x ∈ where_ (λ r, String.eqb (key r) k) rows) as Hx by (rewrite Hw; left).
    apply elem_of_where in Hx as [Hx Hkx%String.eqb_eq]. eapply unique_key_eq; [done..|congruence].
Qed.

Lemma hd_where_none {A} (key : A → string) rows k :
  hd_error (where_ (λ r, String.eqb (key r) k) rows) = None ↔ ∀ r, r ∈ rows → key r ≠ k.
Proof.
  transitivity (affected (λ r, String.eqb (key r) k) rows = 0).
  - unfold affected. by destruct (where_ _ rows).
  - rewrite affected_zero. setoid_rewrite String.eqb_neq. done.
Qed.
