(* ===== verification/SqlBase.v ===== *)
(** What the stores of the SQLite adapter share ([sqlite/mod.rs]): statements that may fail a
    constraint, transactions, secrets and the reading of user rows.  The helpers that the two
    adapters spell alike ([hash_secret], the checks of e-mail addresses and repository ids) are
    those of [MemState]. *)

From Stdlib Require Import ZArith Lia Ascii.
From stdpp Require Import base gmap strings list.
From S2P Require Import Prelude Model MemState.
From S2P Require Import SqlRows.

(** What the driver reports when a constraint of the table fails. *)
Class Sqlite := { constraint_failed : string → string }.

Definition none_if_empty (value : string) : option string :=
  let trimmed := trim value in if is_empty trimmed then None else Some trimmed.

Definition ttl_seconds (ttl : Duration) : Z := i64_saturate (dur_secs ttl).

Section Helpers.
Context `{Env} `{Sqlite}.

Definition random_secret : H Db string :=
  a <- uuid_v4 ;; b <- uuid_v4 ;; ret (as_simple a +:+ as_simple b).

(** [core_from_sql] of a failed constraint. *)
Definition core_from_constraint (table : string) : CoreError :=
  InvalidArgument ("sqlite: " +:+ constraint_failed table).

Definition require_affected (changed : nat) (not_found : CoreError) : H Db () :=
  if changed =? 0 then throw not_found else ret tt.

(** A row may enter a table when its unique columns are new and its references exist. *)
Definition insert_row {A} (table : string) (fresh references : Db → bool)
    (insert : Db → Db) : H Db A → H Db A := λ k,
  db <- get_state ;;
  if fresh db && references db then modify_state insert ;;; k
  else throw (core_from_constraint table).

(** [query_row(.. WHERE p ..).optional()?.ok_or(e)] *)
Definition query_row {A} (rows : Db → list A) (p : A → bool) (e : CoreError) : H Db A :=
  db <- get_state ;;
  ok_or (hd_error (where_ p (rows db))) e.

(** [execute(UPDATE .. SET f WHERE p)] where no constraint can fail: the rows it changed. *)
Definition update_rows {A} (rows : Db → list A) (set : (list A → list A) → Db → Db)
    (p : A → bool) (f : A → A) : H Db nat :=
  db <- get_state ;;
  modify_state (set (update_where p f)) ;;;
  ret (affected p (rows db)).

(** The same where the written values may violate a constraint: [allowed] says when they do
    not, and it is asked only if a row would change. *)
Definition update_rows_checked {A} (table : string) (rows : Db → list A)
    (set : (list A → list A) → Db → Db) (p : A → bool) (allowed : Db → bool) (f : A → A)
    : H Db nat :=
  db <- get_state ;;
  if negb (affected p (rows db) =? 0) && negb (allowed db)
  then throw (core_from_constraint table)
  else update_rows rows set p f.

(** [execute(DELETE .. WHERE p)] *)
Definition delete_rows {A} (rows : Db → list A) (set : (list A → list A) → Db → Db)
    (p : A → bool) : H Db nat :=
  db <- get_state ;;
  modify_state (set (where_ (λ r, negb (p r)))) ;;;
  ret (affected p (rows db)).

(** A transaction: dropped without [commit], as an early return does, it is rolled back. *)
Definition transaction {A} (body : H Db A) : H Db A := λ w,
  match body w with
  | (Ok a, w') => (Ok a, w')
  | (Err e, w') => (Err e, mkWorld (st w) (ticks w') (draws w'))
  end.
End Helpers.

Definition fresh_in {A} (key : A → string) (rows : list A) (k : string) : bool :=
  negb (bool_decide (k ∈ key <$> rows)).

Lemma fresh_in_true {A} (key : A → string) rows k : fresh_in key rows k = true ↔ k ∉ key <$> rows.
Proof. unfold fresh_in. by rewrite negb_true_iff, bool_decide_eq_false. Qed.

Definition user_exists (db : Db) (user_id : string) : bool := bool_decide (user_id ∈ ur_id <$> db_users db).

(** [column IS NULL] *)
Definition is_null {A} (column : option A) : bool := match column with None => true | Some _ => false end.

Definition user_from_row (r : UserRow) : User :=
  mkUser (ur_id r) (default "" (ur_primary_email r)) (default "" (ur_display_name r)) (ur_status r)
    (default 0%Z (ur_last_login_at r)).

Definition none_i64_if_zero (value : Z) : option Z := if (value =? 0)%Z then None else Some value.

Definition bool_to_i64 (value : bool) : Z := if value then 1%Z else 0%Z.

(** A nullable text column in [ORDER BY]: [NULL] comes first. *)
Definition null_first (column : option string) : list string :=
  match column with None => ["0"; ""] | Some text => ["1"; text] end.

(** [ORDER BY column] and [ORDER BY column DESC] on an integer column. *)
Definition order_by_int {A} (key : A → Z) (rows : list A) : list A :=
  sort_by (λ a b, (key a <=? key b)%Z) rows.
Definition order_by_int_desc {A} (key : A → Z) (rows : list A) : list A :=
  sort_by (λ a b, (key b <=? key a)%Z) rows.

(** * LIKE (mod.rs, accounts.rs) *)

Fixpoint escape_like (value : string) : string :=
  match value with
  | EmptyString => EmptyString
  | String c rest =>
      if Ascii.eqb c "\" || Ascii.eqb c "%" || Ascii.eqb c "_"
      then String "\" (String c (escape_like rest))
      else String c (escape_like rest)
  end.

(** The elements of a pattern [.. LIKE .. ESCAPE '\']. *)
Inductive like_item :=
  | AnyString
  | AnyCharacter
  | Byte (c : ascii).

Fixpoint like_items (pattern : string) : list like_item :=
  match pattern with
  | EmptyString => []
  | String c rest =>
      if Ascii.eqb c "\" then
        match rest with
        | EmptyString => []
        | String d rest => Byte d :: like_items rest
        end
      else if Ascii.eqb c "%" then AnyString :: like_items rest
      else if Ascii.eqb c "_" then AnyCharacter :: like_items rest
      else Byte c :: like_items rest
  end.

(** The bytes of a UTF-8 character after its first one. *)
Definition is_continuation (c : ascii) : bool :=
  let n := nat_of_ascii c in (128 <=? n) && (n <? 192).
Fixpoint skip_continuation (s : string) : string :=
  match s with
  | EmptyString => EmptyString
  | String c rest => if is_continuation c then skip_continuation rest else s
  end.

(** [LIKE] does not tell the cases of ASCII letters apart. *)
Fixpoint like_matches (items : list like_item) (s : string) : bool :=
  match items with
  | [] => is_empty s
  | AnyString :: items =>
      (fix tails (s : string) : bool :=
         like_matches items s
         || match s with EmptyString => false | String _ rest => tails rest end) s
  | AnyCharacter :: items =>
      match s with
      | EmptyString => false
      | String _ rest => like_matches items (skip_continuation rest)
      end
  | Byte c :: items =>
      match s with
      | EmptyString => false
      | String d rest => Ascii.eqb (ascii_lower c) (ascii_lower d) && like_matches items rest
      end
  end.

Definition like (value pattern : string) : bool := like_matches (like_items pattern) value.

(** * Resource ids (mod.rs) *)

Definition resource_id_from_resource (resource : Resource) : result CoreError string :=
  let repository_id :=
    if negb (is_empty (trim (r_resource_id resource)))
    then validated_lore_repository_id
           (repository_id_from_resource_id (trim (r_resource_id resource)))
    else validated_lore_repository_id (r_lore_repository_id resource) in
  match repository_id with
  | Err e => Err e
  | Ok repository_id =>
      match for_repository_id repository_id with
      | Some resource_id => Ok resource_id
      | None => Err (InvalidArgument "resource_id is required")
      end
  end.
