(* ===== verification/SqlAuthz.v ===== *)
(** The authorization policy of production ([authz.rs], [permissions.rs]): grants and
    group memberships are read from SQLite as relation tuples, and the check resolver of
    the [authz-core] crate decides over a snapshot of them.  The resolver and the parser
    of its schema language are the class [AuthzCore]; a call on the connection is one
    atomic step. *)

From Stdlib Require Import ZArith Lia Ascii.
From stdpp Require Import base gmap strings list.
From S2P Require Import Prelude Model.
From S2P Require Import Ports.
From S2P Require Import SqlRows.

(** * The vocabulary of [authz-core] that the source builds and matches on *)

Record Tuple := mkTuple {
  tp_object_type : string;
  tp_object_id : string;
  tp_relation : string;
  tp_subject_type : string;
  tp_subject_id : string;
  tp_condition : option string
}.

#[export] Instance Tuple_eq_dec : EqDecision Tuple.
Proof. solve_decision. Defined.

Record TupleFilter := mkTupleFilter {
  tf_object_type : option string;
  tf_object_id : option string;
  tf_relation : option string;
  tf_subject_type : option string;
  tf_subject_id : option string
}.

Record ResolveCheckRequest := mkResolveCheckRequest {
  rq_object_type : string;
  rq_object_id : string;
  rq_relation : string;
  rq_subject_type : string;
  rq_subject_id : string
}.

Inductive CheckResult :=
  | Allowed
  | Denied
  | ConditionRequired (params : list string).

(** [trait TupleReader] *)
Record TupleReader (E : Type) := mkTupleReader {
  read_tuples : TupleFilter → result E (list Tuple);
  read_user_tuple : string → string → string → string → string → result E (option Tuple);
  read_userset_tuples : string → string → string → result E (list Tuple);
  read_starting_with_user : string → string → result E (list Tuple);
  read_user_tuple_batch :
    string → string → list string → string → string → result E (option Tuple)
}.
Arguments mkTupleReader {E}.
Arguments read_tuples {E}.
Arguments read_user_tuple {E}.
Arguments read_userset_tuples {E}.
Arguments read_starting_with_user {E}.
Arguments read_user_tuple_batch {E}.

(** What the crate provides: its errors, the policy provider made from a schema, and
    [CoreResolver::new(reader, provider).resolve_check(request)]. *)
Class AuthzCore := {
  AuthzError : Type;
  authz_error_to_string : AuthzError → string;
  PolicyProvider : Type;
  parse_dsl : string → result string PolicyProvider;
  resolve_check :
    TupleReader AuthzError → PolicyProvider → ResolveCheckRequest → result AuthzError CheckResult
}.

Definition AUTHZ_DSL : string :=
"
type user {}

type group {
    relations
        define member: [user | group#member]
}

type resource {
    relations
        define reader: [user | group#member]
        define writer: [user | group#member]
        define admin: [user | group#member]
    permissions
        define read = reader + writer + admin
        define write = writer + admin
}
".

(** * Permission sets (permissions.rs) *)

Record PermissionSet := mkPermissionSet { ps_read : bool; ps_write : bool; ps_admin : bool }.
Definition default_PermissionSet : PermissionSet := mkPermissionSet false false false.

Definition insert_permission (permission : Permission) (set : PermissionSet) : PermissionSet :=
  match permission with
  | PermRead => mkPermissionSet true (ps_write set) (ps_admin set)
  | PermWrite => mkPermissionSet (ps_read set) true (ps_admin set)
  | PermAdmin => mkPermissionSet (ps_read set) (ps_write set) true
  end.

Definition into_permissions (set : PermissionSet) : list Permission :=
  (if ps_read set then [PermRead] else []) ++ (if ps_write set then [PermWrite] else [])
  ++ (if ps_admin set then [PermAdmin] else []).

(** * Tuples and filters *)

Definition matches_filter_value (value : string) (filter : option string) : bool :=
  match filter with None => true | Some expected => String.eqb expected value end.

Definition tuple_matches_filter (tuple : Tuple) (filter : TupleFilter) : bool :=
  matches_filter_value (tp_object_type tuple) (tf_object_type filter)
  && matches_filter_value (tp_object_id tuple) (tf_object_id filter)
  && matches_filter_value (tp_relation tuple) (tf_relation filter)
  && matches_filter_value (tp_subject_type tuple) (tf_subject_type filter)
  && matches_filter_value (tp_subject_id tuple) (tf_subject_id filter).

Definition filtered_tuples (tuples : list Tuple) (filter : TupleFilter) : list Tuple :=
  List.filter (λ tuple, tuple_matches_filter tuple filter) tuples.

Definition grant_tuple (lore_repository_id relation subject_type raw_subject_id : string) : Tuple :=
  let subject_id :=
    if String.eqb subject_type "group" then raw_subject_id +:+ "#member" else raw_subject_id in
  mkTuple "resource" (default "" (for_repository_id lore_repository_id)) relation
    subject_type subject_id None.

Definition member_tuple (group_id user_id : string) : Tuple :=
  mkTuple "group" group_id "member" "user" user_id None.

Definition nested_tuple (group_id member_group_id : string) : Tuple :=
  mkTuple "group" group_id "member" "group" (member_group_id +:+ "#member") None.

(** The four selected columns of a joined row; a left join leaves three of them null. *)
Definition grant_tuple_from_row (row : RepositoryRow * option GrantRow) : option Tuple :=
  match row.2 with
  | Some g =>
      Some (grant_tuple (rep_lore_repository_id row.1) (gt_role g) (gt_subject_type g)
        (gt_subject_id g))
  | None => None
  end.

(** [ORDER BY r.lore_repository_id, g.role, g.subject_type, g.subject_id]; null sorts first. *)
Definition grant_row_key (row : RepositoryRow * option GrantRow) : list string :=
  rep_lore_repository_id row.1 ::
  match row.2 with
  | Some g => [gt_role g; gt_subject_type g; gt_subject_id g]
  | None => []
  end.

Definition on_repository (r : RepositoryRow) (g : GrantRow) : bool :=
  String.eqb (gt_repository_id g) (rep_id r).

Definition is_active (r : RepositoryRow) : bool := String.eqb (rep_status r) "active".

(** * The reader over the database *)

(** The clause on the subject of a grant; [None] when no grant can match. *)
Definition push_grant_subject_filter (filter : TupleFilter) : option (GrantRow → bool) :=
  match tf_subject_type filter, tf_subject_id filter with
  | Some subject_type, subject_id =>
      if String.eqb subject_type "user" then
        Some (match subject_id with
              | Some subject_id => λ g,
                  String.eqb (gt_subject_type g) "user" && String.eqb (gt_subject_id g) subject_id
              | None => λ g, String.eqb (gt_subject_type g) "user"
              end)
      else if String.eqb subject_type "group" then
        match subject_id with
        | Some subject_id =>
            match strip_suffix "#member" subject_id with
            | Some group_id => Some (λ g,
                String.eqb (gt_subject_type g) "group" && String.eqb (gt_subject_id g) group_id)
            | None => None
            end
        | None => Some (λ g, String.eqb (gt_subject_type g) "group")
        end
      else None
  | None, Some subject_id =>
      match strip_suffix "#member" subject_id with
      | Some group_id => Some (λ g,
          (String.eqb (gt_subject_type g) "group" && String.eqb (gt_subject_id g) group_id)
          || (String.eqb (gt_subject_type g) "user" && String.eqb (gt_subject_id g) subject_id))
      | None => Some (λ g,
          String.eqb (gt_subject_type g) "user" && String.eqb (gt_subject_id g) subject_id)
      end
  | None, None => Some (λ _, true)
  end.

Definition read_grant_tuples_conn (db : Db) (filter : TupleFilter) (tuples : list Tuple)
    : list Tuple :=
  if negb (matches_filter_value "resource" (tf_object_type filter)) then tuples else
  match push_grant_subject_filter filter with
  | None => tuples
  | Some subject_clause =>
      tuples ++
      omap grant_tuple_from_row
        (order_by grant_row_key
          (map (λ row, (row.1, Some row.2))
            (where_ (λ row : RepositoryRow * GrantRow,
               is_active row.1
               && match tf_object_id filter with
                  | Some object_id =>
                      String.eqb (rep_lore_repository_id row.1)
                        (repository_id_from_resource_id object_id)
                  | None => true
                  end
               && match tf_relation filter with
                  | Some relation => String.eqb (gt_role row.2) relation
                  | None => true
                  end
               && subject_clause row.2)
              (join_on on_repository (db_repositories db) (db_grants db)))))
  end.

Definition read_user_group_member_tuples_conn (db : Db) (filter : TupleFilter)
    (tuples : list Tuple) : list Tuple :=
  if negb (matches_filter_value "user" (tf_subject_type filter)) then tuples else
  tuples ++
  map (λ gm, member_tuple (gm_group_id gm) (gm_user_id gm))
    (order_by (λ gm, [gm_group_id gm; gm_user_id gm])
      (where_ (λ gm, matches_filter_value (gm_group_id gm) (tf_object_id filter)
                     && matches_filter_value (gm_user_id gm) (tf_subject_id filter))
        (db_group_members db))).

Definition read_group_group_member_tuples_conn (db : Db) (filter : TupleFilter)
    (tuples : list Tuple) : list Tuple :=
  if negb (matches_filter_value "group" (tf_subject_type filter)) then tuples else
  let select (clause : GroupGroupRow → bool) :=
    tuples ++
    map (λ gg, nested_tuple (gg_group_id gg) (gg_member_group_id gg))
      (order_by (λ gg, [gg_group_id gg; gg_member_group_id gg])
        (where_ (λ gg, matches_filter_value (gg_group_id gg) (tf_object_id filter) && clause gg)
          (db_group_groups db))) in
  match tf_subject_id filter with
  | Some subject_id =>
      match strip_suffix "#member" subject_id with
      | Some member_group_id => select (λ gg, String.eqb (gg_member_group_id gg) member_group_id)
      | None => tuples
      end
  | None => select (λ _, true)
  end.

Definition read_group_member_tuples_conn (db : Db) (filter : TupleFilter) (tuples : list Tuple)
    : list Tuple :=
  if negb (matches_filter_value "group" (tf_object_type filter))
     || negb (matches_filter_value "member" (tf_relation filter))
  then tuples
  else read_group_group_member_tuples_conn db filter
    (read_user_group_member_tuples_conn db filter tuples).

Definition read_tuples_conn (db : Db) (filter : TupleFilter) : list Tuple :=
  read_group_member_tuples_conn db filter (read_grant_tuples_conn db filter []).

(** The methods that both readers derive from filtered reads. *)
Section Readers.
Context {E : Type} (filtered : TupleFilter → result E (list Tuple)).

Definition reader_user_tuple (object_type object_id relation subject_type subject_id : string)
    : result E (option Tuple) :=
  match filtered (mkTupleFilter (Some object_type) (Some object_id) (Some relation)
                    (Some subject_type) (Some subject_id)) with
  | Ok tuples => Ok (hd_error tuples)
  | Err e => Err e
  end.

Definition reader_userset_tuples (object_type object_id relation : string)
    : result E (list Tuple) :=
  filtered (mkTupleFilter (Some object_type) (Some object_id) (Some relation) (Some "group") None).

Definition reader_starting_with_user (subject_type subject_id : string) : result E (list Tuple) :=
  filtered (mkTupleFilter None None None (Some subject_type) (Some subject_id)).

Fixpoint reader_user_tuple_batch (object_type object_id : string) (relations : list string)
    (subject_type subject_id : string) : result E (option Tuple) :=
  match relations with
  | [] => Ok None
  | relation :: relations =>
      match reader_user_tuple object_type object_id relation subject_type subject_id with
      | Ok (Some tuple) => Ok (Some tuple)
      | Ok None => reader_user_tuple_batch object_type object_id relations subject_type subject_id
      | Err e => Err e
      end
  end.

Definition reader_of : TupleReader E :=
  mkTupleReader filtered reader_user_tuple reader_userset_tuples reader_starting_with_user
    reader_user_tuple_batch.
End Readers.

(** [impl TupleReader for SqliteTupleReader], at a state of the database. *)
Definition sqlite_tuple_reader {E} (db : Db) : TupleReader E :=
  reader_of (λ filter, Ok (read_tuples_conn db filter)).

(** [impl TupleReader for SnapshotTupleReader] *)
Definition snapshot_tuple_reader {E} (tuples : list Tuple) : TupleReader E :=
  reader_of (λ filter, Ok (filtered_tuples tuples filter)).

(** * Snapshots *)

Definition read_active_repository_grant_tuples_conn (db : Db) (lore_repository_id : string)
    (tuples : list Tuple) : result CoreError (list Tuple) :=
  let rows :=
    order_by grant_row_key
      (where_ (λ row, is_active row.1 && String.eqb (rep_lore_repository_id row.1) lore_repository_id)
        (left_join_on on_repository (db_repositories db) (db_grants db))) in
  match rows with
  | [] => Err NotFound
  | _ => Ok (tuples ++ omap grant_tuple_from_row rows)
  end.

Definition read_candidate_grant_tuples_conn (db : Db) (resource_ids : list string)
    (tuples : list Tuple) : list Tuple :=
  let lore_repository_ids := map repository_id_from_resource_id resource_ids in
  match lore_repository_ids with
  | [] => tuples
  | _ =>
      tuples ++
      omap grant_tuple_from_row
        (order_by grant_row_key
          (map (λ row, (row.1, Some row.2))
            (where_ (λ row : RepositoryRow * GrantRow,
               is_active row.1
               && bool_decide (rep_lore_repository_id row.1 ∈ lore_repository_ids))
              (join_on on_repository (db_repositories db) (db_grants db)))))
  end.

Definition read_user_reachable_group_member_tuples_conn (db : Db) (user_id : string)
    (tuples : list Tuple) : list Tuple :=
  tuples
  ++ map (λ gm, member_tuple (gm_group_id gm) (gm_user_id gm))
       (order_by (λ gm, [gm_group_id gm; gm_user_id gm])
         (where_ (λ gm, String.eqb (gm_user_id gm) user_id) (db_group_members db)))
  ++ map (λ row : GroupGroupRow * string, nested_tuple (gg_group_id row.1) (gg_member_group_id row.1))
       (order_by (λ row, [gg_group_id row.1; gg_member_group_id row.1])
         (join_on (λ gg ug, String.eqb (gg_member_group_id gg) ug)
           (db_group_groups db) (user_groups db user_id))).

(** One [for] loop of [reachable_group_ids_from_tuples]; the flag is [changed]. *)
Definition reachable_pass (tuples : list Tuple) (group_ids : gset string) (changed : bool)
    : gset string * bool :=
  foldl (λ acc tuple,
    if negb (String.eqb (tp_object_type tuple) "group")
       || negb (String.eqb (tp_relation tuple) "member")
       || negb (String.eqb (tp_subject_type tuple) "group")
    then acc else
    match strip_suffix "#member" (tp_subject_id tuple) with
    | None => acc
    | Some member_group_id =>
        if bool_decide (member_group_id ∈ acc.1) && bool_decide (tp_object_id tuple ∉ acc.1)
        then ({[tp_object_id tuple]} ∪ acc.1, true) else acc
    end) (group_ids, changed) tuples.

(** [while changed { .. }] *)
Fixpoint reachable_loop (fuel : nat) (tuples : list Tuple) (group_ids : gset string)
    : option (gset string) :=
  match fuel with
  | 0 => None
  | S fuel =>
      let '(group_ids', changed) := reachable_pass tuples group_ids false in
      if changed then reachable_loop fuel tuples group_ids' else Some group_ids'
  end.

Definition reachable_group_ids_from_tuples (tuples : list Tuple) (user_id : string) : gset string :=
  let direct : gset string :=
    list_to_set (map tp_object_id
      (List.filter (λ tuple,
        String.eqb (tp_object_type tuple) "group" && String.eqb (tp_relation tuple) "member"
        && String.eqb (tp_subject_type tuple) "user" && String.eqb (tp_subject_id tuple) user_id)
        tuples)) in
  default ∅ (reachable_loop (S (length tuples)) tuples direct).

Section Snapshots.
Context `{Env}.

(** The [for role in roles] loop of [validate_snapshot_can_access_roles]. *)
Fixpoint validate_roles (roles : list string) (action : string) : result CoreError () :=
  match roles with
  | [] => Ok tt
  | role :: roles =>
      if String.eqb role (role_as_str Admin) then Ok tt
      else if negb (is_known_role role)
      then Err (InvalidArgument ("unknown grant role " +:+ str_debug role))
      else if role_allows role action then Ok tt
      else validate_roles roles action
  end.

(** The role a tuple gives the user, when it is a grant to the user or to one of the groups. *)
Definition applicable_role (group_ids : gset string) (user_id : string) (tuple : Tuple)
    : option string :=
  if negb (String.eqb (tp_object_type tuple) "resource") then None
  else if String.eqb (tp_subject_type tuple) "user" && String.eqb (tp_subject_id tuple) user_id
  then Some (tp_relation tuple)
  else if String.eqb (tp_subject_type tuple) "group" then
    group_id ← strip_suffix "#member" (tp_subject_id tuple);
    if bool_decide (group_id ∈ group_ids) then Some (tp_relation tuple) else None
  else None.

Definition validate_snapshot_can_access_roles (tuples : list Tuple) (user_id action : string)
    : result CoreError () :=
  let group_ids := reachable_group_ids_from_tuples tuples user_id in
  validate_roles (sort_by str_leb (omap (applicable_role group_ids user_id) tuples)) action.

Definition can_access_snapshot_conn (db : Db) (lore_repository_id user_id action : string)
    : result CoreError (list Tuple) :=
  match read_active_repository_grant_tuples_conn db lore_repository_id [] with
  | Err e => Err e
  | Ok tuples =>
      let tuples := read_user_reachable_group_member_tuples_conn db user_id tuples in
      match validate_snapshot_can_access_roles tuples user_id action with
      | Err e => Err e
      | Ok _ => Ok tuples
      end
  end.

(** The loop over the rows of the candidate query; [by_resource] is a [BTreeMap] of keys. *)
Fixpoint candidate_rows (rows : list (RepositoryRow * GrantRow)) (prefix : string)
    (by_resource : gset string) : result CoreError (gset string) :=
  match rows with
  | [] => Ok by_resource
  | (r, g) :: rows =>
      let resource_id := default "" (for_repository_id (rep_lore_repository_id r)) in
      if negb (is_empty prefix) && negb (starts_with prefix resource_id)
      then candidate_rows rows prefix by_resource
      else match role_permissions (gt_role g) with
           | None => Err (InvalidArgument ("unknown grant role " +:+ str_debug (gt_role g)))
           | Some _ => candidate_rows rows prefix ({[resource_id]} ∪ by_resource)
           end
  end.

Definition candidate_resource_ids_conn (db : Db) (user_id prefix : string)
    : result CoreError (list string) :=
  let rows :=
    order_by (λ row, [rep_name row.1; gt_role row.2])
      (where_ (λ row : RepositoryRow * GrantRow,
         is_active row.1
         && ((String.eqb (gt_subject_type row.2) "user" && String.eqb (gt_subject_id row.2) user_id)
             || (String.eqb (gt_subject_type row.2) "group"
                 && bool_decide (gt_subject_id row.2 ∈ user_groups db user_id))))
        (join_on on_repository (db_repositories db) (db_grants db))) in
  match candidate_rows rows prefix ∅ with
  | Ok by_resource => Ok (sort_by str_leb (elements by_resource))
  | Err e => Err e
  end.

Definition list_accessible_snapshot_conn (db : Db) (user_id prefix : string)
    : result CoreError (list string * list Tuple) :=
  match candidate_resource_ids_conn db user_id prefix with
  | Err e => Err e
  | Ok [] => Ok ([], [])
  | Ok resource_ids =>
      let tuples := read_candidate_grant_tuples_conn db resource_ids [] in
      Ok (resource_ids, read_user_reachable_group_member_tuples_conn db user_id tuples)
  end.
End Snapshots.

(** * The policy *)

Module Rebac.
Section Ops.
Context `{Env} `{AuthzCore}.

(** [RebacAuthorizationPolicy]; its connection is the database of the world. *)
Record RebacAuthorizationPolicy := mkRebacAuthorizationPolicy { provider : PolicyProvider }.

Definition new : result CoreError RebacAuthorizationPolicy :=
  match parse_dsl AUTHZ_DSL with
  | Ok p => Ok (mkRebacAuthorizationPolicy p)
  | Err err => Err (InvalidArgument ("authz: parse model: " +:+ err))
  end.

Definition core_from_authz (err : AuthzError) : CoreError :=
  InvalidArgument ("authz: " +:+ authz_error_to_string err).

Context (self : RebacAuthorizationPolicy).

Definition check_allowed_with_resolver (snapshot : list Tuple)
    (object_type object_id relation subject_type subject_id : string) : H Db bool :=
  let request := mkResolveCheckRequest object_type object_id relation subject_type subject_id in
  result <- map_err core_from_authz
    (lift (resolve_check (snapshot_tuple_reader snapshot) (provider self) request)) ;;
  match result with
  | Allowed => ret true
  | Denied => ret false
  | ConditionRequired params =>
      throw (InvalidArgument ("authz: condition required: " +:+ String.concat ", " params))
  end.

Fixpoint check_any_relation_with_resolver (snapshot : list Tuple) (resource_id user_id : string)
    (relations : list string) : H Db bool :=
  match relations with
  | [] => ret false
  | relation :: relations =>
      allowed <- check_allowed_with_resolver snapshot "resource" resource_id relation "user" user_id ;;
      if (allowed : bool) then ret true
      else check_any_relation_with_resolver snapshot resource_id user_id relations
  end.

Definition can_access_snapshot (resource_id user_id action : string) : H Db (list Tuple) :=
  let lore_repository_id := repository_id_from_resource_id resource_id in
  db <- get_state ;; lift (can_access_snapshot_conn db lore_repository_id user_id action).

Definition list_accessible_snapshot (user_id : string) (filter : ResourceFilter)
    : H Db (list string * list Tuple) :=
  db <- get_state ;; lift (list_accessible_snapshot_conn db user_id (rf_prefix filter)).

(** The [match action] of [can_access]. *)
Definition relations_for_action (action : string) : list string :=
  if String.eqb action "read" then ["reader"; "writer"; "admin"]
  else if String.eqb action "write" then ["writer"; "admin"]
  else ["admin"].

Definition can_access (user_id resource_id action : string) : H Db bool :=
  snapshot <- can_access_snapshot resource_id user_id action ;;
  check_any_relation_with_resolver snapshot resource_id user_id (relations_for_action action).

Definition resource_permissions_with_resolver (snapshot : list Tuple)
    (user_id resource_id : string) : H Db (list Permission) :=
  admin <- check_allowed_with_resolver snapshot "resource" resource_id "admin" "user" user_id ;;
  if (admin : bool) then ret [PermRead; PermWrite; PermAdmin] else
  reader <- check_allowed_with_resolver snapshot "resource" resource_id "reader" "user" user_id ;;
  writer <- check_allowed_with_resolver snapshot "resource" resource_id "writer" "user" user_id ;;
  let set := default_PermissionSet in
  let set := if (reader : bool) || (writer : bool) then insert_permission PermRead set else set in
  let set := if (writer : bool) then insert_permission PermWrite set else set in
  ret (into_permissions set).

(** The [for resource_id in resource_ids] loop of [list_accessible]. *)
Fixpoint list_resources (snapshot : list Tuple) (user_id : string) (resource_ids : list string)
    : H Db (list ResourcePermission) :=
  match resource_ids with
  | [] => ret []
  | resource_id :: resource_ids =>
      permissions <- resource_permissions_with_resolver snapshot user_id resource_id ;;
      out <- list_resources snapshot user_id resource_ids ;;
      ret (if bool_decide (permissions = []) then out
           else mkResourcePermission resource_id permissions :: out)
  end.

Definition list_accessible (user_id : string) (filter : ResourceFilter)
    : H Db (list ResourcePermission) :=
  let! (resource_ids, snapshot) := list_accessible_snapshot user_id filter in
  list_resources snapshot user_id resource_ids.

(** [impl AuthorizationPolicy for RebacAuthorizationPolicy] *)
Definition rebac_authz : AuthorizationPolicy Db := {|
  Ports.can_access := can_access;
  Ports.list_accessible := list_accessible
|}.
End Ops.
End Rebac.
