(* ===== verification/SqlAccounts.v ===== *)
(** The account directory of the SQLite adapter ([sqlite/accounts.rs]): users, external
    identities, invitations, and the sign-in that binds one to another in one transaction. *)

From Stdlib Require Import ZArith Lia Ascii.
From stdpp Require Import base gmap strings list.
From S2P Require Import Prelude Model MemState.
From S2P Require Import Ports.
From S2P Require Import SqlRows SqlBase.

(** * Columns that may not collide *)

(** [idx_users_primary_email]: no other user that is not deleted has the address. *)
Definition email_free (db : Db) (id : string) (email : option string) : bool :=
  match email with
  | None => true
  | Some email =>
      negb (existsb (λ r, negb (String.eqb (ur_id r) id) && negb (String.eqb (ur_status r) "deleted")
                          && bool_decide (ur_primary_email_normalized r = Some email)) (db_users db))
  end.

(** [UNIQUE(provider_id, issuer, subject)] *)
Definition identity_free (db : Db) (provider_id issuer subject : string) : bool :=
  negb (existsb (λ r, String.eqb (xr_provider_id r) provider_id && String.eqb (xr_issuer r) issuer
                      && String.eqb (xr_subject r) subject) (db_external_identities db)).

(** [idx_identity_invitations_pending_email] *)
Definition invitation_free (db : Db) (provider_id issuer : string) (email : option string) : bool :=
  match email with
  | None => true
  | Some email =>
      negb (existsb (λ r, String.eqb (ir_provider_id r) provider_id && String.eqb (ir_issuer r) issuer
                          && String.eqb (ir_status r) "pending"
                          && bool_decide (ir_email_normalized r = Some email))
              (db_identity_invitations db))
  end.

(** * Rows and the [SET] clauses of the updates *)

Definition external_identity_from_row (r : IdentityRow) : ExternalIdentity :=
  mkExternalIdentity (xr_id r) (xr_user_id r) (xr_provider_id r) (xr_issuer r) (xr_subject r)
    (xr_subject_strategy r) (default "" (xr_email r)) (negb (xr_email_verified r =? 0)%Z)
    (default "" (xr_display_name r)) (default "" (xr_picture_url r))
    (default "" (xr_hosted_domain r)) (xr_status r).

Definition identity_invitation_from_row (r : InvitationRow) : IdentityInvitation :=
  mkIdentityInvitation (ir_id r) (ir_user_id r) (ir_provider_id r) (ir_issuer r)
    (default "" (ir_email r)) (ir_binding_policy r) (ir_status r)
    (default "" (ir_accepted_identity_id r)) (default 0%Z (ir_expires_at r))
    (default 0%Z (ir_accepted_at r)).

Definition row_user_status (status : string) (now : Z) (r : UserRow) : UserRow :=
  mkUserRow (ur_id r) (ur_display_name r) (ur_primary_email r) (ur_primary_email_normalized r)
    status (ur_created_at r) now (ur_last_login_at r).
Definition row_logged_in (now : Z) (r : UserRow) : UserRow :=
  mkUserRow (ur_id r) (ur_display_name r) (ur_primary_email r) (ur_primary_email_normalized r)
    (ur_status r) (ur_created_at r) now (Some now).
Definition row_user_bound (email : string) (display_name : option string) (now : Z) (r : UserRow)
    : UserRow :=
  mkUserRow (ur_id r) display_name (Some email) (Some (normalize_email email)) "active"
    (ur_created_at r) now (Some now).
Definition row_identity_seen (now : Z) (r : IdentityRow) : IdentityRow :=
  mkIdentityRow (xr_id r) (xr_user_id r) (xr_provider_id r) (xr_issuer r) (xr_subject r)
    (xr_subject_strategy r) (xr_email r) (xr_email_verified r) (xr_display_name r)
    (xr_picture_url r) (xr_hosted_domain r) (xr_status r) (xr_first_seen_at r) now.
Definition row_invitation_accepted (identity_id : string) (now : Z) (r : InvitationRow)
    : InvitationRow :=
  mkInvitationRow (ir_id r) (ir_user_id r) (ir_provider_id r) (ir_issuer r) (ir_email r)
    (ir_email_normalized r) (ir_binding_policy r) "accepted" (Some identity_id) (ir_created_at r)
    (ir_expires_at r) (Some now).

Module SqlAccounts.
Section Ops.
Context `{Env} `{Sqlite}.

(** * Lookups *)

Definition resolve_user_id_conn (email_or_id : string) : H Db string :=
  db <- get_state ;;
  match hd_error (where_ (λ r, String.eqb (ur_id r) email_or_id) (db_users db)) with
  | Some r => ret (ur_id r)
  | None =>
      row <- ok_or (hd_error (order_by_int ur_created_at (where_ (λ r,
               bool_decide (ur_primary_email_normalized r = Some (normalize_email email_or_id)))
               (db_users db)))) NotFound ;;
      ret (ur_id row)
  end.

Definition user_by_id_conn (user_id : string) : H Db User :=
  row <- query_row db_users
    (λ r, String.eqb (ur_id r) user_id && negb (String.eqb (ur_status r) "deleted")) NotFound ;;
  ret (user_from_row row).

Definition user_by_id_tx (user_id : string) : H Db User :=
  row <- query_row db_users (λ r, String.eqb (ur_id r) user_id) NotFound ;;
  ret (user_from_row row).

Definition group_names_conn (user_id : string) : H Db (list string) :=
  db <- get_state ;;
  ret (map (λ row : GroupRow * GroupMemberRow, gp_name row.1)
    (order_by (λ row : GroupRow * GroupMemberRow, [gp_name row.1])
      (where_ (λ row : GroupRow * GroupMemberRow, String.eqb (gm_user_id row.2) user_id)
        (join_on (λ g gm, String.eqb (gm_group_id gm) (gp_id g)) (db_groups db)
          (db_group_members db))))).

Definition active_user (user : User) : result CoreError () :=
  if String.eqb (u_status user) "active" then Ok tt else Err PermissionDenied.

Definition resolve_user (email_or_id : string) : H Db User :=
  user_id <- resolve_user_id_conn email_or_id ;;
  user_by_id_conn user_id.

Definition user_by_id (user_id : string) : H Db User := user_by_id_conn user_id.

Definition list_users (f : UserListFilter) : H Db (list User) :=
  let query := to_ascii_lowercase (trim (ulf_query f)) in
  let pattern := "%" +:+ escape_like query +:+ "%" in
  db <- get_state ;;
  ret (map user_from_row (truncate (i64_saturate (effective_limit (ulf_limit f)))
    (order_by (λ r, null_first (ur_primary_email_normalized r) ++ [ur_id r])
      (where_ (λ r, negb (String.eqb (ur_status r) "deleted")
                    && (is_empty query
                        || match ur_primary_email_normalized r with
                           | Some email => like (to_ascii_lowercase email) pattern
                           | None => false
                           end
                        || like (to_ascii_lowercase (default "" (ur_display_name r))) pattern))
        (db_users db))))).

Definition principal_by_user_id (user_id : string) : H Db TokenPrincipal :=
  user <- user_by_id_conn user_id ;;
  lift (active_user user) ;;;
  groups <- group_names_conn (u_id user) ;;
  ret (principal_from_user user "bridge" groups).

Definition principal_by_authn_token_jti (jti : string) : H Db TokenPrincipal :=
  now <- now_unix ;;
  db <- get_state ;;
  row <- ok_or (hd_error (where_ (λ row : IssuedTokenRow * UserRow,
           String.eqb (tk_jti row.1) jti && String.eqb (tk_token_kind row.1) "authn"
           && is_null (tk_revoked_at row.1) && (now <? tk_expires_at row.1)%Z
           && String.eqb (ur_status row.2) "active")
           (join_on (λ it u, bool_decide (tk_user_id it = Some (ur_id u))) (db_issued_tokens db)
             (db_users db)))) NotFound ;;
  let user := user_from_row row.2 in
  groups <- group_names_conn (u_id user) ;;
  ret (principal_from_user user "bridge" groups).

(** * Users and invitations *)

Definition insert_user {A} (user : User) (now : Z) (k : H Db A) : H Db A :=
  let row := mkUserRow (u_id user) (none_if_empty (u_display_name user))
    (none_if_empty (u_email user)) (none_if_empty (normalize_email (u_email user)))
    (u_status user) now now None in
  insert_row "users"
    (λ db, fresh_in ur_id (db_users db) (ur_id row)
           && email_free db (ur_id row) (ur_primary_email_normalized row))
    (λ _, true)
    (set_users (λ rows, rows ++ [row]))
    k.

Definition add_user_conn (input : AddUserInput) : H Db User :=
  now <- now_unix ;;
  email <- lift (validated_account_email (aui_email input)) ;;
  id <- uuid_v4 ;;
  let user := mkUser id email (aui_display_name input) "active" 0 in
  insert_user user now (ret user).

Definition insert_invitation (invitation : IdentityInvitation) (email_normalized : string) (now : Z)
    : H Db () :=
  let row := mkInvitationRow (ii_id invitation) (ii_user_id invitation) (ii_provider_id invitation)
    (ii_issuer invitation) (none_if_empty (ii_email invitation)) (none_if_empty email_normalized)
    (ii_binding_policy invitation) (ii_status invitation) None now
    (none_i64_if_zero (ii_expires_at invitation)) None in
  insert_row "identity_invitations"
    (λ db, fresh_in ir_id (db_identity_invitations db) (ir_id row)
           && invitation_free db (ir_provider_id row) (ir_issuer row) (ir_email_normalized row))
    (λ db, user_exists db (ir_user_id row))
    (set_identity_invitations (λ rows, rows ++ [row]))
    (ret tt).

Definition add_invitation_db (input : AddInvitationInput) : H Db (User * IdentityInvitation) :=
  let provider_id := trim (aii_provider_id input) in
  let issuer := trim (aii_issuer input) in
  email <- lift (validated_account_email (aii_email input)) ;;
  let email_normalized := normalize_email email in
  if is_empty provider_id || is_empty issuer || is_empty email_normalized
  then throw (InvalidArgument "provider_id, issuer, and email are required") else
  let binding_policy := if is_empty (trim (aii_binding_policy input))
    then "verified_email_invitation" else trim (aii_binding_policy input) in
  now <- now_unix ;;
  user_id <- uuid_v4 ;;
  let user := mkUser user_id email (aii_display_name input) "pending" 0 in
  invitation_id <- uuid_v4 ;;
  let invitation := mkIdentityInvitation invitation_id user_id provider_id issuer email
    binding_policy "pending" "" (aii_expires_at input) 0 in
  insert_user user now (insert_invitation invitation email_normalized now) ;;;
  ret (user, invitation).

Definition add_user (input : AddUserInput) : H Db User := add_user_conn input.

Definition add_invitation (input : AddInvitationInput) : H Db (User * IdentityInvitation) :=
  transaction (add_invitation_db input).

(** [disable_user_conn] and [enable_user_conn]. *)
Definition set_user_status_conn (status email_or_id : string) : H Db () :=
  user_id <- resolve_user_id_conn email_or_id ;;
  now <- now_unix ;;
  changed <- update_rows db_users set_users
    (λ r, String.eqb (ur_id r) user_id && negb (String.eqb (ur_status r) "deleted"))
    (row_user_status status now) ;;
  require_affected changed NotFound.

Definition disable_user (email_or_id : string) : H Db () :=
  set_user_status_conn "disabled" email_or_id.
Definition enable_user (email_or_id : string) : H Db () :=
  set_user_status_conn "active" email_or_id.

(** * Signing in *)

(** The identity is bound already: stamp it and its user, and admit an active user. *)
Definition existing_login (existing : ExternalIdentity)
    : H Db (TokenPrincipal * LoginBindingResult) :=
  now <- now_unix ;;
  update_rows db_external_identities set_external_identities
    (λ r, String.eqb (xr_id r) (ei_id existing)) (row_identity_seen now) ;;;
  update_rows db_users set_users (λ r, String.eqb (ur_id r) (ei_user_id existing))
    (row_logged_in now) ;;;
  user <- user_by_id_tx (ei_user_id existing) ;;
  lift (active_user user) ;;;
  groups <- group_names_conn (u_id user) ;;
  ret (principal_from_user user (ei_provider_id existing) groups,
       mkLoginBindingResult "existing" (ei_id existing) "").

Definition insert_identity (identity : ExternalIdentity) (now : Z) : H Db () :=
  let row := mkIdentityRow (ei_id identity) (ei_user_id identity) (ei_provider_id identity)
    (ei_issuer identity) (ei_subject identity) (ei_subject_strategy identity)
    (none_if_empty (ei_email identity)) (bool_to_i64 (ei_email_verified identity))
    (none_if_empty (ei_display_name identity)) (none_if_empty (ei_picture_url identity))
    (none_if_empty (ei_hosted_domain identity)) (ei_status identity) now now in
  insert_row "external_identities"
    (λ db, fresh_in xr_id (db_external_identities db) (xr_id row)
           && identity_free db (xr_provider_id row) (xr_issuer row) (xr_subject row))
    (λ db, user_exists db (xr_user_id row))
    (set_external_identities (λ rows, rows ++ [row]))
    (ret tt).

(** Bind the identity to the invited user, spend the invitation and activate the user. *)
Definition bind_invitation (identity : ExternalIdentity) (provider_id issuer subject : string)
    (invitation : IdentityInvitation) : H Db (TokenPrincipal * LoginBindingResult) :=
  now <- now_unix ;;
  id <- uuid_v4 ;;
  let external_identity := mkExternalIdentity id (ii_user_id invitation) provider_id issuer subject
    (if is_empty (trim (ei_subject_strategy identity)) then "oidc_sub"
     else ei_subject_strategy identity)
    (trim (ei_email identity)) (ei_email_verified identity) (ei_display_name identity)
    (ei_picture_url identity) (ei_hosted_domain identity) "active" in
  insert_identity external_identity now ;;;
  changed <- update_rows_checked "identity_invitations" db_identity_invitations
    set_identity_invitations
    (λ r, String.eqb (ir_id r) (ii_id invitation) && String.eqb (ir_status r) "pending")
    (λ db, bool_decide (id ∈ xr_id <$> db_external_identities db))
    (row_invitation_accepted id now) ;;
  require_affected changed NotFound ;;;
  let display_name := if is_empty (ei_display_name identity) then ii_email invitation
    else ei_display_name identity in
  changed <- update_rows_checked "users" db_users set_users
    (λ r, String.eqb (ur_id r) (ii_user_id invitation))
    (λ db, email_free db (ii_user_id invitation)
             (Some (normalize_email (ei_email external_identity))))
    (row_user_bound (ei_email external_identity) (none_if_empty display_name) now) ;;
  require_affected changed NotFound ;;;
  user <- user_by_id_tx (ii_user_id invitation) ;;
  groups <- group_names_conn (u_id user) ;;
  ret (principal_from_user user provider_id groups,
       mkLoginBindingResult "bound_invitation" id (ii_id invitation)).

(** The pending invitation of the verified address, oldest first. *)
Definition pending_invitation (provider_id issuer email_normalized : string)
    : H Db IdentityInvitation :=
  now <- now_unix ;;
  db <- get_state ;;
  row <- ok_or (hd_error (order_by_int ir_created_at (where_ (λ r,
           String.eqb (ir_provider_id r) provider_id && String.eqb (ir_issuer r) issuer
           && bool_decide (ir_email_normalized r = Some email_normalized)
           && String.eqb (ir_binding_policy r) "verified_email_invitation"
           && String.eqb (ir_status r) "pending"
           && match ir_expires_at r with None => true | Some t => (now <? t)%Z end)
           (db_identity_invitations db)))) NotFound ;;
  ret (identity_invitation_from_row row).

Definition claim_invitation (req : LoginResolutionRequest) (provider_id issuer subject : string)
    : H Db (TokenPrincipal * LoginBindingResult) :=
  let identity := lrr_identity req in
  if negb (ei_email_verified identity) || is_empty (trim (ei_email identity)) then throw NotFound
  else if negb (allows_verified_email_invitation_binding (lrr_policy req)) then throw NotFound
  else
    let email_normalized := normalize_email (ei_email identity) in
    if negb (email_domain_allowed email_normalized (ltp_allowed_email_domains (lrr_policy req)))
    then throw NotFound
    else
      invitation <- pending_invitation provider_id issuer email_normalized ;;
      bind_invitation identity provider_id issuer subject invitation.

Definition resolve_login (req : LoginResolutionRequest)
    : H Db (TokenPrincipal * LoginBindingResult) :=
  let identity := lrr_identity req in
  let provider_id := trim (ei_provider_id identity) in
  let issuer := trim (ei_issuer identity) in
  let subject := trim (ei_subject identity) in
  if is_empty provider_id || is_empty issuer || is_empty subject
  then throw (InvalidArgument "provider_id, issuer, and subject are required")
  else transaction (
    db <- get_state ;;
    match hd_error (where_ (λ r, String.eqb (xr_provider_id r) provider_id
                                 && String.eqb (xr_issuer r) issuer
                                 && String.eqb (xr_subject r) subject
                                 && String.eqb (xr_status r) "active")
            (db_external_identities db)) with
    | Some row => existing_login (external_identity_from_row row)
    | None => claim_invitation req provider_id issuer subject
    end).

(** [impl AccountQuery for Store], [impl AccountDirectory for Store] *)
Definition sqlite_account_query : AccountQuery Db := {|
  Ports.user_by_id := user_by_id;
  Ports.list_users := list_users
|}.

Definition sqlite_accounts : AccountDirectory Db := {|
  Ports.account_query := sqlite_account_query;
  Ports.resolve_login := resolve_login;
  Ports.principal_by_user_id := principal_by_user_id;
  Ports.principal_by_authn_token_jti := principal_by_authn_token_jti;
  Ports.add_user := add_user;
  Ports.add_invitation := add_invitation;
  Ports.disable_user := disable_user;
  Ports.enable_user := enable_user
|}.
End Ops.
End SqlAccounts.
