(* ===== verification/SqlGroups.v ===== *)
(** Groups, memberships and nesting of the SQLite adapter ([sqlite/groups.rs]). *)

From Stdlib Require Import ZArith Lia Ascii.
From stdpp Require Import base gmap strings list.
From S2P Require Import Prelude Model.
From S2P Require Import Ports.
From S2P Require Import SqlRows SqlBase SqlAccounts.

Definition group_from_row (r : GroupRow) : Group :=
  mkGroup (gp_id r) (gp_name r) (default "" (gp_description r)).

(** [ORDER BY CASE WHEN id = ?1 THEN 0 ELSE 1 END]: the row with that id comes first. *)
Definition by_id_first (group : string) (r : GroupRow) : Z :=
  if String.eqb (gp_id r) group then 0%Z else 1%Z.

(** [SELECT gg.member_group_id FROM group_groups gg JOIN descendants d ON gg.group_id =
    d.group_id], for one row of [descendants]. *)
Definition member_groups (db : Db) (group_id : string) : list string :=
  map gg_member_group_id
    (where_ (λ gg, String.eqb (gg_group_id gg) group_id) (db_group_groups db)).

Definition descendants (db : Db) (group_id : string) : list string :=
  default [] (recursive_query (member_groups db) (S (S (length (db_group_groups db))))
    [group_id] [group_id]).

Definition edge (parent_group_id member_group_id : string) (r : GroupGroupRow) : bool :=
  String.eqb (gg_group_id r) parent_group_id && String.eqb (gg_member_group_id r) member_group_id.

Definition membership (group_id user_id : string) (r : GroupMemberRow) : bool :=
  String.eqb (gm_group_id r) group_id && String.eqb (gm_user_id r) user_id.

Definition group_exists (db : Db) (group_id : string) : bool :=
  bool_decide (group_id ∈ gp_id <$> db_groups db).

Module SqlGroups.
Section Ops.
Context `{Env} `{Sqlite}.

Definition group_id_by_name_conn (name : string) : H Db string :=
  row <- query_row db_groups (λ r, String.eqb (gp_name r) name) NotFound ;;
  ret (gp_id row).

(** [group_id_by_name_or_id_conn] and [group_id_by_name_or_id_tx]. *)
Definition group_id_by_name_or_id_conn (group : string) : H Db string :=
  db <- get_state ;;
  row <- ok_or (hd_error (order_by_int (by_id_first group)
           (where_ (λ r, String.eqb (gp_id r) group || String.eqb (gp_name r) group)
             (db_groups db)))) NotFound ;;
  ret (gp_id row).

Definition group_group_edge_exists_tx (parent_group_id member_group_id : string) : H Db bool :=
  db <- get_state ;;
  ret (negb (affected (edge parent_group_id member_group_id) (db_group_groups db) =? 0)).

Definition group_group_would_cycle_tx (parent_group_id member_group_id : string) : H Db bool :=
  db <- get_state ;;
  ret (bool_decide (parent_group_id ∈ descendants db member_group_id)).

Definition find_group_by_name (name : string) : H Db Group :=
  row <- query_row db_groups (λ r, String.eqb (gp_name r) name) NotFound ;;
  ret (group_from_row row).

(** The statement of [add_group] and the group it answers. *)
Definition insert_group (name description : string) : H Db Group :=
  now <- now_unix ;;
  id <- uuid_v4 ;;
  let row := mkGroupRow id name (none_if_empty description) now now in
  insert_row "groups"
    (λ db, fresh_in gp_id (db_groups db) id && fresh_in gp_name (db_groups db) name)
    (λ _, true)
    (set_groups (λ rows, rows ++ [row]))
    (ret (mkGroup id name description)).

Definition add_group (name description : string) : H Db Group :=
  if is_empty (trim name) then throw (InvalidArgument "group name must not be empty")
  else insert_group (trim name) description.

(** [INSERT OR IGNORE] *)
Definition insert_member (group_id user_id : string) : H Db () :=
  now <- now_unix ;;
  db <- get_state ;;
  if negb (affected (membership group_id user_id) (db_group_members db) =? 0) then ret tt else
  insert_row "group_members" (λ _, true) (λ db, group_exists db group_id && user_exists db user_id)
    (set_group_members (λ rows, rows ++ [mkGroupMemberRow group_id user_id now])) (ret tt).

Definition add_group_member (group user_email_or_id : string) : H Db () :=
  group_id <- group_id_by_name_conn group ;;
  user_id <- SqlAccounts.resolve_user_id_conn user_email_or_id ;;
  insert_member group_id user_id.

Definition remove_group_member (group user_email_or_id : string) : H Db () :=
  group_id <- group_id_by_name_conn group ;;
  user_id <- SqlAccounts.resolve_user_id_conn user_email_or_id ;;
  changed <- delete_rows db_group_members set_group_members (membership group_id user_id) ;;
  require_affected changed NotFound.

Definition insert_edge (parent_group_id member_group_id : string) : H Db () :=
  now <- now_unix ;;
  insert_row "group_groups"
    (λ db, affected (edge parent_group_id member_group_id) (db_group_groups db) =? 0)
    (λ db, group_exists db parent_group_id && group_exists db member_group_id)
    (set_group_groups (λ rows, rows ++ [mkGroupGroupRow parent_group_id member_group_id now]))
    (ret tt).

Definition add_group_group (parent_group member_group : string) : H Db () :=
  transaction (
    parent_group_id <- group_id_by_name_or_id_conn parent_group ;;
    member_group_id <- group_id_by_name_or_id_conn member_group ;;
    if String.eqb parent_group_id member_group_id
    then throw (InvalidArgument "group cannot contain itself")
    else
      exists_ <- group_group_edge_exists_tx parent_group_id member_group_id ;;
      if exists_ : bool then ret tt else
      cycle <- group_group_would_cycle_tx parent_group_id member_group_id ;;
      if cycle : bool then throw (InvalidArgument "group nesting would create a cycle")
      else insert_edge parent_group_id member_group_id).

Definition remove_group_group (parent_group member_group : string) : H Db () :=
  parent_group_id <- group_id_by_name_or_id_conn parent_group ;;
  member_group_id <- group_id_by_name_or_id_conn member_group ;;
  changed <- delete_rows db_group_groups set_group_groups (edge parent_group_id member_group_id) ;;
  require_affected changed NotFound.

Definition list_groups : H Db (list Group) :=
  db <- get_state ;;
  ret (map group_from_row (order_by (λ r, [gp_name r]) (db_groups db))).

Definition list_group_members (group : string) : H Db (list User) :=
  group_id <- group_id_by_name_or_id_conn group ;;
  db <- get_state ;;
  ret (map (λ row : GroupMemberRow * UserRow, user_from_row row.2)
    (order_by (λ row : GroupMemberRow * UserRow,
       null_first (ur_primary_email_normalized row.2) ++ [ur_id row.2])
      (where_ (λ row : GroupMemberRow * UserRow, String.eqb (gm_group_id row.1) group_id
                && negb (String.eqb (ur_status row.2) "deleted"))
        (join_on (λ gm u, String.eqb (ur_id u) (gm_user_id gm)) (db_group_members db)
          (db_users db))))).

Definition list_group_groups (group : string) : H Db (list Group) :=
  group_id <- group_id_by_name_or_id_conn group ;;
  db <- get_state ;;
  ret (map (λ row : GroupGroupRow * GroupRow, group_from_row row.2)
    (order_by (λ row : GroupGroupRow * GroupRow, [gp_name row.2])
      (where_ (λ row : GroupGroupRow * GroupRow, String.eqb (gg_group_id row.1) group_id)
        (join_on (λ gg g, String.eqb (gp_id g) (gg_member_group_id gg)) (db_group_groups db)
          (db_groups db))))).

(** [impl GroupAdmin for Store], [impl GroupQuery for Store] *)
Definition sqlite_group_admin : GroupAdmin Db := {|
  Ports.add_group := add_group;
  Ports.add_group_member := add_group_member;
  Ports.remove_group_member := remove_group_member;
  Ports.add_group_group := add_group_group;
  Ports.remove_group_group := remove_group_group
|}.

Definition sqlite_group_query : GroupQuery Db := {|
  Ports.list_groups := list_groups;
  Ports.list_group_members := list_group_members;
  Ports.list_group_groups := list_group_groups
|}.
End Ops.
End SqlGroups.
