(* ===== verification/SqlGrants.v ===== *)
(** Grants of the SQLite adapter ([sqlite/grants.rs]): administration, listing, and the evidence
    that shows an administrator why a user may use a repository. *)

From Stdlib Require Import ZArith Lia Ascii.
From stdpp Require Import base gmap strings list.
From S2P Require Import Prelude Model.
From S2P Require Import Ports.
From S2P Require Import SqlRows SqlBase SqlAccounts SqlGroups.

Definition grant_from_row (r : GrantRow) : Grant :=
  mkGrant (gt_id r) (gt_subject_type r) (gt_subject_id r) (gt_repository_id r) (gt_role r).

Definition grant_row_order (r : GrantRow) : list string :=
  [gt_repository_id r; gt_subject_type r; gt_subject_id r; gt_role r].

(** [UNIQUE (subject_type, subject_id, repository_id, role)] *)
Definition same_grant (subject_type subject_id repository_id role : string) (r : GrantRow) : bool :=
  String.eqb (gt_subject_type r) subject_type && String.eqb (gt_subject_id r) subject_id
  && String.eqb (gt_repository_id r) repository_id && String.eqb (gt_role r) role.

(** [COALESCE(u.primary_email, u.id)] of a joined user; the caller has found the user. *)
Definition user_label_of (u : option UserRow) : string :=
  match u with Some u => default (ur_id u) (ur_primary_email u) | None => "" end.

Definition evidence_leb (left right : GrantEvidence) : bool :=
  lex_leb [ge_path left; ge_subject_type left; ge_subject_id left; ge_role left]
          [ge_path right; ge_subject_type right; ge_subject_id right; ge_role right].

(** * Paths through nested groups *)

Section Paths.
Context (db : Db) (user_id : string).

(** [labels], filled from [SELECT id, name FROM groups ORDER BY name]. *)
Definition group_labels : gmap string string :=
  foldl (λ labels r, <[gp_id r := gp_name r]> labels) ∅ (order_by (λ r, [gp_name r]) (db_groups db)).

(** [COALESCE(g.name, gm.group_id)] *)
Definition member_label (row : GroupMemberRow * option GroupRow) : string :=
  match row.2 with Some g => gp_name g | None => gm_group_id row.1 end.

Definition direct_rows : list (GroupMemberRow * option GroupRow) :=
  order_by (λ row, [member_label row])
    (where_ (λ row : GroupMemberRow * option GroupRow, String.eqb (gm_user_id row.1) user_id)
      (left_join_on (λ gm g, String.eqb (gp_id g) (gm_group_id gm)) (db_group_members db)
        (db_groups db))).

(** The body of [for row in rows], and the first loop: the direct groups, with their labels as
    paths. *)
Definition seed_row (reachable_group_ids : gset string) (acc : gmap string string * list string)
    (row : GroupMemberRow * option GroupRow) : gmap string string * list string :=
  let group_id := gm_group_id row.1 in
  if bool_decide (group_id ∈ reachable_group_ids) then
    (<[group_id := member_label row]> acc.1,
     match acc.1 !! group_id with None => acc.2 ++ [group_id] | Some _ => acc.2 end)
  else acc.

Definition seed_paths (reachable_group_ids : gset string) : gmap string string * list string :=
  foldl (seed_row reachable_group_ids) (∅, []) direct_rows.

Definition parents_by_member : gmap string (list string) :=
  foldl (λ parents r,
    <[gg_member_group_id r := default [] (parents !! gg_member_group_id r) ++ [gg_group_id r]]>
      parents) ∅
    (order_by (λ r, [gg_member_group_id r; gg_group_id r]) (db_group_groups db)).

(** The body of [for parent_group_id in parent_group_ids]. *)
Definition visit_parent (reachable_group_ids : gset string) (child_path : string)
    (acc : gmap string string * list string) (parent_group_id : string)
    : gmap string string * list string :=
  if negb (bool_decide (parent_group_id ∈ reachable_group_ids))
     || bool_decide (is_Some (acc.1 !! parent_group_id))
  then acc
  else
    let label := default parent_group_id (group_labels !! parent_group_id) in
    (<[parent_group_id := child_path +:+ " -> " +:+ label]> acc.1, acc.2 ++ [parent_group_id]).

Fixpoint paths_loop (fuel : nat) (reachable_group_ids : gset string) (paths : gmap string string)
    (queue : list string) : option (gmap string string) :=
  match fuel with
  | 0 => None
  | S fuel =>
      match queue with
      | [] => Some paths
      | child_group_id :: queue =>
          match paths !! child_group_id, parents_by_member !! child_group_id with
          | Some child_path, Some parent_group_ids =>
              let '(paths, queue) :=
                foldl (visit_parent reachable_group_ids child_path) (paths, queue) parent_group_ids in
              paths_loop fuel reachable_group_ids paths queue
          | _, _ => paths_loop fuel reachable_group_ids paths queue
          end
      end
  end.

(** A group is queued when it gets its path, so there is at most one step per reachable group. *)
Definition group_paths (reachable_group_ids : gset string) : gmap string string :=
  let '(paths, queue) := seed_paths reachable_group_ids in
  default ∅ (paths_loop (S (size reachable_group_ids)) reachable_group_ids paths queue).
End Paths.

Module SqlGrants.
Section Ops.
Context `{Env} `{Sqlite}.

Definition repository_id_by_name_conn (name : string) : H Db string :=
  row <- query_row db_repositories
    (λ r, String.eqb (rep_name r) name && String.eqb (rep_status r) "active") NotFound ;;
  ret (rep_id row).

Definition resolve_grant_subject_id_conn (subject_type subject : string) : H Db string :=
  if String.eqb subject_type "user" then
    map_err (λ _, InvalidArgument ("unknown grant user " +:+ str_debug subject))
      (SqlAccounts.resolve_user_id_conn subject)
  else if String.eqb subject_type "group" then
    map_err (λ _, InvalidArgument ("unknown grant group " +:+ str_debug subject))
      (SqlGroups.group_id_by_name_or_id_conn subject)
  else throw (InvalidArgument ("unknown grant subject_type " +:+ str_debug subject_type)).

Definition add_grant_conn (subject_type subject_id repo role : string) : H Db Grant :=
  if negb (is_known_role role)
  then throw (InvalidArgument ("unknown grant role " +:+ str_debug role)) else
  subject_id <- resolve_grant_subject_id_conn subject_type subject_id ;;
  repository_id <- repository_id_by_name_conn repo ;;
  now <- now_unix ;;
  id <- uuid_v4 ;;
  let row := mkGrantRow id subject_type subject_id repository_id role now now in
  insert_row "grants"
    (λ db, fresh_in gt_id (db_grants db) id
           && (affected (same_grant subject_type subject_id repository_id role) (db_grants db) =? 0))
    (λ db, bool_decide (repository_id ∈ rep_id <$> db_repositories db))
    (set_grants (λ rows, rows ++ [row]))
    (ret (grant_from_row row)).

Definition remove_grant_conn (subject_type subject_id repo role : string) : H Db () :=
  subject_id <- resolve_grant_subject_id_conn subject_type subject_id ;;
  repository_id <- repository_id_by_name_conn repo ;;
  changed <- delete_rows db_grants set_grants
    (same_grant subject_type subject_id repository_id role) ;;
  require_affected changed NotFound.

Definition add_grant (subject_type subject_id repo role : string) : H Db Grant :=
  add_grant_conn subject_type subject_id repo role.

Definition remove_grant (subject_type subject_id repo role : string) : H Db () :=
  remove_grant_conn subject_type subject_id repo role.

Definition list_grants (repo : string) : H Db (list Grant) :=
  if is_empty (trim repo) then
    db <- get_state ;;
    ret (map grant_from_row (order_by grant_row_order (db_grants db)))
  else
    repository_id <- repository_id_by_name_conn repo ;;
    db <- get_state ;;
    ret (map grant_from_row (order_by grant_row_order
      (where_ (λ r, String.eqb (gt_repository_id r) repository_id) (db_grants db)))).

(** * Evidence *)

Definition repository_id_by_resource_conn (resource_id : string) : H Db string :=
  let lore_repository_id := repository_id_from_resource_id (trim resource_id) in
  if is_empty lore_repository_id then throw (InvalidArgument "resource_id must not be empty") else
  row <- query_row db_repositories (λ r, String.eqb (rep_status r) "active"
           && String.eqb (rep_lore_repository_id r) lore_repository_id) NotFound ;;
  ret (rep_id row).

Definition user_label_conn (user_id : string) : H Db string :=
  row <- query_row db_users
    (λ r, String.eqb (ur_id r) user_id && negb (String.eqb (ur_status r) "deleted")) NotFound ;;
  ret (user_label_of (Some row)).

Definition reachable_group_ids_conn (db : Db) (user_id : string) : gset string :=
  list_to_set (user_groups db user_id).

Definition direct_evidence (db : Db) (repository_id user_id user_label : string)
    : list GrantEvidence :=
  map (λ row : GrantRow * option UserRow,
      mkGrantEvidence (gt_subject_type row.1) (gt_subject_id row.1) (user_label_of row.2)
        (gt_role row.1) ("user:" +:+ user_label +:+ " -> grant"))
    (order_by (λ row, [gt_role row.1])
      (where_ (λ row : GrantRow * option UserRow,
          String.eqb (gt_repository_id row.1) repository_id
          && String.eqb (gt_subject_type row.1) "user" && String.eqb (gt_subject_id row.1) user_id)
        (left_join_on (λ g u, String.eqb (ur_id u) (gt_subject_id g)) (db_grants db) (db_users db)))).

(** [COALESCE(gr.name, g.subject_id)] *)
Definition subject_name (row : GrantRow * option GroupRow) : string :=
  match row.2 with Some g => gp_name g | None => gt_subject_id row.1 end.

Definition group_evidence (db : Db) (repository_id user_label : string)
    (paths : gmap string string) (group_id : string) : list GrantEvidence :=
  map (λ row : GrantRow * option GroupRow,
      mkGrantEvidence (gt_subject_type row.1) (gt_subject_id row.1) (subject_name row)
        (gt_role row.1)
        ("user:" +:+ user_label +:+ " -> "
           +:+ default (subject_name row) (paths !! gt_subject_id row.1) +:+ " -> grant"))
    (order_by (λ row, [subject_name row; gt_role row.1])
      (where_ (λ row : GrantRow * option GroupRow,
          String.eqb (gt_repository_id row.1) repository_id
          && String.eqb (gt_subject_type row.1) "group" && String.eqb (gt_subject_id row.1) group_id)
        (left_join_on (λ g gr, String.eqb (gp_id gr) (gt_subject_id g)) (db_grants db)
          (db_groups db)))).

Definition grants_for_user_on_repository (user_id resource_id : string)
    : H Db (list GrantEvidence) :=
  repository_id <- repository_id_by_resource_conn resource_id ;;
  user_label <- user_label_conn user_id ;;
  db <- get_state ;;
  let group_ids := reachable_group_ids_conn db user_id in
  let via_groups :=
    if bool_decide (group_ids = ∅) then []
    else
      let paths := group_paths db user_id group_ids in
      flat_map (group_evidence db repository_id user_label paths)
        (order_by (λ g, [g]) (hashset_iter group_ids)) in
  ret (sort_by evidence_leb (direct_evidence db repository_id user_id user_label ++ via_groups)).

(** [impl GrantAdmin for Store], [impl GrantQuery for Store] *)
Definition sqlite_grant_admin : GrantAdmin Db := {|
  Ports.add_grant := add_grant;
  Ports.remove_grant := remove_grant
|}.

Definition sqlite_grant_query : GrantQuery Db := {|
  Ports.list_grants := list_grants;
  Ports.grants_for_user_on_repository := grants_for_user_on_repository
|}.
End Ops.
End SqlGrants.
