(* ===== verification/SqlTokens.v ===== *)
(** The issued-token log and the signing-key metadata of the SQLite adapter
    ([sqlite/issued_tokens.rs]), and its repositories ([sqlite/resources.rs]): rows are created by
    hand or by the repository API, and deletion only marks them. *)

From Stdlib Require Import ZArith Lia Ascii.
From stdpp Require Import base gmap strings list.
From S2P Require Import Prelude Model Ports SqlRows SqlBase MemState.

(** [serde_json] on the values that this store encodes and decodes. *)
Class SerdeJson := {
  JsonValue : Type;
  json_of_strings : list string → string;
  json_from_str : string → result string JsonValue
}.

Definition row_token_revoked (now : Z) (r : IssuedTokenRow) : IssuedTokenRow :=
  mkIssuedTokenRow (tk_jti r) (tk_token_kind r) (tk_user_id r) (tk_service_account_id r)
    (tk_repository_id r) (tk_lore_resource_id r) (tk_role r) (tk_kid r) (tk_audience_json r)
    (tk_issued_at r) (tk_expires_at r) (Some now).

Definition signing_key_from_row (r : SigningKeyRow) : SigningKeyMeta :=
  mkSigningKeyMeta (kr_kid r) (kr_alg r) (kr_public_jwk_json r) (kr_private_key_path r)
    (kr_status r).

Definition in_column {A} (key : A → string) (rows : list A) (k : option string) : bool :=
  match k with Some k => bool_decide (k ∈ key <$> rows) | None => true end.

Module SqlTokens.
Section Ops.
Context `{Env} `{Sqlite} `{SerdeJson}.

Definition revoke_issued_token (jti : string) : H Db () :=
  now <- now_unix ;;
  changed <- update_rows db_issued_tokens set_issued_tokens (λ r, String.eqb (tk_jti r) jti)
    (row_token_revoked now) ;;
  require_affected changed NotFound.

Definition record_issued (token : IssuedToken) : H Db () :=
  let row := mkIssuedTokenRow (it_jti token) (it_kind token) (none_if_empty (it_user_id token)) None
    (none_if_empty (it_repository_id token)) (none_if_empty (it_lore_resource_id token))
    (it_role token) (it_kid token) (json_of_strings (it_audience token)) (it_issued_at token)
    (it_expires_at token) None in
  insert_row "issued_tokens"
    (λ db, fresh_in tk_jti (db_issued_tokens db) (tk_jti row))
    (λ db, in_column ur_id (db_users db) (tk_user_id row)
           && in_column rep_id (db_repositories db) (tk_repository_id row))
    (set_issued_tokens (λ rows, rows ++ [row]))
    (ret tt).

Definition add_signing_key_meta_conn (key : SigningKeyMeta) : H Db SigningKeyMeta :=
  let key := mkSigningKeyMeta (sk_kid key) (sk_alg key) (sk_public_jwk_json key)
    (sk_private_key_path key) (if is_empty (sk_status key) then "active" else sk_status key) in
  now <- now_unix ;;
  insert_row "signing_keys"
    (λ db, fresh_in kr_kid (db_signing_keys db) (sk_kid key))
    (λ _, true)
    (set_signing_keys (λ rows, rows ++
      [mkSigningKeyRow (sk_kid key) (sk_alg key) (sk_public_jwk_json key) (sk_private_key_path key)
         (sk_status key) now None None]))
    (ret key).

Definition add_signing_key_meta (key : SigningKeyMeta) : H Db SigningKeyMeta :=
  add_signing_key_meta_conn key.

Definition active_signing_key (kid : string) : H Db SigningKeyMeta :=
  db <- get_state ;;
  row <- ok_or (hd_error (order_by_int_desc kr_created_at (where_ (λ r,
           String.eqb (kr_status r) "active" && (is_empty kid || String.eqb (kr_kid r) kid))
           (db_signing_keys db)))) NotFound ;;
  ret (signing_key_from_row row).

Definition signing_key_by_kid (kid : string) : H Db SigningKeyMeta :=
  row <- query_row db_signing_keys (λ r, String.eqb (kr_kid r) kid) NotFound ;;
  ret (signing_key_from_row row).

Definition public_jwks : H Db (list JsonValue) :=
  db <- get_state ;;
  map_m (λ raw, match json_from_str raw with
                | Ok parsed => ret parsed
                | Err err => throw (InvalidArgument ("sqlite: invalid public_jwk_json: " +:+ err))
                end)
    (map kr_public_jwk_json (order_by_int_desc kr_created_at
      (where_ (λ r, String.eqb (kr_status r) "active" || String.eqb (kr_status r) "retiring")
        (db_signing_keys db)))).

Definition generate_active_key (kid alg : string) (bits : N) : H Db SigningKeyMeta :=
  throw Unsupported.

Definition list_keys : H Db (list SigningKeyMeta) :=
  db <- get_state ;;
  ret (map signing_key_from_row (order_by_int_desc kr_created_at (db_signing_keys db))).

(** [impl IssuedTokenLog for Store], [impl SigningKeyAdmin for Store] *)
Definition sqlite_issued_log : IssuedTokenLog Db := {| Ports.record_issued := record_issued |}.

Definition sqlite_signing_keys : SigningKeyAdmin Db := {|
  Ports.generate_active_key := generate_active_key;
  Ports.list_keys := list_keys
|}.
End Ops.
End SqlTokens.

(** The [SET] clauses of the updates. *)
Definition row_saved (name remote_url : string) (now : Z) (r : RepositoryRow) : RepositoryRow :=
  mkRepositoryRow (rep_id r) name remote_url (rep_lore_repository_id r) "active"
    (rep_created_by_source r) (rep_created_at r) now.
Definition row_repository_status (status : string) (now : Z) (r : RepositoryRow) : RepositoryRow :=
  mkRepositoryRow (rep_id r) (rep_name r) (rep_remote_url r) (rep_lore_repository_id r) status
    (rep_created_by_source r) (rep_created_at r) now.

Definition resource_from_row (r : RepositoryRow) : Resource :=
  mkResource (rep_id r) (rep_name r) (rep_remote_url r) (rep_lore_repository_id r)
    (default "" (for_repository_id (rep_lore_repository_id r))) (rep_status r).

(** The name may be taken by another row. *)
Definition repository_name_free (id name : string) (db : Db) : bool :=
  fresh_in rep_name (where_ (λ r, negb (String.eqb (rep_id r) id)) (db_repositories db)) name.

Definition active_row (p : RepositoryRow → bool) (r : RepositoryRow) : bool :=
  p r && String.eqb (rep_status r) "active".

Module SqlResources.
Section Ops.
Context `{Env} `{Sqlite}.

Definition insert_repository (row : RepositoryRow) : H Db () :=
  insert_row "repositories"
    (λ db, fresh_in rep_id (db_repositories db) (rep_id row)
           && fresh_in rep_name (db_repositories db) (rep_name row)
           && fresh_in rep_lore_repository_id (db_repositories db) (rep_lore_repository_id row))
    (λ _, true)
    (set_repositories (λ rows, rows ++ [row]))
    (ret tt).

(** A repository with a remote is created or overwritten by hand, unless the repository API
    manages it. *)
Definition upsert_manual (lore_repository_id name remote_url : string) (now : Z) : H Db () :=
  db <- get_state ;;
  match hd_error (where_ (λ r, String.eqb (rep_lore_repository_id r) lore_repository_id)
          (db_repositories db)) with
  | Some existing =>
      if negb (String.eqb (rep_created_by_source existing) "manual")
      then throw (InvalidArgument ("repository " +:+ rep_lore_repository_id existing
             +:+ " is managed by " +:+ rep_created_by_source existing))
      else
        changed <- update_rows_checked "repositories" db_repositories set_repositories
          (λ r, String.eqb (rep_id r) (rep_id existing)
                && String.eqb (rep_created_by_source r) "manual")
          (repository_name_free (rep_id existing) name) (row_saved name remote_url now) ;;
        require_affected changed NotFound
  | None =>
      id <- uuid_v4 ;;
      insert_repository
        (mkRepositoryRow id name remote_url lore_repository_id "active" "manual" now now)
  end.

(** Without a remote, as the repository API calls it, an existing row is only reactivated. *)
Definition upsert_managed (lore_repository_id name : string) (now : Z) : H Db () :=
  changed <- update_rows db_repositories set_repositories
    (λ r, String.eqb (rep_lore_repository_id r) lore_repository_id)
    (row_repository_status "active" now) ;;
  if 0 <? changed then ret tt else
  id <- uuid_v4 ;;
  insert_repository
    (mkRepositoryRow id name "" lore_repository_id "active" "rebac_create_resource" now now).

Definition upsert_resource_conn (resource : Resource) : H Db () :=
  resource_id <- lift (resource_id_from_resource resource) ;;
  let lore_repository_id := repository_id_from_resource_id resource_id in
  let name := if is_empty (trim (r_name resource)) then lore_repository_id else r_name resource in
  now <- now_unix ;;
  if negb (is_empty (trim (r_remote_url resource)))
  then upsert_manual lore_repository_id name (r_remote_url resource) now
  else upsert_managed lore_repository_id name now.

Definition delete_resource_conn (resource_id : string) : H Db () :=
  let lore_repository_id := repository_id_from_resource_id resource_id in
  now <- now_unix ;;
  changed <- update_rows db_repositories set_repositories
    (λ r, String.eqb (rep_lore_repository_id r) lore_repository_id)
    (row_repository_status "deleted" now) ;;
  require_affected changed NotFound.

Definition upsert (resource : Resource) : H Db () := upsert_resource_conn resource.

(** The prefix is taken off here and again by [delete_resource_conn]. *)
Definition delete_resource (resource_id : string) : H Db () :=
  delete_resource_conn (repository_id_from_resource_id resource_id).

Definition get_by_id (id : string) : H Db Resource :=
  row <- query_row db_repositories (active_row (λ r, String.eqb (rep_id r) id)) NotFound ;;
  ret (resource_from_row row).

Definition get_by_resource_id (resource_id : string) : H Db Resource :=
  let lore_repository_id := repository_id_from_resource_id resource_id in
  row <- query_row db_repositories
    (active_row (λ r, String.eqb (rep_lore_repository_id r) lore_repository_id)) NotFound ;;
  ret (resource_from_row row).

Definition get_by_name (name : string) : H Db Resource :=
  row <- query_row db_repositories (active_row (λ r, String.eqb (rep_name r) name)) NotFound ;;
  ret (resource_from_row row).

Definition list_resources : H Db (list Resource) :=
  db <- get_state ;;
  ret (map resource_from_row
    (order_by (λ r, [rep_name r])
      (where_ (λ r, String.eqb (rep_status r) "active") (db_repositories db)))).

Definition upsert_and_get (resource : Resource) : H Db Resource :=
  resource_id <- lift (resource_id_from_resource resource) ;;
  upsert resource ;;;
  get_by_resource_id resource_id.

(** [impl ResourceQuery for Store], [impl ResourceStore for Store] *)
Definition sqlite_resource_query : ResourceQuery Db := {|
  Ports.get_by_id := get_by_id;
  Ports.get_by_resource_id := get_by_resource_id;
  Ports.get_by_name := get_by_name;
  Ports.list_resources := list_resources
|}.

Definition sqlite_resources : ResourceStore Db := {|
  Ports.resource_query := sqlite_resource_query;
  Ports.upsert := upsert;
  Ports.delete_resource_row := delete_resource
|}.
End Ops.
End SqlResources.
