(* ===== verification/SqlSessions.v ===== *)
(** Device authorizations, auth sessions, login transactions, browser sessions and CSRF
    tokens of the SQLite adapter ([sqlite/devices.rs], [sqlite/state.rs]).  Each call of a closure on the connection is one atomic step; the
    constraints of the schema that a statement can violate are checked where it runs. *)

From Stdlib Require Import ZArith Lia Ascii.
From stdpp Require Import base gmap strings list.
From S2P Require Import Prelude Model MemState.
From S2P Require Import Ports.
From S2P Require Import SqlRows SqlBase.

(** * Rows as values of the domain *)

Definition device_to_core (r : DeviceRow) : DeviceAuthorization :=
  mkDeviceAuthorization (dr_id r) (dr_requested_remote_url r)
    (default "" (dr_requested_repository_id r)) (default "" (dr_approved_user_id r)) (dr_status r)
    (dr_created_at r) (dr_expires_at r) (default 0%Z (dr_approved_at r))
    (default 0%Z (dr_consumed_at r)).

Definition auth_session_from_row (r : AuthSessionRow) : AuthSession :=
  mkAuthSession (sr_id r) (sr_client_state_hash r) (sr_status r) (default "" (sr_user_id r))
    (sr_login_url_nonce r) (sr_expires_at r).

Definition login_state_from_row (r : LoginTransactionRow) : LoginState :=
  mkLoginState (lr_id r) (lr_provider_id r) (default "" (lr_nonce r))
    (default "" (lr_login_url_nonce r)) (default "" (lr_return_path r))
    (default [] (lr_private_state r)) (lr_expires_at r).

(** * Devices (devices.rs) *)

(** The [SET] clauses of the three updates. *)
Definition row_approved (user_id : string) (now : Z) (r : DeviceRow) : DeviceRow :=
  mkDeviceRow (dr_id r) (dr_device_code_hash r) (dr_user_code_hash r) (dr_requested_remote_url r)
    (dr_requested_repository_id r) (Some user_id) "approved" (dr_created_at r) (dr_expires_at r)
    (Some now) (dr_consumed_at r).
Definition row_consumed (now : Z) (r : DeviceRow) : DeviceRow :=
  mkDeviceRow (dr_id r) (dr_device_code_hash r) (dr_user_code_hash r) (dr_requested_remote_url r)
    (dr_requested_repository_id r) (dr_approved_user_id r) "consumed" (dr_created_at r)
    (dr_expires_at r) (dr_approved_at r) (Some now).
Definition row_expired (r : DeviceRow) : DeviceRow :=
  mkDeviceRow (dr_id r) (dr_device_code_hash r) (dr_user_code_hash r) (dr_requested_remote_url r)
    (dr_requested_repository_id r) (dr_approved_user_id r) "expired" (dr_created_at r)
    (dr_expires_at r) (dr_approved_at r) (dr_consumed_at r).

Module SqlDevices.
Section Ops.
Context `{Env} `{Sqlite}.

(** The answer keeps the repository id as requested; the row stores it trimmed. *)
Definition create_device_authorization (input : CreateDeviceAuthorizationInput)
    : H Db DeviceAuthorization :=
  now <- now_unix ;;
  id <- uuid_v4 ;;
  let expires_at := wrap_i64 (now + ttl_seconds (cda_ttl input)) in
  let repository := none_if_empty (cda_requested_repository_id input) in
  let row := mkDeviceRow id (hash_code (cda_device_code input)) (hash_code (cda_user_code input))
    (cda_requested_remote_url input) repository None "pending" now expires_at None None in
  insert_row "device_authorizations"
    (λ db, fresh_in dr_id (db_device_authorizations db) (dr_id row)
           && fresh_in dr_device_code_hash (db_device_authorizations db) (dr_device_code_hash row)
           && fresh_in dr_user_code_hash (db_device_authorizations db) (dr_user_code_hash row))
    (λ db, match repository with
           | Some r => bool_decide (r ∈ rep_id <$> db_repositories db)
           | None => true
           end)
    (set_device_authorizations (λ rows, rows ++ [row]))
    (ret (mkDeviceAuthorization id (cda_requested_remote_url input)
            (cda_requested_repository_id input) "" "pending" now expires_at 0 0)).

Definition device_by_user_code (user_code : string) : H Db DeviceAuthorization :=
  db <- get_state ;;
  row <- ok_or (hd_error (where_ (λ r, String.eqb (dr_user_code_hash r) (hash_code user_code))
                  (db_device_authorizations db))) NotFound ;;
  ret (device_to_core row).

Definition device_by_device_code (device_code : string) : H Db DeviceAuthorization :=
  db <- get_state ;;
  row <- ok_or (hd_error (where_ (λ r, String.eqb (dr_device_code_hash r) (hash_code device_code))
                  (db_device_authorizations db))) NotFound ;;
  ret (device_to_core row).

(** The user is a reference: when a row would change, the user must exist. *)
Definition approve_device_authorization (id user_id : string) : H Db () :=
  now <- now_unix ;;
  db <- get_state ;;
  let p r := String.eqb (dr_id r) id && String.eqb (dr_status r) "pending"
             && (now <? dr_expires_at r)%Z in
  let changed := affected p (db_device_authorizations db) in
  if negb (changed =? 0) && negb (user_exists db user_id)
  then throw (core_from_constraint "device_authorizations")
  else
    modify_state (set_device_authorizations (update_where p (row_approved user_id now))) ;;;
    require_affected changed NotFound.

Definition consume_device_authorization (id : string) : H Db () :=
  now <- now_unix ;;
  db <- get_state ;;
  let p r := String.eqb (dr_id r) id && String.eqb (dr_status r) "approved" in
  let changed := affected p (db_device_authorizations db) in
  modify_state (set_device_authorizations (update_where p (row_consumed now))) ;;;
  require_affected changed NotFound.

Definition expire_device_authorization (id : string) : H Db () :=
  modify_state (set_device_authorizations (update_where
    (λ r, String.eqb (dr_id r) id && String.eqb (dr_status r) "pending") row_expired)).

(** [impl DeviceAuthorizationStore for Store] *)
Definition sqlite_devices : DeviceAuthorizationStore Db := {|
  Ports.create_device_authorization := create_device_authorization;
  Ports.device_by_user_code := device_by_user_code;
  Ports.device_by_device_code := device_by_device_code;
  Ports.approve_device_authorization := approve_device_authorization;
  Ports.consume_device_authorization := consume_device_authorization;
  Ports.expire_device_authorization := expire_device_authorization
|}.
End Ops.
End SqlDevices.

(** * Sessions, login transactions and CSRF tokens (state.rs) *)

(** The [SET] clauses of the updates. *)
Definition row_completed (user_id : string) (now : Z) (r : AuthSessionRow) : AuthSessionRow :=
  mkAuthSessionRow (sr_id r) (sr_session_code_hash r) (sr_client_state_hash r) "completed"
    (Some user_id) (sr_login_url_nonce r) (sr_created_at r) (sr_expires_at r) (Some now)
    (sr_consumed_at r).
Definition row_session_consumed (now : Z) (r : AuthSessionRow) : AuthSessionRow :=
  mkAuthSessionRow (sr_id r) (sr_session_code_hash r) (sr_client_state_hash r) "consumed"
    (sr_user_id r) (sr_login_url_nonce r) (sr_created_at r) (sr_expires_at r) (sr_completed_at r)
    (Some now).
Definition row_private_state (private_state : list Byte.byte) (r : LoginTransactionRow)
    : LoginTransactionRow :=
  mkLoginTransactionRow (lr_id r) (lr_state_hash r) (lr_provider_id r) (lr_nonce r)
    (lr_login_url_nonce r) (lr_return_path r) (Some private_state) (lr_created_at r)
    (lr_expires_at r) (lr_consumed_at r).
Definition row_login_consumed (now : Z) (r : LoginTransactionRow) : LoginTransactionRow :=
  mkLoginTransactionRow (lr_id r) (lr_state_hash r) (lr_provider_id r) (lr_nonce r)
    (lr_login_url_nonce r) (lr_return_path r) (lr_private_state r) (lr_created_at r)
    (lr_expires_at r) (Some now).
Definition row_revoked (now : Z) (r : SessionRow) : SessionRow :=
  mkSessionRow (br_id r) (br_user_id r) (br_created_at r) (br_expires_at r) (Some now).
Definition row_csrf_consumed (now : Z) (r : CsrfTokenRow) : CsrfTokenRow :=
  mkCsrfTokenRow (cr_token_hash r) (cr_session_id r) (cr_created_at r) (cr_expires_at r) (Some now).

Module SqlState.
Section Ops.
Context `{Env} `{Sqlite}.

Definition create_auth_session (client_state : string) (ttl : Duration)
    : H Db (string * AuthSession) :=
  code <- random_secret ;;
  now <- now_unix ;;
  id <- uuid_v4 ;;
  login_url_nonce <- random_secret ;;
  let expires_at := wrap_i64 (now + ttl_seconds ttl) in
  let row := mkAuthSessionRow id (hash_secret code) (hash_secret client_state) "pending" None
    login_url_nonce now expires_at None None in
  insert_row "auth_sessions"
    (λ db, fresh_in sr_id (db_auth_sessions db) (sr_id row)
           && fresh_in sr_session_code_hash (db_auth_sessions db) (sr_session_code_hash row))
    (λ _, true)
    (set_auth_sessions (λ rows, rows ++ [row]))
    (ret (code, mkAuthSession id (hash_secret client_state) "pending" "" login_url_nonce expires_at)).

Definition auth_session_by_clause (clause : AuthSessionRow → bool) : H Db AuthSession :=
  db <- get_state ;;
  row <- ok_or (hd_error (where_ clause (db_auth_sessions db))) AuthSessionNotFound ;;
  now <- now_unix ;;
  if (sr_expires_at row <=? now)%Z then throw AuthSessionNotFound
  else ret (auth_session_from_row row).

Definition get_auth_session_by_code (code : string) : H Db AuthSession :=
  auth_session_by_clause (λ r, String.eqb (sr_session_code_hash r) (hash_secret code)).

Definition get_auth_session_by_nonce (nonce : string) : H Db AuthSession :=
  auth_session_by_clause (λ r, String.eqb (sr_login_url_nonce r) nonce).

Definition complete_auth_session (id user_id : string) : H Db () :=
  now <- now_unix ;;
  db <- get_state ;;
  let p r := String.eqb (sr_id r) id && String.eqb (sr_status r) "pending"
             && (now <? sr_expires_at r)%Z in
  let changed := affected p (db_auth_sessions db) in
  if negb (changed =? 0) && negb (user_exists db user_id)
  then throw (core_from_constraint "auth_sessions")
  else
    modify_state (set_auth_sessions (update_where p (row_completed user_id now))) ;;;
    require_affected changed AuthSessionNotFound.

Definition consume_auth_session (id : string) : H Db () :=
  now <- now_unix ;;
  db <- get_state ;;
  let p r := String.eqb (sr_id r) id && String.eqb (sr_status r) "completed"
             && (now <? sr_expires_at r)%Z in
  let changed := affected p (db_auth_sessions db) in
  modify_state (set_auth_sessions (update_where p (row_session_consumed now))) ;;;
  require_affected changed AuthSessionNotFound.

Definition create_login_state (input : LoginStateInput) (ttl : Duration)
    : H Db (string * LoginState) :=
  state <- random_secret ;;
  now <- now_unix ;;
  id <- uuid_v4 ;;
  let expires_at := wrap_i64 (now + ttl_seconds ttl) in
  let row := mkLoginTransactionRow id (hash_secret state) (lsi_provider_id input)
    (none_if_empty (lsi_nonce input)) (none_if_empty (lsi_login_url_nonce input))
    (none_if_empty (lsi_return_path input)) (Some (lsi_private_state input)) now expires_at None in
  insert_row "login_transactions"
    (λ db, fresh_in lr_id (db_login_transactions db) (lr_id row)
           && fresh_in lr_state_hash (db_login_transactions db) (lr_state_hash row))
    (λ _, true)
    (set_login_transactions (λ rows, rows ++ [row]))
    (ret (state, mkLoginState id (lsi_provider_id input) (lsi_nonce input)
            (lsi_login_url_nonce input) (lsi_return_path input) (lsi_private_state input) expires_at)).

Definition set_login_state_private_state (state : string) (private_state : list Byte.byte)
    : H Db () :=
  now <- now_unix ;;
  db <- get_state ;;
  let p r := String.eqb (lr_state_hash r) (hash_secret state) && is_null (lr_consumed_at r)
             && (now <? lr_expires_at r)%Z in
  let changed := affected p (db_login_transactions db) in
  modify_state (set_login_transactions (update_where p (row_private_state private_state))) ;;;
  require_affected changed NotFound.

(** One transaction: an error leaves nothing written. *)
Definition consume_login_state (state : string) : H Db LoginState :=
  db <- get_state ;;
  row <- ok_or (hd_error (where_ (λ r, String.eqb (lr_state_hash r) (hash_secret state))
                  (db_login_transactions db))) NotFound ;;
  if negb (default 0%Z (lr_consumed_at row) =? 0)%Z then throw NotFound else
  now <- now_unix ;;
  if (lr_expires_at row <=? now)%Z then throw NotFound else
  consumed_at <- now_unix ;;
  now <- now_unix ;;
  let p r := String.eqb (lr_id r) (lr_id row) && is_null (lr_consumed_at r)
             && (now <? lr_expires_at r)%Z in
  let changed := affected p (db_login_transactions db) in
  modify_state (set_login_transactions (update_where p (row_login_consumed consumed_at))) ;;;
  require_affected changed NotFound ;;;
  ret (login_state_from_row row).

Definition create_browser_session (user_id : string) (ttl : Duration) : H Db BrowserSession :=
  now <- now_unix ;;
  id <- random_secret ;;
  let expires_at := wrap_i64 (now + ttl_seconds ttl) in
  insert_row "sessions"
    (λ db, fresh_in br_id (db_sessions db) id)
    (λ db, user_exists db user_id)
    (set_sessions (λ rows, rows ++ [mkSessionRow id user_id now expires_at None]))
    (ret (mkBrowserSession id user_id expires_at)).

Definition user_by_browser_session (session_id : string) : H Db User :=
  now <- now_unix ;;
  db <- get_state ;;
  row <- ok_or (hd_error (where_ (λ row : SessionRow * UserRow,
           String.eqb (br_id row.1) session_id && is_null (br_revoked_at row.1)
           && (now <? br_expires_at row.1)%Z && String.eqb (ur_status row.2) "active")
           (join_on (λ s u, String.eqb (ur_id u) (br_user_id s)) (db_sessions db) (db_users db))))
         NotFound ;;
  ret (user_from_row row.2).

Definition revoke_browser_session (session_id : string) : H Db () :=
  now <- now_unix ;;
  db <- get_state ;;
  let p r := String.eqb (br_id r) session_id && is_null (br_revoked_at r) in
  let changed := affected p (db_sessions db) in
  modify_state (set_sessions (update_where p (row_revoked now))) ;;;
  require_affected changed NotFound.

Definition create_csrf_token (session_id : string) (ttl : Duration) : H Db string :=
  token <- random_secret ;;
  now <- now_unix ;;
  insert_row "csrf_tokens"
    (λ db, fresh_in cr_token_hash (db_csrf_tokens db) (hash_secret token))
    (λ db, bool_decide (session_id ∈ br_id <$> db_sessions db))
    (set_csrf_tokens (λ rows, rows ++ [mkCsrfTokenRow (hash_secret token) session_id now
       (wrap_i64 (now + ttl_seconds ttl)) None]))
    (ret token).

Definition consume_csrf_token (session_id token : string) : H Db () :=
  consumed_at <- now_unix ;;
  now <- now_unix ;;
  db <- get_state ;;
  let p r := String.eqb (cr_token_hash r) (hash_secret token) && String.eqb (cr_session_id r) session_id
             && is_null (cr_consumed_at r) && (now <? cr_expires_at r)%Z in
  let changed := affected p (db_csrf_tokens db) in
  modify_state (set_csrf_tokens (update_where p (row_csrf_consumed consumed_at))) ;;;
  require_affected changed NotFound.

Definition match_client_state (session : AuthSession) (client_state : string) : bool :=
  String.eqb (as_client_state_hash session) (hash_secret client_state).

(** [impl StateStore for Store] *)
Definition sqlite_state : StateStore Db := {|
  Ports.create_auth_session := create_auth_session;
  Ports.get_auth_session_by_code := get_auth_session_by_code;
  Ports.get_auth_session_by_nonce := get_auth_session_by_nonce;
  Ports.complete_auth_session := complete_auth_session;
  Ports.consume_auth_session := consume_auth_session;
  Ports.create_login_state := create_login_state;
  Ports.set_login_state_private_state := set_login_state_private_state;
  Ports.consume_login_state := consume_login_state;
  Ports.create_browser_session := create_browser_session;
  Ports.user_by_browser_session := user_by_browser_session;
  Ports.revoke_browser_session := revoke_browser_session;
  Ports.create_csrf_token := create_csrf_token;
  Ports.consume_csrf_token := consume_csrf_token;
  Ports.match_client_state := match_client_state
|}.
End Ops.
End SqlState.
