(* ===== verification/SqlAudited.v ===== *)
(** The audited store of the SQLite adapter ([sqlite/audited.rs]): every admin write and its
    audit row are one transaction. *)

From Stdlib Require Import ZArith Lia Ascii.
From stdpp Require Import base gmap strings list pretty.
From S2P Require Import Prelude Model MemState.
From S2P Require Import Ports.
From S2P Require Import SqlRows SqlBase SqlAccounts SqlGroups SqlGrants SqlTokens.

Definition admin_audit_entry_from_row (r : AdminAuditRow) : AdminAuditEntry :=
  mkAdminAuditEntry (ar_id r) (ar_actor r) (ar_action r) (ar_object_type r) (ar_object_id r)
    (ar_detail r) (ar_created_at r).

Definition admin_audit_failed (err : CoreError) : CoreError :=
  AdminAuditFailed (core_error_to_string err).

(** A number in a [format!]. *)
Definition format_number (n : N) : string := pretty n.

Module SqlAudited.
Section Ops.
Context `{Env} `{Sqlite} `{SerdeJson}.

Definition admin_audit_entry (actor action object_type object_id detail : string)
    : H Db AdminAuditEntry :=
  id <- uuid_v4 ;;
  created_at <- now_unix ;;
  ret (mkAdminAuditEntry id actor action object_type object_id detail created_at).

Definition insert_admin_audit_conn (entry : AdminAuditEntry) : H Db () :=
  insert_row "admin_audit"
    (λ db, fresh_in ar_id (db_admin_audit db) (aa_id entry))
    (λ _, true)
    (set_admin_audit (λ rows, rows ++
      [mkAdminAuditRow (aa_id entry) (aa_actor entry) (aa_action entry) (aa_object_type entry)
         (aa_object_id entry) (aa_detail entry) (aa_created_at entry)]))
    (ret tt).

(** [impl AdminAuditLog for Store] and [list_admin_audit]. *)
Definition record_audit (entry : AdminAuditEntry) : H Db () := insert_admin_audit_conn entry.

Definition list_admin_audit : H Db (list AdminAuditEntry) :=
  db <- get_state ;;
  ret (map admin_audit_entry_from_row
    (order_by_int ar_created_at (order_by (λ r, [ar_id r]) (db_admin_audit db)))).

Context (actor : string).

(** The two statements at the end of each transaction. *)
Definition audit (action object_type object_id detail : string) : H Db () :=
  entry <- admin_audit_entry actor action object_type object_id detail ;;
  map_err admin_audit_failed (insert_admin_audit_conn entry).

Definition add_signing_key_meta (key : SigningKeyMeta) (bits : N) : H Db SigningKeyMeta :=
  transaction (
    key <- SqlTokens.add_signing_key_meta_conn key ;;
    audit "signing_key.generate" "signing_key" (sk_kid key)
      ("kid=" +:+ sk_kid key +:+ " alg=" +:+ sk_alg key +:+ " bits=" +:+ format_number bits) ;;;
    ret key).

Definition add_grant (subject_type subject_id repo role : string) : H Db Grant :=
  transaction (
    grant <- SqlGrants.add_grant_conn subject_type subject_id repo role ;;
    audit "grant.add" "grant" (gr_id grant) (grant_detail subject_type subject_id repo role) ;;;
    ret grant).

Definition remove_grant (subject_type subject_id repo role : string) : H Db () :=
  transaction (
    SqlGrants.remove_grant_conn subject_type subject_id repo role ;;;
    audit "grant.remove" "grant"
      (subject_type +:+ ":" +:+ subject_id +:+ ":" +:+ repo +:+ ":" +:+ role)
      (grant_detail subject_type subject_id repo role)).

Definition add_user (input : AddUserInput) : H Db User :=
  transaction (
    user <- SqlAccounts.add_user_conn input ;;
    audit "user.add" "user" (u_id user) ("email=" +:+ u_email user) ;;;
    ret user).

Definition add_invitation (input : AddInvitationInput) : H Db (User * IdentityInvitation) :=
  transaction (
    added <- SqlAccounts.add_invitation_db input ;;
    audit "user.invite" "user" (u_id added.1)
      ("email=" +:+ u_email added.1 +:+ " invitation_id=" +:+ ii_id added.2) ;;;
    ret added).

Definition disable_user (user_id_or_email : string) : H Db () :=
  transaction (
    user_id <- SqlAccounts.resolve_user_id_conn user_id_or_email ;;
    user <- SqlAccounts.user_by_id_conn user_id ;;
    SqlAccounts.set_user_status_conn "disabled" user_id_or_email ;;;
    audit "user.disable" "user" (u_id user) ("email=" +:+ u_email user)).

Definition enable_user (user_id_or_email : string) : H Db () :=
  transaction (
    user_id <- SqlAccounts.resolve_user_id_conn user_id_or_email ;;
    user <- SqlAccounts.user_by_id_conn user_id ;;
    SqlAccounts.set_user_status_conn "active" user_id_or_email ;;;
    audit "user.enable" "user" (u_id user) ("email=" +:+ u_email user)).

Definition upsert (resource : Resource) : H Db () :=
  resource_id <- lift (resource_id_from_resource resource) ;;
  transaction (
    SqlResources.upsert_resource_conn resource ;;;
    audit "repository.add" "repository" resource_id
      ("name=" +:+ r_name resource +:+ " lore_repository_id="
         +:+ repository_id_from_resource_id resource_id)).

(** Unlike [Store::delete], the resource id is passed on as it is. *)
Definition delete_resource (resource_id : string) : H Db () :=
  transaction (
    SqlResources.delete_resource_conn resource_id ;;;
    audit "repository.disable" "repository" resource_id "").

Definition add_group (name description : string) : H Db Group :=
  if is_empty (trim name) then throw (InvalidArgument "group name must not be empty")
  else transaction (
    group <- SqlGroups.insert_group (trim name) description ;;
    audit "group.add" "group" (g_id group) ("name=" +:+ g_name group) ;;;
    ret group).

Definition add_group_member (group user_email_or_id : string) : H Db () :=
  transaction (
    SqlGroups.add_group_member group user_email_or_id ;;;
    audit "group.member.add" "group" group ("user=" +:+ user_email_or_id)).

Definition remove_group_member (group user_email_or_id : string) : H Db () :=
  transaction (
    SqlGroups.remove_group_member group user_email_or_id ;;;
    audit "group.member.remove" "group" group ("user=" +:+ user_email_or_id)).

Definition add_group_group (parent_group member_group : string) : H Db () :=
  transaction (
    parent_group_id <- SqlGroups.group_id_by_name_or_id_conn parent_group ;;
    member_group_id <- SqlGroups.group_id_by_name_or_id_conn member_group ;;
    if String.eqb parent_group_id member_group_id
    then throw (InvalidArgument "group cannot contain itself")
    else
      exists_ <- SqlGroups.group_group_edge_exists_tx parent_group_id member_group_id ;;
      if exists_ : bool then ret tt else
      cycle <- SqlGroups.group_group_would_cycle_tx parent_group_id member_group_id ;;
      if cycle : bool then throw (InvalidArgument "group nesting would create a cycle")
      else
        SqlGroups.insert_edge parent_group_id member_group_id ;;;
        audit "group.nest.add" "group" parent_group ("member_group=" +:+ member_group)).

Definition remove_group_group (parent_group member_group : string) : H Db () :=
  transaction (
    SqlGroups.remove_group_group parent_group member_group ;;;
    audit "group.nest.remove" "group" parent_group ("member_group=" +:+ member_group)).

(** [AuditedStore] as the ports of one actor: its reads are those of [Store]. *)
Definition audited_accounts : AccountDirectory Db := {|
  Ports.account_query := SqlAccounts.sqlite_account_query;
  Ports.resolve_login := SqlAccounts.resolve_login;
  Ports.principal_by_user_id := SqlAccounts.principal_by_user_id;
  Ports.principal_by_authn_token_jti := SqlAccounts.principal_by_authn_token_jti;
  Ports.add_user := add_user;
  Ports.add_invitation := add_invitation;
  Ports.disable_user := disable_user;
  Ports.enable_user := enable_user
|}.

Definition audited_resources : ResourceStore Db := {|
  Ports.resource_query := SqlResources.sqlite_resource_query;
  Ports.upsert := upsert;
  Ports.delete_resource_row := delete_resource
|}.

Definition audited_group_admin : GroupAdmin Db := {|
  Ports.add_group := add_group;
  Ports.add_group_member := add_group_member;
  Ports.remove_group_member := remove_group_member;
  Ports.add_group_group := add_group_group;
  Ports.remove_group_group := remove_group_group
|}.

Definition audited_grant_admin : GrantAdmin Db := {|
  Ports.add_grant := add_grant;
  Ports.remove_grant := remove_grant
|}.
End Ops.

(** [AuditedStoreFactory] *)
Definition audited_store_factory `{Env} `{Sqlite} : AdminWritePortFactory Db := {|
  for_actor := λ actor, mkAdminWritePorts Db (audited_accounts actor) (audited_resources actor)
    (audited_group_admin actor) (audited_grant_admin actor)
|}.
End SqlAudited.
