(* ===== verification/SqlStore.v ===== *)
(** The writes of the SQLite store as data, and what its statements guarantee: writing a table
    leaves the others alone, a statement keeps an invariant, and a call that fails changes
    nothing. *)

From Stdlib Require Import ZArith Lia Ascii.
From stdpp Require Import base gmap strings list.
From S2P Require Import Prelude Model MemState.
From S2P Require Import SqlRows SqlBase SqlAccounts SqlGroups SqlGrants SqlTokens.
From S2P Require Import SqlAudited SqlSessions.

(** * Calls that may write *)

(** The writes of an administrator, plain or audited. *)
Inductive admin_op :=
  | DAddUser (input : AddUserInput)
  | DAddInvitation (input : AddInvitationInput)
  | DDisableUser (user : string)
  | DEnableUser (user : string)
  | DAddGroup (name description : string)
  | DAddGroupMember (group user : string)
  | DRemoveGroupMember (group user : string)
  | DAddGroupGroup (parent_group member_group : string)
  | DRemoveGroupGroup (parent_group member_group : string)
  | DAddGrant (subject_type subject_id repo role : string)
  | DRemoveGrant (subject_type subject_id repo role : string)
  | DUpsert (resource : Resource)
  | DDelete (resource_id : string)
  | DAddSigningKey (key : SigningKeyMeta) (bits : N).

(** All calls of the account, repository and token stores. *)
Inductive store_op :=
  | DPlain (op : admin_op)
  | DAudited (actor : string) (op : admin_op)
  | DResolveLogin (req : LoginResolutionRequest)
  | DRecordIssued (token : IssuedToken)
  | DRevokeIssued (jti : string)
  | DRecordAudit (entry : AdminAuditEntry).

(** Every call of the adapter. *)
Inductive sql_op :=
  | SCreateDevice (input : CreateDeviceAuthorizationInput)
  | SDeviceByUserCode (code : string)
  | SDeviceByDeviceCode (code : string)
  | SApproveDevice (id user_id : string)
  | SConsumeDevice (id : string)
  | SExpireDevice (id : string)
  | SCreateAuthSession (client_state : string) (ttl : Duration)
  | SSessionByCode (code : string)
  | SSessionByNonce (nonce : string)
  | SCompleteSession (id user_id : string)
  | SConsumeSession (id : string)
  | SCreateLoginState (input : LoginStateInput) (ttl : Duration)
  | SSetPrivateState (state : string) (private_state : list Byte.byte)
  | SConsumeLoginState (state : string)
  | SCreateBrowserSession (user_id : string) (ttl : Duration)
  | SUserByBrowserSession (session_id : string)
  | SRevokeBrowserSession (session_id : string)
  | SCreateCsrf (session_id : string) (ttl : Duration)
  | SConsumeCsrf (session_id token : string)
  | SStore (op : store_op).

(** What a write answers. *)
Inductive admin_answer :=
  | NoAnswer
  | AnswerUser (user : User)
  | AnswerInvited (invited : User * IdentityInvitation)
  | AnswerGroup (group : Group)
  | AnswerGrant (grant : Grant)
  | AnswerKey (key : SigningKeyMeta).

Definition silently (m : H Db ()) : H Db admin_answer := map_ok (λ _, NoAnswer) m.
Definition dropped {A} (m : H Db A) : H Db () := map_ok (λ _, tt) m.

(** The action that the audit row of a write names. *)
Definition admin_action (op : admin_op) : string :=
  match op with
  | DAddUser _ => "user.add" | DAddInvitation _ => "user.invite"
  | DDisableUser _ => "user.disable" | DEnableUser _ => "user.enable"
  | DAddGroup _ _ => "group.add" | DAddGroupMember _ _ => "group.member.add"
  | DRemoveGroupMember _ _ => "group.member.remove" | DAddGroupGroup _ _ => "group.nest.add"
  | DRemoveGroupGroup _ _ => "group.nest.remove" | DAddGrant _ _ _ _ => "grant.add"
  | DRemoveGrant _ _ _ _ => "grant.remove" | DUpsert _ => "repository.add"
  | DDelete _ => "repository.disable" | DAddSigningKey _ _ => "signing_key.generate"
  end.

Section Run.
Context `{Env} `{Sqlite} `{SerdeJson}.

Definition run_plain (op : admin_op) : H Db admin_answer :=
  match op with
  | DAddUser i => map_ok AnswerUser (SqlAccounts.add_user i)
  | DAddInvitation i => map_ok AnswerInvited (SqlAccounts.add_invitation i)
  | DDisableUser u => silently (SqlAccounts.disable_user u)
  | DEnableUser u => silently (SqlAccounts.enable_user u)
  | DAddGroup n d => map_ok AnswerGroup (SqlGroups.add_group n d)
  | DAddGroupMember g u => silently (SqlGroups.add_group_member g u)
  | DRemoveGroupMember g u => silently (SqlGroups.remove_group_member g u)
  | DAddGroupGroup p m => silently (SqlGroups.add_group_group p m)
  | DRemoveGroupGroup p m => silently (SqlGroups.remove_group_group p m)
  | DAddGrant t i r o => map_ok AnswerGrant (SqlGrants.add_grant t i r o)
  | DRemoveGrant t i r o => silently (SqlGrants.remove_grant t i r o)
  | DUpsert r => silently (SqlResources.upsert r)
  | DDelete i => silently (SqlResources.delete_resource i)
  | DAddSigningKey k _ => map_ok AnswerKey (SqlTokens.add_signing_key_meta k)
  end.

Definition run_audited (actor : string) (op : admin_op) : H Db admin_answer :=
  match op with
  | DAddUser i => map_ok AnswerUser (SqlAudited.add_user actor i)
  | DAddInvitation i => map_ok AnswerInvited (SqlAudited.add_invitation actor i)
  | DDisableUser u => silently (SqlAudited.disable_user actor u)
  | DEnableUser u => silently (SqlAudited.enable_user actor u)
  | DAddGroup n d => map_ok AnswerGroup (SqlAudited.add_group actor n d)
  | DAddGroupMember g u => silently (SqlAudited.add_group_member actor g u)
  | DRemoveGroupMember g u => silently (SqlAudited.remove_group_member actor g u)
  | DAddGroupGroup p m => silently (SqlAudited.add_group_group actor p m)
  | DRemoveGroupGroup p m => silently (SqlAudited.remove_group_group actor p m)
  | DAddGrant t i r o => map_ok AnswerGrant (SqlAudited.add_grant actor t i r o)
  | DRemoveGrant t i r o => silently (SqlAudited.remove_grant actor t i r o)
  | DUpsert r => silently (SqlAudited.upsert actor r)
  | DDelete i => silently (SqlAudited.delete_resource actor i)
  | DAddSigningKey k b => map_ok AnswerKey (SqlAudited.add_signing_key_meta actor k b)
  end.

Definition run_store (op : store_op) : H Db () :=
  match op with
  | DPlain op => dropped (run_plain op)
  | DAudited actor op => dropped (run_audited actor op)
  | DResolveLogin req => dropped (SqlAccounts.resolve_login req)
  | DRecordIssued t => SqlTokens.record_issued t
  | DRevokeIssued jti => SqlTokens.revoke_issued_token jti
  | DRecordAudit e => SqlAudited.record_audit e
  end.
Definition run_sql (op : sql_op) : H Db () :=
  match op with
  | SCreateDevice i => dropped (SqlDevices.create_device_authorization i)
  | SDeviceByUserCode c => dropped (SqlDevices.device_by_user_code c)
  | SDeviceByDeviceCode c => dropped (SqlDevices.device_by_device_code c)
  | SApproveDevice i u => SqlDevices.approve_device_authorization i u
  | SConsumeDevice i => SqlDevices.consume_device_authorization i
  | SExpireDevice i => SqlDevices.expire_device_authorization i
  | SCreateAuthSession c t => dropped (SqlState.create_auth_session c t)
  | SSessionByCode c => dropped (SqlState.get_auth_session_by_code c)
  | SSessionByNonce n => dropped (SqlState.get_auth_session_by_nonce n)
  | SCompleteSession i u => SqlState.complete_auth_session i u
  | SConsumeSession i => SqlState.consume_auth_session i
  | SCreateLoginState i t => dropped (SqlState.create_login_state i t)
  | SSetPrivateState s p => SqlState.set_login_state_private_state s p
  | SConsumeLoginState s => dropped (SqlState.consume_login_state s)
  | SCreateBrowserSession u t => dropped (SqlState.create_browser_session u t)
  | SUserByBrowserSession s => dropped (SqlState.user_by_browser_session s)
  | SRevokeBrowserSession s => SqlState.revoke_browser_session s
  | SCreateCsrf s t => dropped (SqlState.create_csrf_token s t)
  | SConsumeCsrf s t => SqlState.consume_csrf_token s t
  | SStore op => run_store op
  end.

(** A run of calls in the order in which the connection serves them. *)
Fixpoint run_sqls (ops : list sql_op) (w : World Db)
    : list (sql_op * result CoreError ()) * World Db :=
  match ops with
  | [] => ([], w)
  | op :: ops =>
      let '(r, w1) := run_sql op w in
      let '(rs, w2) := run_sqls ops w1 in
      ((op, r) :: rs, w2)
  end.
End Run.

(** * Tables *)

(** What [set] writes is what [rows] reads. *)
Class Table {A} (rows : Db → list A) (set : (list A → list A) → Db → Db) : Prop := {
  table_read : ∀ g db, rows (set g db) = g (rows db);
  table_same : ∀ g db, g (rows db) = rows db → set g db = db
}.


Ltac table set := split; [done|]; intros g [] Hg; unfold set; simpl in *; by rewrite Hg.

#[export] Instance users_table : Table db_users set_users.
Proof. table set_users. Qed.
#[export] Instance external_identities_table : Table db_external_identities set_external_identities.
Proof. table set_external_identities. Qed.
#[export] Instance identity_invitations_table : Table db_identity_invitations set_identity_invitations.
Proof. table set_identity_invitations. Qed.
#[export] Instance groups_table : Table db_groups set_groups.
Proof. table set_groups. Qed.
#[export] Instance group_members_table : Table db_group_members set_group_members.
Proof. table set_group_members. Qed.
#[export] Instance group_groups_table : Table db_group_groups set_group_groups.
Proof. table set_group_groups. Qed.
#[export] Instance repositories_table : Table db_repositories set_repositories.
Proof. table set_repositories. Qed.
#[export] Instance grants_table : Table db_grants set_grants.
Proof. table set_grants. Qed.
#[export] Instance device_authorizations_table : Table db_device_authorizations set_device_authorizations.
Proof. table set_device_authorizations. Qed.
#[export] Instance auth_sessions_table : Table db_auth_sessions set_auth_sessions.
Proof. table set_auth_sessions. Qed.
#[export] Instance login_transactions_table : Table db_login_transactions set_login_transactions.
Proof. table set_login_transactions. Qed.
#[export] Instance sessions_table : Table db_sessions set_sessions.
Proof. table set_sessions. Qed.
#[export] Instance csrf_tokens_table : Table db_csrf_tokens set_csrf_tokens.
Proof. table set_csrf_tokens. Qed.
#[export] Instance issued_tokens_table : Table db_issued_tokens set_issued_tokens.
Proof. table set_issued_tokens. Qed.
#[export] Instance signing_keys_table : Table db_signing_keys set_signing_keys.
Proof. table set_signing_keys. Qed.
#[export] Instance admin_audit_table : Table db_admin_audit set_admin_audit.
Proof. table set_admin_audit. Qed.

(** * What a statement keeps *)

Section Statements.
Context `{Env} `{Sqlite} (I : Db → Prop).

Lemma preserves_insert_row {A} table fresh references insert (k : H Db A) :
  (∀ db, I db → fresh db = true → references db = true → I (insert db)) →
  preserves I k → preserves I (insert_row table fresh references insert k).
Proof.
  intros Hi Hk w Hw. unfold insert_row. mrun.
  destruct (fresh (st w) && references (st w)) eqn:Hc; [|done].
  apply andb_true_iff in Hc as [? ?]. apply Hk. simpl. auto.
Qed.

Lemma preserves_query_row {A} (rows : Db → list A) p e : preserves I (query_row rows p e).
Proof. unfold query_row. preserve. Qed.

Lemma preserves_require_affected n e : preserves I (require_affected n e).
Proof. unfold require_affected. preserve. Qed.

Lemma preserves_transaction {A} (m : H Db A) : preserves I m → preserves I (transaction m).
Proof. intros Hm w Hw. specialize (Hm w Hw). unfold transaction. by destruct (m w) as [[]]. Qed.

Context {A : Type} (rows : Db → list A) (set : (list A → list A) → Db → Db).

Lemma preserves_update_rows p f :
  (∀ db, I db → I (set (update_where p f) db)) → preserves I (update_rows rows set p f).
Proof. intros Hi w Hw. unfold update_rows. mrun. auto. Qed.

Lemma preserves_update_rows_checked `{!Table rows set} table p allowed f :
  (∀ db, I db → allowed db = true → I (set (update_where p f) db)) →
  preserves I (update_rows_checked table rows set p allowed f).
Proof.
  intros Hi w Hw. unfold update_rows_checked, update_rows. mrun.
  destruct (Nat.eqb_spec (affected p (rows (st w))) 0) as [Hz|]; simpl.
  - rewrite table_same; [done|]. by apply update_where_id.
  - destruct (allowed (st w)) eqn:?; simpl; auto.
Qed.

Lemma preserves_delete_rows p :
  (∀ db, I db → I (set (where_ (λ r, negb (p r))) db)) → preserves I (delete_rows rows set p).
Proof. intros Hi w Hw. unfold delete_rows. mrun. auto. Qed.
End Statements.

#[export] Hint Resolve preserves_query_row preserves_require_affected preserves_transaction : handler.

(** * A failed call changes nothing *)

Definition atomic {A} (m : H Db A) : Prop := ∀ w e w', m w = (Err e, w') → st w' = st w.

Section Atomic.
Context `{Env} `{Sqlite}.

Lemma atomic_readonly {A} (m : H Db A) : readonly m → atomic m.
Proof. intros Hm w e w' Heq. by eapply readonly_eq. Qed.

Lemma atomic_bind {A B} (m : H Db A) (k : A → H Db B) :
  readonly m → (∀ a, atomic (k a)) → atomic (bind m k).
Proof.
  intros Hm Hk w e w' Heq. minv; [by eapply readonly_eq|].
  erewrite Hk by done. by eapply readonly_eq.
Qed.

Lemma atomic_transaction {A} (m : H Db A) : atomic (transaction m).
Proof. intros w e w'. unfold transaction. destruct (m w) as [[]]; [done|]. by intros [= <- <-]. Qed.

Lemma atomic_insert_row {A} table fresh references insert (k : H Db A) :
  (∀ w e w', k w ≠ (Err e, w')) → atomic (insert_row table fresh references insert k).
Proof. intros Hk w e w' Heq. unfold insert_row in Heq. minv; [by edestruct Hk|done]. Qed.

Lemma atomic_map_ok {A B} (f : A → B) (m : H Db A) : atomic m → atomic (map_ok f m).
Proof. intros Hm w e w' Heq. minv. by eapply Hm. Qed.

Lemma atomic_if {A} (b : bool) (m1 m2 : H Db A) : atomic m1 → atomic m2 → atomic (if b then m1 else m2).
Proof. by destruct b. Qed.

Context {A : Type} (rows : Db → list A) (set : (list A → list A) → Db → Db) `{!Table rows set}.

Lemma atomic_update_rows p f e : atomic (n <- update_rows rows set p f ;; require_affected n e).
Proof.
  intros w e' w' Heq. unfold update_rows, require_affected in Heq. minv.
  apply table_same, update_where_id. by apply Nat.eqb_eq.
Qed.

Lemma atomic_update_rows_checked table p allowed f e :
  atomic (n <- update_rows_checked table rows set p allowed f ;; require_affected n e).
Proof.
  intros w e' w' Heq. unfold update_rows_checked, update_rows, require_affected in Heq.
  minv; [done|]. apply table_same, update_where_id. by apply Nat.eqb_eq.
Qed.

Lemma where_negb_id p (l : list A) : affected p l = 0 → where_ (λ r, negb (p r)) l = l.
Proof.
  rewrite affected_zero. unfold where_. induction l as [|r l IH]; intros Hp; simpl; [done|].
  rewrite Hp by left. simpl. f_equal. apply IH. intros x Hx. apply Hp. by right.
Qed.

Lemma atomic_delete_rows p e : atomic (n <- delete_rows rows set p ;; require_affected n e).
Proof.
  intros w e' w' Heq. unfold delete_rows, require_affected in Heq. minv.
  apply table_same, where_negb_id. by apply Nat.eqb_eq.
Qed.
End Atomic.

#[export] Hint Resolve atomic_transaction atomic_update_rows atomic_update_rows_checked
  atomic_delete_rows atomic_map_ok atomic_readonly : handler.

(** * Every call is all or nothing *)

Section Calls.
Context `{Env} `{Sqlite} `{SerdeJson}.

Lemma readonly_query_row {A} (rows : Db → list A) p e : readonly (query_row rows p e).
Proof. apply readonly_of_preserves. intros I. apply preserves_query_row. Qed.

Lemma readonly_resolve_user u : readonly (SqlAccounts.resolve_user_id_conn u).
Proof. apply readonly_of_preserves. intros I. unfold SqlAccounts.resolve_user_id_conn. preserve. Qed.

Lemma readonly_user_by_id u : readonly (SqlAccounts.user_by_id_conn u).
Proof. apply readonly_of_preserves. intros I. unfold SqlAccounts.user_by_id_conn. preserve. Qed.

Lemma readonly_group_by_name g : readonly (SqlGroups.group_id_by_name_conn g).
Proof. apply readonly_of_preserves. intros I. unfold SqlGroups.group_id_by_name_conn. preserve. Qed.

Lemma readonly_group_by_name_or_id g : readonly (SqlGroups.group_id_by_name_or_id_conn g).
Proof. apply readonly_of_preserves. intros I. unfold SqlGroups.group_id_by_name_or_id_conn. preserve. Qed.

Lemma readonly_grant_subject t u : readonly (SqlGrants.resolve_grant_subject_id_conn t u).
Proof.
  apply readonly_of_preserves. intros I. unfold SqlGrants.resolve_grant_subject_id_conn,
    SqlAccounts.resolve_user_id_conn, SqlGroups.group_id_by_name_or_id_conn.
  preserve; apply preserves_map_err; preserve.
Qed.

Lemma readonly_repository_by_name n : readonly (SqlGrants.repository_id_by_name_conn n).
Proof. apply readonly_of_preserves. intros I. unfold SqlGrants.repository_id_by_name_conn. preserve. Qed.

Lemma readonly_now : readonly (E := CoreError) (S := Db) now_unix.
Proof. by intros w. Qed.
Lemma readonly_uuid : readonly (E := CoreError) (S := Db) uuid_v4.
Proof. by intros w. Qed.
Lemma readonly_get : readonly (E := CoreError) (S := Db) get_state.
Proof. by intros w. Qed.
Lemma readonly_lift {A} (r : result CoreError A) : readonly (S := Db) (lift r).
Proof. by intros w. Qed.
Lemma readonly_throw {A} (e : CoreError) : readonly (S := Db) (A := A) (throw e).
Proof. by intros w. Qed.
Lemma readonly_ret {A} (a : A) : readonly (E := CoreError) (S := Db) (ret a).
Proof. by intros w. Qed.
Lemma readonly_ok_or {A} (o : option A) (e : CoreError) : readonly (S := Db) (ok_or o e).
Proof. intros w. by destruct o. Qed.
End Calls.

#[export] Hint Resolve readonly_query_row readonly_resolve_user readonly_user_by_id
  readonly_group_by_name readonly_group_by_name_or_id readonly_grant_subject
  readonly_repository_by_name readonly_now readonly_uuid readonly_get readonly_lift readonly_throw
  readonly_ret readonly_ok_or : handler.
