(* ===== verification/Files.v ===== *)
(** The file system as the control tool and the key administration use it ([std::fs],
    [std::path]): files and directories with their permissions, next to the state of a store. *)

From Stdlib Require Import ZArith Lia Ascii.
From stdpp Require Import base gmap strings list.
From S2P Require Import Prelude.

Record File := mkFile { file_bytes : string; file_mode : Z }.

Record Disk := mkDisk { d_files : gmap string File; d_dirs : gmap string Z }.

(** What the code asks of the operating system. *)
Inductive FileOp := OpRead | OpCreateDir | OpChmod | OpOpen | OpWrite | OpSync | OpRemove.

(** Whether the operating system refuses an operation on a path that could be carried out, and the
    texts of its errors. *)
Class FileSystem := {
  io_refused : FileOp → string → option string;
  io_not_found : string;
  io_already_exists : string;
  default_dir_mode : Z
}.

(** * Paths *)

(** [dir.join(file)] *)
Definition path_join (dir file : string) : string :=
  if starts_with "/" file || is_empty dir then file
  else if String.eqb (String.substring (String.length dir - 1) 1 dir) "/" then dir +:+ file
  else dir +:+ "/" +:+ file.

(** Trailing separators and [.] components are not part of a path. *)
Fixpoint path_trim (fuel : nat) (path : string) : string :=
  match fuel with
  | 0 => path
  | S fuel =>
      match rsplit_once "/" path with
      | Some ("", "") => "/"
      | Some (parent, "") => path_trim fuel parent
      | Some ("", ".") => "/"
      | Some (parent, ".") => path_trim fuel parent
      | _ => path
      end
  end.

(** [path.parent()], for a path whose last component is a name. *)
Definition path_parent (path : string) : string :=
  match rsplit_once "/" path with
  | None => ""
  | Some ("", _) => "/"
  | Some (parent, _) => path_trim (String.length parent) parent
  end.

(** A directory and those above it. *)
Fixpoint path_ancestors (fuel : nat) (dir : string) : list string :=
  match fuel with
  | 0 => []
  | S fuel => if is_empty dir then [] else
      dir :: (if String.eqb dir "/" then [] else path_ancestors fuel (path_parent dir))
  end.

Definition set_files (f : gmap string File → gmap string File) (d : Disk) : Disk :=
  mkDisk (f (d_files d)) (d_dirs d).
Definition set_dirs (f : gmap string Z → gmap string Z) (d : Disk) : Disk :=
  mkDisk (d_files d) (f (d_dirs d)).

(** * Operations, next to the state of a store *)

Section Ops.
Context `{FileSystem} {S : Type}.

Definition on_disk (f : Disk → Disk) : M string (Disk * S) () :=
  modify_state (λ s, (f s.1, s.2)).

Definition allowed_io (op : FileOp) (path : string) : M string (Disk * S) () :=
  match io_refused op path with Some err => throw err | None => ret tt end.

(** [fs::read] *)
Definition fs_read (path : string) : M string (Disk * S) string :=
  allowed_io OpRead path ;;;
  s <- get_state ;;
  file <- ok_or (d_files s.1 !! path) io_not_found ;;
  ret (file_bytes file).

(** [fs::create_dir_all] *)
Definition create_dir_all (dir : string) : M string (Disk * S) () :=
  allowed_io OpCreateDir dir ;;;
  on_disk (set_dirs (λ dirs, foldr (λ d dirs, match dirs !! d with
                                              | Some _ => dirs
                                              | None => <[d := default_dir_mode]> dirs
                                              end) dirs (path_ancestors (String.length dir) dir))).

(** [fs::set_permissions(path, Permissions::from_mode(mode))] of a directory *)
Definition set_permissions (dir : string) (mode : Z) : M string (Disk * S) () :=
  allowed_io OpChmod dir ;;;
  on_disk (set_dirs <[dir := mode]>).

(** [OpenOptions] with [write], and [create_new] or [create] and [truncate]: the mode is that of
    a new file only. *)
Definition open_options (exclusive : bool) (mode : Z) (path : string) : M string (Disk * S) () :=
  allowed_io OpOpen path ;;;
  s <- get_state ;;
  let parent := path_parent path in
  if negb (is_empty parent) && bool_decide (d_dirs s.1 !! parent = None) then throw io_not_found else
  match d_files s.1 !! path with
  | Some file =>
      if exclusive then throw io_already_exists
      else on_disk (set_files <[path := mkFile "" (file_mode file)]>)
  | None => on_disk (set_files <[path := mkFile "" mode]>)
  end.

(** [file.write_all(bytes)], at the end of the file that was opened. *)
Definition write_all (path bytes : string) : M string (Disk * S) () :=
  allowed_io OpWrite path ;;;
  on_disk (set_files (alter (λ file, mkFile (file_bytes file +:+ bytes) (file_mode file)) path)).

Definition sync_all (path : string) : M string (Disk * S) () := allowed_io OpSync path.

(** [fs::remove_file] *)
Definition remove_file (path : string) : M string (Disk * S) () :=
  allowed_io OpRemove path ;;;
  s <- get_state ;;
  match d_files s.1 !! path with
  | None => throw io_not_found
  | Some _ => on_disk (set_files (delete path))
  end.
End Ops.

(** A call of the store, which does not touch the files. *)
Definition in_store {E S A} (m : M E S A) : M E (Disk * S) A := λ w,
  match m (mkWorld (st w).2 (ticks w) (draws w)) with
  | (r, w') => (r, mkWorld ((st w).1, st w') (ticks w') (draws w'))
  end.
