(* ===== verification/Rs256.v ===== *)
(** The RS256 signer ([lore-auth-adapters/src/rs256.rs]): the claims of Lore tokens and their
    JSON, signing and verification, key files and the administration of signing keys.  RSA, PEM,
    base64, JSON text and the checks of [jsonwebtoken] are parameters. *)

From Stdlib Require Import ZArith Lia Ascii.
From stdpp Require Import base gmap strings list.
From S2P Require Import Prelude Model Ports MemState Files SqlRows SqlBase SqlTokens SqlAudited.

Definition DEFAULT_ENV : string := "prod".
Definition ALG_RS256 : string := "RS256".
Definition DEFAULT_RSA_BITS : N := 2048.

(** * Libraries *)

(** [serde_json::Value]; the numbers of the program are integers.  The members of an object are
    in the order in which they are written. *)
Inductive Json :=
  | JNull
  | JBool (b : bool)
  | JNumber (n : Z)
  | JString (s : string)
  | JArray (items : list Json)
  | JObject (members : list (string * Json)).

(** [Value == Value]; objects are maps. *)
Fixpoint json_eqb (a b : Json) {struct a} : bool :=
  match a, b with
  | JNull, JNull => true
  | JBool x, JBool y => Bool.eqb x y
  | JNumber x, JNumber y => (x =? y)%Z
  | JString x, JString y => String.eqb x y
  | JArray xs, JArray ys =>
      (fix go xs ys := match xs, ys with
                       | [], [] => true
                       | x :: xs, y :: ys => json_eqb x y && go xs ys
                       | _, _ => false
                       end) xs ys
  | JObject xs, JObject ys =>
      (length xs =? length ys)%nat
      && (fix go xs := match xs with
                       | [] => true
                       | (k, x) :: xs =>
                           match List.find (λ m, String.eqb m.1 k) ys with
                           | Some (_, y) => json_eqb x y
                           | None => false
                           end && go xs
                       end) xs
  | _, _ => false
  end.

(** What [jsonwebtoken::decode_header] reads of the header: the name of the algorithm, and the
    key identifier if there is one. *)
Record Header := mkHeader { jh_alg : string; jh_kid : option string }.

Class JwtLib := {
  (** [serde_json::to_vec], [to_vec_pretty], and [from_slice] into a [Value], on bytes *)
  value_to_vec : Json → result string string;
  value_to_vec_pretty : Json → result string string;
  value_from_slice : string → result string Json;
  (** [URL_SAFE_NO_PAD] *)
  b64_encode : string → string;
  b64_decode : string → result string string;
  (** [std::str::from_utf8] *)
  utf8_error : string → option string;
  (** the [rsa] crate *)
  RsaPrivateKey : Type;
  rsa_new : nat → N → result string RsaPrivateKey;
  to_pkcs1_der : RsaPrivateKey → result string string;
  to_pkcs8_pem : RsaPrivateKey → result string string;
  from_pkcs8_pem : string → option RsaPrivateKey;
  from_pkcs1_pem : string → option RsaPrivateKey;
  modulus_be : RsaPrivateKey → string;
  exponent_be : RsaPrivateKey → string;
  (** the [jsonwebtoken] crate: a signature is base64; [jwt_decode] checks the algorithm and the
      signature and gives the members of the claims; it panics on a key it cannot parse, which a
      key of the [rsa] crate is not *)
  EncodingKey : Type;
  DecodingKey : Type;
  from_rsa_der : string → EncodingKey;
  from_rsa_raw_components : string → string → DecodingKey;
  jwt_sign : EncodingKey → string → result string string;
  jwt_decode_header : string → option Header;
  jwt_decode : DecodingKey → string → result string (list (string * Json))
}.

(** * Errors *)

(** [Panicked] is not an error of the source: it is the panic of [SystemTime + Duration]. *)
Inductive Error :=
  | MissingIssuer
  | MissingAudience
  | MissingSubject
  | MissingIdp
  | MissingAuthzResources
  | InvalidCompact
  | MissingExpiration
  | Expired
  | UnexpectedIssuer (issuer : string)
  | AudienceNotPresent (audience : string)
  | UnexpectedAlgorithm (alg : string)
  | MissingKid
  | UnexpectedKid (kid : string)
  | UnsupportedPrivateKey
  | Crypto (message : string)
  | Panicked.

Definition error_to_string `{Env} (err : Error) : string :=
  match err with
  | MissingIssuer => "token: issuer must not be empty"
  | MissingAudience => "token: audience must not be empty"
  | MissingSubject => "token: subject must not be empty"
  | MissingIdp => "token: idp must not be empty"
  | MissingAuthzResources => "token: authz token requires at least one resource"
  | InvalidCompact => "token: compact JWT must have 3 parts"
  | MissingExpiration => "token: missing exp"
  | Expired => "token: expired"
  | UnexpectedIssuer issuer => "token: unexpected issuer " +:+ str_debug issuer
  | AudienceNotPresent audience => "token: audience " +:+ str_debug audience +:+ " not present"
  | UnexpectedAlgorithm alg => "token: unexpected alg " +:+ str_debug alg
  | MissingKid => "token: missing kid"
  | UnexpectedKid kid => "token: unexpected kid " +:+ str_debug kid
  | UnsupportedPrivateKey => "token: unsupported private key format (want PKCS#8 or PKCS#1 RSA)"
  | Crypto message => "token: " +:+ message
  | Panicked => "overflow when adding duration to instant"
  end.

Definition to_core_invalid `{Env} (err : Error) : CoreError := InvalidArgument (error_to_string err).
Definition to_core_signing_key (err : Error) : CoreError := SigningKeyUnavailable.
Definition to_core_unauth (err : Error) : CoreError := Unauthenticated.

(** [map_err(|err| Error::Crypto(format!("context: {err}")))] *)
Definition crypto {S A} (context : string) : M string S A → M Error S A :=
  map_err (λ err, Crypto (context +:+ ": " +:+ err)).
Definition crypto_result {A} (context : string) (r : result string A) : result Error A :=
  match r with Ok a => Ok a | Err err => Err (Crypto (context +:+ ": " +:+ err)) end.

(** * Claims *)

Record LoreResourcePermission := mkLoreResourcePermission {
  lrp_resource_id : string;
  lrp_permission : list string
}.

Record LoreClaims := mkLoreClaims {
  lc_subject : string;
  lc_issuer : string;
  lc_issued_at : Z;
  lc_expires_at : Z;
  lc_audience : list string;
  lc_env : string;
  lc_name : string;
  lc_preferred_username : string;
  lc_resources : list LoreResourcePermission;
  lc_groups : list string;
  lc_is_service_account : option bool;
  lc_idp : string;
  lc_jti : string
}.

(** [derive(Serialize)] with the [rename] and [skip_serializing_if] attributes of the fields. *)
Definition json_strings (l : list string) : Json := JArray (JString <$> l).

Definition resource_to_json (r : LoreResourcePermission) : Json :=
  JObject [("resource_id", JString (lrp_resource_id r)); ("permission", json_strings (lrp_permission r))].

Definition is_nil {A} (l : list A) : bool := match l with [] => true | _ => false end.
Definition skip_if {A} (skip : bool) (l : list A) : list A := if skip then [] else l.

Definition claims_members (c : LoreClaims) : list (string * Json) :=
  [("sub", JString (lc_subject c)); ("iss", JString (lc_issuer c));
   ("iat", JNumber (lc_issued_at c)); ("exp", JNumber (lc_expires_at c));
   ("aud", json_strings (lc_audience c)); ("env", JString (lc_env c));
   ("name", JString (lc_name c)); ("preferred_username", JString (lc_preferred_username c))]
  ++ skip_if (is_nil (lc_resources c))
       [("resources", JArray (resource_to_json <$> lc_resources c))]
  ++ skip_if (is_nil (lc_groups c)) [("groups", json_strings (lc_groups c))]
  ++ match lc_is_service_account c with
     | Some b => [("is_service_account", JBool b)]
     | None => []
     end
  ++ [("idp", JString (lc_idp c))]
  ++ skip_if (is_empty (lc_jti c)) [("jti", JString (lc_jti c))].

Definition claims_to_json (c : LoreClaims) : Json := JObject (claims_members c).

(** [derive(Deserialize)]: unknown members are ignored, a repeated one is an error, and so is a
    missing one without a default. *)
Definition member (members : list (string * Json)) (name : string) : option (option Json) :=
  match List.filter (λ m, String.eqb m.1 name) members with
  | [] => Some None
  | [(_, value)] => Some (Some value)
  | _ => None
  end.

Definition as_str (value : Json) : option string :=
  match value with JString s => Some s | _ => None end.
Definition as_i64 (value : Json) : option Z :=
  match value with
  | JNumber n => if ((- 2 ^ 63 <=? n) && (n <=? i64_max))%Z then Some n else None
  | _ => None
  end.
Definition as_vec {A} (item : Json → option A) (value : Json) : option (list A) :=
  match value with JArray items => mapM item items | _ => None end.
Definition as_option_bool (value : Json) : option (option bool) :=
  match value with JBool b => Some (Some b) | JNull => Some None | _ => None end.

Definition required {A} (parse : Json → option A) (members : list (string * Json)) (name : string)
    : option A :=
  found ← member members name; value ← found; parse value.
Definition defaulted {A} (parse : Json → option A) (zero : A) (members : list (string * Json))
    (name : string) : option A :=
  found ← member members name;
  match found with Some value => parse value | None => Some zero end.

Definition resource_from_json (value : Json) : option LoreResourcePermission :=
  match value with
  | JObject members =>
      resource_id ← required as_str members "resource_id";
      permission ← required (as_vec as_str) members "permission";
      Some (mkLoreResourcePermission resource_id permission)
  | _ => None
  end.

Definition claims_from_members (members : list (string * Json)) : option LoreClaims :=
  subject ← required as_str members "sub";
  issuer ← required as_str members "iss";
  issued_at ← required as_i64 members "iat";
  expires_at ← required as_i64 members "exp";
  audience ← required (as_vec as_str) members "aud";
  env ← required as_str members "env";
  name ← required as_str members "name";
  preferred_username ← required as_str members "preferred_username";
  resources ← defaulted (as_vec resource_from_json) [] members "resources";
  groups ← defaulted (as_vec as_str) [] members "groups";
  is_service_account ← defaulted as_option_bool None members "is_service_account";
  idp ← required as_str members "idp";
  jti ← defaulted as_str "" members "jti";
  Some (mkLoreClaims subject issuer issued_at expires_at audience env name preferred_username
          resources groups is_service_account idp jti).

Record AuthnOptions := mkAuthnOptions {
  no_issuer : string;
  no_audience : list string;
  no_subject : string;
  no_env : string;
  no_name : string;
  no_preferred_username : string;
  no_groups : list string;
  no_idp : string;
  no_is_service_account : bool;
  no_ttl : Duration;
  no_now : option Z;
  no_jti : string
}.

Record AuthzOptions := mkAuthzOptions {
  zo_issuer : string;
  zo_audience : list string;
  zo_subject : string;
  zo_env : string;
  zo_name : string;
  zo_preferred_username : string;
  zo_groups : list string;
  zo_idp : string;
  zo_is_service_account : bool;
  zo_resources : list LoreResourcePermission;
  zo_ttl : Duration;
  zo_now : option Z;
  zo_jti : string
}.

Definition default_ttl (ttl : Duration) : Duration :=
  if is_zero ttl then from_secs (60 * 60) else ttl.
Definition default_env (env : string) : string := if is_empty env then DEFAULT_ENV else env.
Definition default_to_subject (value subject : string) : string :=
  if is_empty value then subject else value.

(** [SystemTime + Duration]; the clock reads whole seconds. *)
Definition time_add (time : Z) (d : Duration) : result Error Z :=
  let sum := (time + dur_secs d)%Z in if (i64_max <? sum)%Z then Err Panicked else Ok sum.

(** [duration_since(UNIX_EPOCH)] and [i64::try_from]; the message of the first error is a
    rendering of a [Duration]. *)
Definition unix_seconds (time : Z) : result Error Z :=
  if (time <? 0)%Z then Err (Crypto "time before unix epoch: second time provided was later than self")
  else if (i64_max <? time)%Z
  then Err (Crypto "time overflow: out of range integral type conversion attempted") else Ok time.

Section Claims.
Context `{Env} {S : Type}.

Definition default_now (now : option Z) : M Error S Z :=
  match now with Some t => ret t | None => system_now end.

Definition new_authn_claims (opts : AuthnOptions) : M Error S LoreClaims :=
  if is_empty (no_issuer opts) then throw MissingIssuer else
  if is_nil (no_audience opts) then throw MissingAudience else
  if is_empty (no_subject opts) then throw MissingSubject else
  if is_empty (no_idp opts) then throw MissingIdp else
  let ttl := default_ttl (no_ttl opts) in
  now <- default_now (no_now opts) ;;
  issued_at <- lift (unix_seconds now) ;;
  expiry <- lift (time_add now ttl) ;;
  expires_at <- lift (unix_seconds expiry) ;;
  ret (mkLoreClaims (no_subject opts) (no_issuer opts) issued_at expires_at (no_audience opts)
         (default_env (no_env opts)) (default_to_subject (no_name opts) (no_subject opts))
         (default_to_subject (no_preferred_username opts) (no_subject opts)) [] (no_groups opts)
         (Some (no_is_service_account opts)) (no_idp opts) (no_jti opts)).

Definition set_resources (resources : list LoreResourcePermission) (c : LoreClaims) : LoreClaims :=
  mkLoreClaims (lc_subject c) (lc_issuer c) (lc_issued_at c) (lc_expires_at c) (lc_audience c)
    (lc_env c) (lc_name c) (lc_preferred_username c) resources (lc_groups c)
    (lc_is_service_account c) (lc_idp c) (lc_jti c).

Definition new_authz_claims (opts : AuthzOptions) : M Error S LoreClaims :=
  if is_nil (zo_resources opts) then throw MissingAuthzResources else
  claims <- new_authn_claims (mkAuthnOptions (zo_issuer opts) (zo_audience opts) (zo_subject opts)
              (zo_env opts) (zo_name opts) (zo_preferred_username opts) (zo_groups opts)
              (zo_idp opts) (zo_is_service_account opts) (zo_ttl opts) (zo_now opts) (zo_jti opts)) ;;
  ret (set_resources (zo_resources opts) claims).
End Claims.

Definition model_resource_to_claim_resource (resource : ResourcePermission) : LoreResourcePermission :=
  mkLoreResourcePermission (rp_resource_id resource) (permission_as_str <$> rp_permission resource).

Definition validate_claims (claims : LoreClaims) (opts : VerifyOptions) (now : Z) : result Error () :=
  if (lc_expires_at claims =? 0)%Z then Err MissingExpiration else
  match unix_seconds now with
  | Err err => Err err
  | Ok now =>
      if (lc_expires_at claims <=? now)%Z then Err Expired else
      if negb (is_empty (vo_issuer opts)) && negb (String.eqb (lc_issuer claims) (vo_issuer opts))
      then Err (UnexpectedIssuer (lc_issuer claims)) else
      if negb (is_empty (vo_audience opts))
         && negb (existsb (λ aud, String.eqb aud (vo_audience opts)) (lc_audience claims))
      then Err (AudienceNotPresent (vo_audience opts)) else Ok tt
  end.

Definition kid_byte (c : ascii) : bool :=
  let n := nat_of_ascii c in
  ((48 <=? n) && (n <=? 57)) || ((65 <=? n) && (n <=? 90)) || ((97 <=? n) && (n <=? 122))
  || Ascii.eqb c "_" || Ascii.eqb c "." || Ascii.eqb c "-".

Definition valid_kid (kid : string) : bool := negb (is_empty kid) && all_bytes kid_byte kid.

(** * Keys *)

Record JwtHeader := mkJwtHeader { jwh_alg : string; jwh_typ : string; jwh_kid : string }.

Definition header_to_json (h : JwtHeader) : Json :=
  JObject [("alg", JString (jwh_alg h)); ("typ", JString (jwh_typ h)); ("kid", JString (jwh_kid h))].

Record RsaJwk := mkRsaJwk {
  jwk_kty : string;
  jwk_use : string;
  jwk_kid : string;
  jwk_alg : string;
  jwk_n : string;
  jwk_e : string
}.

Definition jwk_to_json (jwk : RsaJwk) : Json :=
  JObject ([("kty", JString (jwk_kty jwk))]
    ++ skip_if (is_empty (jwk_use jwk)) [("use", JString (jwk_use jwk))]
    ++ [("kid", JString (jwk_kid jwk)); ("alg", JString (jwk_alg jwk)); ("n", JString (jwk_n jwk));
        ("e", JString (jwk_e jwk))]).

Record JwkSet := mkJwkSet { jks_keys : list RsaJwk }.

Definition jwk_set_to_json (set : JwkSet) : Json :=
  JObject [("keys", JArray (jwk_to_json <$> jks_keys set))].

Section Keys.
Context `{Env} `{JwtLib}.

Record SigningKey := mkSigningKey {
  key_kid : string;
  key_alg : string;
  key_private : RsaPrivateKey;
  key_encoding : EncodingKey;
  key_decoding : DecodingKey
}.

Definition marshal_jwks (set : JwkSet) : result Error string :=
  crypto_result "marshal JWKS document" (value_to_vec_pretty (jwk_set_to_json set)).

Definition new_rsa_jwk (kid alg : string) (public : RsaPrivateKey) : RsaJwk :=
  mkRsaJwk "RSA" "sig" kid alg (b64_encode (modulus_be public)) (b64_encode (exponent_be public)).

Definition encode_json_part (value : Json) : result Error string :=
  match crypto_result "marshal JWT part" (value_to_vec value) with
  | Ok raw => Ok (b64_encode raw)
  | Err err => Err err
  end.

Definition decode_json_part (encoded : string) : result Error Json :=
  match crypto_result "decode JWT part" (b64_decode encoded) with
  | Ok raw => crypto_result "parse JWT part" (value_from_slice raw)
  | Err err => Err err
  end.

Definition split_compact (compact : string) : result Error (string * string * string) :=
  match split "." compact with
  | [header; claims; signature] => Ok (header, claims, signature)
  | _ => Err InvalidCompact
  end.

Record DecodedInsecure := mkDecodedInsecure { di_header : Json; di_claims : Json }.

Definition decode_insecure (compact : string) : result Error DecodedInsecure :=
  match split_compact compact with
  | Err err => Err err
  | Ok (header, claims, _) =>
      match decode_json_part header with
      | Err err => Err err
      | Ok header =>
          match decode_json_part claims with
          | Err err => Err err
          | Ok claims => Ok (mkDecodedInsecure header claims)
          end
      end
  end.

Definition parse_rsa_private_key (pem : string) : result Error RsaPrivateKey :=
  match from_pkcs8_pem pem with
  | Some key => Ok key
  | None => match from_pkcs1_pem pem with Some key => Ok key | None => Err UnsupportedPrivateKey end
  end.

Definition from_private (kid : string) (private : RsaPrivateKey) : result Error SigningKey :=
  match crypto_result "marshal private key" (to_pkcs1_der private) with
  | Err err => Err err
  | Ok der =>
      Ok (mkSigningKey kid ALG_RS256 private (from_rsa_der der)
            (from_rsa_raw_components (modulus_be private) (exponent_be private)))
  end.

Definition jwk (self : SigningKey) : RsaJwk :=
  new_rsa_jwk (key_kid self) (key_alg self) (key_private self).

Definition sign_lore_claims (self : SigningKey) (claims : LoreClaims) : result Error string :=
  match encode_json_part (header_to_json (mkJwtHeader (key_alg self) "JWT" (key_kid self))) with
  | Err err => Err err
  | Ok encoded_header =>
      match encode_json_part (claims_to_json claims) with
      | Err err => Err err
      | Ok encoded_claims =>
          let signing_input := encoded_header +:+ "." +:+ encoded_claims in
          match crypto_result "sign JWT" (jwt_sign (key_encoding self) signing_input) with
          | Err err => Err err
          | Ok signature => Ok (signing_input +:+ "." +:+ signature)
          end
      end
  end.

(** [SigningKey::generate]; [OsRng] is a source of randomness. *)
Definition os_rng {S} : M Error S nat := λ w,
  (Ok (draws w), mkWorld (st w) (ticks w) (Datatypes.S (draws w))).

Definition generate {S} (kid : string) (bits : N) : M Error S SigningKey :=
  if is_empty kid then throw MissingKid else
  let bits := if (bits =? 0)%N then DEFAULT_RSA_BITS else bits in
  rng <- os_rng ;;
  private <- lift (crypto_result "generate rsa key" (rsa_new rng bits)) ;;
  lift (from_private kid private).

Context `{FileSystem}.

Definition load_pem {S} (kid path : string) : M Error (Disk * S) SigningKey :=
  if is_empty kid then throw MissingKid else
  raw <- crypto "read private key" (fs_read path) ;;
  match utf8_error raw with
  | Some err => throw (Crypto ("parse pem: " +:+ err))
  | None =>
      private <- lift (parse_rsa_private_key raw) ;;
      lift (from_private kid private)
  end.

Definition write_private_pem_inner {S} (self : SigningKey) (path : string) (exclusive : bool)
    : M Error (Disk * S) () :=
  pem <- lift (crypto_result "marshal private key" (to_pkcs8_pem (key_private self))) ;;
  let dir := path_parent path in
  (if is_empty dir then ret tt else
     crypto "create key dir" (create_dir_all dir) ;;;
     crypto "chmod key dir" (set_permissions dir 448)) ;;;
  crypto "create private key" (open_options exclusive 384 path) ;;;
  crypto "write private key" (write_all path pem) ;;;
  crypto "sync private key" (sync_all path).

Definition write_private_pem {S} (self : SigningKey) (path : string) : M Error (Disk * S) () :=
  write_private_pem_inner self path false.
Definition write_private_pem_exclusive {S} (self : SigningKey) (path : string)
    : M Error (Disk * S) () := write_private_pem_inner self path true.
End Keys.

(** * The signer *)

Module Signer.
Section Ops.
Context `{Env} `{JwtLib} {S : Type}.

Record t := mk { sg_key : SigningKey; sg_verification_time : option Z }.

Definition new (key : SigningKey) : t := mk key None.

Definition from_pem_file `{FileSystem} (kid path : string) : M Error (Disk * S) t :=
  map_ok new (load_pem kid path).

Definition with_verification_time (self : t) (now : Z) : t := mk (sg_key self) (Some now).

Definition now (self : t) : H S Z :=
  match sg_verification_time self with Some time => ret time | None => system_now end.

(** [crate::ensure_jti] *)
Definition ensure_jti (jti : string) : H S string := if is_empty jti then uuid_v4 else ret jti.

Definition sign (self : t) (claims : LoreClaims) : H S string :=
  map_err to_core_signing_key (lift (sign_lore_claims (sg_key self) claims)).

Definition sign_authn (self : t) (input : AuthnTokenInput) : H S SignedToken :=
  jti <- ensure_jti (ani_jti input) ;;
  claims <- map_err to_core_invalid
    (new_authn_claims (mkAuthnOptions (ani_issuer input) (ani_audience input) (ani_subject input) ""
       (ani_name input) (ani_preferred_username input) (ani_groups input) (ani_idp input) false
       (ani_ttl input) (ani_now input) jti)) ;;
  token <- sign self claims ;;
  ret (mkSignedToken token (lc_jti claims) (key_kid (sg_key self)) "" (lc_issued_at claims)
         (lc_expires_at claims) [] (lc_audience claims)).

Definition sign_authz (self : t) (input : AuthzTokenInput) : H S SignedToken :=
  jti <- ensure_jti (azi_jti input) ;;
  let resources := model_resource_to_claim_resource <$> azi_resources input in
  claims <- map_err to_core_invalid
    (new_authz_claims (mkAuthzOptions (azi_issuer input) (azi_audience input) (azi_subject input) ""
       (azi_name input) (azi_preferred_username input) (azi_groups input) (azi_idp input) false
       resources (azi_ttl input) (azi_now input) jti)) ;;
  token <- sign self claims ;;
  let '(lore_resource_id, permissions) :=
    match head (azi_resources input) with
    | Some resource => (rp_resource_id resource, rp_permission resource)
    | None => ("", [])
    end in
  ret (mkSignedToken token (lc_jti claims) (key_kid (sg_key self)) lore_resource_id
         (lc_issued_at claims) (lc_expires_at claims) permissions (lc_audience claims)).

Definition verify (self : t) (compact : string) (opts : VerifyOptions) : H S VerifiedToken :=
  header <- ok_or (jwt_decode_header compact) Unauthenticated ;;
  if negb (String.eqb (jh_alg header) ALG_RS256)
  then throw (to_core_unauth (UnexpectedAlgorithm (jh_alg header))) else
  kid <- ok_or (jh_kid header) (to_core_unauth MissingKid) ;;
  if negb (String.eqb kid (key_kid (sg_key self))) then throw (to_core_unauth (UnexpectedKid kid)) else
  members <- map_err (λ err, to_core_unauth (Crypto ("verify JWT: " +:+ err)))
               (lift (jwt_decode (key_decoding (sg_key self)) compact)) ;;
  claims <- ok_or (claims_from_members members) (to_core_unauth (Crypto "verify JWT")) ;;
  now <- now self ;;
  map_err to_core_unauth (lift (validate_claims claims opts now)) ;;;
  raw_claims <- map_err (λ err, to_core_unauth (Crypto ("marshal claims: " +:+ err)))
                  (lift (value_to_vec (claims_to_json claims))) ;;
  ret (mkVerifiedToken (lc_subject claims) (lc_jti claims) (lc_idp claims) (lc_expires_at claims)
         (lc_audience claims) (String.list_byte_of_string raw_claims)).

Definition jwks (self : t) : H S (list Byte.byte) :=
  map_err (λ _, SigningKeyUnavailable)
    (map_ok String.list_byte_of_string
       (lift (value_to_vec (jwk_set_to_json (mkJwkSet [jwk (sg_key self)]))))).

(** [impl TokenSigner for Signer] *)
Definition token_signer (self : t) : TokenSigner S := {|
  Ports.sign_authn := sign_authn self;
  Ports.sign_authz := sign_authz self;
  Ports.verify := verify self;
  Ports.jwks := jwks self
|}.
End Ops.
End Signer.

(** * Administration of signing keys *)

Class KeyAdminStore (S : Type) := {
  add_signing_key_meta : SigningKeyMeta → N → H S SigningKeyMeta;
  signing_key_by_kid : string → H S SigningKeyMeta;
  list_signing_key_meta : H S (list SigningKeyMeta)
}.

Definition store_keys `{Env} `{Sqlite} `{SerdeJson} : KeyAdminStore Db := {|
  add_signing_key_meta := λ key _, SqlTokens.add_signing_key_meta key;
  signing_key_by_kid := SqlTokens.signing_key_by_kid;
  list_signing_key_meta := SqlTokens.list_keys
|}.

Definition audited_keys `{Env} `{Sqlite} `{SerdeJson} (actor : string) : KeyAdminStore Db := {|
  add_signing_key_meta := SqlAudited.add_signing_key_meta actor;
  signing_key_by_kid := SqlTokens.signing_key_by_kid;
  list_signing_key_meta := SqlTokens.list_keys
|}.

Module SigningKeyAdmin.
Section Ops.
Context `{Env} `{JwtLib} `{FileSystem} {S : Type} `{!KeyAdminStore S}.

Definition key_path (dir kid : string) : string := path_join dir (kid +:+ ".pem").

Definition generate_active_key (dir kid alg : string) (bits : N) : H (Disk * S) SigningKeyMeta :=
  let alg := if is_empty alg then ALG_RS256 else alg in
  if negb (String.eqb alg ALG_RS256) then throw (InvalidArgument "only RS256 is supported") else
  if negb (valid_kid kid) then throw (InvalidArgument "kid contains unsupported characters") else
  found <- attempt (in_store (signing_key_by_kid kid)) ;;
  match found with
  | Ok _ => throw (InvalidArgument ("signing key kid " +:+ str_debug kid +:+ " already exists"))
  | Err NotFound =>
      key <- map_err to_core_invalid (generate kid bits) ;;
      let private_path := key_path dir kid in
      map_err to_core_invalid (write_private_pem_exclusive key private_path) ;;;
      public_jwk_json <- map_err (λ err, InvalidArgument
          ("marshal public jwk for " +:+ str_debug kid +:+ ": " +:+ err))
        (lift (value_to_vec (jwk_to_json (jwk key)))) ;;
      let meta := mkSigningKeyMeta (key_kid key) (key_alg key) public_jwk_json private_path "active" in
      added <- attempt (in_store (add_signing_key_meta meta bits)) ;;
      match added with
      | Ok meta => ret meta
      | Err err =>
          attempt (remove_file private_path) ;;;
          throw err
      end
  | Err err => throw err
  end.

Definition list_keys : H (Disk * S) (list SigningKeyMeta) := in_store list_signing_key_meta.

(** [impl SigningKeyAdminPort for SigningKeyAdmin] *)
Definition signing_key_admin (dir : string) : Ports.SigningKeyAdmin (Disk * S) := {|
  Ports.generate_active_key := generate_active_key dir;
  Ports.list_keys := list_keys
|}.
End Ops.
End SigningKeyAdmin.
