(* ===== verification/HttpBase.v ===== *)
(** What the HTTP handlers share ([lore-auth-inbound/src/httpserver/response.rs], [body.rs],
    [middleware.rs] and the data of [mod.rs]): messages, responses, escaping, bodies, the
    security headers and the rate limiter.  The parsers and encoders of the crates the server
    uses (http, url, serde_json, serde_urlencoded, percent-encoding) are operations of the class [HttpLib]. *)

From Stdlib Require Import ZArith Lia Ascii.
From stdpp Require Import base gmap strings list.
From S2P Require Import Prelude Model Ports TokenSvc PermissionSvc DeviceSvc LoginSvc GrpcRebac.

(** [url::Url], as far as the source reads it; an address is printed. *)
Inductive UrlHost := Domain (name : string) | Ipv4 (text : string) | Ipv6 (text : string).

Record Url := mkUrl {
  url_scheme : string;
  url_host : option UrlHost;
  url_host_str : option string;
  url_port : option Z;
  url_path : string
}.

(** A field of a derived [Serialize]. *)
Inductive JsonField := JStr (value : string) | JInt (value : Z).

(** The crates. *)
Class HttpLib := {
  (** [HeaderValue::from_str] and [HeaderValue::to_str] *)
  header_value : string → option string;
  header_str : string → option string;
  (** [axum::body::to_bytes] *)
  to_bytes : string → Z → option string;
  (** [serde_urlencoded::from_bytes] *)
  form_from_bytes : string → option (gmap string string);
  (** [form_urlencoded::parse], and a serializer that is given one pair *)
  form_urlencoded_parse : string → list (string * string);
  form_append_pair : string → string → string;
  (** [utf8_percent_encode] with the control characters and the given ones *)
  utf8_percent_encode : string → list ascii → string;
  (** [Url::parse] *)
  url_parse : string → option Url;
  (** [serde_json::from_slice] of a struct with exactly these string fields *)
  json_from_slice : list string → string → option (list string);
  (** [serde_json::to_vec] of a struct with these fields *)
  json_to_vec : list (string * JsonField) → option string;
  http_nets :: IpNets
}.

(** * Messages *)

(** [http::HeaderMap]: lower-case names, each with its values in order. *)
Abbreviation HeaderMap := (gmap string (list string)).

Definition header_get (headers : HeaderMap) (name : string) : option string :=
  headers !! name ≫= hd_error.
Definition header_insert (headers : HeaderMap) (name value : string) : HeaderMap :=
  <[name := [value]]> headers.

Record Response := mkResponse {
  rsp_status : Z;
  rsp_headers : HeaderMap;
  rsp_body : string
}.

(** What a handler extracts from a request: the matched path parameter, the query string
    and its decoded pairs, the headers, the body, the peer. *)
Record Request := mkRequest {
  req_method : string;
  req_path : string;
  req_param : string;
  req_raw_query : string;
  req_query : gmap string string;
  req_headers : HeaderMap;
  req_body : string;
  req_peer : option IpAddr
}.

Definition OK : Z := 200.
Definition NO_CONTENT : Z := 204.
Definition FOUND : Z := 302.
Definition BAD_REQUEST : Z := 400.
Definition UNAUTHORIZED : Z := 401.
Definition FORBIDDEN : Z := 403.
Definition NOT_FOUND : Z := 404.
Definition PAYLOAD_TOO_LARGE : Z := 413.
Definition TOO_MANY_REQUESTS : Z := 429.
Definition INTERNAL_SERVER_ERROR : Z := 500.
Definition SERVICE_UNAVAILABLE : Z := 503.

(** * Strings *)

(** Every byte replaced by a string: [str::replace] of an ASCII character. *)
Fixpoint flat_bytes (f : ascii → string) (s : string) : string :=
  match s with
  | EmptyString => EmptyString
  | String c rest => f c +:+ flat_bytes f rest
  end.

Definition replace (c : ascii) (by_ s : string) : string :=
  flat_bytes (λ d, if Ascii.eqb d c then by_ else String d EmptyString) s.

Definition DOUBLE_QUOTE : ascii := "034".

Definition html_escape (value : string) : string :=
  replace "'" "&#39;"
    (replace DOUBLE_QUOTE "&quot;"
      (replace ">" "&gt;"
        (replace "<" "&lt;"
          (replace "&" "&amp;" value)))).

Definition string_or (a b : string) : string := if is_empty a then b else a.

(** [{}] of a [bool] in a format string. *)
Definition show_bool (b : bool) : string := if b then "true" else "false".

(** An HTML attribute value in double quotes. *)
Definition quoted (s : string) : string :=
  String DOUBLE_QUOTE (s +:+ String DOUBLE_QUOTE EmptyString).

Definition PATH_SEGMENT_ENCODE_SET : list ascii :=
  [" "; DOUBLE_QUOTE; "#"; "%"; "<"; ">"; "?"; "`"; "{"; "}"; "/"]%char.

(** * Configuration and state (mod.rs) *)

Definition SESSION_COOKIE_NAME : string := "lore_auth_session".
Definition STATE_COOKIE_NAME : string := "lore_oauth_state".
Definition LOGIN_SESSION_COOKIE_NAME : string := "lore_login_session".
Definition MAX_JSON_BODY_BYTES : Z := 64 * 1024.
Definition LOGIN_STATE_TTL : Duration := from_secs (10 * 60).
Definition CSRF_TTL : Duration := from_secs (10 * 60).
Definition RATE_LIMIT : nat := 60.
Definition RATE_LIMIT_WINDOW : Duration := from_secs 60.

Section Config.
Context `{HttpLib}.

Record AdminConfig := mkAdminConfig {
  ac_admin_emails : list string;
  ac_allowed_peer_cidrs : list IpNet
}.

Definition admin_enabled (cfg : AdminConfig) : bool :=
  match ac_admin_emails cfg with [] => false | _ => true end.

Record HttpConfig := mkHttpConfig {
  hc_public_base_url : string;
  hc_lore_auth_url : string;
  hc_default_remote_url : string;
  hc_session_ttl : Duration;
  hc_admin : AdminConfig
}.

Record Services (S : Type) := mkServices {
  sv_login : option (LoginService S);
  sv_tokens : TokenService S;
  sv_resources : ResourceQuery S;
  sv_permissions : PermissionService S;
  sv_accounts : AccountQuery S;
  sv_admin_writes : AdminWritePortFactory S;
  sv_groups : GroupQuery S;
  sv_grants : GrantQuery S;
  sv_state : StateStore S;
  sv_jwks : TokenSigner S;
  sv_device : option (DeviceService S)
}.

(** The limiter of [AppState] is threaded by [HttpServer]. *)
Record AppState (S : Type) := mkAppState {
  app_cfg : HttpConfig;
  app_services : Services S
}.
End Config.
Arguments mkServices {S}.
Arguments sv_login {S} _.
Arguments sv_tokens {S} _.
Arguments sv_resources {S} _.
Arguments sv_permissions {S} _.
Arguments sv_accounts {S} _.
Arguments sv_admin_writes {S} _.
Arguments sv_groups {S} _.
Arguments sv_grants {S} _.
Arguments sv_state {S} _.
Arguments sv_jwks {S} _.
Arguments sv_device {S} _.
Arguments mkAppState {_ S}.
Arguments app_cfg {_ S} _.
Arguments app_services {_ S} _.

(** A handler: [return]ing a response early is failing with it. *)
Abbreviation Handler S := (M Response S Response).

(** What the server sends, either way. *)
Definition respond {S} (handler : Handler S) (w : World S) : Response * World S :=
  match handler w with (Ok response, w') | (Err response, w') => (response, w') end.

(** * Responses (response.rs) *)

Section Responses.
Context `{HttpLib}.

Definition set_header (headers : HeaderMap) (header : string * string) : HeaderMap :=
  match header_value header.2 with
  | Some value => header_insert headers header.1 value
  | None => headers
  end.

Definition response_with_headers (status : Z) (body : string) (headers : list (string * string))
    : Response :=
  mkResponse status (foldl set_header ∅ headers) body.

Definition append_header (response : Response) (name value : string) : Response :=
  match header_value value with
  | Some value =>
      let old := default [] (rsp_headers response !! name) in
      mkResponse (rsp_status response) (<[name := old ++ [value]]> (rsp_headers response))
        (rsp_body response)
  | None => response
  end.

Definition redirect_found (location : string) : Response :=
  response_with_headers FOUND "" [("location", location)].

Definition html_response (status : Z) (body : string) : Response :=
  response_with_headers status body [("content-type", "text/html; charset=utf-8")].

Definition text_response (status : Z) (body : string) : Response :=
  response_with_headers status body [("content-type", "text/plain; charset=utf-8")].

Definition json_response (status : Z) (body : list (string * JsonField)) : Response :=
  response_with_headers status (default "" (json_to_vec body))
    [("content-type", "application/json")].

(** * Request bodies (body.rs) *)

Definition limited_body (body too_large_message : string) : result Response string :=
  match to_bytes body MAX_JSON_BODY_BYTES with
  | Some bytes => Ok bytes
  | None => Err (text_response PAYLOAD_TOO_LARGE too_large_message)
  end.

Definition decode_json_body (fields : list string) (body : string)
    : result Response (list string) :=
  match limited_body body "json body too large" with
  | Err response => Err response
  | Ok bytes =>
      match json_from_slice fields bytes with
      | Some values => Ok values
      | None => Err (text_response BAD_REQUEST "invalid json")
      end
  end.

Definition parse_form_body (body : string) : result Response (gmap string string) :=
  match limited_body body "form body too large" with
  | Err response => Err response
  | Ok bytes =>
      match form_from_bytes bytes with
      | Some form => Ok form
      | None => Err (text_response BAD_REQUEST "invalid form")
      end
  end.

Definition encode_path_segment (value : string) : string :=
  utf8_percent_encode value PATH_SEGMENT_ENCODE_SET.

(** * Middleware (middleware.rs) *)

Definition security_headers (path : string) (response : Response) : Response :=
  let is_admin := starts_with "/admin" path in
  let headers := rsp_headers response in
  let headers := header_insert headers "x-content-type-options" "nosniff" in
  let headers := header_insert headers "referrer-policy" "no-referrer" in
  let headers := header_insert headers "content-security-policy"
    (if is_admin
     then "default-src 'none'; base-uri 'none'; connect-src 'self'; form-action 'self'; frame-ancestors 'none'; object-src 'none'; script-src 'self'; style-src 'self'"
     else "default-src 'none'; base-uri 'none'; form-action 'self'; frame-ancestors 'none'; object-src 'none'; script-src 'none'") in
  mkResponse (rsp_status response) headers (rsp_body response).
End Responses.

Definition ends_with (p s : string) : bool := bool_decide (is_Some (strip_suffix p s)).

Definition is_rate_limited_http_path (path : string) : bool :=
  String.eqb path "/api/device/start" || String.eqb path "/api/device/token"
  || String.eqb path "/login"
  || (starts_with "/auth/" path && ends_with "/start" path).
