(* ===== verification/HttpSession.v ===== *)
(** Browser sessions of the HTTP server ([lore-auth-inbound/src/httpserver/session.rs]):
    cookies, the same-origin test, CSRF tokens, and the session endpoints. *)

From Stdlib Require Import ZArith Lia Ascii.
From stdpp Require Import base gmap strings list.
From S2P Require Import Prelude Model Ports HttpBase.

(** [httpserver::BrowserSession] *)
Record HttpSession := mkHttpSession {
  hs_user : User;
  hs_session_id : string
}.

(** The loop of [cookie_value]: the [?] ends it at the first part without [=]. *)
Fixpoint cookie_in (parts : list string) (name : string) : option string :=
  match parts with
  | [] => None
  | part :: parts =>
      '(key, value) ← split_once "=" (trim part);
      if String.eqb key name then Some value else cookie_in parts name
  end.

Definition clear_cookie (name : string) : string :=
  name +:+ "=; Path=/; Max-Age=0; HttpOnly; SameSite=Lax".

Definition session_cookie (value : string) (expires_at : Z) (secure : bool) : string :=
  SESSION_COOKIE_NAME +:+ "=" +:+ value +:+ "; Path=/; HttpOnly; SameSite=Lax; Expires="
    +:+ show_int expires_at +:+ (if secure then "; Secure" else "").

(** A derived [Serialize]. *)
Definition me_json (user : User) : list (string * JsonField) :=
  [("id", JStr (u_id user)); ("email", JStr (u_email user));
   ("subject", JStr (bridge_subject user)); ("status", JStr (u_status user))].
Definition csrf_json (token : string) : list (string * JsonField) := [("csrf_token", JStr token)].

Section Headers.
Context `{HttpLib}.

Definition header_text (headers : HeaderMap) (name : string) : option string :=
  header_get headers name ≫= header_str.

Definition cookie_value (headers : HeaderMap) (name : string) : option string :=
  raw ← header_text headers "cookie"; cookie_in (split ";" raw) name.

Definition same_origin (cfg : HttpConfig) (headers : HeaderMap) : bool :=
  match url_parse (hc_public_base_url cfg) with
  | None => false
  | Some public_url =>
      let header := match header_get headers "origin" with
                    | Some value => Some value
                    | None => header_get headers "referer"
                    end in
      let raw := default "" (header ≫= header_str) in
      if is_empty raw then false else
      match url_parse raw with
      | None => false
      | Some got =>
          String.eqb (url_scheme got) (url_scheme public_url)
          && bool_decide (url_host_str got = url_host_str public_url)
          && bool_decide (url_port got = url_port public_url)
      end
  end.

Definition is_secure (headers : HeaderMap) : bool :=
  match header_text headers "x-forwarded-proto" with
  | Some value => eq_ignore_ascii_case value "https"
  | None => false
  end.

Definition csrf_token_from_request (headers : HeaderMap) (body : string)
    : result Response string :=
  let header_token := trim (default "" (header_text headers "x-csrf-token")) in
  if negb (is_empty header_token) then Ok header_token else
  match parse_form_body body with
  | Err response => Err response
  | Ok form => Ok (default "" (form !! "csrf_token"))
  end.

Definition render_whoami (id : ExternalIdentity) : Response :=
  html_response OK
    ("<h1>Identity</h1><dl><dt>issuer</dt><dd>" +:+ html_escape (ei_issuer id)
     +:+ "</dd><dt>subject</dt><dd>" +:+ html_escape (ei_subject id)
     +:+ "</dd><dt>email</dt><dd>" +:+ html_escape (ei_email id)
     +:+ "</dd><dt>email_verified</dt><dd>" +:+ show_bool (ei_email_verified id)
     +:+ "</dd><dt>name</dt><dd>" +:+ html_escape (ei_display_name id)
     +:+ "</dd><dt>hosted_domain</dt><dd>" +:+ html_escape (ei_hosted_domain id)
     +:+ "</dd></dl><p>Ask the administrator to invite this verified email. No Lore token was issued.</p>").

Definition session_unavailable : Response :=
  text_response INTERNAL_SERVER_ERROR "session unavailable".
Definition not_logged_in : Response := text_response UNAUTHORIZED "not logged in".
Definition invalid_origin : Response := text_response FORBIDDEN "invalid origin".
Definition invalid_csrf : Response := text_response FORBIDDEN "invalid csrf token".
End Headers.

Section Sessions.
Context `{HttpLib} {S : Type}.

Definition current_browser_session (state : StateStore S) (headers : HeaderMap)
    : H S (option HttpSession) :=
  match cookie_value headers SESSION_COOKIE_NAME with
  | None => ret None
  | Some session_id =>
      if is_empty session_id then ret None else
      found <- attempt (user_by_browser_session state session_id) ;;
      match found with
      | Ok user => ret (Some (mkHttpSession user session_id))
      | Err NotFound => ret None
      | Err err => throw err
      end
  end.

Context (state : AppState S).
Let services := app_services state.

Definition current_user (headers : HeaderMap) : H S (option User) :=
  map_ok (fmap hs_user) (current_browser_session (sv_state services) headers).

(** [match current_browser_session(..).await] of the handlers; [none] is sent without one. *)
Definition session_or (none : Response) (headers : HeaderMap) : M Response S HttpSession :=
  session <- map_err (λ _, session_unavailable)
               (current_browser_session (sv_state services) headers) ;;
  ok_or session none.

(** [csrf.is_empty() || consume_csrf_token(..).await.is_err()] *)
Definition spend_csrf (session_id csrf : string) : M Response S () :=
  if is_empty csrf then throw invalid_csrf
  else map_err (λ _, invalid_csrf) (consume_csrf_token (sv_state services) session_id csrf).

Definition user_or_401 (headers : HeaderMap) : M Response S User :=
  user <- map_err (λ _, session_unavailable) (current_user headers) ;;
  ok_or user not_logged_in.

Definition whoami_identity (user : User) : ExternalIdentity :=
  mkExternalIdentity "" "" "" "bridge" (bridge_subject user) "" (u_email user) false
    (u_display_name user) "" "" "".

Definition handle_whoami (request : Request) : Handler S :=
  user <- user_or_401 (req_headers request) ;;
  ret (render_whoami (whoami_identity user)).

Definition handle_me (request : Request) : Handler S :=
  user <- user_or_401 (req_headers request) ;;
  ret (json_response OK (me_json user)).

Definition handle_session_csrf (request : Request) : Handler S :=
  session <- session_or not_logged_in (req_headers request) ;;
  token <- map_err (λ _, text_response INTERNAL_SERVER_ERROR "csrf unavailable")
             (create_csrf_token (sv_state services) (hs_session_id session) CSRF_TTL) ;;
  ret (response_with_headers OK (default "" (json_to_vec (csrf_json token)))
         [("content-type", "application/json"); ("cache-control", "no-store");
          ("pragma", "no-cache")]).

Definition logged_out : Response :=
  response_with_headers NO_CONTENT "" [("set-cookie", clear_cookie SESSION_COOKIE_NAME)].

Definition handle_logout (request : Request) : Handler S :=
  let headers := req_headers request in
  session <- map_err (λ _, session_unavailable)
               (current_browser_session (sv_state services) headers) ;;
  match session with
  | None => ret logged_out
  | Some session =>
      if negb (same_origin (app_cfg state) headers) then throw invalid_origin else
      csrf <- lift (csrf_token_from_request headers (req_body request)) ;;
      spend_csrf (hs_session_id session) csrf ;;;
      revoked <- attempt (revoke_browser_session (sv_state services) (hs_session_id session)) ;;
      match revoked with
      | Ok _ | Err NotFound => ret logged_out
      | Err _ => throw session_unavailable
      end
  end.
End Sessions.
