(* ===== verification/HttpTokens.v ===== *)
(** The token page and manual minting ([lore-auth-inbound/src/httpserver/tokens.rs]), and the
    device pages and the JSON endpoints of the device flow
    ([lore-auth-inbound/src/httpserver/device.rs]). *)

From Stdlib Require Import ZArith Lia Ascii.
From stdpp Require Import base gmap strings list.
From S2P Require Import Prelude Model Ports TokenSvc PermissionSvc HttpBase HttpSession DeviceSvc.

Definition token_option (repo : Resource) : string :=
  "<option value=" +:+ quoted (html_escape (r_name repo)) +:+ ">" +:+ html_escape (r_name repo)
    +:+ "</option>".

Definition token_page_html (user : User) (repos : list Resource) (csrf_token : string) : string :=
  "<h1>Issue Lore token</h1><p>User: " +:+ html_escape (u_email user)
    +:+ "</p><form method=" +:+ quoted "post" +:+ " action=" +:+ quoted "/tokens/mint"
    +:+ "><input type=" +:+ quoted "hidden" +:+ " name=" +:+ quoted "csrf_token"
    +:+ " value=" +:+ quoted (html_escape csrf_token)
    +:+ "><label>Repository<select name=" +:+ quoted "repository" +:+ ">"
    +:+ foldl (λ body repo, body +:+ token_option repo) "" repos
    +:+ "</select></label><button type=" +:+ quoted "submit"
    +:+ ">Issue writer token</button></form>".

Definition token_result_html (token auth_url remote_url repo : string) : string :=
  "<h1>Lore token issued</h1><p>Repository: " +:+ html_escape repo
    +:+ "</p><p>Copy this command:</p><pre>lore auth login --token-type lore --token "
    +:+ html_escape token +:+ " --auth-url " +:+ html_escape auth_url +:+ " "
    +:+ html_escape remote_url +:+ "</pre><p>Token:</p><textarea rows=" +:+ quoted "8"
    +:+ " cols=" +:+ quoted "100" +:+ ">" +:+ html_escape token +:+ "</textarea>".

Section Tokens.
Context `{Env} `{HttpLib} {S : Type} (state : AppState S).
Let services := app_services state.

Definition write_token_issue_error (err : CoreError) : Response :=
  match err with
  | InvalidArgument _ => text_response BAD_REQUEST "invalid token request"
  | NotFound | PermissionDenied => text_response FORBIDDEN "token not authorized"
  | _ => text_response INTERNAL_SERVER_ERROR "token unavailable"
  end.

(** The repositories of the page: those the user may write to, in the order of the policy. *)
Definition writable_repos (accessible : list ResourcePermission) (resources : list Resource)
    : list Resource :=
  let by_resource_id : gmap string Resource :=
    foldl (λ map resource, <[r_resource_id resource := resource]> map) ∅ resources in
  omap (λ permission, by_resource_id !! rp_resource_id permission)
    (filter (λ permission, PermWrite ∈ rp_permission permission) accessible).

Definition handle_token_page (request : Request) : Handler S :=
  session <- session_or state (redirect_found "/login") (req_headers request) ;;
  let unavailable := text_response INTERNAL_SERVER_ERROR "repositories unavailable" in
  accessible <- map_err (λ _, unavailable)
    (Permissions.lookup (sv_permissions services) (u_id (hs_user session)) (mkResourceFilter "")) ;;
  resources <- map_err (λ _, unavailable) (list_resources (sv_resources services)) ;;
  csrf <- map_err (λ _, text_response INTERNAL_SERVER_ERROR "token page unavailable")
            (create_csrf_token (sv_state services) (hs_session_id session) CSRF_TTL) ;;
  ret (html_response OK
         (token_page_html (hs_user session) (writable_repos accessible resources) csrf)).

Definition handle_token_mint (request : Request) : Handler S :=
  let headers := req_headers request in
  session <- session_or state (redirect_found "/login") headers ;;
  if negb (same_origin (app_cfg state) headers) then throw invalid_origin else
  form <- lift (parse_form_body (req_body request)) ;;
  spend_csrf state (hs_session_id session) (default "" (form !! "csrf_token")) ;;;
  let repo := default "" (form !! "repository") in
  if is_empty repo then throw (text_response BAD_REQUEST "repository is required") else
  token <- map_err write_token_issue_error
             (manual_mint_authz (sv_tokens services) (u_id (hs_user session)) repo "writer" None) ;;
  ret (response_with_headers OK
         (token_result_html (stk_token token) (hc_lore_auth_url (app_cfg state))
            (hc_default_remote_url (app_cfg state)) repo)
         [("content-type", "text/html; charset=utf-8"); ("cache-control", "no-store");
          ("pragma", "no-cache"); ("referrer-policy", "no-referrer")]).
End Tokens.

Definition device_form_html : string :=
  "<h1>Authorize device</h1><form method=" +:+ quoted "get" +:+ " action=" +:+ quoted "/device"
    +:+ "><input name=" +:+ quoted "user_code" +:+ " placeholder=" +:+ quoted "AB12-CD34"
    +:+ "><button type=" +:+ quoted "submit" +:+ ">Continue</button></form>".

Definition device_confirm_html (user_code csrf_token : string) (preview : PreviewResult)
    : string :=
  "<h1>Authorize device</h1><dl><dt>Repository</dt><dd>"
    +:+ html_escape (rep_name (pr_repository preview))
    +:+ "</dd><dt>Repository remote</dt><dd>"
    +:+ html_escape (rep_remote_url (pr_repository preview))
    +:+ "</dd><dt>Requested remote</dt><dd>" +:+ html_escape (pr_requested_remote_url preview)
    +:+ "</dd></dl><form method=" +:+ quoted "post" +:+ " action=" +:+ quoted "/device/approve"
    +:+ "><input type=" +:+ quoted "hidden" +:+ " name=" +:+ quoted "user_code"
    +:+ " value=" +:+ quoted (html_escape user_code)
    +:+ "><input type=" +:+ quoted "hidden" +:+ " name=" +:+ quoted "csrf_token"
    +:+ " value=" +:+ quoted (html_escape csrf_token)
    +:+ "><button type=" +:+ quoted "submit" +:+ ">Approve</button></form>".

Definition device_approved_html (repo : Repository) : string :=
  "<h1>Device approved</h1><p>Repository: " +:+ html_escape (rep_name repo) +:+ "</p>".

(** Derived [Serialize]s. *)
Definition device_start_json (r : StartResult) : list (string * JsonField) :=
  [("device_code", JStr (sr_device_code r)); ("user_code", JStr (sr_user_code r));
   ("verification_uri", JStr (sr_verification_uri r)); ("expires_in", JInt (sr_expires_in r));
   ("interval", JInt (sr_interval r))].
Definition device_token_json (r : TokenResult) : list (string * JsonField) :=
  [("status", JStr (tr_status r)); ("token_type", JStr (tr_token_type r));
   ("access_token", JStr (tr_access_token r)); ("expires_in", JInt (tr_expires_in r));
   ("auth_url", JStr (tr_auth_url r)); ("remote_url", JStr (tr_remote_url r))].

Section Devices.
Context `{Env} `{HttpLib}.

(** The fields of [DeviceStartRequest] and [DeviceTokenRequest], which deny others. *)
Definition decode_device_start (body : string) : result Response (string * string) :=
  match decode_json_body ["remote_url"; "repository"] body with
  | Ok [remote_url; repository] => Ok (remote_url, repository)
  | Ok _ => Err (text_response BAD_REQUEST "invalid json")
  | Err response => Err response
  end.
Definition decode_device_token (body : string) : result Response string :=
  match decode_json_body ["device_code"] body with
  | Ok [device_code] => Ok device_code
  | Ok _ => Err (text_response BAD_REQUEST "invalid json")
  | Err response => Err response
  end.

Definition write_device_error (err : CoreError) : Response :=
  match err with
  | DeviceInvalidCode => text_response BAD_REQUEST "invalid device code"
  | DeviceExpiredCode => text_response BAD_REQUEST "device code expired"
  | DeviceAuthorizationNotPending | InvalidArgument _ =>
      text_response BAD_REQUEST "invalid device authorization"
  | NotFound => text_response NOT_FOUND "device repository not found"
  | PermissionDenied => text_response FORBIDDEN "device authorization denied"
  | _ => text_response INTERNAL_SERVER_ERROR "device flow unavailable"
  end.

Definition device_not_configured : Response :=
  text_response SERVICE_UNAVAILABLE "device flow not configured".

Context {S : Type} (state : AppState S).
Let services := app_services state.

Definition handle_device_page (request : Request) : Handler S :=
  device <- ok_or (sv_device services) device_not_configured ;;
  let user_code := default "" (req_query request !! "user_code") in
  if is_empty user_code then ret (html_response OK device_form_html) else
  session <- session_or state (redirect_found "/login") (req_headers request) ;;
  preview <- map_err write_device_error (Device.preview device user_code) ;;
  csrf <- map_err (λ _, text_response INTERNAL_SERVER_ERROR "device approval unavailable")
            (create_csrf_token (sv_state services) (hs_session_id session) CSRF_TTL) ;;
  ret (html_response OK (device_confirm_html user_code csrf preview)).

Definition handle_device_approve (request : Request) : Handler S :=
  device <- ok_or (sv_device services) device_not_configured ;;
  let headers := req_headers request in
  session <- session_or state (redirect_found "/login") headers ;;
  if negb (same_origin (app_cfg state) headers) then throw invalid_origin else
  form <- lift (parse_form_body (req_body request)) ;;
  let user_code := default "" (form !! "user_code") in
  if is_empty user_code then throw invalid_csrf else
  spend_csrf state (hs_session_id session) (default "" (form !! "csrf_token")) ;;;
  repo <- map_err write_device_error
            (Device.approve device (u_id (hs_user session)) user_code) ;;
  ret (html_response OK (device_approved_html repo)).

Definition handle_device_start (request : Request) : Handler S :=
  device <- ok_or (sv_device services) device_not_configured ;;
  let! (remote_url, repository) := lift (decode_device_start (req_body request)) in
  let remote_url := if is_empty remote_url then hc_default_remote_url (app_cfg state)
                    else remote_url in
  result <- map_err write_device_error (Device.start device remote_url repository) ;;
  ret (json_response OK (device_start_json result)).

Definition handle_device_token (request : Request) : Handler S :=
  device <- ok_or (sv_device services) device_not_configured ;;
  device_code <- lift (decode_device_token (req_body request)) ;;
  result <- map_err write_device_error (Device.token device device_code) ;;
  ret (json_response OK (device_token_json result)).
End Devices.
