(* ===== verification/HttpLogin.v ===== *)
(** Sign-in over HTTP ([lore-auth-inbound/src/httpserver/login.rs]): the index, the keys, the
    choice of a provider, the start of an authorization and its callback. *)

From Stdlib Require Import ZArith Lia Ascii.
From stdpp Require Import base gmap strings list.
From S2P Require Import Prelude Model Ports LoginSvc HttpBase HttpSession.

Section Pages.
Context `{HttpLib}.

Definition auth_start_path (provider_id login_nonce : string) : string :=
  let path := "/auth/" +:+ encode_path_segment provider_id +:+ "/start" in
  if is_empty login_nonce then path
  else path +:+ "?" +:+ form_append_pair "login_nonce" login_nonce.

Definition auth_callback_url (cfg : HttpConfig) (provider_id : string) : string :=
  trim_end_matches "/"%char (hc_public_base_url cfg) +:+ "/auth/"
    +:+ encode_path_segment provider_id +:+ "/callback".

Definition provider_item (login_nonce : string) (provider : IdentityProviderDescriptor)
    : string :=
  let label := string_or (ipd_display_name provider) (ipd_id provider) in
  "  <li><a href=" +:+ quoted (html_escape (auth_start_path (ipd_id provider) login_nonce))
    +:+ ">" +:+ html_escape label +:+ "</a></li>" +:+ String "010" EmptyString.

Definition provider_picker_html (providers : list IdentityProviderDescriptor)
    (login_nonce : string) : string :=
  "<h1>Choose identity provider</h1>" +:+ String "010" ("<ul>" +:+ String "010" EmptyString)
    +:+ foldl (λ body provider, body +:+ provider_item login_nonce provider) "" providers
    +:+ "</ul>".

Definition query_params (raw : string) : gmap string (list string) :=
  foldl (λ out pair, <[pair.1 := default [] (out !! pair.1) ++ [pair.2]]> out) ∅
    (form_urlencoded_parse raw).

(** [params.get(name).and_then(|values| values.first()).cloned().unwrap_or_default()] *)
Definition first_param (params : gmap string (list string)) (name : string) : string :=
  default "" (params !! name ≫= hd_error).

Definition login_not_configured : Response :=
  text_response SERVICE_UNAVAILABLE "identity provider login not configured".

Definition write_login_provider_error (err : CoreError) : Response :=
  match err with
  | Unsupported => login_not_configured
  | NotFound => text_response NOT_FOUND "unknown identity provider"
  | _ => text_response INTERNAL_SERVER_ERROR "login unavailable"
  end.

(** The errors of [complete_auth] in [handle_auth_callback]. *)
Definition write_callback_error (err : CoreError) : Response :=
  match err with
  | Unsupported => login_not_configured
  | NotFound => text_response NOT_FOUND "unknown identity provider"
  | PermissionDenied => text_response FORBIDDEN "login forbidden"
  | Unauthenticated => text_response UNAUTHORIZED "identity provider login failed"
  | _ => text_response INTERNAL_SERVER_ERROR "login unavailable"
  end.

(** The errors of [get_auth_session_by_nonce] in two handlers. *)
Definition write_login_session_error (err : CoreError) : Response :=
  match err with
  | NotFound | AuthSessionNotFound =>
      text_response NOT_FOUND "unknown or expired login session"
  | _ => text_response INTERNAL_SERVER_ERROR "login session unavailable"
  end.

Definition invalid_oauth_state : Response := text_response BAD_REQUEST "invalid oauth state".

Definition newline : string := String "010" EmptyString.

Definition index_text (user : option User) : string :=
  match user with
  | Some user => "lore-auth-bridge" +:+ newline +:+ "logged in as "
                   +:+ string_or (u_email user) (bridge_subject user) +:+ newline
  | None => "lore-auth-bridge" +:+ newline +:+ "GET /login" +:+ newline
  end.
End Pages.

Section Login.
Context `{Env} `{HttpLib} {S : Type} (state : AppState S).
Let services := app_services state.

Definition handle_healthz : Handler S := ret (text_response OK ("ok" +:+ newline)).

Definition handle_index (request : Request) : Handler S :=
  user <- map_err (λ _, session_unavailable) (current_user state (req_headers request)) ;;
  ret (text_response OK (index_text user)).

Definition handle_jwks : Handler S :=
  body <- map_err (λ _, text_response INTERNAL_SERVER_ERROR "jwks unavailable")
            (jwks (sv_jwks services)) ;;
  ret (response_with_headers OK (String.string_of_list_byte body) [("content-type", "application/json")]).

(** The end of [handle_login] and [handle_login_session]: go to the only provider or the one
    that was asked for, or show the list. *)
Definition choose_provider (login : LoginService S) (request : Request) (nonce : string)
    : Handler S :=
  let provider_id := default "" (req_query request !! "provider") in
  if negb (is_empty provider_id) then ret (redirect_found (auth_start_path provider_id nonce)) else
  match Login.providers login with
  | [] => throw login_not_configured
  | [provider] => ret (redirect_found (auth_start_path (ipd_id provider) nonce))
  | providers => ret (html_response OK (provider_picker_html providers nonce))
  end.

Definition handle_login (request : Request) : Handler S :=
  login <- ok_or (sv_login services) login_not_configured ;;
  choose_provider login request "".

Definition handle_login_session (request : Request) : Handler S :=
  login <- ok_or (sv_login services) login_not_configured ;;
  let nonce := req_param request in
  map_err write_login_session_error (get_auth_session_by_nonce (sv_state services) nonce) ;;;
  choose_provider login request nonce.

Definition random_url_token : M Response S string :=
  uuid <- uuid_v4 ;; ret (as_simple uuid).

Definition handle_auth_start (request : Request) : Handler S :=
  login <- ok_or (sv_login services) login_not_configured ;;
  let provider_id := req_param request in
  if negb (Login.has_provider login provider_id)
  then throw (text_response NOT_FOUND "unknown identity provider") else
  let login_nonce := default "" (req_query request !! "login_nonce") in
  (if is_empty login_nonce then ret tt else
   map_err write_login_session_error (get_auth_session_by_nonce (sv_state services) login_nonce) ;;;
   ret tt) ;;;
  nonce <- random_url_token ;;
  let state_failed := text_response INTERNAL_SERVER_ERROR "state failed" in
  let! (oauth_state, _) :=
    map_err (λ _, state_failed)
      (create_login_state (sv_state services)
         (mkLoginStateInput provider_id nonce login_nonce "" []) LOGIN_STATE_TTL) in
  result <- map_err write_login_provider_error
    (Login.begin_auth login provider_id
       (mkBeginAuthRequest oauth_state nonce (auth_callback_url (app_cfg state) provider_id) "")) ;;
  match bares_private_state result with
  | [] => ret tt
  | private_state =>
      map_err (λ _, state_failed)
        (set_login_state_private_state (sv_state services) oauth_state private_state)
  end ;;;
  ret (redirect_found (bares_redirect_url result)).

(** What the callback sends for a completed sign-in. *)
Definition callback_response (headers : HeaderMap) (result : OAuthCallbackResult) : Response :=
  if ocr_unknown_user result then render_whoami (ocr_identity result) else
  if ocr_cli_complete result
  then response_with_headers OK
         "<h1>Login complete</h1><p>You can return to the Lore CLI.</p>"
         [("content-type", "text/html; charset=utf-8");
          ("set-cookie", clear_cookie LOGIN_SESSION_COOKIE_NAME)]
  else
    append_header
      (append_header (redirect_found "/") "set-cookie"
         (session_cookie (bs_id (ocr_browser_session result))
            (bs_expires_at (ocr_browser_session result)) (is_secure headers)))
      "set-cookie" (clear_cookie STATE_COOKIE_NAME).

Definition handle_auth_callback (request : Request) : Handler S :=
  login <- ok_or (sv_login services) login_not_configured ;;
  let provider_id := req_param request in
  let params := query_params (req_raw_query request) in
  let oauth_state := first_param params "state" in
  login_state <- map_err (λ _, invalid_oauth_state)
                   (consume_login_state (sv_state services) oauth_state) ;;
  if is_empty oauth_state then throw invalid_oauth_state else
  if negb (String.eqb (ls_provider_id login_state) provider_id)
  then throw invalid_oauth_state else
  result <- map_err write_callback_error
    (Login.complete_auth login provider_id
       (mkCompleteAuthRequest (first_param params "code") oauth_state (ls_nonce login_state)
          (auth_callback_url (app_cfg state) provider_id) params (ls_private_state login_state))
       (ls_login_url_nonce login_state)) ;;
  ret (callback_response (req_headers request) result).
End Login.
