(* ===== verification/AdminBase.v ===== *)
(** What the admin pages share ([lore-auth-inbound/src/admin/mod.rs], [guard.rs], [forms.rs],
    [i18n.rs], [templates.rs], [dashboard.rs]): the guard, CSRF tokens, forms, view rows and
    templates as data, dates, languages, and the dashboard.  The rendering of a template
    (askama), the dictionaries (YAML), the form extractor (axum) and Unicode lower case are
    operations of the class [AdminLib]; [cookie_value], [is_secure] and the builders of
    responses, which the source repeats for the admin pages, are those of [HttpBase] and
    [HttpSession]. *)

From Stdlib Require Import ZArith Lia Ascii.
From stdpp Require Import base gmap strings list.
From S2P Require Import Prelude Model Ports GrpcRebac HttpBase HttpSession.

Definition ADMIN_LIST_LIMIT : nat := 100.
Definition ADMIN_GROUP_EDGE_LIMIT : nat := 20.
Definition ADMIN_CSRF_TTL : Duration := from_secs (10 * 60).
Definition usize_max : Z := 2 ^ 64 - 1.

(** * Forms (forms.rs): the decoded pairs, with [#\[serde(default)\]] *)

Definition field (form : gmap string string) (name : string) : string := default "" (form !! name).

Record RepositoryAddForm := mkRepositoryAddForm {
  raf_csrf_token : string;
  raf_name : string;
  raf_remote_url : string;
  raf_lore_repository_id : string
}.
Definition repository_add_form (form : gmap string string) : RepositoryAddForm :=
  mkRepositoryAddForm (field form "csrf_token") (field form "name") (field form "remote_url")
    (field form "lore_repository_id").

Record CsrfForm := mkCsrfForm { cf_csrf_token : string }.
Definition csrf_form (form : gmap string string) : CsrfForm := mkCsrfForm (field form "csrf_token").

Record GrantForm := mkGrantForm {
  gf_csrf_token : string;
  gf_repo : string;
  gf_subject_type : string;
  gf_subject_id : string;
  gf_role : string
}.
Definition grant_form (form : gmap string string) : GrantForm :=
  mkGrantForm (field form "csrf_token") (field form "repo") (field form "subject_type")
    (field form "subject_id") (field form "role").

Record UserAddForm := mkUserAddForm {
  uaf_csrf_token : string;
  uaf_email : string;
  uaf_display_name : string
}.
Definition user_add_form (form : gmap string string) : UserAddForm :=
  mkUserAddForm (field form "csrf_token") (field form "email") (field form "display_name").

Record UserInviteForm := mkUserInviteForm {
  uif_csrf_token : string;
  uif_provider_id : string;
  uif_issuer : string;
  uif_email : string;
  uif_display_name : string
}.
Definition user_invite_form (form : gmap string string) : UserInviteForm :=
  mkUserInviteForm (field form "csrf_token") (field form "provider_id") (field form "issuer")
    (field form "email") (field form "display_name").

Record GroupAddForm := mkGroupAddForm {
  gaf_csrf_token : string;
  gaf_name : string;
  gaf_description : string
}.
Definition group_add_form (form : gmap string string) : GroupAddForm :=
  mkGroupAddForm (field form "csrf_token") (field form "name") (field form "description").

Record GroupMemberForm := mkGroupMemberForm {
  gmf_csrf_token : string;
  gmf_group : string;
  gmf_user : string
}.
Definition group_member_form (form : gmap string string) : GroupMemberForm :=
  mkGroupMemberForm (field form "csrf_token") (field form "group") (field form "user").

Record GroupNestForm := mkGroupNestForm {
  gnf_csrf_token : string;
  gnf_parent_group : string;
  gnf_member_group : string
}.
Definition group_nest_form (form : gmap string string) : GroupNestForm :=
  mkGroupNestForm (field form "csrf_token") (field form "parent_group") (field form "member_group").

Record SimulatorForm := mkSimulatorForm {
  sf_csrf_token : string;
  sf_user : string;
  sf_resource : string;
  sf_action : string
}.
Definition simulator_form (form : gmap string string) : SimulatorForm :=
  mkSimulatorForm (field form "csrf_token") (field form "user") (field form "resource")
    (field form "action").

(** * View rows and templates (users.rs, groups.rs, repositories.rs, simulator.rs, templates.rs) *)

Record UserView := mkUserView {
  uv_id : string;
  uv_id_path : string;
  uv_email : string;
  uv_display_name : string;
  uv_status : string;
  uv_last_login : string
}.

Record AccessRow := mkAccessRow {
  ar_resource_id : string;
  ar_permissions : string
}.

Record GroupLinkRow := mkGroupLinkRow {
  glr_name : string;
  glr_description : string
}.

Record GroupView := mkGroupView {
  gv_name : string;
  gv_description : string;
  gv_members : list UserView;
  gv_members_more : nat;
  gv_nested_groups : list GroupLinkRow;
  gv_nested_groups_more : nat
}.

Record GrantView := mkGrantView {
  gtv_subject : string;
  gtv_subject_type : string;
  gtv_subject_id : string;
  gtv_role : string
}.

Record RepositoryView := mkRepositoryView {
  rv_name : string;
  rv_lore_repository_id : string;
  rv_resource_id : string;
  rv_resource_id_path : string;
  rv_status : string;
  rv_grants : list GrantView
}.

Record GrantEvidenceRow := mkGrantEvidenceRow {
  ger_subject : string;
  ger_role : string;
  ger_path : string
}.

Record SimulatorResultView := mkSimulatorResultView {
  srv_present : bool;
  srv_status : string;
  srv_detail : string;
  srv_user : string;
  srv_resource_id : string;
  srv_action : string;
  srv_repository_note : string;
  srv_evidence : list GrantEvidenceRow
}.

Definition default_SimulatorResultView : SimulatorResultView :=
  mkSimulatorResultView false "" "" "" "" "" "" [].

Inductive Template :=
  | DashboardTemplate (lang user_email user_display flash : string)
  | RepositoriesTemplate (lang query : string) (rows : list RepositoryView) (limit : nat)
      (csrf_token flash : string)
  | RepositoriesTableTemplate (lang : string) (rows : list RepositoryView) (limit : nat)
      (csrf_token : string)
  | UsersTemplate (lang query : string) (rows : list UserView) (limit : nat)
      (csrf_token flash current_user_id : string)
  | UsersTableTemplate (lang : string) (rows : list UserView) (limit : nat)
      (csrf_token current_user_id : string)
  | UserAccessTemplate (lang : string) (user : UserView) (rows : list AccessRow) (limit : nat)
      (flash : string)
  | GroupsTemplate (lang query : string) (rows : list GroupView) (limit : nat)
      (csrf_token flash : string)
  | SimulatorTemplate (lang csrf_token input_user input_resource input_action : string)
      (result : SimulatorResultView) (flash : string).

Class AdminLib := {
  (** [Template::render] of askama *)
  render : Template → option string;
  (** the two embedded dictionaries, read by serde_yaml_ng *)
  EN_DICT : gmap string string;
  JA_DICT : gmap string string;
  (** axum's [Form]: the pairs of the body, or its own answer *)
  extract_form : Request → result Response (gmap string string);
  (** [str::to_lowercase] *)
  to_lowercase : string → string
}.

(** * Dates (mod.rs) *)

(** [i64] division truncates, [div_euclid] and [rem_euclid] by a positive number do not. *)
Definition civil_from_days (days : Z) : Z * Z * Z :=
  let z := (days + 719468)%Z in
  let era := Z.quot (if (0 <=? z)%Z then z else z - 146096) 146097 in
  let doe := (z - era * 146097)%Z in
  let yoe := Z.quot (doe - Z.quot doe 1460 + Z.quot doe 36524 - Z.quot doe 146096) 365 in
  let year := (yoe + era * 400)%Z in
  let doy := (doe - (365 * yoe + Z.quot yoe 4 - Z.quot yoe 100))%Z in
  let mp := Z.quot (5 * doy + 2) 153 in
  let day := (doy - Z.quot (153 * mp + 2) 5 + 1)%Z in
  let month := (mp + (if mp <? 10 then 3 else -9))%Z in
  let year := (year + (if month <=? 2 then 1 else 0))%Z in
  (year, month, day).

(** [{n:0width}] of a non-negative integer. *)
Fixpoint zeros (n : nat) : string :=
  match n with 0 => "" | S n => String "0" (zeros n) end.
Definition padded (width : nat) (n : Z) : string :=
  let digits := show_int n in zeros (width - String.length digits) +:+ digits.

Definition format_unix (value : Z) : string :=
  if (value <=? 0)%Z then "-" else
  let days := Z.div value 86400 in
  let seconds := Z.modulo value 86400 in
  let '(year, month, day) := civil_from_days days in
  let hour := Z.quot seconds 3600 in
  let minute := Z.quot (Z.rem seconds 3600) 60 in
  let second := Z.rem seconds 60 in
  padded 4 year +:+ "-" +:+ padded 2 month +:+ "-" +:+ padded 2 day +:+ " "
    +:+ padded 2 hour +:+ ":" +:+ padded 2 minute +:+ ":" +:+ padded 2 second.

(** * Languages (i18n.rs) *)

Definition ADMIN_LANG_COOKIE : string := "admin_lang".
Definition DEFAULT_LANG : string := "en".

Definition is_supported_lang (value : string) : bool :=
  String.eqb value "en" || String.eqb value "ja".

Definition lang_cookie (value : string) (secure : bool) : string :=
  ADMIN_LANG_COOKIE +:+ "=" +:+ value +:+ "; Path=/admin; Max-Age=31536000; HttpOnly; SameSite=Lax"
    +:+ (if secure then "; Secure" else "").

Definition normalized_query (value : option string) : string := trim (default "" value).

Section Admin.
Context `{HttpLib} `{AdminLib}.

Definition dictionary (lang : string) : gmap string string :=
  if String.eqb lang "ja" then JA_DICT else EN_DICT.

Definition translate (lang key : string) : string := default key (dictionary lang !! key).

Definition resolve_lang (headers : HeaderMap) (query_lang : option string) : string :=
  match keep_if is_supported_lang query_lang with
  | Some lang => lang
  | None => default DEFAULT_LANG
              (keep_if is_supported_lang (cookie_value headers ADMIN_LANG_COOKIE))
  end.

Definition matches_search (query : string) (values : list string) : bool :=
  if is_empty query then true
  else existsb (λ value, contains (to_lowercase query) (to_lowercase value)) values.

(** * Responses (mod.rs) *)

Definition not_found : Response := text_response NOT_FOUND "not found".

Definition render_template (template : Template) : Response :=
  match render template with
  | Some html => html_response OK html
  | None => text_response INTERNAL_SERVER_ERROR "admin template unavailable"
  end.

Definition is_hx_target (headers : HeaderMap) (target : string) : bool :=
  bool_decide (header_text headers "hx-target" = Some target).

(** The message above a page after a write. *)
Definition flash_of {A} (lang : string) (outcome : result CoreError A) : string :=
  match outcome with
  | Ok _ => translate lang "admin.flash.saved"
  | Err err => translate lang "admin.flash.error" +:+ ": " +:+ core_error_to_string err
  end.

Definition user_view (user : User) : UserView :=
  mkUserView (u_id user) (encode_path_segment (u_id user)) (u_email user) (u_display_name user)
    (u_status user) (format_unix (u_last_login_at user)).

(** * The guard (guard.rs) *)

Definition is_admin_email (cfg : AdminConfig) (email : string) : bool :=
  existsb (λ admin, String.eqb (normalize_email admin) email) (ac_admin_emails cfg).

(** Without a list every peer passes; with one, only a known address that it contains. *)
Definition admin_peer_allowed (cfg : AdminConfig) (peer : option IpAddr) : bool :=
  match ac_allowed_peer_cidrs cfg with
  | [] => true
  | cidrs =>
      match peer with
      | None => false
      | Some addr => existsb (λ cidr, net_contains cidr addr) cidrs
      end
  end.

Definition admin_actor (session : HttpSession) : string :=
  if negb (is_empty (trim (u_email (hs_user session)))) then u_email (hs_user session)
  else u_id (hs_user session).

Context {S : Type} (state : AppState S).
Let services := app_services state.

Definition require_admin (request : Request) : M Response S HttpSession :=
  let cfg := hc_admin (app_cfg state) in
  if negb (admin_enabled cfg) then throw not_found else
  if negb (admin_peer_allowed cfg (req_peer request)) then throw not_found else
  session <- map_err (λ err, match err with
                             | PermissionDenied | Unauthenticated => not_found
                             | _ => session_unavailable
                             end)
               (current_browser_session (sv_state services) (req_headers request)) ;;
  session <- ok_or session not_found ;;
  if negb (String.eqb (u_status (hs_user session)) "active") then throw not_found else
  let email := normalize_email (u_email (hs_user session)) in
  if is_empty email || negb (is_admin_email cfg email) then throw not_found else
  ret session.

Definition guard_middleware (request : Request) (next : Handler S) : Handler S :=
  require_admin request ;;; next.

Definition create_admin_csrf (session : HttpSession) : M Response S string :=
  map_err (λ _, text_response INTERNAL_SERVER_ERROR "csrf unavailable")
    (create_csrf_token (sv_state services) (hs_session_id session) ADMIN_CSRF_TTL).

Definition require_admin_csrf (session : HttpSession) (csrf_token : string)
    : M Response S () :=
  if is_empty (trim csrf_token) then throw invalid_csrf
  else map_err (λ _, invalid_csrf)
         (consume_csrf_token (sv_state services) (hs_session_id session) csrf_token).

(** The write ports of the administrator. *)
Definition writes_of (session : HttpSession) : AdminWritePorts S :=
  for_actor (sv_admin_writes services) (admin_actor session).

(** * Dashboard (dashboard.rs) and static files (static_assets.rs) *)

Definition handle_dashboard (request : Request) : Handler S :=
  session <- require_admin request ;;
  let headers := req_headers request in
  let query_lang := req_query request !! "lang" in
  let lang := resolve_lang headers query_lang in
  let response := render_template
    (DashboardTemplate lang (u_email (hs_user session)) (display (hs_user session)) "") in
  ret match keep_if is_supported_lang query_lang with
      | Some _ => append_header response "set-cookie" (lang_cookie lang (is_secure headers))
      | None => response
      end.

(** [handle_htmx] and [handle_pico]: an embedded file and its content type. *)
Definition handle_static (file content_type : string) (request : Request) : Handler S :=
  require_admin request ;;;
  ret (response_with_headers OK file [("content-type", content_type)]).
End Admin.
