(* ===== verification/AdminPages.v ===== *)
(** The admin pages: users, with the protection of the last administrator
    ([lore-auth-inbound/src/admin/users.rs]), groups ([groups.rs]), repositories and their grants
    ([repositories.rs]) and the permission simulator ([simulator.rs]). *)

From Stdlib Require Import ZArith Lia Ascii.
From stdpp Require Import base gmap strings list.
From S2P Require Import Prelude Model Ports PermissionSvc HttpBase HttpSession AdminBase.

Definition access_row (permission : ResourcePermission) : AccessRow :=
  mkAccessRow (rp_resource_id permission)
    (String.concat ", " (permission_as_str <$> rp_permission permission)).

Definition access_rows (access : list ResourcePermission) : list AccessRow :=
  access_row <$> take ADMIN_LIST_LIMIT access.

Section Users.
Context `{HttpLib} `{AdminLib} {S : Type} (state : AppState S).
Let services := app_services state.
Let cfg := hc_admin (app_cfg state).

Definition user_rows (query : string) : M Response S (list UserView) :=
  users <- map_err (λ _, text_response INTERNAL_SERVER_ERROR "users unavailable")
    (list_users (sv_accounts services) (mkUserListFilter query (Z.of_nat ADMIN_LIST_LIMIT))) ;;
  ret (user_view <$> users).

Definition render_users_page (headers : HeaderMap) (session : HttpSession) (query flash : string)
    : Handler S :=
  csrf_token <- create_admin_csrf state session ;;
  rows <- user_rows query ;;
  ret (render_template
         (UsersTemplate (resolve_lang headers None) query rows ADMIN_LIST_LIMIT csrf_token flash
            (u_id (hs_user session)))).

Definition handle_users (request : Request) : Handler S :=
  session <- require_admin state request ;;
  let headers := req_headers request in
  let lang := resolve_lang headers (req_query request !! "lang") in
  csrf_token <- create_admin_csrf state session ;;
  let search := normalized_query (req_query request !! "q") in
  rows <- user_rows search ;;
  if is_hx_target headers "users-results"
  then ret (render_template
              (UsersTableTemplate lang rows ADMIN_LIST_LIMIT csrf_token (u_id (hs_user session))))
  else ret (render_template
              (UsersTemplate lang search rows ADMIN_LIST_LIMIT csrf_token ""
                 (u_id (hs_user session)))).

Definition handle_user_access (request : Request) : Handler S :=
  require_admin state request ;;;
  let lang := resolve_lang (req_headers request) (req_query request !! "lang") in
  user <- map_err (λ err, match err with
                          | NotFound => not_found
                          | _ => text_response INTERNAL_SERVER_ERROR "users unavailable"
                          end)
            (user_by_id (sv_accounts services) (req_param request)) ;;
  access <- map_err (λ _, text_response INTERNAL_SERVER_ERROR "access unavailable")
              (Permissions.lookup (sv_permissions services) (u_id user) (mkResourceFilter "urc-")) ;;
  ret (render_template
         (UserAccessTemplate lang (user_view user) (access_rows access) ADMIN_LIST_LIMIT "")).

Definition handle_user_add (form : UserAddForm) (request : Request) : Handler S :=
  session <- require_admin state request ;;
  require_admin_csrf state session (uaf_csrf_token form) ;;;
  let lang := resolve_lang (req_headers request) None in
  added <- attempt (add_user (awp_accounts S (writes_of state session))
                      (mkAddUserInput (uaf_email form) (uaf_display_name form))) ;;
  render_users_page (req_headers request) session "" (flash_of lang added).

Definition handle_user_invite (form : UserInviteForm) (request : Request) : Handler S :=
  session <- require_admin state request ;;
  require_admin_csrf state session (uif_csrf_token form) ;;;
  let lang := resolve_lang (req_headers request) None in
  invited <- attempt (add_invitation (awp_accounts S (writes_of state session))
                        (mkAddInvitationInput (uif_provider_id form) (uif_issuer form)
                           (uif_email form) (uif_display_name form) "verified_email_invitation" 0)) ;;
  render_users_page (req_headers request) session "" (flash_of lang invited).

(** Some other active user is an administrator by the configuration. *)
Definition other_active_admin (target user : User) : bool :=
  negb (String.eqb (u_id user) (u_id target)) && String.eqb (u_status user) "active"
  && is_admin_email cfg (normalize_email (u_email user)).

Definition validate_admin_disable_target (session : HttpSession) (target : User) : H S () :=
  if String.eqb (u_id target) (u_id (hs_user session))
  then throw (InvalidArgument "cannot disable the current admin session user") else
  if negb (is_admin_email cfg (normalize_email (u_email target))) then ret tt else
  users <- list_users (sv_accounts services) (mkUserListFilter "" usize_max) ;;
  if existsb (other_active_admin target) users then ret tt
  else throw (InvalidArgument "cannot disable the last active admin user").

(** The steps of [handle_user_disable] after the CSRF token: each error becomes a message. *)
Definition disable_checked (session : HttpSession) (id : string) : H S () :=
  target <- user_by_id (sv_accounts services) id ;;
  validate_admin_disable_target session target ;;;
  disable_user (awp_accounts S (writes_of state session)) id.

Definition handle_user_disable (form : CsrfForm) (request : Request) : Handler S :=
  session <- require_admin state request ;;
  require_admin_csrf state session (cf_csrf_token form) ;;;
  let lang := resolve_lang (req_headers request) None in
  disabled <- attempt (disable_checked session (req_param request)) ;;
  render_users_page (req_headers request) session "" (flash_of lang disabled).
End Users.

Section Groups.
Context `{HttpLib} `{AdminLib} {S : Type} (state : AppState S).
Let services := app_services state.

(** The row of one group: at most twenty members and nested groups, and how many more. *)
Definition group_row (group : Group) : M Response S GroupView :=
  members <- map_err (λ _, text_response INTERNAL_SERVER_ERROR "group members unavailable")
               (list_group_members (sv_groups services) (g_id group)) ;;
  nested <- map_err (λ _, text_response INTERNAL_SERVER_ERROR "nested groups unavailable")
              (list_group_groups (sv_groups services) (g_id group)) ;;
  ret (mkGroupView (g_name group) (g_description group)
         (take ADMIN_GROUP_EDGE_LIMIT (user_view <$> members))
         (length members - ADMIN_GROUP_EDGE_LIMIT)
         (take ADMIN_GROUP_EDGE_LIMIT
            ((λ g, mkGroupLinkRow (g_name g) (g_description g)) <$> nested))
         (length nested - ADMIN_GROUP_EDGE_LIMIT)).

(** The loop of [group_rows], which [break]s when the page is full. *)
Fixpoint group_rows_loop (query : string) (groups : list Group) (rows : list GroupView)
    : M Response S (list GroupView) :=
  match groups with
  | [] => ret rows
  | group :: groups =>
      if negb (matches_search query [g_name group; g_description group])
      then group_rows_loop query groups rows
      else
        row <- group_row group ;;
        let rows := rows ++ [row] in
        if ADMIN_LIST_LIMIT <=? length rows then ret rows else group_rows_loop query groups rows
  end.

Definition group_rows (query : string) : M Response S (list GroupView) :=
  groups <- map_err (λ _, text_response INTERNAL_SERVER_ERROR "groups unavailable")
              (list_groups (sv_groups services)) ;;
  group_rows_loop query groups [].

Definition render_groups_page (headers : HeaderMap) (session : HttpSession) (query flash : string)
    : Handler S :=
  csrf_token <- create_admin_csrf state session ;;
  rows <- group_rows query ;;
  ret (render_template
         (GroupsTemplate (resolve_lang headers None) query rows ADMIN_LIST_LIMIT csrf_token flash)).

Definition handle_groups (request : Request) : Handler S :=
  session <- require_admin state request ;;
  let lang := resolve_lang (req_headers request) (req_query request !! "lang") in
  csrf_token <- create_admin_csrf state session ;;
  let search := normalized_query (req_query request !! "q") in
  rows <- group_rows search ;;
  ret (render_template (GroupsTemplate lang search rows ADMIN_LIST_LIMIT csrf_token "")).

Definition handle_group_add (form : GroupAddForm) (request : Request) : Handler S :=
  session <- require_admin state request ;;
  require_admin_csrf state session (gaf_csrf_token form) ;;;
  let lang := resolve_lang (req_headers request) None in
  added <- attempt (add_group (awp_groups S (writes_of state session)) (gaf_name form)
                      (gaf_description form)) ;;
  render_groups_page (req_headers request) session "" (flash_of lang added).

Definition mutate_group_member (add : bool) (form : GroupMemberForm) (request : Request)
    : Handler S :=
  session <- require_admin state request ;;
  require_admin_csrf state session (gmf_csrf_token form) ;;;
  let groups := awp_groups S (writes_of state session) in
  done <- attempt (if add then add_group_member groups (gmf_group form) (gmf_user form)
                   else remove_group_member groups (gmf_group form) (gmf_user form)) ;;
  let lang := resolve_lang (req_headers request) None in
  render_groups_page (req_headers request) session "" (flash_of lang done).

Definition handle_group_member_add := mutate_group_member true.
Definition handle_group_member_remove := mutate_group_member false.

Definition mutate_group_nest (add : bool) (form : GroupNestForm) (request : Request)
    : Handler S :=
  session <- require_admin state request ;;
  require_admin_csrf state session (gnf_csrf_token form) ;;;
  let groups := awp_groups S (writes_of state session) in
  done <- attempt (if add
                   then add_group_group groups (gnf_parent_group form) (gnf_member_group form)
                   else remove_group_group groups (gnf_parent_group form) (gnf_member_group form)) ;;
  let lang := resolve_lang (req_headers request) None in
  render_groups_page (req_headers request) session "" (flash_of lang done).

Definition handle_group_nest_add := mutate_group_nest true.
Definition handle_group_nest_remove := mutate_group_nest false.
End Groups.

Definition grant_view (grant : Grant) : GrantView :=
  mkGrantView (gr_subject_type grant +:+ ":" +:+ gr_subject_id grant) (gr_subject_type grant)
    (gr_subject_id grant) (gr_role grant).

Section Repositories.
Context `{HttpLib} `{AdminLib} {S : Type} (state : AppState S).
Let services := app_services state.

Definition repository_view (resource : Resource) (grants : list Grant) : RepositoryView :=
  mkRepositoryView (r_name resource) (r_lore_repository_id resource) (r_resource_id resource)
    (encode_path_segment (r_resource_id resource)) (r_status resource) (grant_view <$> grants).

(** The loop of [repository_rows], which [break]s when the page is full. *)
Fixpoint repository_rows_loop (query : string) (resources : list Resource)
    (rows : list RepositoryView) : M Response S (list RepositoryView) :=
  match resources with
  | [] => ret rows
  | resource :: resources =>
      if negb (matches_search query [r_name resource])
      then repository_rows_loop query resources rows
      else
        grants <- map_err (λ _, text_response INTERNAL_SERVER_ERROR "grants unavailable")
                    (list_grants (sv_grants services) (r_name resource)) ;;
        let rows := rows ++ [repository_view resource grants] in
        if ADMIN_LIST_LIMIT <=? length rows then ret rows
        else repository_rows_loop query resources rows
  end.

Definition repository_rows (query : string) : M Response S (list RepositoryView) :=
  resources <- map_err (λ _, text_response INTERNAL_SERVER_ERROR "repositories unavailable")
                 (list_resources (sv_resources services)) ;;
  repository_rows_loop query resources [].

Definition render_repositories_page (headers : HeaderMap) (session : HttpSession)
    (query flash : string) : Handler S :=
  csrf_token <- create_admin_csrf state session ;;
  rows <- repository_rows query ;;
  ret (render_template
         (RepositoriesTemplate (resolve_lang headers None) query rows ADMIN_LIST_LIMIT csrf_token
            flash)).

Definition handle_repositories (request : Request) : Handler S :=
  session <- require_admin state request ;;
  let headers := req_headers request in
  let lang := resolve_lang headers (req_query request !! "lang") in
  csrf_token <- create_admin_csrf state session ;;
  let search := normalized_query (req_query request !! "q") in
  rows <- repository_rows search ;;
  if is_hx_target headers "repositories-results"
  then ret (render_template (RepositoriesTableTemplate lang rows ADMIN_LIST_LIMIT csrf_token))
  else ret (render_template
              (RepositoriesTemplate lang search rows ADMIN_LIST_LIMIT csrf_token "")).

Definition handle_repository_add (form : RepositoryAddForm) (request : Request) : Handler S :=
  session <- require_admin state request ;;
  require_admin_csrf state session (raf_csrf_token form) ;;;
  added <- attempt (upsert (awp_resources S (writes_of state session))
                      (mkResource "" (raf_name form) (raf_remote_url form)
                         (raf_lore_repository_id form) "" "")) ;;
  let lang := resolve_lang (req_headers request) None in
  render_repositories_page (req_headers request) session "" (flash_of lang added).

Definition handle_repository_disable (form : CsrfForm) (request : Request) : Handler S :=
  session <- require_admin state request ;;
  require_admin_csrf state session (cf_csrf_token form) ;;;
  disabled <- attempt (delete_resource_row (awp_resources S (writes_of state session))
                         (req_param request)) ;;
  let lang := resolve_lang (req_headers request) None in
  render_repositories_page (req_headers request) session "" (flash_of lang disabled).

Definition mutate_grant (add : bool) (form : GrantForm) (request : Request) : Handler S :=
  session <- require_admin state request ;;
  require_admin_csrf state session (gf_csrf_token form) ;;;
  let grants := awp_grants S (writes_of state session) in
  done <- attempt (if add
                   then map_ok (λ _, tt) (add_grant grants (gf_subject_type form)
                          (gf_subject_id form) (gf_repo form) (gf_role form))
                   else remove_grant grants (gf_subject_type form) (gf_subject_id form)
                          (gf_repo form) (gf_role form)) ;;
  let lang := resolve_lang (req_headers request) None in
  render_repositories_page (req_headers request) session "" (flash_of lang done).

Definition handle_grant_add := mutate_grant true.
Definition handle_grant_remove := mutate_grant false.
End Repositories.

Definition core_error_display (err : CoreError) : string :=
  let kind := match err with
              | NotFound => "NotFound"
              | AuthSessionNotFound => "AuthSessionNotFound"
              | InvalidArgument _ => "InvalidArgument"
              | Unauthenticated => "Unauthenticated"
              | PermissionDenied => "PermissionDenied"
              | Unsupported => "Unsupported"
              | SigningKeyUnavailable => "SigningKeyUnavailable"
              | TokenIssueFailed => "TokenIssueFailed"
              | DeviceInvalidCode => "DeviceInvalidCode"
              | DeviceExpiredCode => "DeviceExpiredCode"
              | DeviceAuthorizationNotPending => "DeviceAuthorizationNotPending"
              | DeviceIncompleteAuthorization => "DeviceIncompleteAuthorization"
              | AdminAuditFailed _ => "AdminAuditFailed"
              end in
  kind +:+ ": " +:+ core_error_to_string err.

Definition evidence_row (grant : GrantEvidence) : GrantEvidenceRow :=
  mkGrantEvidenceRow (ge_subject_type grant +:+ ":" +:+ ge_subject_name grant) (ge_role grant)
    (ge_path grant).

Section Simulator.
Context `{HttpLib} `{AdminLib} {S : Type} (state : AppState S).
Let services := app_services state.

Definition resolve_simulator_user (value : string) : H S User :=
  let value := trim value in
  if is_empty value then throw (InvalidArgument "user must not be empty") else
  by_id <- attempt (user_by_id (sv_accounts services) value) ;;
  match by_id with
  | Ok user => ret user
  | Err _ =>
      let normalized := normalize_email value in
      candidates <- list_users (sv_accounts services)
                      (mkUserListFilter value (Z.of_nat ADMIN_LIST_LIMIT)) ;;
      ok_or (List.find (λ user, String.eqb (u_id user) value
                                || String.eqb (normalize_email (u_email user)) normalized)
               candidates) NotFound
  end.

Definition resolve_simulator_resource_id (value : string) : H S string :=
  let value := trim value in
  if is_empty value then throw (InvalidArgument "resource must not be empty") else
  by_name <- attempt (get_by_name (sv_resources services) value) ;;
  match by_name with
  | Ok resource => ret (r_resource_id resource)
  | Err _ =>
      let resource_id := if starts_with "urc-" value then value else "urc-" +:+ value in
      found <- attempt (get_by_resource_id (sv_resources services) resource_id) ;;
      match found with
      | Ok resource => ret (r_resource_id resource)
      | Err NotFound => ret resource_id
      | Err err => throw err
      end
  end.

Definition simulator_error (lang : string) (err : CoreError) (message_key : string)
    : SimulatorResultView :=
  mkSimulatorResultView true (translate lang "admin.simulator.status_error")
    (translate lang message_key +:+ ": " +:+ core_error_display err) "" "" "" "" [].

(** The rows of evidence, and the note that takes their place. *)
Definition evidence_of (lang : string) (found : result CoreError (list GrantEvidence))
    : list GrantEvidenceRow * string :=
  match found with
  | Ok rows => (evidence_row <$> rows, "")
  | Err NotFound => ([], translate lang "admin.simulator.repository_not_found")
  | Err err =>
      ([], translate lang "admin.simulator.error_evidence" +:+ ": " +:+ core_error_display err)
  end.

(** The status and detail of a decision. *)
Definition decision_of (lang : string) (decision : result CoreError bool) : string * string :=
  match decision with
  | Ok true => (translate lang "admin.simulator.status_allow", "")
  | Ok false => (translate lang "admin.simulator.status_deny", "")
  | Err err =>
      (translate lang "admin.simulator.status_error",
       translate lang "admin.simulator.error_policy" +:+ ": " +:+ core_error_display err)
  end.

(** The decision and the evidence for a resolved user and repository. *)
Definition simulate (lang action : string) (user : User) (resource_id : string)
    : M Response S SimulatorResultView :=
  decision <- attempt (Permissions.can_access (sv_permissions services) (u_id user) resource_id
                         action) ;;
  found <- attempt (grants_for_user_on_repository (sv_grants services) (u_id user) resource_id) ;;
  let '(evidence, repository_note) := evidence_of lang found in
  let '(status, detail) := decision_of lang decision in
  ret (mkSimulatorResultView true status detail (u_email user) resource_id action repository_note
         evidence).

Definition simulator_result (form : SimulatorForm) (lang : string)
    : M Response S SimulatorResultView :=
  let action := trim (sf_action form) in
  if is_empty action
  then ret (simulator_error lang (InvalidArgument "action must not be empty")
              "admin.simulator.error_invalid_input") else
  user <- attempt (resolve_simulator_user (sf_user form)) ;;
  match user with
  | Err NotFound =>
      ret (simulator_error lang NotFound "admin.simulator.error_user_not_found")
  | Err err => ret (simulator_error lang err "admin.simulator.error_user")
  | Ok user =>
      resource_id <- attempt (resolve_simulator_resource_id (sf_resource form)) ;;
      match resource_id with
      | Err err => ret (simulator_error lang err "admin.simulator.error_resource")
      | Ok resource_id => simulate lang action user resource_id
      end
  end.

Definition handle_simulator (request : Request) : Handler S :=
  session <- require_admin state request ;;
  let lang := resolve_lang (req_headers request) (req_query request !! "lang") in
  csrf_token <- create_admin_csrf state session ;;
  ret (render_template
         (SimulatorTemplate lang csrf_token "" "" "read" default_SimulatorResultView "")).

Definition handle_simulator_check (form : SimulatorForm) (request : Request) : Handler S :=
  session <- require_admin state request ;;
  require_admin_csrf state session (sf_csrf_token form) ;;;
  let lang := resolve_lang (req_headers request) None in
  csrf_token <- create_admin_csrf state session ;;
  result <- simulator_result form lang ;;
  ret (render_template
         (SimulatorTemplate lang csrf_token (trim (sf_user form)) (trim (sf_resource form))
            (trim (sf_action form)) result "")).
End Simulator.
