(* ===== verification/HttpServer.v ===== *)
(** The HTTP server as a whole ([lore-auth-inbound/src/httpserver/mod.rs],
    [middleware.rs] and the routes of [admin/mod.rs]): the route table, the rate limiter, and
    a request through the layers.  Matching a path against a pattern is axum's, so a request
    comes with the endpoint it matched. *)

From Stdlib Require Import ZArith Lia Ascii.
From stdpp Require Import base gmap strings list.
From S2P Require Import Prelude Model Ports TokenSvc PermissionSvc DeviceSvc LoginSvc GrpcRebac.
From S2P Require Import HttpBase HttpSession HttpTokens HttpLogin.
From S2P Require Import AdminBase AdminPages.

(** * The rate limiter (middleware.rs): instants and the window in nanoseconds *)

Module HttpLimiter.
Record Bucket := mkBucket {
  b_start : Z;
  b_count : nat
}.

Record t := new {
  limit : nat;
  window : Z
}.

Abbreviation Buckets := (gmap string Bucket).

(** [now.duration_since(bucket.start) < window]; the subtraction saturates. *)
Definition current (self : t) (now : Z) (bucket : Bucket) : bool :=
  (Z.max 0 (now - b_start bucket) <? window self)%Z.

Definition allow (self : t) (now : Z) (key : string) (buckets : Buckets) : bool * Buckets :=
  if (limit self =? 0) || (window self =? 0)%Z then (true, buckets) else
  match keep_if (current self now) (buckets !! key) with
  | None =>
      let buckets := <[key := mkBucket now 1]> buckets in
      (true, filter (λ entry, current self now entry.2 = true) buckets)
  | Some bucket =>
      if limit self <=? b_count bucket then (false, buckets)
      else (true, <[key := mkBucket (b_start bucket) (b_count bucket + 1)]> buckets)
  end.
End HttpLimiter.

(** * Routes *)

Inductive AdminEndpoint :=
  | Dashboard
  | Repositories | RepositoryAdd | RepositoryDisable | GrantAdd | GrantRemove
  | Users | UserAdd | UserInvite | UserDisable | UserAccess
  | Groups | GroupAdd | GroupMemberAdd | GroupMemberRemove | GroupNestAdd | GroupNestRemove
  | SimulatorPage | SimulatorCheck
  | Htmx | Pico.

Inductive Endpoint :=
  | Jwks | Healthz | Index | LoginPage | AuthStart | AuthCallback | LoginSession
  | Whoami | Me | SessionCsrf | Logout
  | TokenPage | TokenMint
  | DevicePage | DeviceApprove | DeviceStart | DeviceToken
  | AdminRoute (endpoint : AdminEndpoint).

Section Server.
Context `{Env} `{HttpLib} `{AdminLib}.
(** The two embedded files. *)
Context (HTMX_JS PICO_CSS : string).
Context {S : Type} (state : AppState S).

(** A handler that takes axum's [Form]. *)
Definition with_form {F} (decode : gmap string string → F) (handler : F → Request → Handler S)
    (request : Request) : Handler S :=
  form <- lift (extract_form request) ;;
  handler (decode form) request.

Definition admin_handler (endpoint : AdminEndpoint) : Request → Handler S :=
  match endpoint with
  | Dashboard => handle_dashboard state
  | Repositories => handle_repositories state
  | RepositoryAdd => with_form repository_add_form (handle_repository_add state)
  | RepositoryDisable => with_form csrf_form (handle_repository_disable state)
  | GrantAdd => with_form grant_form (handle_grant_add state)
  | GrantRemove => with_form grant_form (handle_grant_remove state)
  | Users => handle_users state
  | UserAdd => with_form user_add_form (handle_user_add state)
  | UserInvite => with_form user_invite_form (handle_user_invite state)
  | UserDisable => with_form csrf_form (handle_user_disable state)
  | UserAccess => handle_user_access state
  | Groups => handle_groups state
  | GroupAdd => with_form group_add_form (handle_group_add state)
  | GroupMemberAdd => with_form group_member_form (handle_group_member_add state)
  | GroupMemberRemove => with_form group_member_form (handle_group_member_remove state)
  | GroupNestAdd => with_form group_nest_form (handle_group_nest_add state)
  | GroupNestRemove => with_form group_nest_form (handle_group_nest_remove state)
  | SimulatorPage => handle_simulator state
  | SimulatorCheck => with_form simulator_form (handle_simulator_check state)
  | Htmx => handle_static state HTMX_JS "application/javascript; charset=utf-8"
  | Pico => handle_static state PICO_CSS "text/css; charset=utf-8"
  end.

Definition handler (endpoint : Endpoint) (request : Request) : Handler S :=
  match endpoint with
  | Jwks => handle_jwks state
  | Healthz => handle_healthz
  | Index => handle_index state request
  | LoginPage => handle_login state request
  | AuthStart => handle_auth_start state request
  | AuthCallback => handle_auth_callback state request
  | LoginSession => handle_login_session state request
  | Whoami => handle_whoami state request
  | Me => handle_me state request
  | SessionCsrf => handle_session_csrf state request
  | Logout => handle_logout state request
  | TokenPage => handle_token_page state request
  | TokenMint => handle_token_mint state request
  | DevicePage => handle_device_page state request
  | DeviceApprove => handle_device_approve state request
  | DeviceStart => handle_device_start state request
  | DeviceToken => handle_device_token state request
  | AdminRoute endpoint => guard_middleware state request (admin_handler endpoint request)
  end.

(** The route table: method, pattern, endpoint. *)
Definition public_routes : list (string * string * Endpoint) :=
  [("GET", "/.well-known/jwks.json", Jwks); ("GET", "/healthz", Healthz); ("GET", "/", Index);
   ("GET", "/login", LoginPage); ("GET", "/auth/:provider/start", AuthStart);
   ("GET", "/auth/:provider/callback", AuthCallback);
   ("GET", "/login/session/:nonce", LoginSession); ("GET", "/whoami", Whoami);
   ("GET", "/api/me", Me); ("GET", "/api/session/csrf", SessionCsrf);
   ("POST", "/api/logout", Logout); ("GET", "/tokens", TokenPage);
   ("POST", "/tokens/mint", TokenMint); ("GET", "/device", DevicePage);
   ("POST", "/device/approve", DeviceApprove); ("POST", "/api/device/start", DeviceStart);
   ("POST", "/api/device/token", DeviceToken)].

Definition admin_routes : list (string * string * AdminEndpoint) :=
  [("GET", "/admin", Dashboard); ("GET", "/admin/", Dashboard);
   ("GET", "/admin/repositories", Repositories); ("POST", "/admin/repositories", RepositoryAdd);
   ("POST", "/admin/repositories/:resource_id/disable", RepositoryDisable);
   ("POST", "/admin/repositories/grants/add", GrantAdd);
   ("POST", "/admin/repositories/grants/remove", GrantRemove);
   ("GET", "/admin/users", Users); ("POST", "/admin/users", UserAdd);
   ("POST", "/admin/users/invite", UserInvite); ("POST", "/admin/users/:id/disable", UserDisable);
   ("GET", "/admin/users/:id/access", UserAccess); ("GET", "/admin/groups", Groups);
   ("POST", "/admin/groups", GroupAdd); ("POST", "/admin/groups/members/add", GroupMemberAdd);
   ("POST", "/admin/groups/members/remove", GroupMemberRemove);
   ("POST", "/admin/groups/nests/add", GroupNestAdd);
   ("POST", "/admin/groups/nests/remove", GroupNestRemove);
   ("GET", "/admin/simulator", SimulatorPage); ("POST", "/admin/simulator", SimulatorCheck);
   ("GET", "/admin/static/htmx.min.js", Htmx); ("GET", "/admin/static/pico.min.css", Pico)].

(** The admin routes exist only when administrators are configured. *)
Definition routes : list (string * string * Endpoint) :=
  public_routes ++
  if admin_enabled (hc_admin (app_cfg state))
  then (λ r : string * string * AdminEndpoint, (r.1, AdminRoute r.2)) <$> admin_routes else [].

(** The method that reaches an endpoint. *)
Definition routed (method : string) (endpoint : Endpoint) : Prop :=
  ∃ pattern, (method, pattern, endpoint) ∈ routes.

Definition limiter : HttpLimiter.t :=
  HttpLimiter.new RATE_LIMIT
    (dur_secs RATE_LIMIT_WINDOW * 1000000000 + dur_nanos RATE_LIMIT_WINDOW)%Z.

(** [peer_key], the printed address, is given. *)
Definition rate_limit_public (now : Z) (peer_key : string) (request : Request)
    (buckets : HttpLimiter.Buckets) : bool * HttpLimiter.Buckets :=
  if is_rate_limited_http_path (req_path request)
  then HttpLimiter.allow limiter now peer_key buckets else (true, buckets).

(** One request through the layers of [build_router]: the security headers are outermost. *)
Definition serve (now : Z) (peer_key : string) (endpoint : Endpoint) (request : Request)
    (server : HttpLimiter.Buckets * World S) : Response * (HttpLimiter.Buckets * World S) :=
  let '(buckets, w) := server in
  let '(ok, buckets) := rate_limit_public now peer_key request buckets in
  let '(response, w) :=
    if ok then respond (handler endpoint request) w
    else (text_response TOO_MANY_REQUESTS "rate limit exceeded", w) in
  (security_headers (req_path request) response, (buckets, w)).

(** Requests in the order in which they are served: when, from whom, what. *)
Fixpoint serves (arrivals : list ((Z * string) * (Endpoint * Request)))
    (server : HttpLimiter.Buckets * World S)
    : list Response * (HttpLimiter.Buckets * World S) :=
  match arrivals with
  | [] => ([], server)
  | ((now, peer_key), (endpoint, request)) :: arrivals =>
      let '(response, server) := serve now peer_key endpoint request server in
      let '(responses, server) := serves arrivals server in
      (response :: responses, server)
  end.
End Server.
