(* ===== verification/Config.v ===== *)
(** Configuration ([lore-auth-adapters/src/config.rs]): the tables of the file, the defaults and
    the rules a loaded configuration satisfies.  Reading the file, YAML, URLs and addresses are
    operations of classes; [BTreeMap] is [gmap], iterated in the order of its keys. *)

From Stdlib Require Import ZArith Lia Ascii.
From stdpp Require Import base gmap strings list.
From S2P Require Import Prelude Model GrpcRebac HttpBase.

Record ServerConfig := mkServerConfig {
  sc_listen : string;
  sc_grpc_listen : string;
  sc_grpc_tls_cert_file : string;
  sc_grpc_tls_key_file : string;
  sc_public_base_url : string
}.

Record SubjectConfig := mkSubjectConfig {
  sub_strategy : string;
  sub_required_tid : string
}.

(** [hosted_domain] is the list [allowed] of its table. *)
Record TrustConfig := mkTrustConfig {
  tru_email_binding : string;
  tru_allowed_email_domains : list string;
  tru_hosted_domain : list string;
  tru_personal_accounts : string
}.

Record IdentityProviderConfig := mkIdentityProviderConfig {
  ipc_provider_type : string;
  ipc_profile : string;
  ipc_display_name : string;
  ipc_issuer : string;
  ipc_client_id : string;
  ipc_client_secret_file : string;
  ipc_redirect_url : string;
  ipc_scopes : list string;
  ipc_pkce : string;
  ipc_subject : SubjectConfig;
  ipc_claims : gmap string string;
  ipc_trust : TrustConfig
}.

Record IdentityProvidersConfig := mkIdentityProvidersConfig {
  ips_default : option string;
  ips_providers : gmap string IdentityProviderConfig
}.

Record JwtConfig := mkJwtConfig {
  jc_issuer : string;
  jc_audience : list string;
  jc_ttl_seconds : Z;
  jc_signing_key_dir : string;
  jc_active_kid : string
}.

Record LoreConfig := mkLoreConfig {
  lo_default_remote_url : string;
  lo_auth_url : string
}.

Record SecurityConfig := mkSecurityConfig {
  sec_device_code_ttl_seconds : Z;
  sec_device_poll_interval_seconds : Z;
  sec_session_ttl_seconds : Z;
  sec_auth_session_ttl_seconds : Z;
  sec_rebac_allowed_peer_cidrs : list string;
  sec_admin_allowed_peer_cidrs : list string
}.

(** [authz], [database] and [admin] are tables of one field. *)
Record Config := mkConfig {
  cfg_server : ServerConfig;
  cfg_identity_providers : IdentityProvidersConfig;
  cfg_authz_backend : string;
  cfg_database_path : string;
  cfg_jwt : JwtConfig;
  cfg_lore : LoreConfig;
  cfg_security : SecurityConfig;
  cfg_admin_emails : list string
}.

Inductive ConfigError :=
  | Read (path : string)
  | Parse (path : string)
  | Validate (message : string).

Class ConfigLib := {
  (** [fs::read_to_string] *)
  read_to_string : string → option string;
  (** [serde_yaml_ng::from_str] *)
  yaml_from_str : string → option Config
}.

Definition validation (message : string) : ConfigError := Validate message.

(** [if test { return Err(validation(message)) }] *)
Definition reject_if (test : bool) (message : string) : result ConfigError () :=
  if test then Err (validation message) else Ok tt.

(** Tests in order: the first error ends them. *)
Fixpoint first_error {E} (checks : list (result E ())) : result E () :=
  match checks with
  | [] => Ok tt
  | Ok _ :: checks => first_error checks
  | Err err :: _ => Err err
  end.

(** [iter().enumerate()] with a test per element. *)
Fixpoint check_each {E A} (check : Z → A → result E ()) (index : Z) (l : list A) : result E () :=
  match l with
  | [] => Ok tt
  | a :: l => match check index a with
              | Ok _ => check_each check (index + 1) l
              | Err err => Err err
              end
  end.

Definition btree_iter {A} (m : gmap string A) : list (string * A) :=
  sort_by (λ a b, str_leb a.1 b.1) (map_to_list m).

(** * Helpers *)

(** [value.split_once("://").map_or(value, |(_, rest)| rest)] *)
Fixpoint after_scheme (value : string) : option string :=
  match strip_prefix "://" value with
  | Some rest => Some rest
  | None => match value with EmptyString => None | String _ value => after_scheme value end
  end.
Definition strip_scheme (value : string) : string := default value (after_scheme value).

(** [^[a-z0-9][a-z0-9_-]{0,62}$] *)
Definition is_lower_or_digit (c : ascii) : bool :=
  let n := nat_of_ascii c in ((97 <=? n) && (n <=? 122)) || ((48 <=? n) && (n <=? 57)).
Definition provider_id_ok (id : string) : bool :=
  match id with
  | EmptyString => false
  | String c rest =>
      is_lower_or_digit c
      && all_bytes (λ d, is_lower_or_digit d || Ascii.eqb d "_" || Ascii.eqb d "-") rest
      && (String.length rest <=? 62)
  end.

Section Config.
Context `{Env} `{HttpLib}.

Definition url_host_without_ipv6_brackets (url : Url) : option string :=
  (λ host, match host with Domain text | Ipv4 text | Ipv6 text => text end) <$> url_host url.

Definition parse_url (field value : string) (allowed_schemes : list string)
    : result ConfigError Url :=
  match url_parse value with
  | None => Err (validation (field +:+ " must be an absolute URL"))
  | Some parsed =>
      match url_host_str parsed with
      | None => Err (validation (field +:+ " must be an absolute URL"))
      | Some _ =>
          if existsb (λ scheme, String.eqb (url_scheme parsed) scheme) allowed_schemes
          then Ok parsed
          else Err (validation (field +:+ " scheme must be one of "
                                  +:+ String.concat ", " allowed_schemes))
      end
  end.

Definition validate_url (field value : string) (allowed_schemes : list string)
    : result ConfigError () :=
  match parse_url field value allowed_schemes with Ok _ => Ok tt | Err err => Err err end.

Definition validate_cidr_or_ip (field value : string) : result string () :=
  let value := trim value in
  let invalid := field +:+ " must be a valid CIDR or IP address" in
  if is_empty value then Err (field +:+ " must not be empty") else
  if contains_byte "/"%char value
  then match net_from_str value with Ok _ => Ok tt | Err _ => Err invalid end
  else match addr_from_str value with Ok _ => Ok tt | Err _ => Err invalid end.

Definition public_host (value : string) : result ConfigError string :=
  match parse_url "server.public_base_url" value ["http"; "https"] with
  | Err err => Err err
  | Ok parsed =>
      match url_host_without_ipv6_brackets parsed with
      | Some host => Ok host
      | None => Err (validation "server.public_base_url must include a host")
      end
  end.

(** * Defaults *)

Definition or_default (value other : string) : string := if is_empty value then other else value.
Definition or_seconds (value other : Z) : Z := if (value =? 0)%Z then other else value.

Definition provider_defaults (p : IdentityProviderConfig) : IdentityProviderConfig :=
  mkIdentityProviderConfig (ipc_provider_type p) (ipc_profile p) (ipc_display_name p)
    (ipc_issuer p) (ipc_client_id p) (ipc_client_secret_file p) (ipc_redirect_url p)
    (match ipc_scopes p with [] => ["openid"; "email"; "profile"] | scopes => scopes end)
    (ipc_pkce p)
    (mkSubjectConfig (or_default (sub_strategy (ipc_subject p)) "oidc_sub")
       (sub_required_tid (ipc_subject p)))
    (ipc_claims p)
    (mkTrustConfig (or_default (tru_email_binding (ipc_trust p)) "disabled")
       (tru_allowed_email_domains (ipc_trust p)) (tru_hosted_domain (ipc_trust p))
       (tru_personal_accounts (ipc_trust p))).

Definition apply_defaults (cfg : Config) : Config :=
  let server := cfg_server cfg in
  let jwt := cfg_jwt cfg in
  let lore := cfg_lore cfg in
  let security := cfg_security cfg in
  let idps := cfg_identity_providers cfg in
  let session_ttl := or_seconds (sec_session_ttl_seconds security) 3600 in
  mkConfig
    (mkServerConfig (or_default (sc_listen server) "127.0.0.1:8080")
       (or_default (sc_grpc_listen server) "127.0.0.1:8081") (sc_grpc_tls_cert_file server)
       (sc_grpc_tls_key_file server) (sc_public_base_url server))
    (mkIdentityProvidersConfig (ips_default idps) (provider_defaults <$> ips_providers idps))
    (or_default (cfg_authz_backend cfg) "rebac")
    (cfg_database_path cfg)
    (mkJwtConfig (jc_issuer jwt) (jc_audience jwt) (or_seconds (jc_ttl_seconds jwt) 3600)
       (jc_signing_key_dir jwt) (jc_active_kid jwt))
    (mkLoreConfig (lo_default_remote_url lore)
       (if is_empty (lo_auth_url lore) && negb (is_empty (sc_public_base_url server))
        then "ucs-auth://" +:+ strip_scheme (sc_public_base_url server) else lo_auth_url lore))
    (mkSecurityConfig (or_seconds (sec_device_code_ttl_seconds security) 600)
       (or_seconds (sec_device_poll_interval_seconds security) 3) session_ttl
       (or_seconds (sec_auth_session_ttl_seconds security) session_ttl)
       (sec_rebac_allowed_peer_cidrs security) (sec_admin_allowed_peer_cidrs security))
    (normalize_email <$> cfg_admin_emails cfg).

(** * Rules *)

Definition validate_tls (server : ServerConfig) : result ConfigError () :=
  match is_empty (sc_grpc_tls_cert_file server), is_empty (sc_grpc_tls_key_file server) with
  | true, false =>
      Err (validation "server.grpc_tls_cert_file is required when server.grpc_tls_key_file is set")
  | false, true =>
      Err (validation "server.grpc_tls_key_file is required when server.grpc_tls_cert_file is set")
  | _, _ => Ok tt
  end.

Definition validate_backend (backend : string) : result ConfigError () :=
  if String.eqb backend "rebac" then Ok tt
  else if String.eqb backend "sql"
  then Err (validation "authz.backend sql backend has been removed; remove authz.backend or set it to rebac")
  else Err (validation ("authz.backend " +:+ str_debug backend +:+ " must be rebac")).

(** The remote, when there is one, must name a host of the audience. *)
Definition validate_remote (jwt : JwtConfig) (remote_url : string) : result ConfigError () :=
  if is_empty remote_url then Ok tt else
  match parse_url "lore.default_remote_url" remote_url ["lore"] with
  | Err err => Err err
  | Ok remote =>
      match url_host_without_ipv6_brackets remote with
      | None => Err (validation "lore.default_remote_url must include a host")
      | Some host =>
          reject_if (negb (existsb (λ audience, eq_ignore_ascii_case audience host)
                             (jc_audience jwt)))
            ("jwt.audience must include lore.default_remote_url host " +:+ str_debug host)
      end
  end.

Definition validate_cidrs (field : string) (cidrs : list string) : result ConfigError () :=
  check_each (λ index cidr,
    match validate_cidr_or_ip field cidr with
    | Ok _ => Ok tt
    | Err err => Err (validation (field +:+ "[" +:+ show_int index +:+ "]: " +:+ err))
    end) 0 cidrs.

(** The loop over the administrators: [earlier] holds those before. *)
Fixpoint validate_admin_emails (index : Z) (earlier : gset string) (emails : list string)
    : result ConfigError () :=
  match emails with
  | [] => Ok tt
  | email :: emails =>
      let entry := "admin.admin_emails[" +:+ show_int index +:+ "]" in
      if is_empty (trim email) then Err (validation (entry +:+ " must not be empty")) else
      if negb (contains_byte "@"%char email) then Err (validation (entry +:+ " must contain @")) else
      if bool_decide (email ∈ earlier)
      then Err (validation (entry +:+ " duplicates an earlier admin email"))
      else validate_admin_emails (index + 1) ({[email]} ∪ earlier) emails
  end.

Definition validate_strategy (prefix : string) (subject : SubjectConfig) : result ConfigError () :=
  let strategy := sub_strategy subject in
  if String.eqb strategy "oidc_sub" then Ok tt
  else if String.eqb strategy "entra_oid_tid"
  then reject_if (is_empty (trim (sub_required_tid subject)))
         (prefix +:+ ".subject.required_tid is required for entra_oid_tid")
  else if String.eqb strategy "email" || String.eqb strategy "upn"
          || String.eqb strategy "preferred_username"
  then Err (validation (prefix +:+ ".subject.strategy " +:+ str_debug strategy
                          +:+ " is not a stable identity key"))
  else Err (validation (prefix +:+ ".subject.strategy " +:+ str_debug strategy +:+ " is unknown")).

(** [value] is one of the names that a field knows. *)
Definition validate_known (value field : string) (known : list string) : result ConfigError () :=
  reject_if (negb (existsb (String.eqb value) known)) (field +:+ " " +:+ str_debug value +:+ " is unknown").

Definition validate_redirect (id prefix redirect_url : string) : result ConfigError () :=
  match parse_url ("identity_providers.providers." +:+ id +:+ ".redirect_url") redirect_url
          ["http"; "https"] with
  | Err err => Err err
  | Ok redirect =>
      let expected_path := "/auth/" +:+ id +:+ "/callback" in
      reject_if (negb (String.eqb (url_path redirect) expected_path))
        (prefix +:+ ".redirect_url path must be " +:+ str_debug expected_path)
  end.

Definition validate_identity_provider (id : string) (provider : IdentityProviderConfig)
    : result ConfigError () :=
  let prefix := "identity_providers.providers[" +:+ str_debug id +:+ "]" in
  let personal_accounts := trim (tru_personal_accounts (ipc_trust provider)) in
  first_error
    [ reject_if (negb (provider_id_ok id)) (prefix +:+ " has an unsafe provider id");
      reject_if (is_empty (ipc_provider_type provider)) (prefix +:+ ".type is required");
      reject_if (negb (String.eqb (ipc_provider_type provider) "oidc"))
        (prefix +:+ ".type " +:+ str_debug (ipc_provider_type provider) +:+ " is unknown");
      validate_known (ipc_profile provider) (prefix +:+ ".profile")
        [""; "google"; "keycloak"; "entra"];
      reject_if (is_empty (ipc_issuer provider)) (prefix +:+ ".issuer is required");
      validate_url ("identity_providers.providers." +:+ id +:+ ".issuer") (ipc_issuer provider)
        ["http"; "https"];
      reject_if (is_empty (ipc_client_id provider)) (prefix +:+ ".client_id is required");
      reject_if (is_empty (ipc_client_secret_file provider))
        (prefix +:+ ".client_secret_file is required");
      reject_if (is_empty (ipc_redirect_url provider)) (prefix +:+ ".redirect_url is required");
      validate_redirect id prefix (ipc_redirect_url provider);
      reject_if (negb (existsb (λ scope, String.eqb scope "openid") (ipc_scopes provider)))
        (prefix +:+ ".scopes must include openid");
      validate_strategy prefix (ipc_subject provider);
      validate_known (tru_email_binding (ipc_trust provider)) (prefix +:+ ".trust.email_binding")
        ["disabled"; "verified_email_invitation"];
      validate_known personal_accounts (prefix +:+ ".trust.personal_accounts")
        [""; "allow"; "deny"];
      reject_if (negb (is_empty personal_accounts)
                 && negb (String.eqb (ipc_profile provider) "google"))
        (prefix +:+ ".trust.personal_accounts is only valid for google profile");
      validate_known (ipc_pkce provider) (prefix +:+ ".pkce") [""; "required"] ].

Definition validate_identity_providers (idps : IdentityProvidersConfig) : result ConfigError () :=
  let named := keep_if (λ default, negb (is_empty (trim default))) (ips_default idps) in
  if bool_decide (ips_providers idps = ∅)
  then match named with
       | Some _ =>
           Err (validation "identity_providers.default must reference a configured provider")
       | None => Ok tt
       end
  else
    match named with
    | None =>
        Err (validation "identity_providers.default is required when identity providers are configured")
    | Some default =>
        if bool_decide (is_Some (ips_providers idps !! default))
        then first_error ((λ entry, validate_identity_provider entry.1 entry.2)
                            <$> btree_iter (ips_providers idps))
        else Err (validation ("identity_providers.default " +:+ str_debug default
                                +:+ " is not configured"))
    end.

Definition validate (cfg : Config) : result ConfigError () :=
  let server := cfg_server cfg in
  let jwt := cfg_jwt cfg in
  let security := cfg_security cfg in
  first_error
    [ reject_if (is_empty (cfg_database_path cfg)) "database.path is required";
      validate_backend (cfg_authz_backend cfg);
      reject_if (is_empty (sc_public_base_url server)) "server.public_base_url is required";
      validate_url "server.public_base_url" (sc_public_base_url server) ["http"; "https"];
      validate_tls server;
      reject_if (is_empty (jc_issuer jwt)) "jwt.issuer is required";
      validate_url "jwt.issuer" (jc_issuer jwt) ["http"; "https"];
      reject_if (bool_decide (jc_audience jwt = [])) "jwt.audience must not be empty";
      check_each (λ index audience,
        reject_if (is_empty (trim audience))
          ("jwt.audience[" +:+ show_int index +:+ "] must not be empty")) 0 (jc_audience jwt);
      reject_if (jc_ttl_seconds jwt <=? 0)%Z "jwt.ttl_seconds must be positive";
      reject_if (is_empty (jc_signing_key_dir jwt)) "jwt.signing_key_dir is required";
      validate_remote jwt (lo_default_remote_url (cfg_lore cfg));
      (if is_empty (lo_auth_url (cfg_lore cfg)) then Ok tt
       else validate_url "lore.auth_url" (lo_auth_url (cfg_lore cfg)) ["https"; "ucs-auth"]);
      reject_if (sec_device_code_ttl_seconds security <=? 0)%Z
        "security.device_code_ttl_seconds must be positive";
      reject_if (sec_device_poll_interval_seconds security <=? 0)%Z
        "security.device_poll_interval_seconds must be positive";
      reject_if (sec_session_ttl_seconds security <=? 0)%Z
        "security.session_ttl_seconds must be positive";
      reject_if (sec_auth_session_ttl_seconds security <=? 0)%Z
        "security.auth_session_ttl_seconds must be positive";
      validate_cidrs "security.rebac_allowed_peer_cidrs" (sec_rebac_allowed_peer_cidrs security);
      validate_cidrs "security.admin_allowed_peer_cidrs" (sec_admin_allowed_peer_cidrs security);
      validate_admin_emails 0 ∅ (cfg_admin_emails cfg);
      validate_identity_providers (cfg_identity_providers cfg) ].

Context `{ConfigLib}.

Definition load (path : string) : result ConfigError Config :=
  match read_to_string path with
  | None => Err (Read path)
  | Some raw =>
      match yaml_from_str raw with
      | None => Err (Parse path)
      | Some cfg =>
          let cfg := apply_defaults cfg in
          match validate cfg with Ok _ => Ok cfg | Err err => Err err end
      end
  end.

Definition read_secret_file (path : string) : result ConfigError string :=
  if is_empty path then Ok "" else
  match read_to_string path with
  | None => Err (Read path)
  | Some raw => Ok (trim raw)
  end.
End Config.
