(* ===== verification/IdpRegistry.v ===== *)
(** The registry of identity providers ([lore-auth-adapters/src/idpregistry.rs]) and the static
    provider ([staticidp.rs]). *)

From Stdlib Require Import ZArith Lia Ascii.
From stdpp Require Import base gmap strings list.
From S2P Require Import Prelude Model Ports HttpBase Config.

Module Registry.
Section Ops.
Context `{Env} {S : Type}.

Record t := mkRegistry {
  default_id : string;
  by_id : gmap string (IdentityProvider S)
}.

Definition new (default_id : string) : t := mkRegistry default_id ∅.

(** The registry after [register], when it answers [Ok]. *)
Definition register (self : t) (provider : IdentityProvider S) : result CoreError t :=
  let id := ipd_id (descriptor provider) in
  if is_empty id then Err (InvalidArgument "idp registry: provider id is required") else
  match by_id self !! id with
  | Some _ => Err (InvalidArgument ("idp registry: duplicate provider id " +:+ str_debug id))
  | None => Ok (mkRegistry (default_id self) (<[id := provider]> (by_id self)))
  end.

(** [impl IdentityProviderRegistry for Registry] *)
Definition registry (self : t) : IdentityProviderRegistry S := {|
  idp_get id := by_id self !! id;
  idp_default_id := default_id self;
  idp_list := (λ entry, descriptor entry.2) <$> btree_iter (by_id self)
|}.
End Ops.
Arguments t S : clear implicits.
End Registry.

Module StaticIdp.
Definition CALLBACK_CODE : string := "static".

Record Config := mkConfig {
  c_provider_id : string;
  c_display_name : string;
  c_issuer : string;
  c_subject : string;
  c_email : string;
  c_email_verified : bool;
  c_name : string;
  c_picture_url : string;
  c_hosted_domain : string
}.

Record Provider := mkProvider {
  p_id : string;
  p_display_name : string;
  p_identity : ExternalIdentity
}.

Definition new (config : Config) : result CoreError Provider :=
  let id := trim (c_provider_id config) in
  if is_empty id then Err (InvalidArgument "staticidp: provider id is required") else
  if is_empty (trim (c_issuer config))
  then Err (InvalidArgument "staticidp: issuer is required") else
  if is_empty (trim (c_subject config))
  then Err (InvalidArgument "staticidp: subject is required") else
  let display_name := if is_empty (trim (c_display_name config)) then id
                      else trim (c_display_name config) in
  Ok (mkProvider id display_name
        (mkExternalIdentity "" "" id (c_issuer config) (c_subject config) "oidc_sub"
           (c_email config) (c_email_verified config) (c_name config) (c_picture_url config)
           (c_hosted_domain config) "")).

Section Ops.
(** A URL with pairs appended to its query, or the parser's error. *)
Context (append_pairs : string → list (string * string) → result string string) {S : Type}.

Definition begin_auth (req : BeginAuthRequest) : H S BeginAuthResult :=
  match append_pairs (bar_redirect_url req)
          [("state", bar_state req); ("code", CALLBACK_CODE)] with
  | Ok callback => ret (mkBeginAuthResult callback [])
  | Err err => throw (InvalidArgument ("staticidp: parse callback url: " +:+ err))
  end.

Definition complete_auth (self : Provider) (req : CompleteAuthRequest) : H S ExternalIdentity :=
  if negb (String.eqb (car_code req) CALLBACK_CODE)
  then throw (InvalidArgument "staticidp: invalid callback code")
  else ret (p_identity self).

(** [impl IdentityProvider for Provider] *)
Definition provider (self : Provider) : IdentityProvider S := {|
  descriptor := mkIdentityProviderDescriptor (p_id self) "static" (p_display_name self)
    (ei_issuer (p_identity self)) (mkLoginTrustPolicy "" []);
  Ports.begin_auth := begin_auth;
  Ports.complete_auth := complete_auth self
|}.
End Ops.
End StaticIdp.
