(* ===== verification/Oidc.v ===== *)
(** The OIDC identity provider ([lore-auth-adapters/src/oidc.rs]): its configuration, the
    authorization request, and the claims and policies of a completed sign-in.  HTTP, discovery,
    the exchange of the code and the verification of ID tokens are parameters. *)

From Stdlib Require Import ZArith Lia Ascii.
From stdpp Require Import base gmap strings list.
From S2P Require Import Prelude Model Ports Files SqlRows SqlBase SqlTokens Rs256 HttpBase Config.

Definition DEFAULT_SCOPES : list string := ["openid"; "email"; "profile"].

(** [Config] of the source. *)
Record OidcConfig := mkOidcConfig {
  oc_provider_id : string;
  oc_profile : string;
  oc_display_name : string;
  oc_issuer : string;
  oc_client_id : string;
  oc_client_secret : string;
  oc_redirect_url : string;
  oc_scopes : list string;
  oc_claim_mapping : gmap string string;
  oc_subject_strategy : string;
  oc_required_tenant_id : string;
  oc_email_binding : string;
  oc_pkce : string;
  oc_allowed_email_domains : list string;
  oc_allowed_hosted_domains : list string;
  oc_personal_accounts : string
}.

Definition from_provider_config (provider_id : string) (provider : IdentityProviderConfig)
    (client_secret : string) : OidcConfig :=
  mkOidcConfig provider_id (ipc_profile provider) (ipc_display_name provider) (ipc_issuer provider)
    (ipc_client_id provider) client_secret (ipc_redirect_url provider) (ipc_scopes provider)
    (ipc_claims provider) (sub_strategy (ipc_subject provider))
    (sub_required_tid (ipc_subject provider)) (tru_email_binding (ipc_trust provider))
    (ipc_pkce provider) (tru_allowed_email_domains (ipc_trust provider))
    (tru_hosted_domain (ipc_trust provider)) (tru_personal_accounts (ipc_trust provider)).

(** * Libraries *)

(** The client of a request: [CoreClient::from_provider_metadata(..).set_redirect_uri(..)]. *)
Record Client (Metadata : Type) := mkClient {
  cl_metadata : Metadata;
  cl_client_id : string;
  cl_client_secret : string;
  cl_redirect_uri : string
}.
Arguments mkClient {Metadata}.
Arguments cl_metadata {Metadata} _.
Arguments cl_client_id {Metadata} _.

(** The request that the methods of [AuthorizationRequest] build. *)
Record AuthorizationRequest (Metadata : Type) := mkAuthorizationRequest {
  ar_client : Client Metadata;
  ar_state : string;
  ar_nonce : string;
  ar_scopes : list string;
  ar_extra_params : list (string * string);
  ar_pkce_challenge : option string
}.
Arguments mkAuthorizationRequest {Metadata}.

(** What the library gives of a verified ID token. *)
Record IdTokenClaims := mkIdTokenClaims {
  idc_issuer : string;
  idc_subject : string;
  idc_nonce : option string
}.

Class OidcLib := {
  (** [str::to_lowercase] *)
  unicode_lowercase : string → string;
  (** why [serde_json] refuses these bytes as a [PrivateState] *)
  serde_error : string → string;
  (** [IssuerUrl::new], [RedirectUrl::new] *)
  issuer_url_error : string → option string;
  redirect_url_error : string → option string;
  (** the [reqwest] client, and [CoreProviderMetadata::discover_async] *)
  http_client_error : option string;
  ProviderMetadata : Type;
  discover_async : string → result string ProviderMetadata;
  metadata_issuer : ProviderMetadata → string;
  (** [AuthorizationRequest::url]: where to, and the pairs of the query *)
  AuthUrl : Type;
  request_url : AuthorizationRequest ProviderMetadata → AuthUrl;
  query_pairs : AuthUrl → list (string * string);
  set_query_pairs : AuthUrl → list (string * string) → AuthUrl;
  url_to_string : AuthUrl → string;
  (** [PkceCodeChallenge::new_random_sha256]: a challenge and its verifier *)
  pkce_challenge : nat → string * string;
  (** [exchange_code], with the error of a provider without a token endpoint, and its request: the
      ID token in the answer, if there is one *)
  exchange_code_error : ProviderMetadata → option string;
  request_async : Client ProviderMetadata → string → option string → result string (option string);
  (** [id_token.claims] of [id_token_verifier], before the nonce is looked at *)
  id_token_claims : Client ProviderMetadata → string → result string IdTokenClaims
}.

(** * Pure rules *)

Definition display_name_or_default (display_name provider_id : string) : string :=
  let display_name := trim display_name in
  if is_empty display_name then provider_id else display_name.

Definition default_string (value fallback : string) : string :=
  let value := trim value in if is_empty value then fallback else value.

Definition copy_claim_mapping (mapping : gmap string string) : gmap string string :=
  foldl (λ acc entry, <[trim entry.1 := trim entry.2]> acc) ∅ (btree_iter mapping).

Section Rules.
Context `{OidcLib}.

Fixpoint normalize_domains (values : list string) (seen : gset string) : list string :=
  match values with
  | [] => []
  | value :: values =>
      let value := unicode_lowercase (trim value) in
      if is_empty value || bool_decide (value ∈ seen) then normalize_domains values seen
      else value :: normalize_domains values ({[ value ]} ∪ seen)
  end.
Definition normalize_domain_list (values : list string) : list string := normalize_domains values ∅.

Definition set_normal (provider_id issuer client_id profile personal_accounts : string) (c : OidcConfig)
    : OidcConfig :=
  mkOidcConfig provider_id profile (oc_display_name c) issuer client_id (oc_client_secret c)
    (oc_redirect_url c) (oc_scopes c) (oc_claim_mapping c) (oc_subject_strategy c)
    (oc_required_tenant_id c) (oc_email_binding c) (oc_pkce c) (oc_allowed_email_domains c)
    (oc_allowed_hosted_domains c) personal_accounts.

Definition normalized_config `{Env} (config : OidcConfig) : result CoreError OidcConfig :=
  let provider_id := trim (oc_provider_id config) in
  if is_empty provider_id then Err (InvalidArgument "oidc: provider id is required") else
  let issuer := trim (oc_issuer config) in
  if is_empty issuer then Err (InvalidArgument "oidc: issuer is required") else
  let client_id := trim (oc_client_id config) in
  if is_empty client_id then Err (InvalidArgument "oidc: client id is required") else
  let profile := trim (oc_profile config) in
  let personal_accounts := trim (oc_personal_accounts config) in
  if negb (is_empty personal_accounts || String.eqb personal_accounts "allow"
           || String.eqb personal_accounts "deny")
  then Err (InvalidArgument ("oidc: personal_accounts " +:+ str_debug personal_accounts +:+ " is unknown"))
  else if negb (is_empty personal_accounts) && negb (String.eqb profile "google")
  then Err (InvalidArgument "oidc: personal_accounts is only valid for google profile")
  else Ok (set_normal provider_id issuer client_id profile personal_accounts config).

(** [claims.get(name)]; the names of a JSON object are distinct. *)
Definition get_claim (claims : list (string * Json)) (name : string) : option Json :=
  snd <$> List.find (λ m, String.eqb m.1 name) claims.

Definition string_claim (claims : list (string * Json)) (name : string) : string :=
  default "" (get_claim claims name ≫= as_str).

Definition bool_claim (claims : list (string * Json)) (name : string) : bool :=
  match get_claim claims name with
  | Some (JBool value) => value
  | Some (JString value) => eq_ignore_ascii_case (trim value) "true"
  | _ => false
  end.

Definition jwt_claims `{JwtLib} (raw_id_token : string) : result CoreError (list (string * Json)) :=
  match nth_error (split "." raw_id_token) 1 with
  | None => Err (InvalidArgument "oidc: malformed id token")
  | Some payload =>
      match b64_decode payload with
      | Err err => Err (InvalidArgument ("oidc: decode id token: " +:+ err))
      | Ok raw =>
          match value_from_slice raw with
          | Err err => Err (InvalidArgument ("oidc: decode id token claims: " +:+ err))
          | Ok (JObject members) => Ok members
          | Ok _ => Err (InvalidArgument "oidc: id token claims must be object")
          end
      end
  end.

Definition remove_query_param (url : AuthUrl) (key : string) : AuthUrl :=
  set_query_pairs url (List.filter (λ pair, negb (String.eqb pair.1 key)) (query_pairs url)).
End Rules.

(** [PrivateState] with its derived [Serialize] and [Deserialize]. *)
Record PrivateState := mkPrivateState { ps_code_verifier : option string }.

Definition private_state_to_json (s : PrivateState) : Json :=
  JObject (match ps_code_verifier s with Some v => [("code_verifier", JString v)] | None => [] end).

Definition as_option_str (value : Json) : option (option string) :=
  match value with JString s => Some (Some s) | JNull => Some None | _ => None end.

Definition private_state_from_json (value : Json) : option PrivateState :=
  match value with
  | JObject members => mkPrivateState <$> defaulted as_option_str None members "code_verifier"
  | _ => None
  end.

(** * The provider *)

Module Provider.
Section Ops.
Context `{Env} `{JwtLib} `{OidcLib}.

Record t := mk {
  id : string;
  profile : string;
  display_name : string;
  issuer : string;
  client_id : string;
  client_secret : string;
  redirect_url : string;
  scopes : list string;
  provider_metadata : ProviderMetadata;
  claim_mapping : gmap string string;
  subject_strategy : string;
  required_tenant_id : string;
  email_binding : string;
  pkce : string;
  allowed_email_domains : list string;
  allowed_hosted_domains : gset string;
  personal_accounts : string
}.

Definition from_metadata (config : OidcConfig) (metadata : ProviderMetadata) : result CoreError t :=
  match normalized_config config with
  | Err err => Err err
  | Ok config =>
      Ok (mk (oc_provider_id config) (oc_profile config)
            (display_name_or_default (oc_display_name config) (oc_provider_id config))
            (metadata_issuer metadata) (oc_client_id config) (oc_client_secret config)
            (oc_redirect_url config) (if is_nil (oc_scopes config) then DEFAULT_SCOPES else oc_scopes config)
            metadata (copy_claim_mapping (oc_claim_mapping config))
            (default_string (oc_subject_strategy config) "oidc_sub")
            (trim (oc_required_tenant_id config)) (default_string (oc_email_binding config) "disabled")
            (trim (oc_pkce config)) (normalize_domain_list (oc_allowed_email_domains config))
            (list_to_set (normalize_domain_list (oc_allowed_hosted_domains config)))
            (trim (oc_personal_accounts config)))
  end.

Definition discover (config : OidcConfig) : result CoreError t :=
  match normalized_config config with
  | Err err => Err err
  | Ok config =>
      match http_client_error with
      | Some err => Err (InvalidArgument ("oidc: build http client: " +:+ err))
      | None =>
          match issuer_url_error (oc_issuer config) with
          | Some err => Err (InvalidArgument ("oidc: issuer is not a valid URL: " +:+ err))
          | None =>
              match discover_async (oc_issuer config) with
              | Err err => Err (InvalidArgument ("oidc: discover provider " +:+ str_debug (oc_issuer config)
                                                  +:+ ": " +:+ err))
              | Ok metadata => from_metadata config metadata
              end
          end
      end
  end.

Context {S : Type} (self : t).

(** [self.redirect_url()] *)
Definition checked_redirect_url : H S string :=
  match redirect_url_error (redirect_url self) with
  | Some err => throw (InvalidArgument ("oidc: redirect URL is invalid: " +:+ err))
  | None => ret (redirect_url self)
  end.

Definition client : H S (Client ProviderMetadata) :=
  redirect <- checked_redirect_url ;;
  ret (mkClient (provider_metadata self) (client_id self) (client_secret self) redirect).

Definition claim (canonical fallback : string) : string :=
  match claim_mapping self !! canonical with
  | Some name => if negb (is_empty (trim name)) then name else fallback
  | None => fallback
  end.

Definition subject (claims : list (string * Json)) (oidc_subject : string) : result CoreError string :=
  if is_empty (subject_strategy self) || String.eqb (subject_strategy self) "oidc_sub" then Ok oidc_subject
  else if String.eqb (subject_strategy self) "entra_oid_tid" then
    let tid := string_claim claims "tid" in
    if negb (is_empty (required_tenant_id self)) && negb (String.eqb tid (required_tenant_id self))
    then Err PermissionDenied else
    let oid := string_claim claims "oid" in
    if is_empty tid || is_empty oid
    then Err (InvalidArgument "oidc: entra_oid_tid requires tid and oid claims")
    else Ok (tid +:+ ":" +:+ oid)
  else Err (InvalidArgument ("oidc: unsupported subject strategy " +:+ str_debug (subject_strategy self))).

Definition validate_hosted_domain (identity : ExternalIdentity) : result CoreError () :=
  let hosted_domain := unicode_lowercase (trim (ei_hosted_domain identity)) in
  if bool_decide (allowed_hosted_domains self ≠ ∅) then
    if negb (bool_decide (hosted_domain ∈ allowed_hosted_domains self)) then Err PermissionDenied else Ok tt
  else if is_empty hosted_domain && String.eqb (personal_accounts self) "deny" then Err PermissionDenied
  else Ok tt.

Definition validate_trust (identity : ExternalIdentity) : result CoreError () :=
  if String.eqb (profile self) "google" then validate_hosted_domain identity else Ok tt.

Definition token_exchange_verifier (raw_private_state : list Byte.byte)
    : result CoreError (option string) :=
  let missing := if String.eqb (pkce self) "required"
                 then Err (InvalidArgument "oidc: pkce code_verifier missing") else Ok None in
  match raw_private_state with
  | [] => missing
  | _ =>
      match value_from_slice (String.string_of_list_byte raw_private_state) with
      | Err err => Err (InvalidArgument ("oidc: decode private state: " +:+ err))
      | Ok value =>
          match private_state_from_json value with
          | None => Err (InvalidArgument ("oidc: decode private state: "
                              +:+ serde_error (String.string_of_list_byte raw_private_state)))
          | Some private_state =>
              let verifier := default "" (ps_code_verifier private_state) in
              if is_empty verifier then missing else Ok (Some verifier)
          end
      end
  end.

Definition descriptor : IdentityProviderDescriptor :=
  mkIdentityProviderDescriptor (id self) "oidc" (display_name self) (issuer self)
    (mkLoginTrustPolicy (email_binding self) (allowed_email_domains self)).

(** The library's source of randomness. *)
Definition new_random_sha256 : H S (string * string) := λ w,
  (Ok (pkce_challenge (draws w)), mkWorld (st w) (ticks w) (Datatypes.S (draws w))).

Definition begin_auth (req : BeginAuthRequest) : H S BeginAuthResult :=
  client <- client ;;
  let scopes := List.filter (λ scope, negb (String.eqb scope "openid")) (scopes self) in
  let extra := if negb (is_empty (bar_login_hint req)) then [("login_hint", bar_login_hint req)] else [] in
  let request := mkAuthorizationRequest client (bar_state req) (bar_nonce req) scopes extra in
  pkce <- (if String.eqb (pkce self) "required" then map_ok Some new_random_sha256 else ret None) ;;
  let private_state := mkPrivateState (snd <$> pkce) in
  let redirect_url := request_url (request (fst <$> pkce)) in
  let redirect_url := if is_empty (bar_nonce req) then remove_query_param redirect_url "nonce"
                      else redirect_url in
  raw_private_state <-
    (match ps_code_verifier private_state with
     | Some _ =>
         map_err (λ err, InvalidArgument ("oidc: encode private state: " +:+ err))
           (lift (value_to_vec (private_state_to_json private_state)))
     | None => ret ""
     end) ;;
  ret (mkBeginAuthResult (url_to_string redirect_url) (String.list_byte_of_string raw_private_state)).

(** The closure that checks the nonce. *)
Definition nonce_ok (expected : string) (actual : option string) : bool :=
  is_empty expected || bool_decide (actual = Some expected).

Definition complete_auth (req : CompleteAuthRequest) : H S ExternalIdentity :=
  client <- client ;;
  match exchange_code_error (provider_metadata self) with
  | Some err => throw (InvalidArgument ("oidc: exchange code: " +:+ err))
  | None =>
      verifier <- lift (token_exchange_verifier (car_private_state req)) ;;
      token_response <- map_err (λ _, Unauthenticated) (lift (request_async client (car_code req) verifier)) ;;
      raw_id_token <- ok_or token_response Unauthenticated ;;
      verified_claims <- map_err (λ _, Unauthenticated) (lift (id_token_claims client raw_id_token)) ;;
      if negb (nonce_ok (car_nonce req) (idc_nonce verified_claims)) then throw Unauthenticated else
      raw_claims <- lift (jwt_claims raw_id_token) ;;
      subject <- lift (subject raw_claims (idc_subject verified_claims)) ;;
      let identity := mkExternalIdentity "" "" (id self) (idc_issuer verified_claims) subject
        (subject_strategy self) (string_claim raw_claims (claim "email" "email"))
        (bool_claim raw_claims (claim "email_verified" "email_verified"))
        (string_claim raw_claims (claim "name" "name"))
        (string_claim raw_claims (claim "picture" "picture"))
        (string_claim raw_claims (claim "hosted_domain" "hd")) "" in
      lift (validate_trust identity) ;;;
      ret identity
  end.

(** [impl IdentityProvider for Provider] *)
Definition identity_provider : IdentityProvider S := {|
  Ports.descriptor := descriptor;
  Ports.begin_auth := begin_auth;
  Ports.complete_auth := complete_auth
|}.
End Ops.
End Provider.
