(* ===== verification/ServiceGraph.v ===== *)
(** The server of production ([lore-auth-server/src/main.rs]): from a loaded configuration to
    the services on one SQLite store, and the loading of the signing key with its check at
    startup.  Opening the store is given; the discovery of a provider is an argument of
    [build_graph], which production gives as [oidc_discover]; a failure to build the services is
    [None]. *)

From Stdlib Require Import ZArith Lia Ascii.
From stdpp Require Import base gmap strings list.
From S2P Require Import Prelude Model Ports TokenSvc PermissionSvc DeviceSvc LoginSvc.
From S2P Require Import GrpcRebac SqlRows SqlBase SqlAuthz SqlAccounts SqlGroups SqlGrants.
From S2P Require Import SqlTokens SqlSessions SqlAudited Files Rs256.
From S2P Require Import HttpBase Config IdpRegistry Oidc.

(** [u64::try_from(value)] *)
Definition duration_secs (value : Z) : option Duration :=
  if (value <? 0)%Z then None else Some (from_secs value).

Definition ok {E A} (r : result E A) : option A :=
  match r with Ok a => Some a | Err _ => None end.

(** [anyhow::Error]: a message or an error of the configuration, in its contexts. *)
Inductive Anyhow :=
  | Message (message : string)
  | OfConfig (err : ConfigError)
  | Context (text : string) (err : Anyhow).

Definition context {S A} (text : string) (m : M Anyhow S A) : M Anyhow S A := map_err (Context text) m.

(** * The signing key *)

Section SigningKey.
Context `{Env} `{JwtLib} `{FileSystem}.

Definition signing_key_error (_err : CoreError) : Anyhow := Message "signing key unavailable".

(** [parsed.get("keys").and_then(Value::as_array).and_then(|keys| keys.first())] *)
Definition first_key (parsed : Json) : option Json :=
  match parsed with
  | JObject members =>
      match List.find (λ m, String.eqb m.1 "keys") members with
      | Some (_, JArray keys) => head keys
      | _ => None
      end
  | _ => None
  end.

Definition preflight_signer {S} (signer : Signer.t) (meta : SigningKeyMeta) : M Anyhow S () :=
  jwks <- context "startup: signing key preflight jwks" (map_err signing_key_error (Signer.jwks signer)) ;;
  parsed <- context "startup: signing key preflight parse jwks"
    (map_err Message (lift (value_from_slice (String.string_of_list_byte jwks)))) ;;
  actual <- ok_or (first_key parsed) (Message "startup: signing key preflight produced empty jwks") ;;
  if is_empty (trim (sk_public_jwk_json meta)) then ret tt else
  expected <- context "startup: signing key preflight parse stored public jwk"
    (map_err Message (lift (value_from_slice (sk_public_jwk_json meta)))) ;;
  if negb (json_eqb actual expected)
  then throw (Message ("startup: active kid " +:+ str_debug (sk_kid meta)
                +:+ " public jwk does not match private key"))
  else ret tt.

Definition load_signer `{Sqlite} `{SerdeJson} (cfg : Config) : M Anyhow (Disk * Db) Signer.t :=
  meta <- context "startup: load active signing key metadata"
    (map_err signing_key_error
       (in_store (SqlTokens.active_signing_key (jc_active_kid (cfg_jwt cfg))))) ;;
  signer <- context ("startup: load active signing key " +:+ str_debug (sk_kid meta) +:+ " material "
                       +:+ str_debug (sk_private_key_path meta))
    (map_err (λ _, Message (core_error_to_string SigningKeyUnavailable))
       (Signer.from_pem_file (sk_kid meta) (sk_private_key_path meta))) ;;
  preflight_signer signer meta ;;;
  ret signer.
End SigningKey.

(** How a configured provider is discovered in production. *)
Definition oidc_discover `{Env} `{JwtLib} `{OidcLib} {S} (id : string)
    (provider_cfg : IdentityProviderConfig) (secret : string) : option (IdentityProvider S) :=
  provider ← ok (Provider.discover (from_provider_config id provider_cfg secret));
  Some (Provider.identity_provider provider).

Section Graph.
Context `{Env} `{Sqlite} `{SerdeJson} `{AuthzCore} `{HttpLib}.

Record ServiceGraph := mkServiceGraph {
  sg_login : LoginService Db;
  sg_tokens : TokenService Db;
  sg_resources : ResourceService Db;
  sg_permissions : PermissionService Db;
  sg_http_config : HttpConfig;
  sg_http_services : Services Db
}.

Definition admin_config (cfg : Config) : option AdminConfig :=
  nets ← ok (parse_allowed_peer_cidrs (sec_admin_allowed_peer_cidrs (cfg_security cfg)));
  Some (mkAdminConfig (cfg_admin_emails cfg) nets).

Definition rebac_allowed_peer_cidrs (cfg : Config) : option (list IpNet) :=
  match sec_rebac_allowed_peer_cidrs (cfg_security cfg) with
  | [] => default_allowed_peer_cidrs
  | cidrs => ok (parse_allowed_peer_cidrs cidrs)
  end.

(** [oidc::Provider::discover] for one configured provider, with its secret. *)
Context (discover : string → IdentityProviderConfig → string → option (IdentityProvider Db)).

Definition register_provider `{ConfigLib} (registry : option (Registry.t Db))
    (entry : string * IdentityProviderConfig) : option (Registry.t Db) :=
  registry ← registry;
  if negb (String.eqb (ipc_provider_type entry.2) "oidc") then None else
  secret ← ok (read_secret_file (ipc_client_secret_file entry.2));
  if is_empty secret then None else
  provider ← discover entry.1 entry.2 secret;
  ok (Registry.register registry provider).

Definition build_identity_providers `{ConfigLib} (cfg : Config) : option (Registry.t Db) :=
  let idps := cfg_identity_providers cfg in
  foldl register_provider (Some (Registry.new (default "" (ips_default idps))))
    (btree_iter (ips_providers idps)).

Context (signer : TokenSigner Db).

Definition device_codes : DeviceCodeGenerator Db := uuid_device_codes.

Definition build_graph `{ConfigLib} (cfg : Config) : option ServiceGraph :=
  let server := cfg_server cfg in
  let security := cfg_security cfg in
  idps ← build_identity_providers cfg;
  policy ← ok Rebac.new;
  let authz := Rebac.rebac_authz policy in
  auth_service_audience ← ok (public_host (sc_public_base_url server));
  authn_ttl ← duration_secs (jc_ttl_seconds (cfg_jwt cfg));
  let tokens := mkTokenService
    (mkTokenConfig (jc_issuer (cfg_jwt cfg)) (jc_audience (cfg_jwt cfg)) auth_service_audience
       authn_ttl (from_secs (15 * 60)))
    SqlAccounts.sqlite_accounts SqlResources.sqlite_resources authz signer
    (Some SqlTokens.sqlite_issued_log) in
  session_ttl ← duration_secs (sec_session_ttl_seconds security);
  auth_session_ttl ← duration_secs (sec_auth_session_ttl_seconds security);
  let login := mkLoginService
    (mkLoginConfig (sc_public_base_url server) session_ttl auth_session_ttl)
    (Registry.registry idps) SqlAccounts.sqlite_accounts SqlState.sqlite_state tokens in
  let resources := mkResourceService SqlResources.sqlite_resources in
  let permissions := mkPermissionService SqlResources.sqlite_resources authz in
  device_code_ttl ← duration_secs (sec_device_code_ttl_seconds security);
  poll_interval ← duration_secs (sec_device_poll_interval_seconds security);
  let device := mkDeviceService
    (mkDeviceConfig (sc_public_base_url server) (lo_auth_url (cfg_lore cfg)) device_code_ttl
       poll_interval)
    SqlDevices.sqlite_devices SqlResources.sqlite_resources authz SqlAccounts.sqlite_accounts
    tokens device_codes in
  admin ← admin_config cfg;
  let http_config := mkHttpConfig (sc_public_base_url server) (lo_auth_url (cfg_lore cfg))
    (lo_default_remote_url (cfg_lore cfg)) session_ttl admin in
  let http_services := mkServices (Some login) tokens SqlResources.sqlite_resource_query
    permissions SqlAccounts.sqlite_account_query SqlAudited.audited_store_factory
    SqlGroups.sqlite_group_query SqlGrants.sqlite_grant_query SqlState.sqlite_state signer
    (Some device) in
  Some (mkServiceGraph login tokens resources permissions http_config http_services).

(** The state that [build_router] is given. *)
Definition http_state (graph : ServiceGraph) : AppState Db :=
  mkAppState (sg_http_config graph) (sg_http_services graph).
End Graph.
