(* ===== verification/AuthCtl.v ===== *)
(** The control tool ([lore-authctl]): its commands over the SQLite store, the files of keys and
    tokens, and what it prints.  The parsing of the command line is left out: a command is a value
    of the types that it fills.  A command prints only once nothing can fail any more, so its
    output is its result. *)

From Stdlib Require Import ZArith Lia Ascii.
From stdpp Require Import base gmap strings list.
From S2P Require Import Prelude Model Ports TokenSvc Files SqlRows SqlBase SqlAuthz SqlAccounts.
From S2P Require Import SqlGroups SqlGrants SqlTokens SqlAudited Rs256 HttpBase Config ServiceGraph.

(** * The command line *)

Record SigningKeyGenerate := mkSigningKeyGenerate { skg_kid : string; skg_alg : string; skg_bits : N }.

Inductive SigningKeyCommand :=
  | KeyGenerate (args : SigningKeyGenerate)
  | KeyList.

Record UserAdd := mkUserAdd { ua_email : string; ua_name : string }.

Record UserInvite := mkUserInvite {
  ui_idp : option string;
  ui_provider : string;
  ui_issuer : string;
  ui_email : string;
  ui_name : string
}.

(** [UserDisable] and [UserEnable] hold the user. *)
Inductive UserCommand :=
  | UserInviteCmd (args : UserInvite)
  | UserAddCmd (args : UserAdd)
  | UserListCmd
  | UserDisableCmd (user : string)
  | UserEnableCmd (user : string).

Record GroupAdd := mkGroupAdd { ga_name : string; ga_description : string }.

Record GroupMember := mkGroupMember { gmb_group : string; gmb_user : string }.

Inductive GroupMemberCommand :=
  | MemberAdd (args : GroupMember)
  | MemberRemove (args : GroupMember).

Record GroupNest := mkGroupNest { gn_parent_group : string; gn_member_group : string }.

Inductive GroupNestCommand :=
  | NestAdd (args : GroupNest)
  | NestRemove (args : GroupNest).

Inductive GroupCommand :=
  | GroupAddCmd (args : GroupAdd)
  | GroupListCmd
  | GroupMemberCmd (command : GroupMemberCommand)
  | GroupNestCmd (command : GroupNestCommand).

Record RepoAdd := mkRepoAdd { ra_name : string; ra_remote : string; ra_lore_repository_id : string }.

Inductive RepoCommand :=
  | RepoAddCmd (args : RepoAdd)
  | RepoListCmd.

Record GrantChange := mkGrantChange { gc_subject : string; gc_repo : string; gc_role : string }.

(** [GrantList] holds the repository. *)
Inductive GrantCommand :=
  | GrantAddCmd (args : GrantChange)
  | GrantRemoveCmd (args : GrantChange)
  | GrantListCmd (repo : option string).

Record CheckArgs := mkCheckArgs { ca_user : string; ca_repo : string; ca_action : string }.

Record TokenMint := mkTokenMint {
  tm_user : string;
  tm_repo : string;
  tm_role : string;
  tm_ttl : option Duration;
  tm_out : option string;
  tm_print_login_command : bool
}.

Record TokenMintAuthn := mkTokenMintAuthn {
  ta_user : string;
  ta_ttl : option Duration;
  ta_out : option string;
  ta_print_login_command : bool
}.

Inductive TokenCommand :=
  | Mint (args : TokenMint)
  | MintAuthn (args : TokenMintAuthn).

Inductive Command :=
  | InitDb
  | SigningKeyCmd (command : SigningKeyCommand)
  | UserCmd (command : UserCommand)
  | GroupCmd (command : GroupCommand)
  | RepoCmd (command : RepoCommand)
  | GrantCmd (command : GrantCommand)
  | CheckCmd (args : CheckArgs)
  | TokenCmd (command : TokenCommand).

Record Cli := mkCli { cli_config : string; cli_db : option string; cli_command : Command }.

(** What the process is given: its variables, and why [Store::open] or [migrate] fails on a path. *)
Class CtlLib := {
  env_var : string → option string;
  open_error : string → option CoreError;
  migrate_error : string → option CoreError
}.

(** A line on the standard output, or on the error output. *)
Inductive Line :=
  | Stdout (text : string)
  | Stderr (text : string).

(** The fields of a line, with tabs between them. *)
Definition tabbed (fields : list string) : Line := Stdout (String.concat (String "009" "") fields).

Module Ctl.

(** * Helpers of [main.rs] *)

Definition u64_max : Z := 2 ^ 64 - 1.

(** [str::parse::<u64>]: the digits that are left, after [acc]. *)
Fixpoint u64_digits (digits : string) (acc : Z) : result string Z :=
  match digits with
  | EmptyString => Ok acc
  | String c digits =>
      let digit := (Z.of_nat (nat_of_ascii c) - 48)%Z in
      if ((digit <? 0) || (9 <? digit))%Z then Err "invalid digit found in string" else
      let next := (acc * 10 + digit)%Z in
      if (u64_max <? next)%Z then Err "number too large to fit in target type"
      else u64_digits digits next
  end.

Definition parse_u64 (value : string) : result string Z :=
  match value with
  | EmptyString => Err "cannot parse integer from empty string"
  | String "+" EmptyString => Err "invalid digit found in string"
  | String "+" digits => u64_digits digits 0
  | _ => u64_digits value 0
  end.

Section Helpers.
Context `{Env}.

Definition parse_duration (value : string) : result string Duration :=
  let value := trim value in
  if is_empty value then Err "duration must not be empty" else
  let '(digits, multiplier) :=
    match strip_suffix "h" value with
    | Some raw => (raw, 60 * 60)%Z
    | None =>
        match strip_suffix "m" value with
        | Some raw => (raw, 60%Z)
        | None => match strip_suffix "s" value with Some raw => (raw, 1%Z) | None => (value, 1%Z) end
        end
    end in
  match parse_u64 digits with
  | Err err => Err ("invalid duration " +:+ str_debug value +:+ ": " +:+ err)
  | Ok amount => Ok (from_secs (Z.min (amount * multiplier) u64_max))
  end.

Definition duration_secs {S} (value : Z) (field : string) : M Anyhow S Duration :=
  if (value <? 0)%Z
  then throw (Context (field +:+ " must be positive")
                (Message "out of range integral type conversion attempted"))
  else ret (from_secs value).

Definition value_or_dash (value : string) : string := if is_empty value then "-" else value.

Definition core_error (err : CoreError) : Anyhow := Message (core_error_to_string err).

(** A call of the store with its error printed. *)
Definition stored {S A} (m : H S A) : M Anyhow (Disk * S) A := map_err core_error (in_store m).

Definition subject_parts {S} (value : string) : M Anyhow S (string * string) :=
  match split_once ":" value with
  | None => throw (Message "want type:id")
  | Some (subject_type, id) =>
      if is_empty subject_type || is_empty id then throw (Message "want type:id")
      else ret (subject_type, id)
  end.

Definition resolve_grant_subject {S} (value : string) : M Anyhow S (string * string) :=
  let! (subject_type, id) := subject_parts value in
  if String.eqb subject_type "user" || String.eqb subject_type "group" then ret (subject_type, id)
  else throw (Message ("unknown subject type " +:+ str_debug subject_type)).

Definition resolve_user_idp {S} (cfg : Config) (idp : option string) (provider issuer : string)
    : M Anyhow S (string * string) :=
  let idp := trim (default "" idp) in
  let providers := ips_providers (cfg_identity_providers cfg) in
  if is_empty idp then
    if bool_decide (providers ≠ ∅)
    then throw (Message "--idp is required when identity providers are configured")
    else ret (provider, issuer)
  else
    provider_cfg <- ok_or (providers !! idp) (Message ("--idp " +:+ str_debug idp +:+ " is not configured")) ;;
    if is_empty (trim (ipc_issuer provider_cfg))
    then throw (Message ("--idp " +:+ str_debug idp +:+ " has no issuer configured"))
    else ret (idp, ipc_issuer provider_cfg).

Definition write_secret_file `{FileSystem} {S} (path value : string) : M Anyhow (Disk * S) () :=
  let parent := path_parent path in
  (if negb (is_empty parent)
   then context ("create directory " +:+ str_debug parent) (map_err Message (create_dir_all parent))
   else ret tt) ;;;
  let written := context ("write token " +:+ str_debug path) in
  written (map_err Message (open_options false 384 path)) ;;;
  written (map_err Message (write_all path value)) ;;;
  written (map_err Message (write_all path (String "010" ""))).

Definition emit_token `{FileSystem} {S} (label token : string) (out : option string)
    (print_login_command : bool) (cfg : Config) : M Anyhow (Disk * S) (list Line) :=
  match out with
  | Some path =>
      write_secret_file path token ;;;
      ret [Stdout (label +:+ ": " +:+ path)]
  | None =>
      ret ([Stderr "warning: token output is sensitive; do not paste it into logs"; Stdout token]
           ++ if print_login_command
              then [Stderr ("lore auth login --token-type lore --token " +:+ token +:+ " --auth-url "
                     +:+ lo_auth_url (cfg_lore cfg) +:+ " " +:+ lo_default_remote_url (cfg_lore cfg))]
              else [])
  end.

(** [Env] of the source; its store is the state. *)
Record CtlEnv := mkCtlEnv { ce_cfg : Config; ce_db_path : string }.

Definition set_database_path (path : string) (cfg : Config) : Config :=
  mkConfig (cfg_server cfg) (cfg_identity_providers cfg) (cfg_authz_backend cfg) path (cfg_jwt cfg)
    (cfg_lore cfg) (cfg_security cfg) (cfg_admin_emails cfg).

Definition open_env `{ConfigLib} `{HttpLib} `{CtlLib} {S} (config_path : string)
    (db_override : option string) : M Anyhow S CtlEnv :=
  cfg <- context ("load config " +:+ str_debug config_path) (map_err OfConfig (lift (load config_path))) ;;
  let db_path := default (cfg_database_path cfg) db_override in
  let cfg := match db_override with Some db => set_database_path db cfg | None => cfg end in
  match open_error db_path with
  | Some err => throw (Context ("open database " +:+ str_debug db_path) (core_error err))
  | None =>
      match migrate_error db_path with
      | Some err => throw (Context ("migrate database " +:+ str_debug db_path) (core_error err))
      | None => ret (mkCtlEnv cfg db_path)
      end
  end.

Definition authctl_actor `{CtlLib} : string :=
  let user := match env_var "USER" with Some user => Some user | None => env_var "USERNAME" end in
  "authctl:" +:+ match user with
                 | Some user => if is_empty (trim user) then "unknown" else trim user
                 | None => "unknown"
                 end.
End Helpers.

(** * The commands *)

Section Commands.
Context `{Env} `{Sqlite} `{SerdeJson} `{AuthzCore} `{HttpLib} `{ConfigLib} `{JwtLib}.
Context `{FileSystem} `{CtlLib}.

Definition build_authorization_policy : M Anyhow (Disk * Db) (AuthorizationPolicy Db) :=
  map_ok Rebac.rebac_authz
    (map_err (λ err, Message ("initialize rebac authz: " +:+ core_error_to_string err)) (lift Rebac.new)).

Definition build_token_service (env : CtlEnv) : M Anyhow (Disk * Db) (TokenService Db) :=
  let cfg := ce_cfg env in
  meta <- context "load active signing key metadata"
    (stored (SqlTokens.active_signing_key (jc_active_kid (cfg_jwt cfg)))) ;;
  signer <- map_err (λ _, Message "signing key unavailable")
    (Signer.from_pem_file (sk_kid meta) (sk_private_key_path meta)) ;;
  authz <- build_authorization_policy ;;
  auth_service_audience <- context "public base url host"
    (map_err OfConfig (lift (public_host (sc_public_base_url (cfg_server cfg))))) ;;
  authn_ttl <- duration_secs (jc_ttl_seconds (cfg_jwt cfg)) "jwt.ttl_seconds" ;;
  ret (mkTokenService
    (mkTokenConfig (jc_issuer (cfg_jwt cfg)) (jc_audience (cfg_jwt cfg)) auth_service_audience
       authn_ttl (from_secs (15 * 60)))
    SqlAccounts.sqlite_accounts SqlResources.sqlite_resources authz (Signer.token_signer signer)
    (Some SqlTokens.sqlite_issued_log)).

(** [commands/signing_key.rs] *)
Definition run_signing_key (env : CtlEnv) (command : SigningKeyCommand)
    : M Anyhow (Disk * Db) (list Line) :=
  let keys := SigningKeyAdmin.signing_key_admin (KeyAdminStore0 := audited_keys authctl_actor)
                (jc_signing_key_dir (cfg_jwt (ce_cfg env))) in
  match command with
  | KeyGenerate args =>
      key <- map_err core_error
        (Ports.generate_active_key keys (skg_kid args) (skg_alg args) (skg_bits args)) ;;
      ret [Stdout ("kid: " +:+ sk_kid key); Stdout ("private_key: " +:+ sk_private_key_path key);
           Stdout ("status: " +:+ sk_status key)]
  | KeyList =>
      keys <- map_err core_error (Ports.list_keys keys) ;;
      ret (map (λ key, tabbed [sk_kid key; sk_alg key; sk_status key; sk_private_key_path key]) keys)
  end.

Definition user_line (user : User) : Line :=
  tabbed [u_id user; value_or_dash (u_email user); u_status user].

(** [commands/user.rs] *)
Definition run_user (env : CtlEnv) (command : UserCommand) : M Anyhow (Disk * Db) (list Line) :=
  match command with
  | UserInviteCmd args =>
      let! (provider_id, issuer) :=
        resolve_user_idp (ce_cfg env) (ui_idp args) (ui_provider args) (ui_issuer args) in
      added <- stored (SqlAudited.add_invitation authctl_actor
        (mkAddInvitationInput provider_id issuer (ui_email args) (ui_name args)
           "verified_email_invitation" 0)) ;;
      ret [user_line added.1]
  | UserAddCmd args =>
      user <- stored (SqlAudited.add_user authctl_actor (mkAddUserInput (ua_email args) (ua_name args))) ;;
      ret [user_line user]
  | UserListCmd =>
      users <- stored (SqlAccounts.list_users (mkUserListFilter "" u64_max)) ;;
      ret (map (λ user, tabbed [u_id user; value_or_dash (u_email user);
                                if String.eqb (u_status user) "pending" then "" else bridge_subject user;
                                u_status user]) users)
  | UserDisableCmd user =>
      stored (SqlAudited.disable_user authctl_actor user) ;;; ret [Stdout "disabled"]
  | UserEnableCmd user =>
      stored (SqlAudited.enable_user authctl_actor user) ;;; ret [Stdout "enabled"]
  end.

(** [commands/group.rs] *)
Definition run_group (command : GroupCommand) : M Anyhow (Disk * Db) (list Line) :=
  match command with
  | GroupAddCmd args =>
      group <- stored (SqlAudited.add_group authctl_actor (ga_name args) (ga_description args)) ;;
      ret [tabbed [g_id group; g_name group]]
  | GroupListCmd =>
      groups <- stored SqlGroups.list_groups ;;
      ret (map (λ group, tabbed [g_id group; g_name group]) groups)
  | GroupMemberCmd (MemberAdd args) =>
      stored (SqlAudited.add_group_member authctl_actor (gmb_group args) (gmb_user args)) ;;;
      ret [Stdout "ok"]
  | GroupMemberCmd (MemberRemove args) =>
      stored (SqlAudited.remove_group_member authctl_actor (gmb_group args) (gmb_user args)) ;;;
      ret [Stdout "ok"]
  | GroupNestCmd (NestAdd args) =>
      stored (SqlAudited.add_group_group authctl_actor (gn_parent_group args) (gn_member_group args)) ;;;
      ret [Stdout "ok"]
  | GroupNestCmd (NestRemove args) =>
      stored (SqlAudited.remove_group_group authctl_actor (gn_parent_group args) (gn_member_group args)) ;;;
      ret [Stdout "ok"]
  end.

(** [commands/repo.rs] *)
Definition run_repo (command : RepoCommand) : M Anyhow (Disk * Db) (list Line) :=
  match command with
  | RepoAddCmd args =>
      let lore_repository_id := ra_lore_repository_id args in
      stored (SqlAudited.upsert authctl_actor
        (mkResource "" (ra_name args) (ra_remote args) lore_repository_id "" "")) ;;;
      resource_id <- ok_or (for_repository_id lore_repository_id)
        (Message "lore_repository_id must not be empty") ;;
      repo <- stored (SqlResources.get_by_resource_id resource_id) ;;
      ret [tabbed [r_id repo; r_name repo; r_lore_repository_id repo]]
  | RepoListCmd =>
      repos <- stored SqlResources.list_resources ;;
      ret (map (λ repo, tabbed [r_id repo; r_name repo; r_lore_repository_id repo; r_remote_url repo])
             repos)
  end.

(** [commands/grant.rs] *)
Definition run_grant (command : GrantCommand) : M Anyhow (Disk * Db) (list Line) :=
  match command with
  | GrantAddCmd args =>
      let! (subject_type, subject_id) := resolve_grant_subject (gc_subject args) in
      grant <- stored (SqlAudited.add_grant authctl_actor subject_type subject_id (gc_repo args)
                         (gc_role args)) ;;
      ret [tabbed [gr_id grant; gr_subject_type grant +:+ ":" +:+ gr_subject_id grant; gr_role grant]]
  | GrantRemoveCmd args =>
      let! (subject_type, subject_id) := resolve_grant_subject (gc_subject args) in
      stored (SqlAudited.remove_grant authctl_actor subject_type subject_id (gc_repo args)
                (gc_role args)) ;;;
      ret [Stdout "removed"]
  | GrantListCmd repo =>
      grants <- stored (SqlGrants.list_grants (default "" repo)) ;;
      ret (map (λ grant, tabbed [gr_id grant; gr_subject_type grant +:+ ":" +:+ gr_subject_id grant;
                                 gr_repository_id grant; gr_role grant]) grants)
  end.

Definition resolve_user (user : string) : M Anyhow (Disk * Db) User :=
  context ("resolve user " +:+ str_debug user) (stored (SqlAccounts.resolve_user user)).

(** [commands/check.rs] *)
Definition run_check (args : CheckArgs) : M Anyhow (Disk * Db) (list Line) :=
  user <- resolve_user (ca_user args) ;;
  repo <- context ("resolve repo " +:+ str_debug (ca_repo args))
    (stored (SqlResources.get_by_name (ca_repo args))) ;;
  authz <- build_authorization_policy ;;
  allowed <- stored (can_access authz (u_id user) (r_resource_id repo) (ca_action args)) ;;
  ret [Stdout (if allowed then "allow" else "deny")].

(** [commands/token.rs] *)
Definition run_token (env : CtlEnv) (command : TokenCommand) : M Anyhow (Disk * Db) (list Line) :=
  tokens <- build_token_service env ;;
  match command with
  | Mint args =>
      user <- resolve_user (tm_user args) ;;
      signed <- stored (manual_mint_authz tokens (u_id user) (tm_repo args) (tm_role args) (tm_ttl args)) ;;
      emit_token "token" (stk_token signed) (tm_out args) (tm_print_login_command args) (ce_cfg env)
  | MintAuthn args =>
      user <- resolve_user (ta_user args) ;;
      let! (signed, _) := stored (mint_authn tokens (u_id user) (ta_ttl args)) in
      emit_token "authn token" (stk_token signed) (ta_out args) (ta_print_login_command args) (ce_cfg env)
  end.

(** [run] of the source; [main] prints the error and exits with 1. *)
Definition run (cli : Cli) : M Anyhow (Disk * Db) (list Line) :=
  env <- open_env (cli_config cli) (cli_db cli) ;;
  match cli_command cli with
  | InitDb => ret [Stdout ("database initialized: " +:+ ce_db_path env)]
  | SigningKeyCmd command => run_signing_key env command
  | UserCmd command => run_user env command
  | GroupCmd command => run_group command
  | RepoCmd command => run_repo command
  | GrantCmd command => run_grant command
  | CheckCmd args => run_check args
  | TokenCmd command => run_token env command
  end.
End Commands.
End Ctl.
