(* ===== verification/Probe.v ===== *)
(** The claim probe ([lore-claimprobe]): a command-line tool that mints tokens with a key file, to
    try what a Lore server makes of their claims.  As for the control tool, a command is a value
    of the types that the command line fills.  What it prints or sends is part of the state, next
    to the files, since a command may fail after it has printed. *)

From Stdlib Require Import ZArith Lia Ascii.
From stdpp Require Import base gmap strings list pretty.
From S2P Require Import Prelude Model Files Rs256 Config ServiceGraph AuthCtl.

(** What a command writes: to its standard streams, and to a connection. *)
Inductive Output :=
  | OnStdout (text : string)
  | OnStderr (text : string)
  | OnStream (bytes : string).

(** What the process is given, and texts of the standard library. *)
Class ProbeLib := {
  (** [String::from_utf8_lossy] *)
  from_utf8_lossy : string → string;
  (** [env::var_os("PATH")], split *)
  split_paths : option (list string);
  (** The output of a program that could be started: whether it succeeded, and its text. *)
  process_output : string → list string → option (bool * string);
  (** The standard input, or why it cannot be read as UTF-8. *)
  stdin_text : result string string;
  (** Why [TcpListener::bind] fails on an address. *)
  bind_error : string → option string;
  (** [{:?}] of an [anyhow::Error] *)
  anyhow_debug : Anyhow → string;
  (** The mode of a new file under the umask. *)
  default_file_mode : Z
}.

Module Probe.

(** * The command line *)

Definition DEFAULT_KID : string := "lore-probe-2026-06-29-01".
Definition DEFAULT_ISSUER : string := "https://auth.example.com".
Definition DEFAULT_AUDIENCE : string := "lore-service,lore.example.com".
Definition DEFAULT_SUBJECT : string := "google:TEST_SUBJECT".
Definition DEFAULT_NAME : string := "Test User".
Definition DEFAULT_USERNAME : string := "test@example.com".
Definition DEFAULT_AUTH_URL : string := "ucs-auth://auth.example.com".
Definition DEFAULT_REMOTE_URL : string := "lore://lore.example.com:41337".
Definition DEFAULT_PRIVATE_KEY : string := "probe-private.pem".
Definition DEFAULT_JWKS : string := "jwks.json".
Definition DEFAULT_REPOSITORY_ID : string := "0194b726b34e72b0b45550b88a967076".
Definition DEFAULT_WRONG_REPOSITORY_ID : string := "f6ca55437aa34198ba0f0fdc33154d51".

Record SignedDuration := mkSignedDuration { negative : bool; duration : Duration }.

Record Keygen := mkKeygen {
  kg_kid : string;
  kg_out_dir : string;
  kg_bits : N;
  kg_private_name : string;
  kg_jwks_name : string
}.

Record Jwks := mkJwks { jw_key : string; jw_kid : string; jw_out : option string }.

Record Serve := mkServe { sv_jwks : string; sv_listen : string }.

Record Mint := mkMint {
  mi_key : string;
  mi_kid : string;
  mi_issuer : string;
  mi_audience : string;
  mi_subject : string;
  mi_name : string;
  mi_preferred_username : string;
  mi_groups : string;
  mi_idp : string;
  mi_env : string;
  mi_repository_id : option string;
  mi_resource_id : option string;
  mi_no_resources : bool;
  mi_permissions : string;
  mi_ttl : SignedDuration;
  mi_jti : string;
  mi_auth_url : string;
  mi_remote_url : string;
  mi_print_login_command : bool;
  mi_out : option string
}.

(** [Decode] holds the token. *)
Record Matrix := mkMatrix {
  mx_out_dir : string;
  mx_key : string;
  mx_kid : string;
  mx_issuer : string;
  mx_audience : string;
  mx_repository_id : string;
  mx_wrong_repository_id : string;
  mx_remote_url : string;
  mx_auth_url : string
}.

Inductive Command :=
  | KeygenCmd (args : Keygen)
  | JwksCmd (args : Jwks)
  | ServeCmd (args : Serve)
  | MintCmd (args : Mint)
  | DecodeCmd (token : option string)
  | MatrixCmd (args : Matrix)
  | VersionCmd.

(** What the command line fills in when no option is given. *)
Definition default_keygen : Keygen :=
  mkKeygen DEFAULT_KID ".probe" DEFAULT_RSA_BITS DEFAULT_PRIVATE_KEY DEFAULT_JWKS.

Definition one_hour : SignedDuration := mkSignedDuration false (from_secs (60 * 60)).

Definition default_mint : Mint :=
  mkMint DEFAULT_PRIVATE_KEY DEFAULT_KID DEFAULT_ISSUER DEFAULT_AUDIENCE DEFAULT_SUBJECT DEFAULT_NAME
    DEFAULT_USERNAME "test" "google" DEFAULT_ENV None None false "read,write" one_hour ""
    DEFAULT_AUTH_URL DEFAULT_REMOTE_URL true None.

Definition default_matrix : Matrix :=
  mkMatrix ".probe" DEFAULT_PRIVATE_KEY DEFAULT_KID DEFAULT_ISSUER "lore-service,127.0.0.1"
    DEFAULT_REPOSITORY_ID DEFAULT_WRONG_REPOSITORY_ID "lore://127.0.0.1:41337" DEFAULT_AUTH_URL.

(** * Helpers *)

Definition newline : string := String "010" "".

(** [str::split_whitespace]: the first word, and what follows it. *)
Fixpoint word (s : string) : string * string :=
  match s with
  | "" => ("", "")
  | String c rest =>
      if String.eqb (trim_start s) s
      then let '(w, rest) := word rest in (String c w, rest) else ("", s)
  end.

Definition next_word (s : string) : option (string * string) :=
  let s := trim_start s in if is_empty s then None else Some (word s).

(** [text.lines().next()] *)
Definition first_line (text : string) : option string :=
  match split_once "010" text with
  | Some (line, _) => Some (default line (strip_suffix (String "013" "") line))
  | None => if is_empty text then None else Some text
  end.

Definition choose_resource_id (explicit repository_id : option string) : string :=
  match explicit with
  | Some explicit =>
      if is_empty explicit then default "" (repository_id ≫= for_repository_id) else explicit
  | None => default "" (repository_id ≫= for_repository_id)
  end.

Definition split_csv (value : string) : list string :=
  List.filter (λ part, negb (is_empty part)) (map trim (split "," value)).

Definition shell_byte (c : ascii) : bool :=
  is_ascii_alphanumeric c || existsb (Ascii.eqb c) ["-"; "_"; "."; "/"; ":"; "="; ","]%char.

Definition shell_quote `{JwtLib} (value : string) : string :=
  if is_empty value then "''"
  else if all_bytes shell_byte value then value
  else match value_to_vec (JString value) with Ok quoted => quoted | Err _ => "''" end.

Section Helpers.
Context `{Env} `{JwtLib}.

(** Unlike that of the control tool, it neither trims its argument nor rejects an empty one first. *)
Definition parse_duration (value : string) : result string Duration :=
  let '(digits, multiplier) :=
    match strip_suffix "h" value with
    | Some raw => (raw, 60 * 60)%Z
    | None =>
        match strip_suffix "m" value with
        | Some raw => (raw, 60%Z)
        | None => match strip_suffix "s" value with Some raw => (raw, 1%Z) | None => (value, 1%Z) end
        end
    end in
  match Ctl.parse_u64 digits with
  | Err err => Err ("invalid duration " +:+ str_debug value +:+ ": " +:+ err)
  | Ok amount => Ok (from_secs (Z.min (amount * multiplier) Ctl.u64_max))
  end.

Definition parse_signed_duration (value : string) : result string SignedDuration :=
  let value := trim value in
  let '(negative, raw) :=
    match strip_prefix "-" value with Some raw => (true, raw) | None => (false, value) end in
  match parse_duration raw with
  | Ok duration => Ok (mkSignedDuration negative duration)
  | Err err => Err err
  end.

(** [Duration::checked_add] *)
Definition checked_add (a b : Duration) : option Duration :=
  let nanos := (dur_nanos a + dur_nanos b)%Z in
  let secs := (dur_secs a + dur_secs b + nanos / 10 ^ 9)%Z in
  if (Ctl.u64_max <? secs)%Z then None else Some (mkDuration secs (nanos mod 10 ^ 9)).

(** [SystemTime::checked_sub]; the clock reads whole seconds, and so do the durations here. *)
Definition checked_sub (time : Z) (d : Duration) : option Z :=
  let difference := (time - dur_secs d)%Z in
  if (difference <? - 2 ^ 63)%Z then None else Some difference.

Definition signed_duration_to_claim_time {S} (value : SignedDuration) : M Anyhow S (Z * Duration) :=
  if negb (negative value) then now <- system_now ;; ret (now, duration value) else
  let ttl := from_secs (60 * 60) in
  backdate <- ok_or (checked_add ttl (duration value)) (Message "duration overflow") ;;
  now <- system_now ;;
  now <- ok_or (checked_sub now backdate) (Message "duration before unix epoch") ;;
  ret (now, ttl).

Definition jwks_bytes (key : SigningKey) : result Error string :=
  match marshal_jwks (mkJwkSet [jwk key]) with
  | Ok jwks => Ok (jwks +:+ newline)
  | Err err => Err err
  end.
End Helpers.

(** * The commands *)

Notation Probing := (M Anyhow (Disk * list Output)).

Section Commands.
Context `{Env} `{JwtLib} `{FileSystem} `{ProbeLib}.

Definition emit (output : Output) : Probing () := modify_state (λ s, (s.1, s.2 ++ [output])).
Definition println (text : string) : Probing () := emit (OnStdout (text +:+ newline)).
Definition eprintln (text : string) : Probing () := emit (OnStderr (text +:+ newline)).

(** [?] on an error of the signer *)
Definition signing {A} (m : M Error (Disk * list Output) A) : Probing A :=
  map_err (λ err, Message (error_to_string err)) m.

Definition create_parent (path : string) : Probing () :=
  let parent := path_parent path in
  if is_empty parent then ret tt
  else context ("create directory " +:+ str_debug parent) (map_err Message (create_dir_all parent)).

Definition write_public_file (path value : string) : Probing () :=
  create_parent path ;;;
  context ("write " +:+ str_debug path)
    (map_err Message (open_options false default_file_mode path ;;; write_all path value)).

(** [writeln!] writes the value and the end of the line. *)
Definition write_secret_file (path value : string) : Probing () :=
  create_parent path ;;;
  context ("write token " +:+ str_debug path) (map_err Message (open_options false 384 path)) ;;;
  context ("write token " +:+ str_debug path)
    (map_err Message (write_all path value ;;; write_all path newline)).

Definition cmd_keygen (args : Keygen) : Probing () :=
  key <- signing (generate (kg_kid args) (kg_bits args)) ;;
  let private_path := path_join (kg_out_dir args) (kg_private_name args) in
  let jwks_path := path_join (kg_out_dir args) (kg_jwks_name args) in
  signing (write_private_pem key private_path) ;;;
  jwks <- signing (lift (jwks_bytes key)) ;;
  write_public_file jwks_path jwks ;;;
  println ("kid: " +:+ kg_kid args) ;;;
  println ("private_key: " +:+ private_path) ;;;
  println ("jwks: " +:+ jwks_path) ;;;
  println "jwks_endpoint_hint: http://127.0.0.1:8000/.well-known/jwks.json".

Definition cmd_jwks (args : Jwks) : Probing () :=
  key <- signing (load_pem (jw_kid args) (jw_key args)) ;;
  jwks <- signing (lift (jwks_bytes key)) ;;
  match jw_out args with
  | Some out => write_public_file out jwks
  | None => emit (OnStdout jwks)
  end.

(** [write_response], the bytes that it sends *)
Definition response_bytes (status content_type body : string) : string :=
  let crlf := String "013" newline in
  "HTTP/1.1 " +:+ status +:+ crlf
  +:+ "Content-Type: " +:+ content_type +:+ crlf
  +:+ "Content-Length: " +:+ pretty (N.of_nat (String.length body)) +:+ crlf
  +:+ "Connection: close" +:+ crlf +:+ crlf
  +:+ body.

(** The path that a request asks for; the request is what one [read] of the buffer gives. *)
Definition request_path (request : string) : string :=
  default "/" (line ← first_line (from_utf8_lossy request); '(_, rest) ← next_word line;
               '(path, _) ← next_word rest; Some path).

Definition serve_one (request jwks_path : string) : Probing () :=
  if String.eqb (request_path request) "/.well-known/jwks.json" then
    raw <- context ("read " +:+ str_debug jwks_path) (map_err Message (fs_read jwks_path)) ;;
    emit (OnStream (response_bytes "200 OK" "application/json" raw))
  else
    emit (OnStream (response_bytes "200 OK" "text/plain; charset=utf-8"
      ("lore-claimprobe JWKS server" +:+ newline +:+ "/.well-known/jwks.json" +:+ newline))).

(** The loop over the connections, for those that came so far; a connection that fails is
    reported, and the loop goes on. *)
Fixpoint serve_all (requests : list string) (jwks_path : string) : Probing () :=
  match requests with
  | [] => ret tt
  | request :: requests =>
      served <- attempt (serve_one request jwks_path) ;;
      match served with
      | Ok _ => ret tt
      | Err err => eprintln (anyhow_debug err)
      end ;;;
      serve_all requests jwks_path
  end.

Definition cmd_serve (args : Serve) (requests : list string) : Probing () :=
  match bind_error (sv_listen args) with
  | Some err => throw (Context ("listen " +:+ sv_listen args) (Message err))
  | None =>
      eprintln ("serving JWKS " +:+ sv_jwks args +:+ " at http://" +:+ sv_listen args
                +:+ "/.well-known/jwks.json") ;;;
      serve_all requests (sv_jwks args)
  end.

Definition mint (args : Mint) : Probing string :=
  let resource_id := choose_resource_id (mi_resource_id args) (mi_repository_id args) in
  if is_empty resource_id && negb (mi_no_resources args)
  then throw (Message "mint requires --repository-id or --resource-id") else
  key <- signing (load_pem (mi_kid args) (mi_key args)) ;;
  let! (now, ttl) := signed_duration_to_claim_time (mi_ttl args) in
  claims <- signing
    (if mi_no_resources args
     then new_authn_claims (mkAuthnOptions (mi_issuer args) (split_csv (mi_audience args))
            (mi_subject args) (mi_env args) (mi_name args) (mi_preferred_username args)
            (split_csv (mi_groups args)) (mi_idp args) false ttl (Some now) (mi_jti args))
     else new_authz_claims (mkAuthzOptions (mi_issuer args) (split_csv (mi_audience args))
            (mi_subject args) (mi_env args) (mi_name args) (mi_preferred_username args)
            (split_csv (mi_groups args)) (mi_idp args) false
            [mkLoreResourcePermission resource_id (split_csv (mi_permissions args))]
            ttl (Some now) (mi_jti args))) ;;
  signing (lift (sign_lore_claims key claims)).

Definition emit_token (token : string) (out : option string) (print_login_command : bool) (args : Mint)
    : Probing () :=
  match out with
  | Some out => write_secret_file out token ;;; println ("token: " +:+ out)
  | None => println token
  end ;;;
  if print_login_command then
    eprintln "" ;;;
    eprintln "lore auth login command:" ;;;
    eprintln ("  lore auth login --token-type lore --token " +:+ shell_quote token
              +:+ " --auth-url " +:+ shell_quote (mi_auth_url args)
              +:+ " " +:+ shell_quote (mi_remote_url args))
  else ret tt.

Definition cmd_decode (token : option string) : Probing () :=
  compact <- match token with
             | Some token => ret token
             | None => map_ok trim (map_err Message (lift stdin_text))
             end ;;
  decoded <- signing (lift (decode_insecure compact)) ;;
  let value := JObject [("header", di_header decoded); ("payload", di_claims decoded)] in
  text <- map_err Message (lift (value_to_vec_pretty value)) ;;
  println text.

(** [matrix_base_mint], with the members that a case replaces *)
Definition matrix_base_mint (args : Matrix) (audience : string) (repository_id resource_id : option string)
    (no_resources : bool) (permissions : string) (ttl : SignedDuration) : Mint :=
  mkMint (mx_key args) (mx_kid args) (mx_issuer args) audience DEFAULT_SUBJECT DEFAULT_NAME
    DEFAULT_USERNAME "test" "google" DEFAULT_ENV repository_id resource_id no_resources permissions
    ttl "" (mx_auth_url args) (mx_remote_url args) false None.

Record Case := mkCase { cs_case : string; cs_file : string; cs_mint : Mint; cs_label : string }.

Definition matrix_cases (args : Matrix) : list Case :=
  let aud := mx_audience args in
  let repo := Some (mx_repository_id args) in
  [mkCase "A" "token-wildcard.jwt"
     (matrix_base_mint args aud None (Some "urc-*") false "read,write,admin" one_hour) "wildcard token";
   mkCase "D" "token-exact.jwt"
     (matrix_base_mint args aud repo None false "read,write" one_hour) "exact repo token";
   mkCase "C/E" "token-wrong-repo.jwt"
     (matrix_base_mint args aud (Some (mx_wrong_repository_id args)) None false "read,write" one_hour)
     "wrong repo token";
   mkCase "B" "token-no-resources.jwt"
     (matrix_base_mint args aud None None true "read,write" one_hour) "token without resources";
   mkCase "F" "token-expired.jwt"
     (matrix_base_mint args aud repo None false "read,write"
        (mkSignedDuration true (from_secs (60 * 60)))) "expired token";
   mkCase "G/H" "token-missing-remote-aud.jwt"
     (matrix_base_mint args "lore-service" repo None false "read,write" one_hour)
     "missing remote audience token";
   mkCase "I/J" "token-read-only.jwt"
     (matrix_base_mint args aud repo None false "read" one_hour) "read-only token"].

Definition run_case (out_dir : string) (c : Case) : Probing () :=
  token <- mint (cs_mint c) ;;
  let path := path_join out_dir (cs_file c) in
  write_secret_file path token ;;;
  println (cs_case c +:+ String "009" (cs_label c +:+ String "009" path)).

Definition cmd_matrix (args : Matrix) : Probing () :=
  context ("create matrix output dir " +:+ str_debug (mx_out_dir args))
    (map_err Message (create_dir_all (mx_out_dir args))) ;;;
  map_m (run_case (mx_out_dir args)) (matrix_cases args) ;;;
  println "Use these files with .agents/claimprobe.md section 7 acceptance matrix.".

(** [path.is_file()], and the first candidate on the search path *)
Definition find_on_path (name : string) : Probing (option string) :=
  s <- get_state ;;
  ret (dirs ← split_paths;
       List.find (λ candidate, bool_decide (is_Some (d_files s.1 !! candidate)))
         (map (λ dir, path_join dir name) dirs)).

(** The first of the calls that succeeds is printed. *)
Fixpoint print_version (name path : string) (calls : list (list string)) : Probing () :=
  match calls with
  | [] => ret tt
  | argv :: calls =>
      match process_output path argv with
      | Some (true, stdout) =>
          let rendered := from_utf8_lossy stdout in
          emit (OnStdout (name +:+ " " +:+ String.concat " " argv +:+ ": " +:+ rendered)) ;;;
          if bool_decide (is_Some (strip_suffix newline rendered)) then ret tt else println ""
      | _ => print_version name path calls
      end
  end.

Definition show_version (name : string) : Probing () :=
  found <- find_on_path name ;;
  match found with
  | None => println (name +:+ ": not found")
  | Some path =>
      println (name +:+ ": " +:+ path) ;;;
      print_version name path [["--version"]; ["version"]]
  end.

Definition cmd_version : Probing () :=
  map_m show_version ["lore"; "loreserver"; "lore-server"] ;;; ret tt.

(** [requests] are the connections of [serve]. *)
Definition run (command : Command) (requests : list string) : Probing () :=
  match command with
  | KeygenCmd args => cmd_keygen args
  | JwksCmd args => cmd_jwks args
  | ServeCmd args => cmd_serve args requests
  | MintCmd args =>
      token <- mint args ;;
      emit_token token (mi_out args) (mi_print_login_command args) args
  | DecodeCmd token => cmd_decode token
  | MatrixCmd args => cmd_matrix args
  | VersionCmd => cmd_version
  end.
End Commands.
End Probe.
