(* ===== verification/MemTrace.v ===== *)
(** Runs of the in-memory adapter: every operation of its ports as one atomic step
    (each takes the store's lock once), and what any interleaving of such steps
    keeps true of the device, session, login and CSRF state machines. *)

From Stdlib Require Import ZArith Lia Ascii.
From stdpp Require Import base gmap strings list.
From S2P Require Import Prelude Model MemState MemGraph MemGroups MemSessions.
From S2P Require Import MemTokens MemAccounts MemGrants MemAudited.

(** * Operations and traces *)

Inductive store_op :=
  | OpResolveLogin (req : LoginResolutionRequest)
  | OpPrincipalByUserId (user_id : string)
  | OpPrincipalByJti (jti : string)
  | OpAddUser (input : AddUserInput)
  | OpAddInvitation (input : AddInvitationInput)
  | OpDisableUser (user : string)
  | OpEnableUser (user : string)
  | OpUserById (user_id : string)
  | OpListUsers (f : UserListFilter)
  | OpCanAccess (user_id resource_id action : string)
  | OpListAccessible (user_id : string) (f : ResourceFilter)
  | OpUpsert (r : Resource)
  | OpDeleteResource (resource_id : string)
  | OpGetById (id : string)
  | OpGetByResourceId (resource_id : string)
  | OpGetByName (name : string)
  | OpListResources
  | OpCreateDevice (input : CreateDeviceAuthorizationInput)
  | OpDeviceByUserCode (code : string)
  | OpDeviceByDeviceCode (code : string)
  | OpApproveDevice (id user_id : string)
  | OpConsumeDevice (id : string)
  | OpExpireDevice (id : string)
  | OpCreateAuthSession (client_state : string) (ttl : Duration)
  | OpSessionByCode (code : string)
  | OpSessionByNonce (nonce : string)
  | OpCompleteSession (id user_id : string)
  | OpConsumeSession (id : string)
  | OpCreateLoginState (input : LoginStateInput) (ttl : Duration)
  | OpSetPrivateState (state : string) (private_state : list Byte.byte)
  | OpConsumeLoginState (state : string)
  | OpCreateBrowserSession (user_id : string) (ttl : Duration)
  | OpUserByBrowserSession (session_id : string)
  | OpRevokeBrowserSession (session_id : string)
  | OpCreateCsrf (session_id : string) (ttl : Duration)
  | OpConsumeCsrf (session_id token : string)
  | OpSignAuthn (input : AuthnTokenInput)
  | OpSignAuthz (input : AuthzTokenInput)
  | OpVerify (compact : string) (opts : VerifyOptions)
  | OpRecordIssued (t : IssuedToken)
  | OpRecordAudit (e : AdminAuditEntry)
  | OpAddGroup (name description : string)
  | OpAddGroupMember (group user : string)
  | OpRemoveGroupMember (group user : string)
  | OpAddGroupGroup (parent member : string)
  | OpRemoveGroupGroup (parent member : string)
  | OpListGroups
  | OpListGroupMembers (group : string)
  | OpListGroupGroups (group : string)
  | OpAddGrant (subject_type subject_id repo role : string)
  | OpRemoveGrant (subject_type subject_id repo role : string)
  | OpListGrants (repo : string)
  | OpGrantsForUser (user_id resource_id : string)
  | OpAudited (actor : string) (op : audited_op)
  | OpAddTestUser (u : User)
  | OpDisableTestUser (user_id : string)
  | OpAddTestResource (r : Resource)
  | OpAddTestIdentity (i : ExternalIdentity)
  | OpGrantRole (user_id resource_id role : string)
with audited_op :=
  | AOpAddGroup (name description : string)
  | AOpAddGroupMember (group user : string)
  | AOpRemoveGroupMember (group user : string)
  | AOpAddGroupGroup (parent member : string)
  | AOpRemoveGroupGroup (parent member : string)
  | AOpAddGrant (subject_type subject_id repo role : string)
  | AOpRemoveGrant (subject_type subject_id repo role : string)
  | AOpAddUser (input : AddUserInput)
  | AOpAddInvitation (input : AddInvitationInput)
  | AOpDisableUser (user : string)
  | AOpEnableUser (user : string)
  | AOpUpsert (r : Resource)
  | AOpDeleteResource (resource_id : string).

Section Run.
Context `{Env}.

(** The operation with its answer dropped; whether it failed is kept. *)
Definition unit_of {A} (m : H State A) : H State () := map_ok (λ _, tt) m.

Definition run_audited (actor : string) (op : audited_op) : H State () :=
  match op with
  | AOpAddGroup n d => unit_of (Audited.add_group actor n d)
  | AOpAddGroupMember g u => Audited.add_group_member actor g u
  | AOpRemoveGroupMember g u => Audited.remove_group_member actor g u
  | AOpAddGroupGroup p m => Audited.add_group_group actor p m
  | AOpRemoveGroupGroup p m => Audited.remove_group_group actor p m
  | AOpAddGrant t i r o => unit_of (Audited.add_grant actor t i r o)
  | AOpRemoveGrant t i r o => Audited.remove_grant actor t i r o
  | AOpAddUser i => unit_of (Audited.add_user actor i)
  | AOpAddInvitation i => unit_of (Audited.add_invitation actor i)
  | AOpDisableUser u => Audited.disable_user actor u
  | AOpEnableUser u => Audited.enable_user actor u
  | AOpUpsert r => Audited.upsert actor r
  | AOpDeleteResource r => Audited.delete_resource actor r
  end.

Definition run_op (op : store_op) : H State () :=
  match op with
  | OpResolveLogin req => unit_of (Accounts.resolve_login req)
  | OpPrincipalByUserId u => unit_of (Accounts.principal_by_user_id u)
  | OpPrincipalByJti j => unit_of (Accounts.principal_by_authn_token_jti j)
  | OpAddUser i => unit_of (Accounts.add_user i)
  | OpAddInvitation i => unit_of (Accounts.add_invitation i)
  | OpDisableUser u => Accounts.disable_user u
  | OpEnableUser u => Accounts.enable_user u
  | OpUserById u => unit_of (Accounts.user_by_id u)
  | OpListUsers f => unit_of (Accounts.list_users f)
  | OpCanAccess u r a => unit_of (Grants.can_access u r a)
  | OpListAccessible u f => unit_of (Grants.list_accessible u f)
  | OpUpsert r => Resources.upsert r
  | OpDeleteResource r => Resources.delete_resource r
  | OpGetById i => unit_of (Resources.get_by_id i)
  | OpGetByResourceId r => unit_of (Resources.get_by_resource_id r)
  | OpGetByName n => unit_of (Resources.get_by_name n)
  | OpListResources => unit_of Resources.list_resources
  | OpCreateDevice i => unit_of (Devices.create_device_authorization i)
  | OpDeviceByUserCode c => unit_of (Devices.device_by_user_code c)
  | OpDeviceByDeviceCode c => unit_of (Devices.device_by_device_code c)
  | OpApproveDevice i u => Devices.approve_device_authorization i u
  | OpConsumeDevice i => Devices.consume_device_authorization i
  | OpExpireDevice i => Devices.expire_device_authorization i
  | OpCreateAuthSession c t => unit_of (Sessions.create_auth_session c t)
  | OpSessionByCode c => unit_of (Sessions.get_auth_session_by_code c)
  | OpSessionByNonce n => unit_of (Sessions.get_auth_session_by_nonce n)
  | OpCompleteSession i u => Sessions.complete_auth_session i u
  | OpConsumeSession i => Sessions.consume_auth_session i
  | OpCreateLoginState i t => unit_of (Sessions.create_login_state i t)
  | OpSetPrivateState s p => Sessions.set_login_state_private_state s p
  | OpConsumeLoginState s => unit_of (Sessions.consume_login_state s)
  | OpCreateBrowserSession u t => unit_of (Sessions.create_browser_session u t)
  | OpUserByBrowserSession s => unit_of (Sessions.user_by_browser_session s)
  | OpRevokeBrowserSession s => Sessions.revoke_browser_session s
  | OpCreateCsrf s t => unit_of (Sessions.create_csrf_token s t)
  | OpConsumeCsrf s t => Sessions.consume_csrf_token s t
  | OpSignAuthn i => unit_of (Tokens.sign_authn i)
  | OpSignAuthz i => unit_of (Tokens.sign_authz i)
  | OpVerify c o => unit_of (Tokens.verify c o)
  | OpRecordIssued t => Tokens.record_issued t
  | OpRecordAudit e => Tokens.record_audit e
  | OpAddGroup n d => unit_of (Groups.add_group n d)
  | OpAddGroupMember g u => Groups.add_group_member g u
  | OpRemoveGroupMember g u => Groups.remove_group_member g u
  | OpAddGroupGroup p m => Groups.add_group_group p m
  | OpRemoveGroupGroup p m => Groups.remove_group_group p m
  | OpListGroups => unit_of Groups.list_groups
  | OpListGroupMembers g => unit_of (Groups.list_group_members g)
  | OpListGroupGroups g => unit_of (Groups.list_group_groups g)
  | OpAddGrant t i r o => unit_of (Grants.add_grant t i r o)
  | OpRemoveGrant t i r o => Grants.remove_grant t i r o
  | OpListGrants r => unit_of (Grants.list_grants r)
  | OpGrantsForUser u r => unit_of (Grants.grants_for_user_on_repository u r)
  | OpAudited actor op => run_audited actor op
  | OpAddTestUser u => unit_of (Accounts.add_test_user u)
  | OpDisableTestUser u => Accounts.disable_test_user u
  | OpAddTestResource r => unit_of (Resources.add_test_resource r)
  | OpAddTestIdentity i => unit_of (Accounts.add_test_external_identity i)
  | OpGrantRole u r o => Grants.grant_role u r o
  end.

(** A run of operations, in the order in which they took the lock. *)
Fixpoint run_ops (ops : list store_op) (w : World State)
    : list (store_op * result CoreError ()) * World State :=
  match ops with
  | [] => ([], w)
  | op :: ops =>
      let '(r, w1) := run_op op w in
      let '(rs, w2) := run_ops ops w1 in
      ((op, r) :: rs, w2)
  end.

(** Worlds reachable from a new store by operations of its ports. *)
Inductive reachable : World State → Prop :=
  | reachable_new : reachable (mkWorld default_State 0 0)
  | reachable_step w op : reachable w → reachable (run_op op w).2.
End Run.

(** The operations, for unfolding them in bulk. *)
Create HintDb store_ops.
#[export] Hint Unfold unit_of
  Accounts.resolve_login Accounts.claim_invitation Accounts.bind_invitation Accounts.existing_login
  Accounts.principal_by_user_id Accounts.principal_by_authn_token_jti Accounts.add_user
  Accounts.invited Accounts.add_invitation Accounts.disable_user Accounts.enable_user
  Accounts.user_by_id Accounts.list_users Accounts.add_test_user Accounts.disable_test_user
  Accounts.add_test_external_identity Grants.can_access Grants.list_accessible Grants.add_grant
  Grants.remove_grant Grants.list_grants Grants.grants_for_user_on_repository Grants.grant_role
  Resources.upsert Resources.add_test_resource Resources.delete_resource Resources.get_by_id
  Resources.get_by_resource_id Resources.get_by_name Resources.list_resources
  Devices.device_by_user_code Devices.device_by_device_code Sessions.get_auth_session_by_code
  Sessions.get_auth_session_by_nonce not_expired Sessions.create_browser_session
  Sessions.user_by_browser_session Sessions.revoke_browser_session Tokens.sign_authn
  Tokens.sign_authz Tokens.verify Tokens.record_issued Tokens.record_audit ensure_jti unix_or_now
  unix_after Groups.add_group Groups.add_group_member Groups.remove_group_member
  Groups.add_group_group Groups.remove_group_group Groups.list_groups Groups.list_group_members
  Groups.list_group_groups Audited.push_audit admin_audit_entry Audited.add_group
  Audited.add_group_member Audited.remove_group_member Audited.add_group_group
  Audited.remove_group_group Audited.add_grant Audited.remove_grant Audited.add_user
  Audited.add_invitation Audited.disable_user Audited.enable_user Audited.upsert
  Audited.delete_resource : store_ops.

(** * The state machines *)

Inductive device_step : DeviceAuthorization → DeviceAuthorization → Prop :=
  | ds_approve d user_id now :
      da_status d = "pending" → device_step d (device_approved user_id now d)
  | ds_consume d now : da_status d = "approved" → device_step d (device_consumed now d)
  | ds_expire d : da_status d = "pending" → device_step d (device_expired d).

Inductive session_step : AuthSession → AuthSession → Prop :=
  | ss_complete s user_id : as_status s = "pending" → session_step s (session_completed user_id s)
  | ss_consume s : as_status s = "completed" → session_step s (session_consumed s).

(** A used CSRF token stays used. *)
Definition csrf_progress (c c' : CsrfToken) : Prop :=
  ct_session_id c' = ct_session_id c ∧ ct_expires_at c' = ct_expires_at c
  ∧ (ct_consumed c = true → ct_consumed c' = true).

Lemma device_consumed_final d d' :
  rtc device_step d d' → da_status d = "consumed" → d' = d.
Proof. induction 1 as [|d d1 d' Hs _ IH]; intros Hd; [done|]. inversion Hs; congruence. Qed.

Lemma device_not_pending d d' :
  rtc device_step d d' → da_status d ≠ "pending" → da_status d' ≠ "pending".
Proof.
  induction 1 as [|d d1 d' Hs _ IH]; intros Hd; [done|]. apply IH. by inversion Hs.
Qed.

Lemma session_consumed_final s s' :
  rtc session_step s s' → as_status s = "consumed" → s' = s.
Proof. induction 1 as [|s s1 s' Hs _ IH]; intros Hd; [done|]. inversion Hs; congruence. Qed.

Lemma session_not_pending s s' :
  rtc session_step s s' → as_status s ≠ "pending" → as_status s' ≠ "pending".
Proof.
  induction 1 as [|s s1 s' Hs _ IH]; intros Hd; [done|]. apply IH. by inversion Hs.
Qed.

Section Evolution.
Context `{Env}.
(** UUIDs do not repeat, and neither do their digests. *)
Context (uuid_unique : ∀ i j, hash_secret (uuid_src i) = hash_secret (uuid_src j) → i = j).

Definition drawn (w : World State) (x : string) : Prop := ∃ n, n < draws w ∧ x = uuid_src n.
Definition drawn_hash (w : World State) (x : string) : Prop :=
  ∃ n, n < draws w ∧ x = hash_secret (uuid_src n).

Record wf_world (w : World State) : Prop := {
  wf_device : ∀ id d, device_authorizations (st w) !! id = Some d → da_id d = id ∧ drawn w id;
  wf_session : ∀ id s, auth_sessions (st w) !! id = Some s → as_id s = id ∧ drawn w id;
  wf_csrf : ∀ h c, csrf_tokens (st w) !! h = Some c → drawn_hash w h;
  wf_login : ∀ h l, login_states (st w) !! h = Some l → drawn_hash w h
}.

Record progress (w w' : World State) : Prop := {
  pr_draws : draws w ≤ draws w';
  pr_device : ∀ id d, device_authorizations (st w) !! id = Some d →
    ∃ d', device_authorizations (st w') !! id = Some d' ∧ rtc device_step d d';
  pr_session : ∀ id s, auth_sessions (st w) !! id = Some s →
    ∃ s', auth_sessions (st w') !! id = Some s' ∧ rtc session_step s s';
  pr_csrf : ∀ h c, csrf_tokens (st w) !! h = Some c →
    ∃ c', csrf_tokens (st w') !! h = Some c' ∧ csrf_progress c c';
  pr_login : ∀ h, drawn_hash w h → login_states (st w) !! h = None →
    login_states (st w') !! h = None
}.

Definition evolution (w w' : World State) : Prop :=
  wf_world w → wf_world w' ∧ progress w w'.

Lemma drawn_mono w w' x : draws w ≤ draws w' → drawn w x → drawn w' x.
Proof. intros Hd (n & Hn & ->). exists n. split; [lia|done]. Qed.
Lemma drawn_hash_mono w w' x : draws w ≤ draws w' → drawn_hash w x → drawn_hash w' x.
Proof. intros Hd (n & Hn & ->). exists n. split; [lia|done]. Qed.

Lemma progress_refl w w' : draws w ≤ draws w' → st w = st w' → progress w w'.
Proof.
  intros Hd Hs. split; rewrite <- ?Hs; eauto using rtc_refl.
  intros h c Hc. exists c. done.
Qed.

Lemma progress_trans w1 w2 w3 : progress w1 w2 → progress w2 w3 → progress w1 w3.
Proof.
  intros [H1 H2 H3 H4 H5] [G1 G2 G3 G4 G5]. split.
  - lia.
  - intros id d (d' & Hd' & Hr)%H2. apply G2 in Hd' as (d2 & ? & ?). exists d2. split; [done|]. by etrans.
  - intros id d (d' & Hd' & Hr)%H3. apply G3 in Hd' as (d2 & ? & ?). exists d2. split; [done|]. by etrans.
  - intros h c (c' & Hc' & A1 & A2 & A3)%H4. apply G4 in Hc' as (c'' & ? & B1 & B2 & B3).
    exists c''. split; [done|]. split_and!; [congruence..|auto].
  - intros h Hh Hn. apply G5; [by eapply drawn_hash_mono|by apply H5].
Qed.

Lemma wf_world_same w w' : draws w ≤ draws w' → st w = st w' → wf_world w → wf_world w'.
Proof.
  intros Hd Hs [H1 H2 H3 H4]. split; rewrite <- Hs.
  - intros id d [? ?]%H1. split; [done|]. by eapply drawn_mono.
  - intros id d [? ?]%H2. split; [done|]. by eapply drawn_mono.
  - intros h c ?%H3. by eapply drawn_hash_mono.
  - intros h c ?%H4. by eapply drawn_hash_mono.
Qed.

#[export] Instance evolution_order : WorldOrder evolution.
Proof.
  split.
  - intros w Hw. split; [done|]. by apply progress_refl.
  - intros w1 w2 w3 H12 H23 [Hw2 Hp]%H12. destruct (H23 Hw2) as [Hw3 Hp'].
    split; [done|]. by eapply progress_trans.
  - intros s t d Hw. split; [by eapply wf_world_same; [| |exact Hw]|].
    by apply progress_refl.
  - intros s t d Hw. split; [eapply wf_world_same; [| |exact Hw]; [simpl; lia|done]|].
    apply progress_refl; [simpl; lia|done].
Qed.

(** A mutation that leaves the four tables alone. *)
Lemma evolves_frame {E} (f : State → State) :
  (∀ s, (device_authorizations (f s), auth_sessions (f s), csrf_tokens (f s), login_states (f s))
        = (device_authorizations s, auth_sessions s, csrf_tokens s, login_states s)) →
  evolves (E := E) evolution (modify_state f).
Proof.
  intros Hf w [H1 H2 H3 H4]. specialize (Hf (st w)). injection Hf as F1 F2 F3 F4.
  split; split; simpl; rewrite ?F1, ?F2, ?F3, ?F4; eauto using rtc_refl.
  intros h c Hc. exists c. done.
Qed.

(** The mutations of each table. *)
Lemma evolution_device_update w id d d' :
  device_authorizations (st w) !! id = Some d → rtc device_step d d' → da_id d' = da_id d →
  evolution w (mkWorld (upd_device_authorizations (<[id := d']>) (st w)) (ticks w) (draws w)).
Proof.
  intros Hd Hs Hid [H1 H2 H3 H4]. split; split; simpl; eauto using rtc_refl.
  - intros id0 d0. destruct (decide (id0 = id)) as [->|Hne].
    + rewrite lookup_insert_eq. intros [= <-]. rewrite Hid. by eapply H1.
    + rewrite lookup_insert_ne by done. apply H1.
  - intros id0 d0 Hd0. destruct (decide (id0 = id)) as [->|Hne].
    + rewrite lookup_insert_eq. rewrite Hd in Hd0. simplify_eq. eauto.
    + rewrite lookup_insert_ne by done. eauto using rtc_refl.
  - intros h c Hc. exists c. done.
Qed.

Lemma evolution_session_update w id s s' :
  auth_sessions (st w) !! id = Some s → rtc session_step s s' → as_id s' = as_id s →
  evolution w (mkWorld (upd_auth_sessions (<[id := s']>) (st w)) (ticks w) (draws w)).
Proof.
  intros Hd Hs Hid [H1 H2 H3 H4]. split; split; simpl; eauto using rtc_refl.
  - intros id0 d0. destruct (decide (id0 = id)) as [->|Hne].
    + rewrite lookup_insert_eq. intros [= <-]. rewrite Hid. by eapply H2.
    + rewrite lookup_insert_ne by done. apply H2.
  - intros id0 d0 Hd0. destruct (decide (id0 = id)) as [->|Hne].
    + rewrite lookup_insert_eq. rewrite Hd in Hd0. simplify_eq. eauto.
    + rewrite lookup_insert_ne by done. eauto using rtc_refl.
  - intros h c Hc. exists c. done.
Qed.

Lemma evolution_csrf_update w h c c' :
  csrf_tokens (st w) !! h = Some c → csrf_progress c c' →
  evolution w (mkWorld (upd_csrf_tokens (<[h := c']>) (st w)) (ticks w) (draws w)).
Proof.
  intros Hc Hp [H1 H2 H3 H4]. split; split; simpl; eauto using rtc_refl.
  - intros h0 c0. destruct (decide (h0 = h)) as [->|Hne].
    + intros _. by eapply H3.
    + rewrite lookup_insert_ne by done. apply H3.
  - intros h0 c0 Hc0. destruct (decide (h0 = h)) as [->|Hne].
    + rewrite lookup_insert_eq. rewrite Hc in Hc0. simplify_eq. eauto.
    + rewrite lookup_insert_ne by done. exists c0. done.
Qed.

Lemma evolution_login_same_dom w f :
  (∀ h, is_Some (f (login_states (st w)) !! h) → is_Some (login_states (st w) !! h)) →
  evolution w (mkWorld (upd_login_states f (st w)) (ticks w) (draws w)).
Proof.
  intros Hf [H1 H2 H3 H4]. split; split; simpl; eauto using rtc_refl.
  - intros h l Hl. destruct (Hf h) as [l' Hl']; [eauto|]. by eapply H4.
  - intros h c Hc. exists c. done.
  - intros h _ Hn. destruct (f _ !! h) eqn:Hfh; [|done].
    destruct (Hf h) as [l' Hl']; [by rewrite Hfh|congruence].
Qed.

(** A UUID drawn now is in no table. *)
Lemma drawn_fresh w : ¬ drawn w (uuid_src (draws w)).
Proof.
  intros (n & Hn & Heq). assert (draws w = n) as <-; [|lia].
  apply uuid_unique. by rewrite Heq.
Qed.
Lemma drawn_hash_fresh w : ¬ drawn_hash w (hash_secret (uuid_src (draws w))).
Proof.
  intros (n & Hn & Heq). assert (draws w = n) as <-; [|lia]. by apply uuid_unique.
Qed.

(** ** Every operation moves the world along [evolution] *)

Ltac leaf := first [apply evolves_frame; done | eauto with handler typeclass_instances].
Ltac framed := evolve; try leaf.

Lemma create_device_evolves input : evolves evolution (Devices.create_device_authorization input).
Proof.
  intros w. unfold Devices.create_device_authorization, unix_after.
  destruct (_ || _); [apply wo_refl|]. mrun. intros Hw. destruct Hw as [H1 H2 H3 H4] eqn:Ew.
  assert (device_authorizations (st w) !! uuid_src (draws w) = None) as Hfresh.
  { destruct (_ !! uuid_src (draws w)) as [d|] eqn:Hd; [|done].
    destruct (H1 _ _ Hd) as [_ Hdr]. by destruct (drawn_fresh w). }
  split; split; simpl; eauto using rtc_refl.
  - intros id d. destruct (decide (id = uuid_src (draws w))) as [->|Hne].
    + rewrite lookup_insert_eq. intros [= <-]. split; [done|]. exists (draws w). simpl. auto with lia.
    + rewrite lookup_insert_ne by done. intros [? Hdr]%H1. split; [done|].
      eapply drawn_mono; [|exact Hdr]. simpl. lia.
  - intros id s [? Hdr]%H2. split; [done|]. eapply drawn_mono; [|exact Hdr]. simpl. lia.
  - intros h c Hdr%H3. eapply drawn_hash_mono; [|exact Hdr]. simpl. lia.
  - intros h c Hdr%H4. eapply drawn_hash_mono; [|exact Hdr]. simpl. lia.
  - intros id d Hd. exists d. rewrite lookup_insert_ne by congruence. split; [done|apply rtc_refl].
  - intros h c Hc. exists c. done.
Qed.

Lemma approve_device_evolves id u : evolves evolution (Devices.approve_device_authorization id u).
Proof.
  intros w. unfold Devices.approve_device_authorization. mrun.
  destruct (device_authorizations (st w) !! id) as [d|] eqn:Hd; [|apply wo_refl].
  destruct (String.eqb_spec (da_status d) "pending") as [Hp|]; simpl; [|apply wo_refl].
  destruct (_ <=? _)%Z; simpl; [destruct w; apply wo_tick|].
  eapply wo_trans; [|eapply (evolution_device_update (mkWorld (st w) _ _)); [exact Hd| |done];
    apply rtc_once; by constructor].
  destruct w. eapply wo_trans; apply wo_tick.
Qed.

Lemma consume_device_evolves id : evolves evolution (Devices.consume_device_authorization id).
Proof.
  intros w. unfold Devices.consume_device_authorization. mrun.
  destruct (device_authorizations (st w) !! id) as [d|] eqn:Hd; [|apply wo_refl].
  destruct (String.eqb_spec (da_status d) "approved") as [Hp|]; simpl; [|apply wo_refl].
  eapply wo_trans; [|eapply (evolution_device_update (mkWorld (st w) _ _)); [exact Hd| |done];
    apply rtc_once; by constructor].
  destruct w. apply wo_tick.
Qed.

Lemma expire_device_evolves id : evolves evolution (Devices.expire_device_authorization id).
Proof.
  intros w. unfold Devices.expire_device_authorization. mrun.
  destruct (device_authorizations (st w) !! id) as [d|] eqn:Hd; [|apply wo_refl].
  destruct (String.eqb_spec (da_status d) "pending") as [Hp|]; simpl; [|apply wo_refl].
  eapply evolution_device_update; [exact Hd| |done]. apply rtc_once. by constructor.
Qed.

Lemma create_session_evolves c ttl : evolves evolution (Sessions.create_auth_session c ttl).
Proof.
  intros w. unfold Sessions.create_auth_session, unix_after. mrun.
  intros Hw. destruct Hw as [H1 H2 H3 H4].
  assert (auth_sessions (st w) !! uuid_src (S (draws w)) = None) as Hfresh.
  { destruct (_ !! uuid_src (S (draws w))) as [d|] eqn:Hd; [|done].
    destruct (H2 _ _ Hd) as [_ Hdr]. destruct (drawn_fresh (mkWorld (st w) (ticks w) (S (draws w)))).
    eapply drawn_mono; [|exact Hdr]. simpl. lia. }
  split; split; simpl; eauto using rtc_refl; try lia.
  - intros id d [? Hdr]%H1. split; [done|]. eapply drawn_mono; [|exact Hdr]. simpl. lia.
  - intros id s. destruct (decide (id = uuid_src (S (draws w)))) as [->|Hne].
    + rewrite lookup_insert_eq. intros [= <-]. split; [done|]. exists (S (draws w)). simpl. auto with lia.
    + rewrite lookup_insert_ne by done. intros [? Hdr]%H2. split; [done|].
      eapply drawn_mono; [|exact Hdr]. simpl. lia.
  - intros h c0 Hdr%H3. eapply drawn_hash_mono; [|exact Hdr]. simpl. lia.
  - intros h c0 Hdr%H4. eapply drawn_hash_mono; [|exact Hdr]. simpl. lia.
  - intros id d Hd. exists d. rewrite lookup_insert_ne by congruence. split; [done|apply rtc_refl].
  - intros h c0 Hc. exists c0. done.
Qed.

Lemma complete_session_evolves id u : evolves evolution (Sessions.complete_auth_session id u).
Proof.
  intros w. unfold Sessions.complete_auth_session. mrun.
  destruct (auth_sessions (st w) !! id) as [d|] eqn:Hd; [|apply wo_refl].
  destruct (String.eqb_spec (as_status d) "pending") as [Hp|]; simpl; [|apply wo_refl].
  destruct (_ <=? _)%Z; simpl; [destruct w; apply wo_tick|].
  eapply wo_trans; [|eapply (evolution_session_update (mkWorld (st w) _ _)); [exact Hd| |done];
    apply rtc_once; by constructor].
  destruct w. apply wo_tick.
Qed.

Lemma consume_session_evolves id : evolves evolution (Sessions.consume_auth_session id).
Proof.
  intros w. unfold Sessions.consume_auth_session. mrun.
  destruct (auth_sessions (st w) !! id) as [d|] eqn:Hd; [|apply wo_refl].
  destruct (String.eqb_spec (as_status d) "completed") as [Hp|]; simpl; [|apply wo_refl].
  destruct (_ <=? _)%Z; simpl; [destruct w; apply wo_tick|].
  eapply wo_trans; [|eapply (evolution_session_update (mkWorld (st w) _ _)); [exact Hd| |done];
    apply rtc_once; by constructor].
  destruct w. apply wo_tick.
Qed.

Lemma create_login_state_evolves i ttl : evolves evolution (Sessions.create_login_state i ttl).
Proof.
  intros w. unfold Sessions.create_login_state, unix_after. mrun.
  intros Hw. destruct Hw as [H1 H2 H3 H4].
  split; split; simpl; eauto using rtc_refl; try lia.
  - intros id d [? Hdr]%H1. split; [done|]. eapply drawn_mono; [|exact Hdr]. simpl. lia.
  - intros id d [? Hdr]%H2. split; [done|]. eapply drawn_mono; [|exact Hdr]. simpl. lia.
  - intros h c0 Hdr%H3. eapply drawn_hash_mono; [|exact Hdr]. simpl. lia.
  - intros h l. destruct (decide (h = hash_secret (uuid_src (draws w)))) as [->|Hne].
    + intros _. exists (draws w). simpl. auto with lia.
    + rewrite lookup_insert_ne by done. intros Hdr%H4. eapply drawn_hash_mono; [|exact Hdr]. simpl. lia.
  - intros h c0 Hc. exists c0. done.
  - intros h Hh Hn. rewrite lookup_insert_ne; [done|]. intros <-. by apply (drawn_hash_fresh w).
Qed.

Lemma set_private_state_evolves s p : evolves evolution (Sessions.set_login_state_private_state s p).
Proof.
  intros w. unfold Sessions.set_login_state_private_state. mrun.
  destruct (login_states (st w) !! hash_secret s) as [l|] eqn:Hl; [|apply wo_refl].
  destruct (_ <=? _)%Z; simpl; [destruct w; apply wo_tick|].
  eapply wo_trans; [|eapply (evolution_login_same_dom (mkWorld (st w) _ _))].
  - destruct w. apply wo_tick.
  - simpl. intros h. destruct (decide (h = hash_secret s)) as [->|Hne]; [by rewrite Hl|].
    by rewrite lookup_insert_ne.
Qed.

Lemma consume_login_state_evolves s : evolves evolution (Sessions.consume_login_state s).
Proof.
  unfold Sessions.consume_login_state. evolve. intros w.
  eapply evolution_login_same_dom. intros h [l [_ Hl]%lookup_delete_Some]. eauto.
Qed.

Lemma create_csrf_evolves s ttl : evolves evolution (Sessions.create_csrf_token s ttl).
Proof.
  intros w. unfold Sessions.create_csrf_token, unix_after. mrun.
  intros Hw. destruct Hw as [H1 H2 H3 H4].
  assert (csrf_tokens (st w) !! hash_secret (uuid_src (draws w)) = None) as Hfresh.
  { destruct (_ !! hash_secret (uuid_src (draws w))) as [d|] eqn:Hd; [|done].
    destruct (drawn_hash_fresh w). by eapply H3. }
  split; split; simpl; eauto using rtc_refl; try lia.
  - intros id d [? Hdr]%H1. split; [done|]. eapply drawn_mono; [|exact Hdr]. simpl. lia.
  - intros id d [? Hdr]%H2. split; [done|]. eapply drawn_mono; [|exact Hdr]. simpl. lia.
  - intros h c. destruct (decide (h = hash_secret (uuid_src (draws w)))) as [->|Hne].
    + intros _. exists (draws w). simpl. auto with lia.
    + rewrite lookup_insert_ne by done. intros Hdr%H3. eapply drawn_hash_mono; [|exact Hdr]. simpl. lia.
  - intros h c0 Hdr%H4. eapply drawn_hash_mono; [|exact Hdr]. simpl. lia.
  - intros h c Hc. exists c. rewrite lookup_insert_ne by congruence. done.
Qed.

Lemma consume_csrf_evolves s t : evolves evolution (Sessions.consume_csrf_token s t).
Proof.
  intros w. unfold Sessions.consume_csrf_token. mrun.
  destruct (csrf_tokens (st w) !! hash_secret t) as [c|] eqn:Hc; [|apply wo_refl].
  destruct (_ || _); simpl; [apply wo_refl|].
  destruct (_ <=? _)%Z; simpl; [destruct w; apply wo_tick|].
  eapply wo_trans; [|eapply (evolution_csrf_update (mkWorld (st w) _ _)); [exact Hc|done]].
  destruct w. apply wo_tick.
Qed.

Lemma accessible_entries_evolves prefix l acc :
  evolves evolution (Grants.accessible_entries prefix l acc).
Proof. revert acc. induction l as [|[r o] l IH]; intros acc; simpl; framed. Qed.
Hint Resolve accessible_entries_evolves : handler.

Lemma accessible_subjects_evolves s prefix l acc :
  evolves evolution (Grants.accessible_subjects s prefix l acc).
Proof. revert acc. induction l as [|x l IH]; intros acc; simpl; framed. Qed.
Hint Resolve accessible_subjects_evolves : handler.

Hint Resolve create_device_evolves approve_device_evolves consume_device_evolves
  expire_device_evolves create_session_evolves complete_session_evolves
  consume_session_evolves create_login_state_evolves set_private_state_evolves
  consume_login_state_evolves create_csrf_evolves consume_csrf_evolves : handler.

Lemma run_op_evolves op : evolves evolution (run_op op).
Proof.
  destruct op; simpl; try match goal with op : audited_op |- _ => destruct op; simpl end;
    autounfold with store_ops; framed.
Qed.
End Evolution.

(** * One-shot credentials *)

(** What can be used at most once, by the operation that uses it. *)
Inductive one_shot :=
  | ShotApproveDevice (id : string)
  | ShotConsumeDevice (id : string)
  | ShotCompleteSession (id : string)
  | ShotConsumeSession (id : string)
  | ShotCsrf (token : string)
  | ShotLoginState (state : string).

#[export] Instance one_shot_eq_dec : EqDecision one_shot.
Proof. solve_decision. Defined.

Definition shot_of (op : store_op) : option one_shot :=
  match op with
  | OpApproveDevice id _ => Some (ShotApproveDevice id)
  | OpConsumeDevice id => Some (ShotConsumeDevice id)
  | OpCompleteSession id _ => Some (ShotCompleteSession id)
  | OpConsumeSession id => Some (ShotConsumeSession id)
  | OpConsumeCsrf _ token => Some (ShotCsrf token)
  | OpConsumeLoginState state => Some (ShotLoginState state)
  | _ => None
  end.

(** How often a trace used a credential with success. *)
Definition uses (shot : one_shot) (trace : list (store_op * result CoreError ())) : nat :=
  length (filter (λ e, shot_of e.1 = Some shot ∧ e.2 = Ok tt) trace).

Section OneShot.
Context `{Env}.
Context (uuid_unique : ∀ i j, hash_secret (uuid_src i) = hash_secret (uuid_src j) → i = j).

(** The credential is used up. *)
Definition spent (w : World State) (shot : one_shot) : Prop :=
  match shot with
  | ShotApproveDevice id =>
      ∃ d, device_authorizations (st w) !! id = Some d ∧ da_status d ≠ "pending"
  | ShotConsumeDevice id =>
      ∃ d, device_authorizations (st w) !! id = Some d ∧ da_status d = "consumed"
  | ShotCompleteSession id =>
      ∃ s, auth_sessions (st w) !! id = Some s ∧ as_status s ≠ "pending"
  | ShotConsumeSession id =>
      ∃ s, auth_sessions (st w) !! id = Some s ∧ as_status s = "consumed"
  | ShotCsrf token =>
      ∃ c, csrf_tokens (st w) !! hash_secret token = Some c ∧ ct_consumed c = true
  | ShotLoginState state =>
      drawn_hash w (hash_secret state) ∧ login_states (st w) !! hash_secret state = None
  end.

Lemma spent_progress w w' shot : progress w w' → spent w shot → spent w' shot.
Proof.
  intros [P1 P2 P3 P4 P5]. destruct shot; simpl.
  - intros (d & (d' & Hd' & Hr)%P2 & Hs). exists d'. eauto using device_not_pending.
  - intros (d & (d' & Hd' & Hr)%P2 & Hs). exists d'.
    rewrite (device_consumed_final _ _ Hr Hs) in *. done.
  - intros (d & (d' & Hd' & Hr)%P3 & Hs). exists d'. eauto using session_not_pending.
  - intros (d & (d' & Hd' & Hr)%P3 & Hs). exists d'.
    rewrite (session_consumed_final _ _ Hr Hs) in *. done.
  - intros (c & (c' & Hc' & _ & _ & Hc)%P4 & Hs). exists c'. auto.
  - intros [Hd Hn]. split; [by eapply drawn_hash_mono|auto].
Qed.

(** Using a credential succeeds only while it is not used up, and uses it up. *)
Lemma use_spends w op shot w' :
  wf_world w → shot_of op = Some shot → run_op op w = (Ok tt, w') →
  ¬ spent w shot ∧ spent w' shot.
Proof.
  intros Hw Hshot Hrun. destruct op; simpl in Hshot; simplify_eq; simpl in Hrun.
  - unfold Devices.approve_device_authorization in Hrun. mrun.
    destruct (device_authorizations (st w) !! id) as [d|] eqn:Hd; [|done].
    destruct (String.eqb_spec (da_status d) "pending") as [Hp|]; simpl in *; [|done].
    destruct (_ <=? _)%Z; simplify_eq/=. rewrite lookup_insert_eq.
    split; [intros (? & ? & ?); congruence|]. by eexists.
  - unfold Devices.consume_device_authorization in Hrun. mrun.
    destruct (device_authorizations (st w) !! id) as [d|] eqn:Hd; [|done].
    destruct (String.eqb_spec (da_status d) "approved") as [Hp|]; simplify_eq/=.
    rewrite lookup_insert_eq. split; [intros (? & ? & ?); congruence|]. by eexists.
  - unfold Sessions.complete_auth_session in Hrun. mrun.
    destruct (auth_sessions (st w) !! id) as [d|] eqn:Hd; [|done].
    destruct (String.eqb_spec (as_status d) "pending") as [Hp|]; simpl in *; [|done].
    destruct (_ <=? _)%Z; simplify_eq/=. rewrite lookup_insert_eq.
    split; [intros (? & ? & ?); congruence|]. by eexists.
  - unfold Sessions.consume_auth_session in Hrun. mrun.
    destruct (auth_sessions (st w) !! id) as [d|] eqn:Hd; [|done].
    destruct (String.eqb_spec (as_status d) "completed") as [Hp|]; simpl in *; [|done].
    destruct (_ <=? _)%Z; simplify_eq/=. rewrite lookup_insert_eq.
    split; [intros (? & ? & ?); congruence|]. by eexists.
  - unfold unit_of, Sessions.consume_login_state in Hrun. mrun.
    destruct (login_states (st w) !! hash_secret state) as [l|] eqn:Hl; [|done].
    destruct (_ <? _)%Z; simplify_eq/=. split; [naive_solver|].
    split; [|apply lookup_delete_eq]. exact (wf_login w Hw _ _ Hl).
  - unfold Sessions.consume_csrf_token in Hrun. mrun.
    destruct (csrf_tokens (st w) !! hash_secret token) as [c|] eqn:Hc; [|done].
    destruct (negb _ || ct_consumed c) eqn:Ht; simpl in *; [done|].
    destruct (_ <=? _)%Z; simplify_eq/=. rewrite lookup_insert_eq.
    apply orb_false_iff in Ht as [_ Ht]. split; [intros (? & ? & ?); congruence|]. by eexists.
Qed.

Lemma spent_uses_zero ops w shot trace w' :
  wf_world w → spent w shot → run_ops ops w = (trace, w') → uses shot trace = 0.
Proof.
  revert w trace. induction ops as [|op ops IH]; intros w trace Hw Hs; simpl; [naive_solver|].
  destruct (run_op op w) as [r w1] eqn:Hr. destruct (run_ops ops w1) as [rs w2] eqn:Ho.
  intros [= <- <-]. pose proof (run_op_evolves uuid_unique op w Hw) as [Hw1 Hp].
  rewrite Hr in Hw1, Hp. simpl in *. unfold uses. rewrite filter_cons.
  rewrite decide_False.
  - eapply IH; [exact Hw1|by eapply spent_progress|exact Ho].
  - intros [Hsh Hok]; simpl in *. subst r. by destruct (use_spends w op shot w1 Hw Hsh Hr).
Qed.

Lemma uses_at_most_once ops w shot trace w' :
  wf_world w → run_ops ops w = (trace, w') → uses shot trace ≤ 1.
Proof.
  revert w trace. induction ops as [|op ops IH]; intros w trace Hw; simpl; [intros [= <- _]; cbn; lia|].
  destruct (run_op op w) as [r w1] eqn:Hr. destruct (run_ops ops w1) as [rs w2] eqn:Ho.
  intros [= <- <-]. pose proof (run_op_evolves uuid_unique op w Hw) as [Hw1 Hp].
  rewrite Hr in Hw1, Hp. simpl in *. unfold uses. rewrite filter_cons.
  case_decide as Hd; [|by eapply IH].
  destruct Hd as [Hsh Hok]; simpl in *. subst r.
  destruct (use_spends w op shot w1 Hw Hsh Hr) as [_ Hsp].
  pose proof (spent_uses_zero ops w1 shot rs w2 Hw1 Hsp Ho) as Hz. unfold uses in Hz. lia.
Qed.

Lemma wf_new : wf_world (mkWorld default_State 0 0).
Proof. split; simpl; intros ? ?; by rewrite lookup_empty. Qed.

Lemma reachable_wf w : reachable w → wf_world w.
Proof.
  induction 1 as [|w op _ IH]; [apply wf_new|].
  by destruct (run_op_evolves uuid_unique op w IH).
Qed.
End OneShot.
