(* ===== verification/ModelFacts.v ===== *)
(** The pure rules of the domain: identifiers are canonical, identity keys do not
    collide, and no role puts [admin] in a token. *)

From Stdlib Require Import ZArith Lia Ascii.
From stdpp Require Import base gmap strings list.
From S2P Require Import Prelude Model MemState.

(** * Identifiers *)

Lemma repository_id_byte_solid c : repository_id_byte c = true → solid c = true.
Proof.
  unfold repository_id_byte, is_ascii_alphanumeric, solid, is_ws1.
  destruct (Ascii.eqb_spec c "-"%char) as [->|]; [done|].
  destruct (Ascii.eqb_spec c "_"%char) as [->|]; [done|].
  rewrite !orb_false_r. clear. generalize (nat_of_ascii c). intros n Hn.
  destruct (n <? 128) eqn:H1, (9 <=? n) eqn:H2, (n <=? 13) eqn:H3, (n =? 32) eqn:H4; simpl; try done;
    rewrite ?Nat.ltb_lt, ?Nat.ltb_ge, ?Nat.leb_le, ?Nat.leb_gt, ?Nat.eqb_eq, ?Nat.eqb_neq in *;
    rewrite !orb_true_iff, !andb_true_iff, !Nat.leb_le in Hn; lia.
Qed.

(** What [normalize_valid_lore_repository_id] accepts. *)
Record valid_repository_id (id : string) : Prop := {
  vr_not_empty : id ≠ "";
  vr_length : String.length id ≤ 128;
  vr_bytes : all_bytes repository_id_byte id = true
}.

Lemma valid_repository_id_trim id : valid_repository_id id → trim id = id.
Proof.
  intros [_ _ Hb]. apply trim_all_solid. eapply all_bytes_impl; [|exact Hb].
  apply repository_id_byte_solid.
Qed.

Lemma normalize_valid_lore_repository_id_Some v id :
  normalize_valid_lore_repository_id v = Some id ↔ id = trim v ∧ valid_repository_id id.
Proof.
  unfold normalize_valid_lore_repository_id.
  destruct (is_empty (trim v) || _ || _) eqn:Ht.
  - split; [done|]. intros [-> [H1 H2 H3]]. apply is_empty_false in H1.
    rewrite H1, H3 in Ht. simpl in Ht. rewrite orb_false_r in Ht. apply Nat.ltb_lt in Ht. lia.
  - apply orb_false_iff in Ht as [[H1%is_empty_false H2%Nat.ltb_ge]%orb_false_iff H3%negb_false_iff].
    split; [intros [= <-]; done|]. by intros [-> _].
Qed.

Lemma validated_lore_repository_id_Ok v id :
  validated_lore_repository_id v = Ok id ↔ id = trim v ∧ valid_repository_id id.
Proof.
  unfold validated_lore_repository_id. rewrite <- normalize_valid_lore_repository_id_Some.
  destruct (normalize_valid_lore_repository_id v); naive_solver.
Qed.

Lemma strip_prefix_valid id r :
  valid_repository_id id → strip_prefix "urc-" id = Some r → r = "" ∨ valid_repository_id r.
Proof.
  intros [_ Hl Hb] Hs. apply strip_prefix_Some in Hs as ->.
  rewrite all_bytes_app in Hb. apply andb_true_iff in Hb as [_ Hb].
  destruct (decide (r = "")); [by left|right]. split; [done| |done].
  change (S (S (S (S (String.length r)))) ≤ 128) in Hl. lia.
Qed.

Lemma for_repository_id_Some id rid :
  for_repository_id id = Some rid →
  id ≠ "" ∧ starts_with "urc-" rid = true
  ∧ (rid = id ∧ starts_with "urc-" id = true ∨ rid = "urc-" +:+ id ∧ starts_with "urc-" id = false).
Proof.
  unfold for_repository_id. destruct (is_empty id) eqn:He; [done|]. apply is_empty_false in He.
  destruct (starts_with "urc-" id) eqn:Hs; intros [= <-]; split_and!; auto using starts_with_app.
Qed.

(** [ResourceID] conversions, as far as they are inverse to each other. *)
Lemma repository_id_round_trip id :
  id ≠ "" → starts_with "urc-" id = false →
  ∃ rid, for_repository_id id = Some rid ∧ repository_id_from_resource_id rid = id.
Proof.
  intros He%is_empty_false Hs. exists ("urc-" +:+ id). unfold for_repository_id.
  rewrite He, Hs. split; [done|]. unfold repository_id_from_resource_id.
  by rewrite strip_prefix_app.
Qed.

Record canonical_resource (r : Resource) : Prop := {
  cr_repository : valid_repository_id (r_lore_repository_id r);
  cr_resource : for_repository_id (r_lore_repository_id r) = Some (r_resource_id r)
}.

Lemma normalize_resource_for_upsert_Ok r r' :
  normalize_resource_for_upsert r = Ok r' →
  canonical_resource r'
  ∧ (r_id r', r_name r', r_remote_url r', r_status r')
    = (r_id r, r_name r, r_remote_url r, r_status r)
  ∧ r_lore_repository_id r' =
      trim (if is_empty (trim (r_resource_id r)) then r_lore_repository_id r
            else repository_id_from_resource_id (trim (r_resource_id r))).
Proof.
  unfold normalize_resource_for_upsert.
  destruct (if is_empty (trim (r_resource_id r)) then _ else _) as [id|] eqn:Hid; [|done].
  destruct (for_repository_id id) as [rid|] eqn:Hr; [|done]. intros [= <-]. simpl.
  assert (id = trim (if is_empty (trim (r_resource_id r)) then r_lore_repository_id r
            else repository_id_from_resource_id (trim (r_resource_id r)))
          ∧ valid_repository_id id) as [-> Hv].
  { destruct (is_empty _); by apply validated_lore_repository_id_Ok in Hid. }
  done.
Qed.

(** A repository accepted for storing has a canonical pair of ids (1 to 128 bytes of the
    allowed alphabet, and the resource id derived from it), keeps its other fields, and storing
    the normalized form again changes nothing, unless the repository id itself starts with the
    resource prefix. *)
Theorem normalize_resource_canonical r r' :
  normalize_resource_for_upsert r = Ok r' →
  canonical_resource r' ∧ (r_name r', r_remote_url r', r_status r') = (r_name r, r_remote_url r, r_status r)
  ∧ (starts_with "urc-" (r_lore_repository_id r') = false → normalize_resource_for_upsert r' = Ok r').
Proof.
  intros (Hc & Hf & _)%normalize_resource_for_upsert_Ok. injection Hf as F1 F2 F3 F4.
  split; [done|]. split; [congruence|]. intros Hs. destruct Hc as [Hv Hr].
  pose proof (for_repository_id_Some _ _ Hr) as (He & Hp & [[??]|[Hrid _]]); [congruence|].
  unfold normalize_resource_for_upsert.
  assert (trim (r_resource_id r') = r_resource_id r') as ->.
  { rewrite Hrid. apply trim_all_solid. rewrite all_bytes_app. simpl.
    eapply all_bytes_impl; [apply repository_id_byte_solid|apply Hv]. }
  rewrite Hrid at 1. simpl is_empty. cbv iota.
  assert (repository_id_from_resource_id (r_resource_id r') = r_lore_repository_id r') as ->.
  { unfold repository_id_from_resource_id. by rewrite Hrid, strip_prefix_app. }
  assert (validated_lore_repository_id (r_lore_repository_id r') = Ok (r_lore_repository_id r')) as ->.
  { apply validated_lore_repository_id_Ok. by rewrite valid_repository_id_trim. }
  rewrite Hr. by destruct r'.
Qed.

(** * Identity keys *)

Lemma split_at_nul a b a' b' :
  contains_byte "000"%char a = false → contains_byte "000"%char a' = false →
  a +:+ nul +:+ b = a' +:+ nul +:+ b' → a = a' ∧ b = b'.
Proof.
  unfold contains_byte, nul. rewrite !negb_false_iff. revert a'.
  induction a as [|c a IH]; intros [|c' a']; cbn [all_bytes].
  - intros _ _ Heq. injection Heq as Heq. done.
  - intros _ Hc Heq. injection Heq as <- _. done.
  - intros Hc _ Heq. injection Heq as -> _. done.
  - intros [_ Ha]%andb_true_iff [_ Ha']%andb_true_iff Heq. injection Heq as <- Heq.
    destruct (IH a' Ha Ha' Heq) as [-> ->]. done.
Qed.

(** The key under which external identities are stored identifies provider, issuer and subject,
    for providers and issuers without NUL characters. *)
Theorem external_identity_key_injective i j :
  contains_byte "000"%char (ei_provider_id i) = false →
  contains_byte "000"%char (ei_provider_id j) = false →
  contains_byte "000"%char (ei_issuer i) = false →
  contains_byte "000"%char (ei_issuer j) = false →
  external_identity_key i = external_identity_key j →
  (ei_provider_id i, ei_issuer i, ei_subject i) = (ei_provider_id j, ei_issuer j, ei_subject j).
Proof.
  intros H1 H2 H3 H4 Hk. unfold external_identity_key in Hk.
  apply split_at_nul in Hk as [-> Hk]; [|done..]. apply split_at_nul in Hk as [-> ->]; done.
Qed.

Definition demo_identity (provider issuer subject email : string) : ExternalIdentity :=
  mkExternalIdentity "" "" provider issuer subject "" email true "Ann" "" "" "".

(** * Roles *)

(** C-roles *)
Theorem token_permissions_exclude_admin role ps :
  token_permissions_for_role role = Some ps →
  PermAdmin ∉ ps ∧ ∀ p, p ∈ ps → role_allows role (permission_as_str p) = true.
Proof.
  unfold token_permissions_for_role, role_allows. destruct (role_from_name role) as [r|]; [|done].
  destruct r; simpl; intros [= <-]; (split; [set_solver|]);
    intros [] Hp; first [reflexivity | exfalso; set_solver].
Qed.

Lemma token_permissions_exclude_admin_witness : PermAdmin ∉ [PermRead; PermWrite].
Proof. apply (token_permissions_exclude_admin "admin" [PermRead; PermWrite]). reflexivity. Defined.

Lemma role_allows_permissions role a :
  role_allows role (permission_as_str a) = true ↔ ∃ ps, role_permissions role = Some ps ∧ a ∈ ps.
Proof.
  unfold role_allows, role_permissions. destruct (role_from_name role) as [r|]; simpl; [|naive_solver].
  assert (permission_from_name (permission_as_str a) = Some a) as -> by (by destruct a).
  unfold allows. destruct (permissions r) as [ps|]; [rewrite bool_decide_eq_true|split; [done|]].
  - split; [eauto|]. by intros (? & [= <-] & ?).
  - by intros (? & ? & ?).
Qed.

Lemma role_permissions_known role : is_known_role role = true → is_Some (role_permissions role).
Proof.
  unfold is_known_role, role_permissions. intros [r Hr]%bool_decide_eq_true. rewrite Hr. simpl. eauto.
Qed.

Lemma permission_from_name_Some s a : permission_from_name s = Some a ↔ s = permission_as_str a.
Proof.
  unfold permission_from_name.
  destruct (String.eqb_spec s "read") as [->|]; [destruct a; naive_solver|].
  destruct (String.eqb_spec s "write") as [->|]; [destruct a; naive_solver|].
  destruct (String.eqb_spec s "admin") as [->|]; [destruct a; naive_solver|].
  destruct a; simpl; naive_solver.
Qed.
