(* ===== verification/Demo.v ===== *)
(** Concrete surroundings for the examples of the development: a clock, a supply of
    identifiers, a digest and map orders that evaluate, small stores, what the database driver
    and the JSON library answer, and a small office set up from the empty database. *)

From Stdlib Require Import ZArith Lia Ascii.
From stdpp Require Import base gmap strings list.
From S2P Require Import Prelude Model MemState SqlRows SqlBase SqlTokens SqlStore.

(** [n] letters [a]. *)
Fixpoint letters (n : nat) : string :=
  match n with 0 => "" | S n => String "a"%char (letters n) end.

Lemma letters_all n : all_bytes repository_id_byte (letters n) = true.
Proof. by induction n. Qed.

Lemma letters_length n : String.length (letters n) = n.
Proof. induction n; simpl; congruence. Qed.

Lemma rev_app_letters n k : String.rev_app (letters n) (letters k) = letters (n + k).
Proof.
  revert k. induction n as [|n IH]; intros k; [done|].
  change (String.rev_app (letters n) (letters (S k)) = letters (S n + k)).
  rewrite IH. f_equal. lia.
Qed.

Lemma rev_letters n : String.rev (letters n) = letters n.
Proof. unfold String.rev. pose proof (rev_app_letters n 0) as Hr. simpl in Hr. rewrite Hr. f_equal. lia. Qed.

Lemma trim_letters n : trim (letters n) = letters n.
Proof.
  assert (∀ m, trim_start (letters m) = letters m) as H1 by (intros [|[|[|m]]]; done).
  assert (∀ m, trim_start_rev (letters m) = letters m) as H2 by (intros [|[|[|m]]]; done).
  unfold trim, trim_end. by rewrite H1, !rev_letters, H2, rev_letters.
Qed.

(** One second passes between two readings of the clock; digests are plain text. *)
#[export, refine] Instance demo_env : Env := {|
  clock n := (1000 + Z.of_nat n)%Z;
  uuid_src n := letters (S n);
  sha256_hex s := s;
  str_debug s := s;
  hash_iter K V _ _ m := map_to_list m;
  hashset_iter K _ _ s := elements s
|}.
Proof. all: done. Defined.

Lemma demo_uuid_unique i j :
  hash_secret (uuid_src i) = hash_secret (uuid_src j) → i = j.
Proof.
  unfold hash_secret. simpl. change (String "a" (letters i)) with (letters (S i)).
  change (String "a" (letters j)) with (letters (S j)). rewrite !trim_letters.
  intros Heq. pose proof (letters_length i) as Hi. pose proof (letters_length j) as Hj.
  injection Heq as Heq. congruence.
Qed.

(** Ann is in the group [devs], which is nested in [all], which may write to [game]. *)
Definition ann : User := mkUser "ann" "ann@example.org" "Ann" "active" 0.
Definition game : Resource := mkResource "r1" "game" "lore://h/game" "game" "urc-game" "active".

Definition demo_store : State :=
  upd_users (λ _, {[ "ann" := ann ]})
  (upd_resources (λ _, {[ "urc-game" := game ]})
  (upd_groups (λ _, <["devs" := mkGroup "g2" "devs" ""]> {[ "all" := mkGroup "g1" "all" "" ]})
  (upd_group_members (λ _, {[ "ann" := ["devs"] ]})
  (upd_group_groups (λ _, {[ "g1" := ["g2"] ]})
  (upd_grants (λ _, {[ ("group", "g1") := {[ "urc-game" := "writer" ]} ]}) default_State))))).

Definition demo_world : World State := mkWorld demo_store 0 0.

#[export] Instance demo_json : SerdeJson := {|
  JsonValue := string; json_of_strings := String.concat ","; json_from_str := Ok
|}.

#[export] Instance demo_sqlite : Sqlite := {| constraint_failed table := "UNIQUE constraint failed: " +:+ table |}.

(** Ann is invited; Bob is added and put in the group [devs], which is nested in [all], which may
    write to [game]. *)
Definition office : list sql_op :=
  SStore ∘ DAudited "root" <$>
  [ DAddUser (mkAddUserInput "bob@example.org" "Bob");
    DAddGroup "all" ""; DAddGroup "devs" "developers";
    DAddGroupMember "devs" "bob@example.org"; DAddGroupGroup "all" "devs";
    DUpsert (mkResource "" "game" "lore://h/game" "game" "" "");
    DAddGrant "group" "all" "game" "writer";
    DAddInvitation (mkAddInvitationInput "google" "https://accounts.google.com" "ann@example.org"
      "Ann" "" 0) ].

Definition office_world : World Db := (run_sqls office (mkWorld empty_db 0 0)).2.
Definition bob_id : string := letters 1.

(** Ann signs in with the verified address of her invitation. *)
Definition ann_request : LoginResolutionRequest :=
  mkLoginResolutionRequest
    (mkExternalIdentity "" "" "google" "https://accounts.google.com" "subject-1" ""
       "Ann@Example.org" true "Ann" "" "" "")
    (mkLoginTrustPolicy LOGIN_EMAIL_BINDING_VERIFIED_EMAIL_INVITATION ["example.org"]).
Definition ann_id : string := letters 13.
