(* ===== verification/Rs256Facts.v ===== *)
(** Facts on the RS256 signer: the JSON of claims can be read back, a signed token verifies and
    nothing else does. *)

From Stdlib Require Import ZArith Lia Ascii.
From stdpp Require Import base gmap strings list.
From S2P Require Import Prelude Model Ports MemState Files SqlRows SqlBase SqlTokens SqlAudited Rs256 Demo.

(** * The JSON of claims *)

Lemma as_vec_map {A} (item : Json → option A) (to_json : A → Json) l :
  (∀ x, item (to_json x) = Some x) → as_vec item (JArray (to_json <$> l)) = Some l.
Proof.
  intros Hitem. unfold as_vec. apply mapM_Some, Forall2_fmap_l, Forall_Forall2_diag, Forall_forall.
  intros x _. apply Hitem.
Qed.

Lemma as_vec_strings l : as_vec as_str (json_strings l) = Some l.
Proof. by apply as_vec_map. Qed.

Lemma resource_round_trip r : resource_from_json (resource_to_json r) = Some r.
Proof.
  destruct r as [id permission]. unfold resource_from_json, resource_to_json, required.
  cbn -[as_vec json_strings]. by rewrite as_vec_strings.
Qed.

Definition i64 (n : Z) : Prop := (- 2 ^ 63 <= n <= i64_max)%Z.

Lemma as_i64_ok n : i64 n → as_i64 (JNumber n) = Some n.
Proof.
  intros [Hl Hu]. unfold as_i64. apply Z.leb_le in Hl as ->. by apply Z.leb_le in Hu as ->.
Qed.

(** What [derive(Deserialize)] reads is what [derive(Serialize)] wrote. *)
Lemma claims_round_trip c :
  i64 (lc_issued_at c) → i64 (lc_expires_at c) → claims_from_members (claims_members c) = Some c.
Proof.
  destruct c as [sub iss iat exp aud env name user resources groups service idp jti]. simpl.
  intros Hiat%as_i64_ok Hexp%as_i64_ok.
  assert (as_vec resource_from_json (JArray (resource_to_json <$> resources)) = Some resources) as Hres
    by apply as_vec_map, resource_round_trip.
  unfold claims_from_members, claims_members, required, defaulted.
  destruct resources as [|r resources], groups as [|g groups], service as [service|], jti as [|j jti];
    cbn -[as_vec as_i64 json_strings fmap list_fmap];
    rewrite ?Hiat, ?Hexp; cbn -[as_vec as_i64 json_strings fmap list_fmap]; rewrite ?Hres, ?as_vec_strings; reflexivity.
Qed.

(** * What the libraries promise *)

(** The alphabet of [URL_SAFE_NO_PAD]. *)
Definition b64_byte (c : ascii) : bool :=
  let n := nat_of_ascii c in
  ((48 <=? n) && (n <=? 57)) || ((65 <=? n) && (n <=? 90)) || ((97 <=? n) && (n <=? 122))
  || Ascii.eqb c "-" || Ascii.eqb c "_".

Definition b64_text (s : string) : Prop := all_bytes b64_byte s = true.

Definition compact_of (header claims signature : string) : string :=
  header +:+ "." +:+ claims +:+ "." +:+ signature.

(** The members of an object have names of their own, at all levels. *)
Fixpoint wf_json (j : Json) : bool :=
  match j with
  | JArray items => forallb wf_json items
  | JObject members => bool_decide (NoDup members.*1) && forallb (λ m, wf_json m.2) members
  | _ => true
  end.

(** The documented behaviour of [serde_json], [base64], [rsa] and [jsonwebtoken] that the signer
    relies on.  [valid_signature] is the RSA check of a message and a base64 signature. *)
Class JwtLaws `{JwtLib} := {
  valid_signature : DecodingKey → string → string → Prop;
  sign_valid : ∀ k der m s, to_pkcs1_der k = Ok der → jwt_sign (from_rsa_der der) m = Ok s →
    valid_signature (from_rsa_raw_components (modulus_be k) (exponent_be k)) m s ∧ b64_text s;
  pem_round : ∀ k pem, to_pkcs8_pem k = Ok pem → from_pkcs8_pem pem = Some k ∧ utf8_error pem = None;
  b64_alphabet : ∀ s, b64_text (b64_encode s);
  b64_round : ∀ s, b64_decode (b64_encode s) = Ok s;
  json_writes : ∀ j, ∃ raw, value_to_vec j = Ok raw ∧ raw ≠ "";
  json_round : ∀ j raw, wf_json j = true → value_to_vec j = Ok raw → value_from_slice raw = Ok j;
  decode_header_parts : ∀ h c s raw members kid,
    b64_text h → b64_text c → b64_text s →
    b64_decode h = Ok raw → value_from_slice raw = Ok (JObject members) →
    member members "alg" = Some (Some (JString ALG_RS256)) →
    member members "kid" = Some (Some (JString kid)) →
    jwt_decode_header (compact_of h c s) = Some (mkHeader ALG_RS256 (Some kid));
  decode_parts : ∀ key h c s kid raw members exp,
    b64_text h → b64_text c → b64_text s →
    jwt_decode_header (compact_of h c s) = Some (mkHeader ALG_RS256 kid) →
    valid_signature key (h +:+ "." +:+ c) s →
    b64_decode c = Ok raw → value_from_slice raw = Ok (JObject members) →
    member members "exp" = Some (Some (JNumber exp)) → (0 <= exp)%Z →
    jwt_decode key (compact_of h c s) = Ok members;
  decode_sound : ∀ key compact members, jwt_decode key compact = Ok members →
    ∃ h c s raw, compact = compact_of h c s ∧ valid_signature key (h +:+ "." +:+ c) s
      ∧ b64_decode c = Ok raw ∧ value_from_slice raw = Ok (JObject members)
}.

Lemma wf_resource r : wf_json (resource_to_json r) = true.
Proof.
  destruct r as [id permission]. unfold resource_to_json, json_strings. simpl.
  rewrite !andb_true_r. apply forallb_forall. by intros ? (x & -> & _)%list_elem_of_In%list_elem_of_fmap.
Qed.

Lemma wf_strings l : wf_json (json_strings l) = true.
Proof. apply forallb_forall. by intros ? (x & -> & _)%list_elem_of_In%list_elem_of_fmap. Qed.

Lemma wf_claims c : wf_json (claims_to_json c) = true.
Proof.
  destruct c as [sub iss iat exp aud env name user resources groups service idp jti].
  assert (forallb wf_json (resource_to_json <$> resources) = true) as Hres.
  { apply forallb_forall. intros ? (x & -> & _)%list_elem_of_In%list_elem_of_fmap. apply wf_resource. }
  destruct resources as [|r resources], groups as [|g groups], service as [service|], jti as [|j jti];
    unfold claims_to_json, claims_members; cbn -[json_strings fmap list_fmap wf_json bool_decide];
    cbn [wf_json]; rewrite ?andb_true_iff; (split; [by apply bool_decide_eq_true_2; vm_compute; repeat constructor; set_solver|]);
    cbn -[json_strings fmap list_fmap wf_json]; rewrite ?wf_strings; cbn [wf_json]; rewrite ?Hres; reflexivity.
Qed.

(** * Signing and verifying *)

Section Signing.
Context `{Env} `{JwtLib} `{!JwtLaws}.

(** The parts of a token that the key signed. *)
Lemma signed_parts kid k key claims token :
  from_private kid k = Ok key → sign_lore_claims key claims = Ok token →
  ∃ rawh raw s,
    token = compact_of (b64_encode rawh) (b64_encode raw) s
    ∧ value_from_slice rawh = Ok (header_to_json (mkJwtHeader ALG_RS256 "JWT" kid))
    ∧ value_to_vec (claims_to_json claims) = Ok raw
    ∧ valid_signature (key_decoding key) (b64_encode rawh +:+ "." +:+ b64_encode raw) s ∧ b64_text s.
Proof.
  unfold from_private, sign_lore_claims, encode_json_part, crypto_result. intros Hkey Hsign.
  destruct (to_pkcs1_der k) as [der|] eqn:Hder; [|done]. injection Hkey as <-. simpl in Hsign.
  destruct (value_to_vec (header_to_json _)) as [rawh|] eqn:Hh; [|done].
  destruct (value_to_vec (claims_to_json claims)) as [raw|] eqn:Hc; [|done].
  destruct (jwt_sign _ _) as [s|] eqn:Hs; [|done]. injection Hsign as <-.
  exists rawh, raw, s. apply json_round in Hh; [|by vm_compute].
  destruct (sign_valid _ _ _ _ Hder Hs) as [Hvalid Hdot].
  split_and!; [|done..]. unfold compact_of. by rewrite !string_app_assoc.
Qed.

Lemma member_exp claims : member (claims_members claims) "exp" = Some (Some (JNumber (lc_expires_at claims))).
Proof.
  destruct claims as [sub iss iat exp aud env name user resources groups service idp jti].
  by destruct resources as [|r resources], groups as [|g groups], service as [service|], jti as [|j jti].
Qed.

(** A token that the key signed decodes to its claims. *)
Lemma signed_decodes kid k key claims token :
  from_private kid k = Ok key → sign_lore_claims key claims = Ok token →
  i64 (lc_issued_at claims) → i64 (lc_expires_at claims) → (0 <= lc_expires_at claims)%Z →
  jwt_decode_header token = Some (mkHeader ALG_RS256 (Some kid))
  ∧ jwt_decode (key_decoding key) token = Ok (claims_members claims)
  ∧ claims_from_members (claims_members claims) = Some claims.
Proof.
  intros Hkey Hsign Hiat Hexp Hpos.
  destruct (signed_parts _ _ _ _ _ Hkey Hsign) as (rawh & raw & s & -> & Hh & Hc & Hvalid & Hdot).
  assert (jwt_decode_header (compact_of (b64_encode rawh) (b64_encode raw) s)
          = Some (mkHeader ALG_RS256 (Some kid))) as Hheader.
  { eapply decode_header_parts; [apply b64_alphabet..|done|apply b64_round|exact Hh|done|done]. }
  split_and!; [done| |by apply claims_round_trip].
  eapply decode_parts; [apply b64_alphabet..|done|exact Hheader|done|apply b64_round| |apply member_exp|done].
  exact (json_round _ _ (wf_claims claims) Hc).
Qed.

(** Whether a verifier that reads the time [t] accepts these claims. *)
Definition accepts (claims : LoreClaims) (opts : VerifyOptions) (t : Z) : bool :=
  ((0 <=? t) && (t <? lc_expires_at claims))%Z
  && (is_empty (vo_issuer opts) || String.eqb (lc_issuer claims) (vo_issuer opts))
  && (is_empty (vo_audience opts)
      || existsb (λ aud, String.eqb aud (vo_audience opts)) (lc_audience claims)).

Lemma validate_claims_accepts claims opts t : (lc_expires_at claims <= i64_max)%Z →
  (accepts claims opts t = true ∧ validate_claims claims opts t = Ok tt)
  ∨ (accepts claims opts t = false ∧ ∃ err, validate_claims claims opts t = Err err).
Proof.
  intros Hexp. unfold accepts, validate_claims, unix_seconds.
  destruct (Z.eqb_spec (lc_expires_at claims) 0) as [->|];
    [right; split; [|by eexists]; destruct (Z.leb_spec 0 t), (Z.ltb_spec t 0); done || lia|].
  destruct (Z.ltb_spec t 0), (Z.leb_spec 0 t); try lia; [right; split; [done|by eexists]|].
  destruct (Z.ltb_spec i64_max t).
  { right. split; [|by eexists]. by destruct (Z.ltb_spec t (lc_expires_at claims)); [lia|]. }
  destruct (Z.leb_spec (lc_expires_at claims) t), (Z.ltb_spec t (lc_expires_at claims)); try lia;
    [right; split; [done|by eexists]|].
  destruct (is_empty (vo_issuer opts)), (String.eqb (lc_issuer claims) (vo_issuer opts)),
    (is_empty (vo_audience opts)), (existsb _ (lc_audience claims)); simpl;
    solve [by left | right; split; [done|by eexists]].
Qed.

Lemma unix_seconds_Ok t n : unix_seconds t = Ok n → n = t ∧ (0 <= t <= i64_max)%Z.
Proof.
  unfold unix_seconds. destruct (Z.ltb_spec t 0); [done|]. destruct (Z.ltb_spec i64_max t); [done|].
  intros [= <-]. lia.
Qed.

Lemma validate_claims_Ok claims opts t u : validate_claims claims opts t = Ok u →
  (0 <= t < lc_expires_at claims)%Z
  ∧ (vo_issuer opts = "" ∨ lc_issuer claims = vo_issuer opts)
  ∧ (vo_audience opts = "" ∨ vo_audience opts ∈ lc_audience claims).
Proof.
  unfold validate_claims. destruct (lc_expires_at claims =? 0)%Z; [done|].
  destruct (unix_seconds t) as [n|] eqn:Hn; [|done]. apply unix_seconds_Ok in Hn as [-> Ht].
  destruct (Z.leb_spec (lc_expires_at claims) t); [done|].
  destruct (is_empty (vo_issuer opts)) eqn:Hi, (String.eqb_spec (lc_issuer claims) (vo_issuer opts));
    simpl; try done; (destruct (is_empty (vo_audience opts)) eqn:Ha; simpl;
      [|destruct (existsb _ _) eqn:He; [|done]]);
    intros _; (split; [lia|split]);
    try (right; done); try (left; by destruct (vo_issuer opts)); try (left; by destruct (vo_audience opts));
    right; apply existsb_exists in He as (aud & Hin & ->%String.eqb_eq); by apply list_elem_of_In.
Qed.

(** The time a verifier reads. *)
Definition verify_time {S} (self : Signer.t) (w : World S) : Z :=
  default (clock (ticks w)) (Signer.sg_verification_time self).

Lemma now_run {S} self (w : World S) :
  Signer.now self w = (Ok (verify_time self w), (Signer.now self w).2) ∧ st (Signer.now self w).2 = st w.
Proof. unfold Signer.now, verify_time. by destruct (Signer.sg_verification_time self). Qed.

Definition token_of (claims : LoreClaims) (raw : string) : VerifiedToken :=
  mkVerifiedToken (lc_subject claims) (lc_jti claims) (lc_idp claims) (lc_expires_at claims)
    (lc_audience claims) (String.list_byte_of_string raw).

Lemma verify_signed {S} kid k self claims token opts (w : World S) :
  from_private kid k = Ok (Signer.sg_key self) → sign_lore_claims (Signer.sg_key self) claims = Ok token →
  i64 (lc_issued_at claims) → i64 (lc_expires_at claims) → (0 <= lc_expires_at claims)%Z →
  ∃ raw, value_to_vec (claims_to_json claims) = Ok raw
    ∧ Signer.verify self token opts w
      = (if accepts claims opts (verify_time self w) then Ok (token_of claims raw)
         else Err Unauthenticated, (Signer.now self w).2).
Proof.
  intros Hkey Hsign Hiat Hexp Hpos.
  destruct (signed_parts _ _ _ _ _ Hkey Hsign) as (_ & raw & _ & _ & _ & Hraw & _).
  destruct (signed_decodes _ _ _ _ _ Hkey Hsign Hiat Hexp Hpos) as (Hheader & Hdecode & Hclaims).
  destruct (now_run self w) as [Hnow _]. exists raw. split; [done|].
  assert (key_kid (Signer.sg_key self) = kid) as Hkid.
  { revert Hkey. unfold from_private. destruct (crypto_result _ _); [by intros [= <-]|done]. }
  unfold Signer.verify. rewrite Hheader. cbn [ok_or]. unfold bind at 1, ret at 1.
  cbn [jh_alg jh_kid]. rewrite (String.eqb_refl ALG_RS256). cbn [negb ok_or].
  unfold bind at 1, ret at 1. rewrite Hkid, String.eqb_refl, Hdecode. cbn [negb].
  unfold bind at 1, map_err at 1, lift at 1. rewrite Hclaims. cbn [ok_or].
  unfold bind at 1, ret at 1. unfold bind at 1. rewrite Hnow. cbn [fst snd].
  destruct (validate_claims_accepts claims opts (verify_time self w)) as [[-> ->]|[-> [err ->]]];
    [by apply Hexp| |done].
  mrun. by rewrite Hraw.
Qed.

(** ** The claims of a signed token *)

Lemma authn_claims_Ok {S} opts (w w' : World S) c :
  new_authn_claims opts w = (Ok c, w') →
  st w' = st w ∧ i64 (lc_issued_at c) ∧ (0 <= lc_expires_at c <= i64_max)%Z
  ∧ (lc_expires_at c = lc_issued_at c + dur_secs (default_ttl (no_ttl opts)))%Z
  ∧ lc_subject c = no_subject opts ∧ lc_issuer c = no_issuer opts ∧ lc_audience c = no_audience opts
  ∧ lc_idp c = no_idp opts ∧ lc_jti c = no_jti opts ∧ lc_groups c = no_groups opts
  ∧ lc_resources c = [].
Proof.
  unfold new_authn_claims. intros Hrun.
  destruct (is_empty (no_issuer opts)); [done|]. destruct (is_nil (no_audience opts)); [done|].
  destruct (is_empty (no_subject opts)); [done|]. destruct (is_empty (no_idp opts)); [done|].
  minv. unfold lift in *. simplify_eq/=.
  repeat match goal with H : unix_seconds _ = Ok _ |- _ => apply unix_seconds_Ok in H as [-> ?] end.
  match goal with H : time_add _ _ = Ok _ |- _ => unfold time_add in H; revert H end.
  destruct (Z.ltb_spec i64_max (x + dur_secs (default_ttl (no_ttl opts)))); [done|]. intros [= <-].
  assert (st w' = st w).
  { match goal with H : default_now _ w = _ |- _ => revert H end. unfold default_now.
    destruct (no_now opts); mrun; by intros [= _ <-]. }
  unfold i64. split_and!; try done; unfold i64_max in *; lia.
Qed.

(** [self] signed a token for a subject, its identity provider, and resources. *)
Definition signs {S} (self : Signer.t) (w : World S) (issuer subject idp : string)
    (audience groups : list string) (resources : list ResourcePermission) (signed : SignedToken)
    (w' : World S) : Prop :=
  (∃ input, Signer.sign_authn self input w = (Ok signed, w')
     ∧ ani_issuer input = issuer ∧ ani_subject input = subject ∧ ani_idp input = idp ∧ ani_audience input = audience
     ∧ ani_groups input = groups ∧ resources = [])
  ∨ (∃ input, Signer.sign_authz self input w = (Ok signed, w')
     ∧ azi_issuer input = issuer ∧ azi_subject input = subject ∧ azi_idp input = idp ∧ azi_audience input = audience
     ∧ azi_groups input = groups ∧ azi_resources input = resources).

Lemma signs_claims {S} self (w : World S) issuer subject idp audience groups resources signed w' :
  signs self w issuer subject idp audience groups resources signed w' →
  ∃ claims, st w' = st w
    ∧ sign_lore_claims (Signer.sg_key self) claims = Ok (stk_token signed)
    ∧ i64 (lc_issued_at claims) ∧ (0 <= lc_expires_at claims <= i64_max)%Z
    ∧ lc_issuer claims = issuer ∧ lc_subject claims = subject ∧ lc_idp claims = idp ∧ lc_jti claims = stk_jti signed
    ∧ lc_audience claims = audience ∧ lc_groups claims = groups
    ∧ lc_resources claims = model_resource_to_claim_resource <$> resources
    ∧ lc_issued_at claims = stk_issued_at signed ∧ lc_expires_at claims = stk_expires_at signed
    ∧ stk_kid signed = key_kid (Signer.sg_key self) ∧ stk_audience signed = audience.
Proof.
  assert (∀ jti w0 jti' w1, Signer.ensure_jti jti w0 = (Ok jti', w1) → st w1 = st (S := S) w0) as Hjti.
  { intros jti w0 jti' w1. unfold Signer.ensure_jti. destruct (is_empty jti); mrun; by intros [= _ <-]. }
  intros [(input & Hrun & <- & <- & <- & <- & <- & ->)|(input & Hrun & <- & <- & <- & <- & <- & <-)].
  - unfold Signer.sign_authn in Hrun. minv.
    match goal with H : Signer.ensure_jti _ w = _ |- _ => apply Hjti in H end.
    match goal with H : new_authn_claims _ _ = _ |- _ => apply authn_claims_Ok in H
      as (Hst & Hiat & Hexp & _ & Hsub & Hiss & Haud & Hidp & Hj & Hgr & Hres) end.
    unfold Signer.sign in *. minv. unfold lift in *. simplify_eq/=.
    eexists. split_and!; try done; solve [congruence|lia].
  - unfold Signer.sign_authz in Hrun. minv.
    match goal with H : Signer.ensure_jti _ w = _ |- _ => apply Hjti in H end.
    unfold new_authz_claims in *. destruct (is_nil _); [done|]. minv.
    match goal with H : new_authn_claims _ _ = _ |- _ => apply authn_claims_Ok in H
      as (Hst & Hiat & Hexp & _ & Hsub & Hiss & Haud & Hidp & Hj & Hgr & Hres) end.
    unfold Signer.sign in *. minv. unfold lift in *. simplify_eq/=.
    destruct (head (azi_resources input)) as [resource|]; minv;
      (eexists (set_resources _ _); split_and!; [|eassumption|..]; cbn; try done; solve [congruence|lia]).
Qed.

Lemma signed_tokens_run {S} kid k self (w w1 : World S) issuer subject idp audience groups resources signed :
  from_private kid k = Ok (Signer.sg_key self) →
  signs self w issuer subject idp audience groups resources signed w1 →
  st w1 = st w
  ∧ ∃ claims raw,
      (jwt_decode (key_decoding (Signer.sg_key self)) (stk_token signed) = Ok (claims_members claims)
       ∧ claims_from_members (claims_members claims) = Some claims
       ∧ lc_issuer claims = issuer ∧ lc_subject claims = subject ∧ lc_groups claims = groups ∧ lc_audience claims = audience
       ∧ lc_resources claims = model_resource_to_claim_resource <$> resources
       ∧ lc_expires_at claims = stk_expires_at signed)
      ∧ ∀ verifier opts w2, Signer.sg_key verifier = Signer.sg_key self →
          Signer.verify (S := S) verifier (stk_token signed) opts w2
          = (if accepts claims opts (verify_time verifier w2)
             then Ok (mkVerifiedToken subject (stk_jti signed) idp (stk_expires_at signed) audience
                        (String.list_byte_of_string raw))
             else Err Unauthenticated, (Signer.now verifier w2).2).
Proof.
  intros Hkey Hsigns. destruct (signs_claims _ _ _ _ _ _ _ _ _ _ Hsigns)
    as (claims & Hst & Hsign & Hiat & Hexp & Hiss & Hsub & Hidp & Hjti & Haud & Hgr & Hres & _ & He & _).
  assert (i64 (lc_expires_at claims)) as Hexp' by (unfold i64, i64_max in *; lia).
  destruct (signed_decodes _ _ _ _ _ Hkey Hsign Hiat Hexp') as (_ & Hdecode & Hclaims); [lia|].
  destruct (signed_parts _ _ _ _ _ Hkey Hsign) as (_ & raw & _ & _ & _ & Hraw & _).
  split; [done|]. exists claims, raw. split; [done|].
  intros verifier opts w2 Hv. rewrite <- Hv in Hkey, Hsign.
  destruct (verify_signed kid k verifier claims _ opts w2 Hkey Hsign Hiat Hexp') as (raw' & Hr & Hrun);
    [lia|]. rewrite Hrun. rewrite Hraw in Hr. injection Hr as <-.
  unfold token_of. by rewrite Hsub, Hjti, Hidp, He, Haud.
Qed.


(** C6: The signer accepts only tokens with a valid signature of its own key under RS256 and its own
    key id, whose claims have not expired and are of the expected issuer and audience; a check
    changes nothing. *)
Theorem verify_accepts_only_signed {S} self compact opts (w w' : World S) v :
  Signer.verify self compact opts w = (Ok v, w') →
  st w' = st w
  ∧ ∃ h c s raw members claims,
      compact = compact_of h c s
      ∧ valid_signature (key_decoding (Signer.sg_key self)) (h +:+ "." +:+ c) s
      ∧ jwt_decode_header compact = Some (mkHeader ALG_RS256 (Some (key_kid (Signer.sg_key self))))
      ∧ b64_decode c = Ok raw ∧ value_from_slice raw = Ok (JObject members)
      ∧ claims_from_members members = Some claims
      ∧ v = mkVerifiedToken (lc_subject claims) (lc_jti claims) (lc_idp claims) (lc_expires_at claims)
              (lc_audience claims) (vt_raw_claims v)
      ∧ (0 <= verify_time self w < lc_expires_at claims)%Z
      ∧ (vo_issuer opts = "" ∨ lc_issuer claims = vo_issuer opts)
      ∧ (vo_audience opts = "" ∨ vo_audience opts ∈ lc_audience claims).
Proof.
  unfold Signer.verify. intros Hrun. minv.
  repeat match goal with H : negb (String.eqb _ _) = false |- _ =>
    apply negb_false_iff, String.eqb_eq in H end.
  destruct (now_run self x2) as [Hnow Hst3]. rewrite Hnow in *. simplify_eq/=. split; [done|].
  match goal with H : jwt_decode _ _ = Ok _ |- _ =>
    destruct (decode_sound _ _ _ H) as (h & c & s & raw & -> & Hvalid & Hraw & Hjson) end.
  match goal with H : validate_claims _ _ _ = Ok _ |- _ => apply validate_claims_Ok in H as (Ht & Hiss & Haud) end.
  exists h, c, s, raw, x1, x3. split_and!; try done; try lia.
  destruct x as [alg key_id]. simpl in *. congruence.
Qed.
End Signing.

(** * Examples: libraries that evaluate *)

(** JSON is written as the code of its tree, base64 as two letters for each byte. *)
Fixpoint json_tree (j : Json) : gen_tree (bool + Z + string) :=
  match j with
  | JNull => GenNode 0 []
  | JBool b => GenNode 1 [GenLeaf (inl (inl b))]
  | JNumber n => GenNode 2 [GenLeaf (inl (inr n))]
  | JString s => GenNode 3 [GenLeaf (inr s)]
  | JArray items => GenNode 4 (json_tree <$> items)
  | JObject members => GenNode 5 ((λ m, GenNode 6 [GenLeaf (inr m.1); json_tree m.2]) <$> members)
  end.

Fixpoint tree_json (t : gen_tree (bool + Z + string)) : Json :=
  match t with
  | GenNode 1 [GenLeaf (inl (inl b))] => JBool b
  | GenNode 2 [GenLeaf (inl (inr n))] => JNumber n
  | GenNode 3 [GenLeaf (inr s)] => JString s
  | GenNode 4 items => JArray (tree_json <$> items)
  | GenNode 5 members =>
      JObject ((λ m, match m with
                     | GenNode 6 [GenLeaf (inr k); v] => (k, tree_json v)
                     | _ => ("", JNull)
                     end) <$> members)
  | _ => JNull
  end.

Fixpoint tree_json_tree (j : Json) : tree_json (json_tree j) = j.
Proof.
  destruct j as [| | | |items|members]; try reflexivity; cbn [json_tree tree_json]; f_equal.
  - induction items as [|x items IH]; [reflexivity|]. rewrite !fmap_cons. by rewrite tree_json_tree, IH.
  - induction members as [|[k v] members IH]; [reflexivity|]. rewrite !fmap_cons. simpl.
    by rewrite tree_json_tree, IH.
Qed.

Fixpoint pos_text (p : positive) : string :=
  match p with
  | xH => ""
  | xO p => String "0" (pos_text p)
  | xI p => String "1" (pos_text p)
  end.
Fixpoint text_pos (s : string) : positive :=
  match s with
  | "" => xH
  | String c s => if Ascii.eqb c "0" then xO (text_pos s) else xI (text_pos s)
  end.

Lemma text_pos_text p : text_pos (pos_text p) = p.
Proof. induction p as [p IH|p IH|]; simpl; congruence. Qed.

Definition json_text (j : Json) : string := String "j" (pos_text (encode (json_tree j))).
Definition text_json (s : string) : result string Json :=
  match s with
  | "" => Err "EOF while parsing a value"
  | String _ s =>
      match decode (text_pos s) with Some t => Ok (tree_json t) | None => Err "expected value" end
  end.

Lemma text_json_text j : text_json (json_text j) = Ok j.
Proof. unfold text_json, json_text. by rewrite text_pos_text, decode_encode, tree_json_tree. Qed.

Definition nibble (n : nat) : ascii := ascii_of_nat (97 + n).
Fixpoint hex_encode (s : string) : string :=
  match s with
  | "" => ""
  | String c s => let n := nat_of_ascii c in
                  String (nibble (n / 16)) (String (nibble (n mod 16)) (hex_encode s))
  end.
Fixpoint hex_decode (s : string) : result string string :=
  match s with
  | "" => Ok ""
  | String a (String b s) =>
      match hex_decode s with
      | Ok r => Ok (String (ascii_of_nat ((nat_of_ascii a - 97) * 16 + (nat_of_ascii b - 97))) r)
      | Err err => Err err
      end
  | _ => Err "invalid length"
  end.

Lemma hex_text s : b64_text (hex_encode s).
Proof.
  unfold b64_text. induction s as [|c s IH]; [done|]. cbn [hex_encode all_bytes].
  rewrite IH. by destruct c as [[] [] [] [] [] [] [] []].
Qed.
Lemma hex_decode_encode s : hex_decode (hex_encode s) = Ok s.
Proof.
  induction s as [|c s IH]; [done|]. cbn [hex_encode hex_decode]. rewrite IH.
  by destruct c as [[] [] [] [] [] [] [] []].
Qed.

(** A key is a number; a signature is the key and the message. *)
Definition demo_signature (key message : string) : string := hex_encode (key +:+ ":" +:+ message).

Definition demo_members (part : string) : option (list (string * Json)) :=
  match hex_decode part with
  | Ok raw => match text_json raw with Ok (JObject members) => Some members | _ => None end
  | Err _ => None
  end.

Definition demo_header (compact : string) : option Header :=
  match split "." compact with
  | [h; _; _] =>
      members ← demo_members h;
      alg ← required as_str members "alg";
      kid ← member members "kid";
      Some (mkHeader alg (kid ≫= as_str))
  | _ => None
  end.

Definition demo_decode (key compact : string) : result string (list (string * Json)) :=
  match split "." compact with
  | [h; c; s] =>
      if String.eqb s (demo_signature key (h +:+ "." +:+ c))
      then match demo_members c with Some members => Ok members | None => Err "JSON error" end
      else Err "InvalidSignature"
  | _ => Err "InvalidToken"
  end.

#[export] Instance demo_jwt : JwtLib := {|
  value_to_vec j := Ok (json_text j);
  value_to_vec_pretty j := Ok (json_text j);
  value_from_slice := text_json;
  b64_encode := hex_encode;
  b64_decode := hex_decode;
  utf8_error _ := None;
  RsaPrivateKey := nat;
  rsa_new seed _ := Ok seed;
  to_pkcs1_der k := Ok (letters k);
  to_pkcs8_pem k := Ok (letters k);
  from_pkcs8_pem s := if String.eqb s (letters (String.length s)) then Some (String.length s) else None;
  from_pkcs1_pem _ := None;
  modulus_be := letters;
  exponent_be _ := "";
  EncodingKey := string;
  DecodingKey := string;
  from_rsa_der der := der;
  from_rsa_raw_components n _ := n;
  jwt_sign key message := Ok (demo_signature key message);
  jwt_decode_header := demo_header;
  jwt_decode := demo_decode
|}.

Lemma b64_no_dot s : b64_text s → no_byte "." s = true.
Proof. apply all_bytes_impl. by intros [[] [] [] [] [] [] [] []]. Qed.

Lemma split_compact_of h c s : b64_text h → b64_text c → b64_text s → split "." (compact_of h c s) = [h; c; s].
Proof.
  intros Hh%b64_no_dot Hc%b64_no_dot Hs%b64_no_dot.
  change (compact_of h c s) with (h +:+ String "." (c +:+ String "." s)).
  by rewrite !split_app, split_no_byte by done.
Qed.

#[export] Instance demo_jwt_laws : @JwtLaws demo_jwt.
Proof.
  apply (@Build_JwtLaws demo_jwt (λ key message s, s = demo_signature key message)).
  - intros k der m s [= <-] [= <-]. split; [done|]. apply hex_text.
  - intros k pem [= <-]. simpl. by rewrite letters_length, String.eqb_refl.
  - apply hex_text.
  - apply hex_decode_encode.
  - intros j. by eexists.
  - intros j raw _ [= <-]. apply text_json_text.
  - intros h c s raw members kid Hh Hc Hs Hraw Hjson Halg Hkid. simpl in *. unfold demo_header, demo_members.
    rewrite split_compact_of, Hraw, Hjson by done. unfold required. simpl. rewrite Halg. simpl. by rewrite Hkid.
  - intros key h c s kid raw members exp Hh Hc Hs _ -> Hraw Hjson _ _. simpl in *. unfold demo_decode, demo_members.
    rewrite split_compact_of by done. by rewrite String.eqb_refl, Hraw, Hjson.
  - intros key compact members. simpl. unfold demo_decode, demo_members.
    destruct (split "." compact) as [|h [|c [|s [|]]]] eqn:Hsplit; try done.
    destruct (String.eqb_spec s (demo_signature key (h +:+ "." +:+ c))) as [Hs|]; [|done].
    destruct (hex_decode c) as [raw|] eqn:Hraw; [|done].
    destruct (text_json raw) as [[]|] eqn:Hjson; try done. intros [= ->].
    exists h, c, s, raw. split_and!; [|done..].
    by rewrite <- (concat_split "." compact), Hsplit.
Qed.

Definition office_key : SigningKey := @mkSigningKey demo_jwt "k1" ALG_RS256 7 (letters 7) (letters 7).
Definition office_signer : Signer.t := Signer.new office_key.

Definition game_token : AuthzTokenInput :=
  mkAuthzTokenInput "https://auth.example.org" ["lore"] "user:bob" "Bob" "bob@example.org" ["devs"] "bridge"
    [mkResourcePermission "urc-game" [PermRead; PermWrite]] (from_secs 900) (Some 1000%Z) "".

Definition lore_options : VerifyOptions := mkVerifyOptions "https://auth.example.org" "lore".

Lemma game_signed : ∃ signed w1,
  Signer.sign_authz office_signer game_token (mkWorld tt 0 0) = (Ok signed, w1)
  ∧ stk_expires_at signed = 1900%Z.
Proof. eexists _, _. split; reflexivity. Qed.

Lemma game_signs signed w1 :
  Signer.sign_authz office_signer game_token (mkWorld tt 0 0) = (Ok signed, w1) →
  signs office_signer (mkWorld tt 0 0) "https://auth.example.org" "user:bob" "bridge" ["lore"] ["devs"]
    (azi_resources game_token) signed w1.
Proof. intros Hrun. right. exists game_token. by split_and!. Qed.


Lemma verify_accepts_only_signed_witness :
  ∃ signed w1, Signer.sign_authz office_signer game_token (mkWorld tt 0 0) = (Ok signed, w1)
    ∧ ∃ v w2, Signer.verify (Signer.with_verification_time office_signer 1899) (stk_token signed)
                lore_options w1 = (Ok v, w2)
    ∧ ∃ h c s, stk_token signed = compact_of h c s
        ∧ valid_signature (key_decoding office_key) (h +:+ "." +:+ c) s.
Proof.
  destruct game_signed as (signed & w1 & Hrun & Hexp). exists signed, w1. split; [exact Hrun|].
  destruct (signed_tokens_run "k1" (7 : @RsaPrivateKey demo_jwt) office_signer (mkWorld tt 0 0) w1
    _ _ _ _ _ _ signed eq_refl (game_signs signed w1 Hrun))
    as (_ & claims & raw & (_ & _ & Hiss & _ & _ & Haud & _ & He) & Hverify).
  specialize (Hverify (Signer.with_verification_time office_signer 1899) lore_options w1 eq_refl).
  unfold accepts in Hverify. rewrite Hiss, Haud, He, Hexp in Hverify. simpl in Hverify.
  eexists _, _. split; [exact Hverify|].
  destruct (verify_accepts_only_signed _ _ _ _ _ _ Hverify) as (_ & h & c & s & _ & _ & _ & Htok & Hvalid & _).
  exists h, c, s. split; [exact Htok|exact Hvalid].
Defined.
