(* ===== verification/OidcFacts.v ===== *)
(** Facts on the OIDC provider: a completed sign-in stands on a verified ID token and on the
    policies of the provider, and PKCE binds it to the request that began it. *)

From Stdlib Require Import ZArith Lia Ascii.
From stdpp Require Import base gmap strings list.
From S2P Require Import Prelude Model Ports Demo Rs256 Rs256Facts Config Oidc.

Section Oidc.
Context `{Env} `{JwtLib} `{OidcLib}.
Implicit Types p : Provider.t.

(** The subject of an identity, by the strategy of the provider. *)
Definition subject_of p (members : list (string * Json)) (token_subject subject : string) : Prop :=
  match Provider.subject_strategy p with
  | "" | "oidc_sub" => subject = token_subject
  | "entra_oid_tid" =>
      subject = string_claim members "tid" +:+ ":" +:+ string_claim members "oid"
      ∧ string_claim members "tid" ≠ "" ∧ string_claim members "oid" ≠ ""
      ∧ (Provider.required_tenant_id p = "" ∨ string_claim members "tid" = Provider.required_tenant_id p)
  | _ => False
  end.

Lemma subject_Ok p members token_subject subject :
  Provider.subject p members token_subject = Ok subject → subject_of p members token_subject subject.
Proof.
  unfold Provider.subject, subject_of. intros Hrun.
  destruct (is_empty (Provider.subject_strategy p) || String.eqb (Provider.subject_strategy p) "oidc_sub")
    eqn:Hsub.
  - injection Hrun as <-. apply orb_true_iff in Hsub as [Hs|Hs%String.eqb_eq]; [|by rewrite Hs].
    by destruct (Provider.subject_strategy p).
  - destruct (String.eqb_spec (Provider.subject_strategy p) "entra_oid_tid") as [->|]; [|done].
    destruct (negb (is_empty _) && negb _) eqn:Htid; [done|].
    destruct (is_empty (string_claim members "tid")) eqn:Ht; [done|].
    destruct (is_empty (string_claim members "oid")) eqn:Ho; [done|]. injection Hrun as <-.
    split_and!; [done|by intros Heq; rewrite Heq in Ht|by intros Heq; rewrite Heq in Ho|].
    apply andb_false_iff in Htid as [Hr%negb_false_iff|Hr%negb_false_iff%String.eqb_eq]; [left|by right].
    by destruct (Provider.required_tenant_id p).
Qed.

(** The Workspace domain that a Google provider accepts. *)
Definition domain_trusted p (hosted_domain : string) : Prop :=
  Provider.profile p = "google" →
  let domain := unicode_lowercase (trim hosted_domain) in
  (Provider.allowed_hosted_domains p ≠ ∅ → domain ∈ Provider.allowed_hosted_domains p)
  ∧ (Provider.allowed_hosted_domains p = ∅ → Provider.personal_accounts p = "deny" → domain ≠ "").

Lemma trust_Ok p identity u :
  Provider.validate_trust p identity = Ok u → domain_trusted p (ei_hosted_domain identity).
Proof.
  unfold Provider.validate_trust, Provider.validate_hosted_domain, domain_trusted.
  intros Hrun Hprofile. rewrite Hprofile in Hrun. simpl in Hrun. cbn zeta.
  case_bool_decide as Hallowed.
  - case_bool_decide as Hin; [|done]. by split.
  - split; [done|]. intros _ Hdeny Hempty. rewrite Hdeny, Hempty in Hrun. done.
Qed.

(** A provider that requires PKCE does not redeem a code without a verifier. *)
Lemma verifier_required p private_state verifier :
  Provider.token_exchange_verifier p private_state = Ok verifier → Provider.pkce p = "required" →
  ∃ v, verifier = Some v ∧ v ≠ "".
Proof.
  unfold Provider.token_exchange_verifier. intros Hrun Hpkce. rewrite Hpkce in Hrun. simpl in Hrun.
  destruct private_state; [done|]. destruct (value_from_slice _) as [value|]; [|done].
  destruct (private_state_from_json value) as [ps|]; [|done].
  destruct (is_empty (default "" (ps_code_verifier ps))) eqn:He; [done|]. injection Hrun as <-.
  eexists. split; [done|]. intros Heq. by rewrite Heq in He.
Qed.

(** The identity is what a verified ID token says: the token was given for the code of the
    request and its verifier, carries its nonce, and meets the policies of the provider. *)
Definition id_token_vouches p (req : CompleteAuthRequest) (identity : ExternalIdentity) : Prop :=
  ∃ client verifier raw claims members,
    cl_metadata client = Provider.provider_metadata p ∧ cl_client_id client = Provider.client_id p
    ∧ Provider.token_exchange_verifier p (car_private_state req) = Ok verifier
    ∧ (Provider.pkce p = "required" → ∃ v, verifier = Some v ∧ v ≠ "")
    ∧ request_async client (car_code req) verifier = Ok (Some raw)
    ∧ id_token_claims client raw = Ok claims
    ∧ (car_nonce req = "" ∨ idc_nonce claims = Some (car_nonce req))
    ∧ jwt_claims raw = Ok members
    ∧ ei_provider_id identity = Provider.id p ∧ ei_issuer identity = idc_issuer claims
    ∧ subject_of p members (idc_subject claims) (ei_subject identity)
    ∧ ei_email identity = string_claim members (Provider.claim p "email" "email")
    ∧ ei_email_verified identity = bool_claim members (Provider.claim p "email_verified" "email_verified")
    ∧ domain_trusted p (ei_hosted_domain identity).

Lemma complete_auth_Ok {S} p req (w w' : World S) identity :
  Provider.complete_auth p req w = (Ok identity, w') → st w' = st w ∧ id_token_vouches p req identity.
Proof.
  unfold Provider.complete_auth, Provider.client, Provider.checked_redirect_url. intros Hrun.
  minv. destruct (redirect_url_error _); minv. destruct (exchange_code_error _); minv.
  match goal with H : negb (Provider.nonce_ok _ _) = false |- _ =>
    apply negb_false_iff, orb_true_iff in H; rename H into Hnonce end.
  split; [done|]. match goal with
    Hr : request_async ?c _ ?v = Ok (Some ?raw), Hc : id_token_claims _ _ = Ok ?cl, Hm : jwt_claims _ = Ok ?m |- _ =>
    exists c, v, raw, cl, m end.
  split_and!; try done;
    [by eapply verifier_required| |by eapply subject_Ok|
     match goal with H : Provider.validate_trust _ _ = Ok _ |- _ => exact (trust_Ok _ _ _ H) end].
  destruct Hnonce as [Hn|Hn%bool_decide_eq_true]; [left|by right]. by destruct (car_nonce req).
Qed.

(** C24: A provider that requires PKCE sends the challenge of a fresh verifier with the
    authorization request, and the private state it answers gives exactly that verifier back
    when the code is redeemed; a provider that does not require it sends none and needs none. *)
Theorem pkce_binds_requests `{!JwtLaws} {S} p req (w w' : World S) res :
  Provider.begin_auth p req w = (Ok res, w') →
  let '(challenge, verifier) := pkce_challenge (draws w) in
  let required := String.eqb (Provider.pkce p) "required" in
  (∃ request,
     ar_state _ request = bar_state req ∧ ar_nonce _ request = bar_nonce req ∧ "openid" ∉ ar_scopes _ request
     ∧ ar_pkce_challenge _ request = (if required then Some challenge else None)
     ∧ bares_redirect_url res = url_to_string (if is_empty (bar_nonce req)
                                               then remove_query_param (request_url request) "nonce"
                                               else request_url request))
  ∧ (verifier ≠ "" →
     Provider.token_exchange_verifier p (bares_private_state res)
     = Ok (if required then Some verifier else None)).
Proof.
  unfold Provider.begin_auth, Provider.client, Provider.checked_redirect_url, Provider.new_random_sha256.
  intros Hrun. destruct (pkce_challenge (draws w)) as [challenge verifier] eqn:Hpkce. cbn zeta in *.
  unfold bind at 1 in Hrun. destruct (redirect_url_error _); [done|]. simpl in Hrun.
  set (c := mkClient _ _ _ _) in Hrun.
  set (scopes := List.filter _ _) in Hrun.
  assert ("openid" ∉ scopes) as Hscopes by (by intros [_ Hx]%list_elem_of_In%filter_In).
  set (extra := if negb _ then _ else _) in Hrun.
  destruct (String.eqb (Provider.pkce p) "required") eqn:Hreq; minv; rewrite ?Hpkce in *.
  - split; [by eexists (mkAuthorizationRequest c _ _ scopes extra _)|]. intros Hne.
    match goal with H : value_to_vec _ = Ok ?raw |- _ => rename H into Hraw;
      destruct (json_writes (private_state_to_json (mkPrivateState (Some verifier)))) as (raw' & Hraw' & Hnil);
      simpl in Hraw; rewrite Hraw in Hraw'; injection Hraw' as <-; rename raw into text end.
    unfold Provider.token_exchange_verifier. rewrite Hreq.
    destruct (String.list_byte_of_string text) as [|b bytes] eqn:Hbytes; [by destruct text|].
    apply json_round in Hraw; [|by vm_compute].
    rewrite <- Hbytes, String.string_of_list_byte_of_string, Hraw. simpl.
    by destruct verifier.
  - split; [by eexists (mkAuthorizationRequest c _ _ scopes extra _)|]. intros _.
    unfold Provider.token_exchange_verifier. by rewrite Hreq.
Qed.
End Oidc.

(** * A provider to try them on *)

(** A provider whose authorization codes name the challenge that they were issued for. *)
Definition demo_hash (verifier : option string) : string :=
  match verifier with Some v => "hash-" +:+ v | None => "plain" end.

Definition demo_claims : list (string * Json) :=
  [("iss", JString "https://login.example.org"); ("sub", JString "pairwise"); ("nonce", JString "n1");
   ("tid", JString "studio"); ("oid", JString "ann"); ("email", JString "ann@example.org");
   ("email_verified", JBool true)].

Definition demo_id_token : string := "h." +:+ hex_encode (json_text (JObject demo_claims)) +:+ ".signed".

#[export] Instance demo_oidc : OidcLib := {|
  unicode_lowercase := to_ascii_lowercase;
  serde_error _ := "not a private state";
  issuer_url_error _ := None;
  redirect_url_error url := if is_empty url then Some "relative URL without a base" else None;
  http_client_error := None;
  ProviderMetadata := string;
  discover_async issuer := Ok issuer;
  metadata_issuer issuer := issuer;
  AuthUrl := string * list (string * string);
  request_url r := ("https://login.example.org/authorize",
    [("state", ar_state _ r); ("nonce", ar_nonce _ r);
     ("code_challenge", default "" (ar_pkce_challenge _ r))]);
  query_pairs := snd;
  set_query_pairs url pairs := (url.1, pairs);
  url_to_string url := url.1 +:+ "?" +:+ String.concat "&" (map (λ kv, kv.1 +:+ "=" +:+ kv.2) url.2);
  pkce_challenge n := (demo_hash (Some (letters (43 + n))), letters (43 + n));
  exchange_code_error _ := None;
  request_async _ code verifier :=
    if String.eqb code ("for-" +:+ demo_hash verifier) then Ok (Some demo_id_token) else Err "invalid_grant";
  id_token_claims client raw :=
    match @jwt_claims demo_jwt raw with
    | Ok members => Ok (mkIdTokenClaims (cl_metadata client) (string_claim members "sub")
                          (get_claim members "nonce" ≫= as_str))
    | Err _ => Err "invalid signature"
    end
|}.

Definition demo_oidc_config : OidcConfig :=
  mkOidcConfig " studio " "entra" "" "https://login.example.org" "bridge" "secret"
    "https://auth.example.org/callback" [] ∅ "entra_oid_tid" "studio" "" "required" [] [] "".

Definition demo_provider : Provider.t :=
  match Provider.from_metadata demo_oidc_config "https://login.example.org" with
  | Ok p => p
  | Err _ => Provider.mk "" "" "" "" "" "" "" [] "" ∅ "" "" "" "" [] ∅ ""
  end.


Definition demo_begin : BeginAuthRequest := mkBeginAuthRequest "s1" "n1" "" "".

Lemma pkce_binds_requests_witness :
  ∃ res w', Provider.begin_auth demo_provider demo_begin (mkWorld tt 0 0)
            = (Ok res, w')
    ∧ Provider.token_exchange_verifier demo_provider (bares_private_state res) = Ok (Some (letters 43)).
Proof.
  destruct (Provider.begin_auth demo_provider demo_begin (mkWorld tt 0 0))
    as [[res|err] w'] eqn:Hrun;
    [|apply (f_equal (λ r, match r.1 with Ok _ => true | Err _ => false end)) in Hrun; vm_compute in Hrun; discriminate].
  exists res, w'. split; [reflexivity|].
  destruct (pkce_binds_requests demo_provider _ _ _ _ Hrun) as [_ Hverifier].
  apply Hverifier. vm_compute. discriminate.
Defined.
