(* ===== verification/AuthzFacts.v ===== *)
(** The authorization policy of the in-memory adapter: an access decision is the
    existence of a grant to the user or to a group that contains the user, listing
    agrees with deciding, and the evidence shown to an administrator is complete. *)

From Stdlib Require Import ZArith Lia Ascii.
From stdpp Require Import base gmap strings list sorting.
From S2P Require Import Prelude Model MemState MemGraph MemGrants ModelFacts Demo.

(** * Specification *)

Inductive grant_subject `{Env} (s : State) (user_id : string) : string * string → Prop :=
  | gs_user : grant_subject s user_id ("user", user_id)
  | gs_group g :
      contains_transitively (group_groups s) (direct_group_ids_for_user s user_id) g →
      grant_subject s user_id ("group", g).

(** [role] is granted on the resource to the user or to a group that contains the user. *)
Definition granted_role `{Env} (s : State) (user_id resource_id role : string) : Prop :=
  ∃ subject entries, grant_subject s user_id subject ∧ grants s !! subject = Some entries
    ∧ entries !! resource_id = Some role.

Definition granted `{Env} (s : State) (user_id resource_id action : string) : Prop :=
  ∃ role, granted_role s user_id resource_id role ∧ role_allows role action = true.

(** Every stored role is one of the three. *)
Definition known_roles (s : State) : Prop :=
  ∀ subject entries resource_id role, grants s !! subject = Some entries →
    entries !! resource_id = Some role → is_known_role role = true.

Section Decisions.
Context `{Env}.

Lemma elem_of_grant_subject_keys s user_id subject :
  subject ∈ grant_subject_keys_for_user s user_id ↔ grant_subject s user_id subject.
Proof.
  unfold grant_subject_keys_for_user. rewrite elem_of_cons, list_elem_of_fmap. split.
  - intros [->|(g & -> & Hg)]; constructor.
    rewrite hashset_iter_perm, elem_of_elements in Hg. by apply elem_of_group_closure.
  - intros [|g Hg]; [by left|right]. exists g. split; [done|].
    rewrite hashset_iter_perm, elem_of_elements. by apply elem_of_group_closure.
Qed.

(** The decision, as a function of the state. *)
Definition decision (s : State) (user_id resource_id action : string) : bool :=
  existsb (λ role, role_allows role action)
    (omap (λ subject, entries ← grants s !! subject; entries !! resource_id)
      (grant_subject_keys_for_user s user_id)).

Lemma decision_spec s user_id resource_id action :
  decision s user_id resource_id action = true ↔ granted s user_id resource_id action.
Proof.
  unfold decision, granted, granted_role. rewrite existsb_exists. split.
  - intros (role & Hin%list_elem_of_In & Ha). apply list_elem_of_omap in Hin as (k & Hk & Hr).
    apply elem_of_grant_subject_keys in Hk.
    destruct (grants s !! k) as [entries|] eqn:He; [|done]. simpl in Hr. eauto 10.
  - intros (role & (k & entries & Hk & He & Hr) & Ha). exists role. split; [|done].
    apply list_elem_of_In, list_elem_of_omap. exists k.
    rewrite elem_of_grant_subject_keys, He. done.
Qed.

Lemma can_access_run user_id resource_id action w :
  Grants.can_access user_id resource_id action w
  = (Ok (decision (st w) user_id resource_id action), w).
Proof. done. Qed.

(** C18: can_access of the in-memory policy always answers and does not write; it answers true
    exactly when some role that allows the action is granted on the resource to the user or to a
    group that contains the user through any chain of nested groups. *)
Theorem can_access_iff_granted user_id resource_id action w :
  ∃ b, Grants.can_access user_id resource_id action w = (Ok b, w)
    ∧ (b = true ↔ granted (st w) user_id resource_id action).
Proof. eexists. split; [apply can_access_run|apply decision_spec]. Qed.
End Decisions.

(** * Listing *)

Section Listing.
Context `{Env}.

Definition has (acc : gmap string (gset Permission)) (resource_id : string) (p : Permission) : Prop :=
  ∃ ps, acc !! resource_id = Some ps ∧ p ∈ ps.

Lemma prefix_test prefix r :
  negb (is_empty prefix) && negb (starts_with prefix r) = negb (starts_with prefix r).
Proof. destruct prefix; [by destruct r|done]. Qed.

Lemma has_insert acc r r' p ps :
  has (<[r := default ∅ (acc !! r) ∪ ps]> acc) r' p ↔ has acc r' p ∨ (r' = r ∧ p ∈ ps).
Proof.
  unfold has. destruct (decide (r' = r)) as [->|Hne].
  - rewrite lookup_insert_eq. transitivity (p ∈ default ∅ (acc !! r) ∪ ps).
    { split; [by intros (? & [= <-] & ?)|by eauto]. }
    rewrite elem_of_union. destruct (acc !! r) as [ps0|]; simpl.
    + split; [intros [?|?]; eauto|]. by intros [(? & [= <-] & ?)|[_ ?]]; [left|right].
    + rewrite elem_of_empty. split; [intros [[]|?]; eauto|].
      by intros [(? & ? & _)|[_ ?]]; [|right].
  - rewrite lookup_insert_ne by done. split; [by left|]. by intros [?|[? _]].
Qed.

Lemma accessible_entries_spec prefix entries acc w :
  (∀ r role, (r, role) ∈ entries → is_known_role role = true) →
  ∃ acc', Grants.accessible_entries prefix entries acc w = (Ok acc', w)
    ∧ ∀ r p, has acc' r p ↔ has acc r p ∨ starts_with prefix r = true ∧
        ∃ role, (r, role) ∈ entries ∧ role_allows role (permission_as_str p) = true.
Proof.
  revert acc. induction entries as [|[r0 role0] entries IH]; intros acc Hk; simpl.
  - exists acc. split; [done|]. intros r p. split; [by left|].
    intros [?|(_ & role & Hin & _)]; [done|by apply not_elem_of_nil in Hin].
  - rewrite prefix_test.
    assert (∀ r role, (r, role) ∈ entries → is_known_role role = true) as Hk'.
    { intros. eapply Hk. by right. }
    destruct (starts_with prefix r0) eqn:Hp; simpl.
    + destruct (role_permissions_known role0) as [ps Hps]; [eapply Hk; by left|].
      rewrite Hps. mrun. destruct (IH (<[r0 := default ∅ (acc !! r0) ∪ list_to_set ps]> acc) Hk')
        as (acc' & -> & Hacc). exists acc'. split; [done|]. intros r p.
      rewrite Hacc, has_insert, elem_of_list_to_set. split.
      * intros [[?|[-> Hin]]|(? & role & ? & ?)]; [by left| |right; set_solver].
        right. split; [done|]. exists role0. split; [by left|].
        apply role_allows_permissions. eauto.
      * intros [?|(? & role & [[= -> ->]|?]%elem_of_cons & Ha)]; [by do 2 left| |right; eauto].
        left. right. split; [done|]. apply role_allows_permissions in Ha as (ps' & Hps' & Hin).
        congruence.
    + destruct (IH acc Hk') as (acc' & -> & Hacc). exists acc'. split; [done|].
      intros r p. rewrite Hacc. split; [set_solver|].
      intros [?|(? & role & [[= -> ->]|?]%elem_of_cons & Ha)]; [by left|congruence|right; eauto].
Qed.

Lemma accessible_subjects_spec s prefix subjects acc w :
  known_roles s →
  ∃ acc', Grants.accessible_subjects s prefix subjects acc w = (Ok acc', w)
    ∧ ∀ r p, has acc' r p ↔ has acc r p ∨ starts_with prefix r = true ∧
        ∃ k entries role, k ∈ subjects ∧ grants s !! k = Some entries ∧ entries !! r = Some role
          ∧ role_allows role (permission_as_str p) = true.
Proof.
  intros Hk. revert acc. induction subjects as [|k subjects IH]; intros acc; simpl.
  - exists acc. split; [done|]. intros r p. split; [by left|].
    intros [?|(_ & k & ? & ? & Hin & _)]; [done|by apply not_elem_of_nil in Hin].
  - destruct (accessible_entries_spec prefix (hash_iter (default ∅ (grants s !! k))) acc w)
      as (acc1 & Hrun & Hacc1).
    { intros r role Hin%elem_of_hash_iter. destruct (grants s !! k) as [es|] eqn:He;
        [by eapply Hk|simpl in Hin; by rewrite lookup_empty in Hin]. }
    unfold bind. rewrite Hrun. destruct (IH acc1) as (acc' & -> & Hacc'). exists acc'.
    split; [done|]. intros r p. rewrite Hacc', Hacc1. split.
    + intros [[?|(Hp & role & Hin%elem_of_hash_iter & Ha)]|(Hp & k' & es & role & ? & ? & ? & ?)];
        [by left| |right; set_solver].
      right. split; [done|]. destruct (grants s !! k) as [es|] eqn:He;
        [|simpl in Hin; by rewrite lookup_empty in Hin]. exists k, es, role. set_solver.
    + intros [?|(Hp & k' & es & role & [->|?]%elem_of_cons & He & Hr & Ha)];
        [by do 2 left| |right; set_solver].
      left. right. split; [done|]. exists role. split; [|done].
      apply elem_of_hash_iter. by rewrite He.
Qed.

(** C19: When all stored roles are known, list_accessible answers a list sorted by and without
    duplicates of resource ids, and lists a permission on a resource exactly when the resource
    has the requested prefix and can_access allows that permission. *)
Theorem list_accessible_agrees user_id prefix w :
  known_roles (st w) →
  ∃ l, Grants.list_accessible user_id (mkResourceFilter prefix) w = (Ok l, w)
    ∧ NoDup (rp_resource_id <$> l)
    ∧ Sorted (λ a b, str_leb (rp_resource_id a) (rp_resource_id b) = true) l
    ∧ ∀ resource_id p,
        (∃ rp, rp ∈ l ∧ rp_resource_id rp = resource_id ∧ p ∈ rp_permission rp)
        ↔ starts_with prefix resource_id = true
          ∧ Grants.can_access user_id resource_id (permission_as_str p) w = (Ok true, w).
Proof.
  intros Hk. destruct (accessible_subjects_spec (st w) prefix
    (grant_subject_keys_for_user (st w) user_id) ∅ w Hk) as (acc & Hrun & Hacc).
  eexists. split_and!.
  - unfold Grants.list_accessible, get_state, bind. cbn [rf_prefix]. rewrite Hrun. reflexivity.
  - rewrite sort_by_perm, <- list_fmap_compose. simpl.
    rewrite hash_iter_perm. apply NoDup_fst_map_to_list.
  - apply sort_by_sorted. intros. apply str_leb_total.
  - intros r p. rewrite can_access_run.
    transitivity (has acc r p).
    + unfold has. split.
      * intros (rp & Hin & Hr & Hp). rewrite elem_of_sort_by, list_elem_of_fmap in Hin.
        destruct Hin as ([r' ps] & -> & Hin%elem_of_hash_iter). simpl in *. subst r'.
        rewrite elem_of_sort_by, hashset_iter_perm, elem_of_elements in Hp. eauto.
      * intros (ps & Hr & Hp). eexists. split_and!; [| |].
        { rewrite elem_of_sort_by, list_elem_of_fmap. exists (r, ps). split; [done|].
          by apply elem_of_hash_iter. }
        { done. }
        { simpl. by rewrite elem_of_sort_by, hashset_iter_perm, elem_of_elements. }
    + rewrite Hacc. split.
      * intros [(ps & Hps & _)|(Hp & k & es & role & Hin & He & Hr & Ha)];
          [by rewrite lookup_empty in Hps|]. split; [done|]. do 2 f_equal.
        apply decision_spec. exists role. split; [|done]. exists k, es.
        by rewrite <- elem_of_grant_subject_keys.
      * intros [Hp [= Hd]]. apply decision_spec in Hd as (role & (k & es & Hin & He & Hr) & Ha).
        right. split; [done|]. exists k, es, role. by rewrite elem_of_grant_subject_keys.
Qed.
End Listing.

(** * Evidence *)

Section Evidence.
Context `{Env}.

Definition user_label (u : User) : string :=
  if is_empty (trim (u_email u)) then u_id u else u_email u.

(** The evidence states a stored grant, and its path renders a chain of memberships
    from the user to the subject. *)
Inductive evidence_sound (s : State) (user_id : string) (u : User) (resource_id : string)
    : GrantEvidence → Prop :=
  | es_user entries role :
      grants s !! ("user", user_id) = Some entries → entries !! resource_id = Some role →
      evidence_sound s user_id u resource_id
        (mkGrantEvidence "user" user_id (user_label u) role ("user:" +:+ user_label u +:+ " -> grant"))
  | es_group g p entries role :
      renders_chain s (direct_group_ids_for_user s user_id) g p →
      grants s !! ("group", g) = Some entries → entries !! resource_id = Some role →
      evidence_sound s user_id u resource_id
        (mkGrantEvidence "group" g (group_label s g) role
          ("user:" +:+ user_label u +:+ " -> " +:+ p +:+ " -> grant")).

Definition direct_evidence (s : State) (user_id : string) (u : User) (resource_id : string)
    : list GrantEvidence :=
  match (grants s !! ("user", user_id)) ≫= (.!! resource_id) with
  | Some role =>
      [mkGrantEvidence "user" user_id (user_label u) role
         ("user:" +:+ user_label u +:+ " -> grant")]
  | None => []
  end.

Definition group_evidence (s : State) (user_id : string) (u : User) (resource_id : string)
    : list GrantEvidence :=
  omap (λ entry : string * string,
      match (grants s !! ("group", entry.1)) ≫= (.!! resource_id) with
      | Some role =>
          Some (mkGrantEvidence "group" entry.1 (group_label s entry.1) role
            ("user:" +:+ user_label u +:+ " -> " +:+ entry.2 +:+ " -> grant"))
      | None => None
      end) (hash_iter (group_paths_for_user s user_id)).

Lemma evidence_all_sound s user_id u resource_id e :
  e ∈ direct_evidence s user_id u resource_id ++ group_evidence s user_id u resource_id →
  evidence_sound s user_id u resource_id e.
Proof.
  rewrite elem_of_app. unfold direct_evidence, group_evidence. intros [Hin|Hin].
  - destruct (grants s !! ("user", user_id)) as [es|] eqn:He; simpl in Hin;
      [|by apply not_elem_of_nil in Hin].
    destruct (es !! resource_id) as [role|] eqn:Hr; [|by apply not_elem_of_nil in Hin].
    apply list_elem_of_singleton in Hin as ->. by econstructor.
  - apply list_elem_of_omap in Hin as ([g p] & Hin%elem_of_hash_iter & Heq). simpl in Heq.
    destruct (grants s !! ("group", g)) as [es|] eqn:He; [|done]. simpl in Heq.
    destruct (es !! resource_id) as [role|] eqn:Hr; [|done]. injection Heq as <-.
    econstructor; [|done..]. by eapply bi_chain; [apply group_paths_for_user_inv|].
Qed.

Lemma evidence_complete s user_id u resource_id role :
  granted_role s user_id resource_id role →
  ∃ e, e ∈ direct_evidence s user_id u resource_id ++ group_evidence s user_id u resource_id
    ∧ ge_role e = role.
Proof.
  intros (k & es & Hk & He & Hr). destruct Hk as [|g Hg].
  - eexists. split; [apply elem_of_app; left|].
    + unfold direct_evidence. rewrite He. simpl. rewrite Hr. by left.
    + done.
  - apply elem_of_group_closure, group_paths_for_user_dom in Hg as [p Hp].
    eexists. split; [apply elem_of_app; right|].
    + apply list_elem_of_omap. exists (g, p). split; [by apply elem_of_hash_iter|].
      simpl. rewrite He. simpl. rewrite Hr. done.
    + done.
Qed.

Lemma evidence_sound_granted s user_id u resource_id e :
  evidence_sound s user_id u resource_id e → granted_role s user_id resource_id (ge_role e).
Proof.
  intros [es role He Hr|g p es role Hp He Hr]; simpl.
  - exists ("user", user_id), es. split; [constructor|done].
  - exists ("group", g), es. split; [|done]. constructor. by eapply renders_chain_sound.
Qed.

Lemma grants_for_user_run user_id resource_id w u r :
  users (st w) !! user_id = Some u → u_status u ≠ "deleted" →
  resources (st w) !! resource_id = Some r → r_status r ≠ "deleted" →
  r_resource_id r = resource_id →
  for_repository_id (repository_id_from_resource_id (trim resource_id)) = Some resource_id →
  Grants.grants_for_user_on_repository user_id resource_id w
  = (Ok (sort_by Grants.evidence_leb
      (direct_evidence (st w) user_id u resource_id ++ group_evidence (st w) user_id u resource_id)), w).
Proof.
  intros Hu Hus Hr Hrs Hrid Hc. unfold Grants.grants_for_user_on_repository.
  unfold resolve_exact_resource_id. mrun. rewrite Hc, Hr. simpl.
  destruct (String.eqb_spec (r_status r) "deleted"); [done|]. simpl. rewrite Hu.
  destruct (String.eqb_spec (u_status u) "deleted"); [done|]. simpl. rewrite Hrid. done.
Qed.

(** The grant evidence shown for a user and a repository is sound (each entry is a stored
    grant, and its path spells a real chain of group memberships) and complete: some entry
    allows an action exactly when can_access does. *)
Theorem evidence_explains_access user_id resource_id w u r :
  users (st w) !! user_id = Some u → u_status u ≠ "deleted" →
  resources (st w) !! resource_id = Some r → r_status r ≠ "deleted" →
  r_resource_id r = resource_id →
  for_repository_id (repository_id_from_resource_id (trim resource_id)) = Some resource_id →
  ∃ l, Grants.grants_for_user_on_repository user_id resource_id w = (Ok l, w)
    ∧ (∀ e, e ∈ l → evidence_sound (st w) user_id u resource_id e)
    ∧ ∀ action, (∃ e, e ∈ l ∧ role_allows (ge_role e) action = true)
        ↔ Grants.can_access user_id resource_id action w = (Ok true, w).
Proof.
  intros Hu Hus Hr Hrs Hrid Hc. eexists. split_and!; [by eapply grants_for_user_run| |].
  - intros e. rewrite elem_of_sort_by. apply evidence_all_sound.
  - intros action. rewrite can_access_run. split.
    + intros (e & Hin & Ha). rewrite elem_of_sort_by in Hin. do 2 f_equal.
      apply decision_spec. exists (ge_role e). split; [|done].
      eapply evidence_sound_granted, evidence_all_sound, Hin.
    + intros [= Hd]. apply decision_spec in Hd as (role & Hg & Ha).
      destruct (evidence_complete (st w) user_id u resource_id role Hg) as (e & Hin & <-).
      exists e. rewrite elem_of_sort_by. done.
Qed.
End Evidence.

(** * Grant administration *)

Section Administration.
Context `{Env}.

Lemma known_roles_insert s subject resource_id role :
  is_known_role role = true → known_roles s →
  known_roles (upd_grants (Grants.insert_grant subject resource_id role) s).
Proof.
  intros Hr Hk subject' entries rid role'. simpl. unfold Grants.insert_grant.
  destruct (decide (subject' = subject)) as [->|Hne].
  - rewrite lookup_insert_eq. intros [= <-]. destruct (decide (rid = resource_id)) as [->|Hne'].
    + rewrite lookup_insert_eq. by intros [= <-].
    + rewrite lookup_insert_ne by done. destruct (grants s !! subject) eqn:He; simpl;
        [by eapply Hk|by rewrite lookup_empty].
  - rewrite lookup_insert_ne by done. apply Hk.
Qed.

Lemma known_roles_delete s subject resource_id :
  known_roles s → known_roles (upd_grants (alter (delete resource_id) subject) s).
Proof.
  intros Hk subject' entries rid role. simpl. rewrite lookup_alter_Some.
  intros [(-> & es & He & ->)|[_ He]] Hr; [|by eapply Hk].
  apply lookup_delete_Some in Hr as [_ Hr]. by eapply Hk.
Qed.

(** A grant takes effect at once for every user the subject stands for, and removing it
    succeeds and takes back exactly the entry of that subject and repository. *)
Theorem grant_then_revoke subject_type subject_id repo role w g w1 :
  Grants.add_grant subject_type subject_id repo role w = (Ok g, w1) →
  ∃ resource_id,
    resolve_resource_id_for_repo (st w) repo = Ok resource_id
    ∧ (∀ user_id action, grant_subject (st w) user_id (subject_type, gr_subject_id g) →
         role_allows role action = true →
         Grants.can_access user_id resource_id action w1 = (Ok true, w1))
    ∧ ∃ w2, Grants.remove_grant subject_type subject_id repo role w1 = (Ok tt, w2)
        ∧ ∀ subject rid, (grants (st w2) !! subject ≫= (.!! rid)) =
            if decide (subject = (subject_type, gr_subject_id g) ∧ rid = resource_id) then None
            else grants (st w) !! subject ≫= (.!! rid).
Proof.
  unfold Grants.add_grant. destruct (is_known_role role) eqn:Hk; simpl; [|done]. mrun.
  destruct (resolve_grant_subject_id (st w) subject_type subject_id) as [sid|] eqn:Hs; [|done].
  destruct (resolve_resource_id_for_repo (st w) repo) as [rid|] eqn:Hr; [|done].
  intros [= <- <-]. simpl. exists rid. split; [done|]. split.
  - intros user_id action Hsub Ha. rewrite can_access_run. do 2 f_equal. apply decision_spec.
    exists role. split; [|done]. exists (subject_type, sid). eexists. split_and!.
    + inversion Hsub; subst; [apply gs_user|by apply gs_group].
    + simpl. unfold Grants.insert_grant. apply lookup_insert_eq.
    + apply lookup_insert_eq.
  - unfold Grants.remove_grant. mrun.
    assert (resolve_grant_subject_id (upd_grants (Grants.insert_grant (subject_type, sid) rid role) (st w))
              subject_type subject_id = Ok sid) as -> by exact Hs.
    assert (resolve_resource_id_for_repo (upd_grants (Grants.insert_grant (subject_type, sid) rid role) (st w))
              repo = Ok rid) as -> by exact Hr.
    eexists. split; [done|]. intros subject rid'. simpl. unfold Grants.insert_grant.
    destruct (decide (subject = (subject_type, sid))) as [->|Hne].
    + rewrite lookup_alter_eq, lookup_insert_eq. simpl. destruct (decide (rid' = rid)) as [->|Hne].
      * rewrite lookup_delete_eq, decide_True by done. done.
      * rewrite decide_False by naive_solver. rewrite lookup_delete_ne, lookup_insert_ne by done.
        by destruct (grants (st w) !! _).
    + rewrite lookup_alter_ne, lookup_insert_ne, decide_False by naive_solver. done.
Qed.
End Administration.

(** * Examples *)

Lemma demo_known_roles : known_roles demo_store.
Proof.
  intros k es rid role. simpl. rewrite lookup_singleton_Some. intros [_ <-].
  rewrite lookup_singleton_Some. by intros [_ <-].
Qed.

Lemma list_accessible_agrees_witness :
  ∃ l, Grants.list_accessible "ann" (mkResourceFilter "urc-") demo_world = (Ok l, demo_world)
    ∧ ∃ rp, rp ∈ l ∧ rp_resource_id rp = "urc-game" ∧ PermWrite ∈ rp_permission rp.
Proof.
  destruct (list_accessible_agrees "ann" "urc-" demo_world demo_known_roles) as (l & Hl & _ & _ & Hi).
  exists l. split; [exact Hl|]. apply Hi. split; [reflexivity|vm_compute; reflexivity].
Defined.

