(* ===== verification/SqlTuples.v ===== *)
(** Relation tuples: what they mean, and that the tuples read from the rows mean what
    the rows do.  The pushed-down filters select what filtering would, the snapshot of
    one user loses nothing that user's checks depend on, and the closure computed from a
    snapshot is the one computed by the database. *)

From Stdlib Require Import ZArith Lia Ascii Btauto.
From stdpp Require Import base gmap strings list sorting.
From S2P Require Import Prelude Model MemState MemGraph ModelFacts.
From S2P Require Import SqlRows.
From S2P Require Import SqlAuthz.

(** * Specification *)

(** The user is in the relation: by a tuple of its own, or as a member of a group that is. *)
Inductive tuple_member (ts : list Tuple) (user_id : string) : string → string → string → Prop :=
  | tm_user object_type object_id relation :
      mkTuple object_type object_id relation "user" user_id None ∈ ts →
      tuple_member ts user_id object_type object_id relation
  | tm_userset object_type object_id relation group_id :
      mkTuple object_type object_id relation "group" (group_id +:+ "#member") None ∈ ts →
      tuple_member ts user_id "group" group_id "member" →
      tuple_member ts user_id object_type object_id relation.

(** Chains of groups from the relation have at most [n] links. *)
Fixpoint tuples_within (ts : list Tuple) (n : nat) (object_type object_id relation : string) : Prop :=
  ∀ group_id, mkTuple object_type object_id relation "group" (group_id +:+ "#member") None ∈ ts →
    match n with 0 => False | S n => tuples_within ts n "group" group_id "member" end.

(** The grant is to the user or to a group that contains the user. *)
Definition covers (db : Db) (user_id : string) (g : GrantRow) : Prop :=
  gt_subject_type g = "user" ∧ gt_subject_id g = user_id
  ∨ gt_subject_type g = "group" ∧ in_group db user_id (gt_subject_id g).

(** The grant belongs to the repository, which is active. *)
Definition grant_of (db : Db) (r : RepositoryRow) (g : GrantRow) : Prop :=
  r ∈ db_repositories db ∧ g ∈ db_grants db ∧ rep_status r = "active"
  ∧ gt_repository_id g = rep_id r.

Definition resource_of (r : RepositoryRow) : string :=
  default "" (for_repository_id (rep_lore_repository_id r)).

(** [role] is granted on the active repository with this id, to the user or to a group
    that contains the user. *)
Definition reachable_role (db : Db) (user_id lore_repository_id role : string) : Prop :=
  ∃ r g, grant_of db r g ∧ rep_lore_repository_id r = lore_repository_id ∧ gt_role g = role
    ∧ covers db user_id g.

(** The id names a repository the way [ResourceID::for_repository_id] writes it. *)
Definition canonical_resource_id (resource_id : string) : Prop :=
  default "" (for_repository_id (repository_id_from_resource_id resource_id)) = resource_id.

Definition granted_row (db : Db) (user_id resource_id role : string) : Prop :=
  canonical_resource_id resource_id
  ∧ reachable_role db user_id (repository_id_from_resource_id resource_id) role.

(** No repository id starts with the prefix of resource ids. *)
Definition canonical_ids (db : Db) : Prop :=
  ∀ r, r ∈ db_repositories db → starts_with "urc-" (rep_lore_repository_id r) = false.

(** Grants name users or groups. *)
Definition known_subjects (db : Db) : Prop :=
  ∀ g, g ∈ db_grants db → gt_subject_type g = "user" ∨ gt_subject_type g = "group".

(** A snapshot for one user: grants of the selected active repositories, and the group
    tuples from which the user can be reached. *)
Definition user_snapshot (db : Db) (user_id : string) (P : string → Prop) (ts : list Tuple) : Prop :=
  ∀ t, t ∈ ts ↔
    (∃ r g, grant_of db r g ∧ P (rep_lore_repository_id r)
       ∧ t = grant_tuple (rep_lore_repository_id r) (gt_role g) (gt_subject_type g) (gt_subject_id g))
    ∨ (∃ g, direct_group db user_id g ∧ t = member_tuple g user_id)
    ∨ (∃ c p, nested_in db c p ∧ in_group db user_id c ∧ t = nested_tuple p c).

Definition no_filter : TupleFilter := mkTupleFilter None None None None None.

(** * The suffix of member sets *)

Lemma strip_suffix_Some p s r : strip_suffix p s = Some r ↔ s = r +:+ p.
Proof.
  unfold strip_suffix. rewrite fmap_Some. setoid_rewrite strip_prefix_Some. split.
  - intros (x & Hs & ->). by rewrite <- (rev_involutive s), Hs, rev_app, rev_involutive.
  - intros ->. exists (String.rev r). by rewrite rev_app, rev_involutive.
Qed.

Lemma strip_suffix_app p s : strip_suffix p (s +:+ p) = Some s.
Proof. by apply strip_suffix_Some. Qed.

Lemma app_inj_r (a b p : string) : a +:+ p = b +:+ p → a = b.
Proof. intros Heq. pose proof (strip_suffix_app p a) as H. rewrite Heq, strip_suffix_app in H. congruence. Qed.

Lemma strip_suffix_None p s r : strip_suffix p s = None → s ≠ r +:+ p.
Proof. intros H ->. by rewrite strip_suffix_app in H. Qed.

Lemma grant_tuple_user l role sid : grant_tuple l role "user" sid =
  mkTuple "resource" (default "" (for_repository_id l)) role "user" sid None.
Proof. done. Qed.

Lemma grant_tuple_group l role sid : grant_tuple l role "group" sid =
  mkTuple "resource" (default "" (for_repository_id l)) role "group" (sid +:+ "#member") None.
Proof. done. Qed.

Lemma grant_tuple_subject_type l role st sid : tp_subject_type (grant_tuple l role st sid) = st.
Proof. done. Qed.

(** Which grant a tuple comes from. *)
Lemma grant_tuple_user_inv l role st sid ot oid rel user_id :
  grant_tuple l role st sid = mkTuple ot oid rel "user" user_id None →
  ot = "resource" ∧ oid = default "" (for_repository_id l) ∧ rel = role ∧ st = "user" ∧ sid = user_id.
Proof.
  intros Heq. assert (st = "user") as -> by (by apply (f_equal tp_subject_type) in Heq).
  rewrite grant_tuple_user in Heq. by simplify_eq.
Qed.

Lemma grant_tuple_group_inv l role st sid ot oid rel g :
  grant_tuple l role st sid = mkTuple ot oid rel "group" (g +:+ "#member") None →
  ot = "resource" ∧ oid = default "" (for_repository_id l) ∧ rel = role ∧ st = "group" ∧ sid = g.
Proof.
  intros Heq. assert (st = "group") as -> by (by apply (f_equal tp_subject_type) in Heq).
  rewrite grant_tuple_group in Heq. injection Heq as <- <- <- Hg%app_inj_r. done.
Qed.

(** * What is in the tuples that the queries return *)

Lemma on_repository_true r g : on_repository r g = true ↔ gt_repository_id g = rep_id r.
Proof. apply String.eqb_eq. Qed.

Lemma is_active_true r : is_active r = true ↔ rep_status r = "active".
Proof. apply String.eqb_eq. Qed.

Lemma elem_of_joined db r g :
  (r, g) ∈ join_on on_repository (db_repositories db) (db_grants db) ∧ is_active r = true
  ↔ grant_of db r g.
Proof. unfold grant_of. rewrite elem_of_join_on, on_repository_true, is_active_true. tauto. Qed.

Lemma elem_of_grant_rows rows t :
  t ∈ omap grant_tuple_from_row (order_by grant_row_key (map (λ row, (row.1, Some row.2)) rows))
  ↔ ∃ r g, (r, g) ∈ rows
      ∧ t = grant_tuple (rep_lore_repository_id r) (gt_role g) (gt_subject_type g) (gt_subject_id g).
Proof.
  rewrite list_elem_of_omap. setoid_rewrite elem_of_order_by. setoid_rewrite elem_of_map. split.
  - intros (x & ([r g] & Hin & <-) & [= <-]). eauto.
  - intros (r & g & Hin & ->). eexists. split; [exists (r, g); split; [done|reflexivity]|done].
Qed.

Lemma elem_of_user_tuples db user_id ts t :
  t ∈ read_user_reachable_group_member_tuples_conn db user_id ts ↔
    t ∈ ts ∨ (∃ g, direct_group db user_id g ∧ t = member_tuple g user_id)
    ∨ (∃ c p, nested_in db c p ∧ in_group db user_id c ∧ t = nested_tuple p c).
Proof.
  unfold read_user_reachable_group_member_tuples_conn. rewrite !elem_of_app, !elem_of_map.
  setoid_rewrite elem_of_order_by. setoid_rewrite elem_of_where.
  setoid_rewrite String.eqb_eq. f_equiv. f_equiv.
  - split.
    + intros (gm & (Hin & <-) & <-). exists (gm_group_id gm). split; [|done]. by exists gm.
    + intros (g & (gm & Hin & <- & <-) & ->). eauto.
  - split.
    + intros ([gg ug] & Hj & <-). apply elem_of_join_on in Hj as (Hin & Hu & Heq%String.eqb_eq).
      simpl in *. subst ug. exists (gg_member_group_id gg), (gg_group_id gg).
      split_and!; [by exists gg|by apply elem_of_user_groups|done].
    + intros (c & p & (gg & Hin & <- & <-) & Hg & ->).
      exists (gg, gg_member_group_id gg). split; [|done]. apply elem_of_join_on.
      split_and!; [done|by apply elem_of_user_groups|by apply String.eqb_eq].
Qed.

Lemma active_grants_spec db lore ts0 r :
  read_active_repository_grant_tuples_conn db lore ts0 = r →
  match r with
  | Ok ts => (∃ rep, rep ∈ db_repositories db ∧ rep_status rep = "active"
                ∧ rep_lore_repository_id rep = lore)
      ∧ ∀ t, t ∈ ts ↔ t ∈ ts0 ∨ ∃ r g, grant_of db r g ∧ rep_lore_repository_id r = lore
          ∧ t = grant_tuple (rep_lore_repository_id r) (gt_role g) (gt_subject_type g) (gt_subject_id g)
  | Err e => e = NotFound ∧ ∀ rep, rep ∈ db_repositories db → rep_status rep = "active" →
                rep_lore_repository_id rep ≠ lore
  end.
Proof.
  unfold read_active_repository_grant_tuples_conn.
  set (rows := order_by _ _).
  assert (∀ rep og, (rep, og) ∈ rows ↔
    ((rep, og) ∈ left_join_on on_repository (db_repositories db) (db_grants db)
     ∧ rep_status rep = "active" ∧ rep_lore_repository_id rep = lore)) as Hrows.
  { intros rep og. unfold rows. rewrite elem_of_order_by, elem_of_where. simpl.
    by rewrite andb_true_iff, is_active_true, String.eqb_eq. }
  assert (∀ rep, rep ∈ db_repositories db → ∃ og,
    (rep, og) ∈ left_join_on on_repository (db_repositories db) (db_grants db)) as Hex.
  { intros rep Hin. setoid_rewrite elem_of_left_join_on.
    destruct (List.filter (on_repository rep) (db_grants db)) as [|g gs] eqn:Hf.
    - exists None. split; [done|]. intros g Hg. apply not_true_iff_false. intros Hp.
      destruct (not_elem_of_nil g). rewrite <- Hf. by apply elem_of_where.
    - exists (Some g). split; [done|]. apply elem_of_where. unfold where_. rewrite Hf. left. }
  destruct rows as [|[rep0 og0] rows'] eqn:Hr; intros <-.
  - split; [done|]. intros rep Hin Ha Hl. destruct (Hex rep Hin) as [og Hog].
    destruct (not_elem_of_nil (rep, og)). by apply Hrows.
  - split.
    { destruct (Hrows rep0 og0) as [Hin _]. destruct Hin as (Hin & ? & ?); [left|].
      apply elem_of_left_join_on in Hin as [? _]. eauto. }
    intros t. rewrite elem_of_app, list_elem_of_omap. f_equiv. split.
    + intros ([rep [g|]] & Hin & [= <-]). apply Hrows in Hin as (Hj & ? & ?).
      apply elem_of_left_join_on in Hj as (? & ? & ?%on_repository_true).
      exists rep, g. unfold grant_of. naive_solver.
    + intros (rep & g & (? & ? & ? & ?) & ? & ->). exists (rep, Some g). split; [|done].
      apply Hrows. rewrite elem_of_left_join_on, on_repository_true. done.
Qed.

Lemma elem_of_candidate_tuples db ids t :
  t ∈ read_candidate_grant_tuples_conn db ids [] ↔ ∃ r g, grant_of db r g
    ∧ rep_lore_repository_id r ∈ map repository_id_from_resource_id ids
    ∧ t = grant_tuple (rep_lore_repository_id r) (gt_role g) (gt_subject_type g) (gt_subject_id g).
Proof.
  unfold read_candidate_grant_tuples_conn.
  destruct (map repository_id_from_resource_id ids) as [|l ls] eqn:Hids.
  - split; [by intros ?%not_elem_of_nil|]. by intros (? & ? & _ & ?%not_elem_of_nil & _).
  - rewrite <- Hids, app_nil_l, elem_of_grant_rows. setoid_rewrite elem_of_where. simpl.
    setoid_rewrite andb_true_iff. setoid_rewrite bool_decide_eq_true.
    setoid_rewrite <- elem_of_joined. firstorder.
Qed.

Lemma elem_of_all_tuples db t :
  t ∈ read_tuples_conn db no_filter ↔
    (∃ r g, grant_of db r g
       ∧ t = grant_tuple (rep_lore_repository_id r) (gt_role g) (gt_subject_type g) (gt_subject_id g))
    ∨ (∃ g u, direct_group db u g ∧ t = member_tuple g u)
    ∨ (∃ c p, nested_in db c p ∧ t = nested_tuple p c).
Proof.
  unfold read_tuples_conn, read_group_member_tuples_conn, read_group_group_member_tuples_conn,
    read_user_group_member_tuples_conn, read_grant_tuples_conn. simpl.
  rewrite !elem_of_app, elem_of_grant_rows, !elem_of_map.
  setoid_rewrite elem_of_order_by. setoid_rewrite elem_of_where. simpl.
  assert (∀ A B C : Prop, (A ∨ B) ∨ C ↔ A ∨ B ∨ C) as -> by tauto. f_equiv; [|f_equiv].
  - setoid_rewrite <- elem_of_joined. by repeat setoid_rewrite andb_true_r.
  - split; [intros (x & [? _] & <-); eexists _, _; split; [by exists x|done]|].
    intros (? & ? & (x & ? & <- & <-) & ->). eauto.
  - split; [intros (x & [? _] & <-); eexists _, _; split; [by exists x|done]|].
    intros (? & ? & (x & ? & <- & <-) & ->). eauto.
Qed.

Lemma user_snapshot_of_grants db lore user_id ts0 :
  read_active_repository_grant_tuples_conn db lore [] = Ok ts0 →
  user_snapshot db user_id (λ l, l = lore)
    (read_user_reachable_group_member_tuples_conn db user_id ts0).
Proof.
  intros [_ Ha]%active_grants_spec t. rewrite elem_of_user_tuples, Ha. split; [|naive_solver].
  intros [[?%not_elem_of_nil|?]|?]; naive_solver.
Qed.

Lemma can_access_snapshot_is_user_snapshot `{Env} db lore user_id action ts :
  can_access_snapshot_conn db lore user_id action = Ok ts →
  user_snapshot db user_id (λ l, l = lore) ts.
Proof.
  unfold can_access_snapshot_conn.
  destruct (read_active_repository_grant_tuples_conn _ _ _) as [ts0|] eqn:Ha; [|done].
  destruct (validate_snapshot_can_access_roles _ _ _); [|done].
  intros [= <-]. by apply user_snapshot_of_grants.
Qed.

(** * Snapshots mean what the rows mean *)

Section SnapshotMeaning.
Context (db : Db) (user_id : string) (P : string → Prop) (ts : list Tuple).
Hypothesis Hts : user_snapshot db user_id P ts.

Lemma snapshot_user_tuple ot oid rel :
  mkTuple ot oid rel "user" user_id None ∈ ts ↔
    (∃ r g, grant_of db r g ∧ P (rep_lore_repository_id r) ∧ ot = "resource" ∧ oid = resource_of r
       ∧ rel = gt_role g ∧ gt_subject_type g = "user" ∧ gt_subject_id g = user_id)
    ∨ (ot = "group" ∧ rel = "member" ∧ direct_group db user_id oid).
Proof.
  rewrite (Hts _). split.
  - intros [(r & g & Hg & HP & Ht%eq_sym%grant_tuple_user_inv)|[(g & Hd & [= -> -> ->])|(c & p & _ & _ & [=])]].
    + left. exists r, g. naive_solver.
    + by right.
  - intros [(r & g & Hg & HP & -> & -> & -> & Hst & Hsid)|(-> & -> & Hd)].
    + left. exists r, g. rewrite Hst, Hsid, grant_tuple_user. done.
    + right. left. by exists oid.
Qed.

Lemma snapshot_group_tuple ot oid rel group_id :
  mkTuple ot oid rel "group" (group_id +:+ "#member") None ∈ ts ↔
    (∃ r g, grant_of db r g ∧ P (rep_lore_repository_id r) ∧ ot = "resource" ∧ oid = resource_of r
       ∧ rel = gt_role g ∧ gt_subject_type g = "group" ∧ gt_subject_id g = group_id)
    ∨ (ot = "group" ∧ rel = "member" ∧ nested_in db group_id oid ∧ in_group db user_id group_id).
Proof.
  rewrite (Hts _). split.
  - intros [(r & g & Hg & HP & Ht%eq_sym%grant_tuple_group_inv)|[(g & _ & [=])|(c & p & Hn & Hi & Ht)]].
    + left. exists r, g. naive_solver.
    + right. injection Ht as -> -> -> ->%app_inj_r. done.
  - intros [(r & g & Hg & HP & -> & -> & -> & Hst & Hsid)|(-> & -> & Hn & Hi)].
    + left. exists r, g. rewrite Hst, Hsid, grant_tuple_group. done.
    + right. right. by exists group_id, oid.
Qed.

(** Membership of the user in a group. *)
Lemma snapshot_group_member g : tuple_member ts user_id "group" g "member" ↔ in_group db user_id g.
Proof.
  split.
  - intros Hm. remember "group" as ot eqn:Hot. remember "member" as rel eqn:Hrel.
    induction Hm as [ot g rel Hin|ot g rel c Hin _ IH]; subst.
    + apply snapshot_user_tuple in Hin as [(? & ? & _ & _ & [=] & _)|(_ & _ & ?)].
      by apply in_group_direct.
    + apply snapshot_group_tuple in Hin as [(? & ? & _ & _ & [=] & _)|(_ & _ & Hn & Hi)].
      by eapply in_group_nested.
  - intros (d & Hd & Hr).
    refine (rtc_ind_r (λ y, tuple_member ts user_id "group" y "member") d _ _ g Hr).
    + apply tm_user, snapshot_user_tuple. by right.
    + intros c p Hdc Hcp IH. eapply tm_userset; [|exact IH]. apply snapshot_group_tuple. right.
      split_and!; [done..|]. by exists d.
Qed.

(** A role on a resource: the user holds it exactly when a covering grant gives it. *)
Lemma snapshot_resource_member resource_id role :
  tuple_member ts user_id "resource" resource_id role ↔
    ∃ r g, grant_of db r g ∧ P (rep_lore_repository_id r) ∧ resource_of r = resource_id
      ∧ gt_role g = role ∧ covers db user_id g.
Proof.
  split.
  - intros Hm. inversion Hm as [? ? ? Hin|? ? ? g Hin Hg]; subst.
    + apply snapshot_user_tuple in Hin as [(r & g & ? & ? & _ & -> & -> & ? & ?)|([=] & _)].
      exists r, g. unfold covers. naive_solver.
    + apply snapshot_group_member in Hg.
      apply snapshot_group_tuple in Hin as [(r & gr & ? & ? & _ & -> & -> & ? & <-)|([=] & _)].
      exists r, gr. unfold covers. naive_solver.
  - intros (r & g & Hg & HP & <- & <- & [[Ht Hs]|[Ht Hs]]).
    + apply tm_user, snapshot_user_tuple. left. exists r, g. done.
    + eapply tm_userset; [apply snapshot_group_tuple; left|by apply snapshot_group_member].
      exists r, g. done.
Qed.

(** The depth of the group graph bounds the chains of the snapshot. *)
Lemma snapshot_within n :
  (∀ g, nesting_within db n g) →
  ∀ resource_id role, tuples_within ts (S n) "resource" resource_id role.
Proof.
  intros Hn.
  assert (∀ m g, nesting_within db m g → tuples_within ts m "group" g "member") as Hg.
  { induction m as [|m IH]; intros g Hg c [(? & ? & _ & _ & [=] & _)|(_ & _ & Hc & _)]%snapshot_group_tuple;
      simpl in Hg; [by eapply Hg|]. by apply IH, Hg. }
  intros resource_id role g _. by apply Hg.
Qed.
End SnapshotMeaning.

(** * The whole database read as tuples *)

Lemma all_tuples_user db user_id ot oid rel :
  mkTuple ot oid rel "user" user_id None ∈ read_tuples_conn db no_filter ↔
    (∃ r g, grant_of db r g ∧ ot = "resource" ∧ oid = resource_of r ∧ rel = gt_role g
       ∧ gt_subject_type g = "user" ∧ gt_subject_id g = user_id)
    ∨ (ot = "group" ∧ rel = "member" ∧ direct_group db user_id oid).
Proof.
  rewrite elem_of_all_tuples. split.
  - intros [(r & g & Hg & Ht%eq_sym%grant_tuple_user_inv)|[(g & u & Hd & [= -> -> -> ->])|(c & p & _ & [=])]].
    + left. exists r, g. naive_solver.
    + by right.
  - intros [(r & g & Hg & -> & -> & -> & Hst & Hsid)|(-> & -> & Hd)].
    + left. exists r, g. rewrite Hst, Hsid, grant_tuple_user. done.
    + right. left. by exists oid, user_id.
Qed.

Lemma all_tuples_group db ot oid rel group_id :
  mkTuple ot oid rel "group" (group_id +:+ "#member") None ∈ read_tuples_conn db no_filter ↔
    (∃ r g, grant_of db r g ∧ ot = "resource" ∧ oid = resource_of r ∧ rel = gt_role g
       ∧ gt_subject_type g = "group" ∧ gt_subject_id g = group_id)
    ∨ (ot = "group" ∧ rel = "member" ∧ nested_in db group_id oid).
Proof.
  rewrite elem_of_all_tuples. split.
  - intros [(r & g & Hg & Ht%eq_sym%grant_tuple_group_inv)|[(g & u & _ & [=])|(c & p & Hn & Ht)]].
    + left. exists r, g. naive_solver.
    + right. injection Ht as -> -> -> ->%app_inj_r. done.
  - intros [(r & g & Hg & -> & -> & -> & Hst & Hsid)|(-> & -> & Hn)].
    + left. exists r, g. rewrite Hst, Hsid, grant_tuple_group. done.
    + right. right. by exists group_id, oid.
Qed.

Lemma all_tuples_group_member db user_id g :
  tuple_member (read_tuples_conn db no_filter) user_id "group" g "member" ↔ in_group db user_id g.
Proof.
  split.
  - intros Hm. remember "group" as ot eqn:Hot. remember "member" as rel eqn:Hrel.
    induction Hm as [ot g rel Hin|ot g rel c Hin _ IH]; subst.
    + apply all_tuples_user in Hin as [(? & ? & _ & [=] & _)|(_ & _ & ?)]. by apply in_group_direct.
    + apply all_tuples_group in Hin as [(? & ? & _ & [=] & _)|(_ & _ & Hn)].
      eapply in_group_nested; [by apply IH|done].
  - intros (d & Hd & Hr).
    refine (rtc_ind_r (λ y, tuple_member (read_tuples_conn db no_filter) user_id "group" y "member") d _ _ g Hr).
    + apply tm_user, all_tuples_user. by right.
    + intros c p _ Hcp IH. eapply tm_userset; [|exact IH]. apply all_tuples_group. by right.
Qed.

Lemma all_tuples_resource_member db user_id resource_id role :
  tuple_member (read_tuples_conn db no_filter) user_id "resource" resource_id role ↔
    ∃ r g, grant_of db r g ∧ resource_of r = resource_id ∧ gt_role g = role ∧ covers db user_id g.
Proof.
  split.
  - intros Hm. inversion Hm as [? ? ? Hin|? ? ? g Hin Hg]; subst.
    + apply all_tuples_user in Hin as [(r & g & ? & _ & -> & -> & ? & ?)|([=] & _)].
      exists r, g. unfold covers. naive_solver.
    + apply all_tuples_group_member in Hg.
      apply all_tuples_group in Hin as [(r & gr & ? & _ & -> & -> & ? & <-)|([=] & _)].
      exists r, gr. unfold covers. naive_solver.
  - intros (r & g & Hg & <- & <- & [[Ht Hs]|[Ht Hs]]).
    + apply tm_user, all_tuples_user. left. exists r, g. done.
    + eapply tm_userset; [apply all_tuples_group; left|by apply all_tuples_group_member].
      exists r, g. done.
Qed.

(** Ids without the prefix: a resource id names its repository. *)
Lemma canonical_resource_of db r :
  canonical_ids db → r ∈ db_repositories db →
  repository_id_from_resource_id (resource_of r) = rep_lore_repository_id r.
Proof.
  intros Hc Hin. specialize (Hc r Hin). unfold resource_of.
  destruct (decide (rep_lore_repository_id r = "")) as [He|He].
  { rewrite He. done. }
  by destruct (repository_id_round_trip _ He Hc) as (rid & -> & ?).
Qed.

(** * The closure computed from a snapshot *)

(** The membership edge a tuple stands for. *)
Definition tuple_edge (t : Tuple) : option (string * list string) :=
  if negb (String.eqb (tp_object_type t) "group")
     || negb (String.eqb (tp_relation t) "member")
     || negb (String.eqb (tp_subject_type t) "group")
  then None else (λ member, (tp_object_id t, [member])) <$> strip_suffix "#member" (tp_subject_id t).

Lemma reachable_pass_closure ts gs c : reachable_pass ts gs c = closure_pass (omap tuple_edge ts) gs c.
Proof.
  unfold reachable_pass, closure_pass. revert gs c.
  induction ts as [|t ts IH]; intros gs c; simpl; [done|]. unfold tuple_edge at 1.
  destruct (_ || _); [apply IH|].
  destruct (strip_suffix "#member" (tp_subject_id t)) as [m|]; simpl; [|apply IH].
  rewrite orb_false_r. destruct (_ && _); apply IH.
Qed.

Lemma reachable_loop_closure fuel ts gs :
  reachable_loop fuel ts gs = closure_loop fuel (omap tuple_edge ts) gs.
Proof.
  revert gs. induction fuel as [|fuel IH]; intros gs; simpl; [done|].
  rewrite reachable_pass_closure. by destruct (closure_pass _ _ _) as [? []].
Qed.

Lemma elem_of_tuple_edges (ts : list Tuple) p ms :
  (p, ms) ∈ omap tuple_edge ts ↔ ∃ t m, t ∈ ts ∧ tp_object_type t = "group" ∧ tp_relation t = "member"
    ∧ tp_subject_type t = "group" ∧ tp_subject_id t = m +:+ "#member" ∧ p = tp_object_id t ∧ ms = [m].
Proof.
  rewrite list_elem_of_omap. unfold tuple_edge. split.
  - intros (t & Hin & Ht).
    destruct (String.eqb_spec (tp_object_type t) "group"), (String.eqb_spec (tp_relation t) "member"),
      (String.eqb_spec (tp_subject_type t) "group"); simpl in Ht; try done.
    apply fmap_Some in Ht as (m & Hm%strip_suffix_Some & [= -> ->]). eauto 10.
  - intros (t & m & Hin & Ho & Hr & Hs & Hid & -> & ->). exists t. split; [done|].
    by rewrite Ho, Hr, Hs, Hid, !String.eqb_refl, strip_suffix_app.
Qed.

Lemma length_omap_le {A B} (f : A → option B) l : length (omap f l) ≤ length l.
Proof. induction l as [|x l IH]; csimpl; [done|]. destruct (f x); csimpl; lia. Qed.

Lemma size_list_to_set_le (l : list string) : size (list_to_set l : gset string) ≤ length l.
Proof.
  apply submseteq_length, NoDup_submseteq; [apply NoDup_elements|].
  intros x. by rewrite elem_of_elements, elem_of_list_to_set.
Qed.

(** The loop ends within its fuel with the groups that contain the user. *)
Lemma elem_of_reachable_group_ids db user_id P ts g :
  user_snapshot db user_id P ts →
  g ∈ reachable_group_ids_from_tuples ts user_id ↔ in_group db user_id g.
Proof.
  intros Hts. unfold reachable_group_ids_from_tuples. set (direct := list_to_set _).
  assert (∀ x, x ∈ direct ↔ direct_group db user_id x) as Hd.
  { intros x. unfold direct. rewrite elem_of_list_to_set, elem_of_map. split.
    - intros ([ot oid rel st sid cond] & Ht & <-). apply elem_of_where in Ht as [Hin Ht].
      rewrite !andb_true_iff, !String.eqb_eq in Ht. simpl in *.
      destruct Ht as [[[-> ->] ->] ->]. pose proof Hin as Hin'. apply Hts in Hin' as Hc.
      assert (cond = None) as ->.
      { destruct Hc as [(?&?&_&_&[=])|[(?&_&[=])|(?&?&_&_&[=])]]; done. }
      apply (snapshot_user_tuple _ _ _ _ Hts) in Hin as [(?&?&_&_&[=]&_)|(_ & _ & ?)]. done.
    - intros Hg. exists (member_tuple x user_id). split; [|done]. apply elem_of_where.
      split; [apply (snapshot_user_tuple _ _ _ _ Hts); by right|].
      simpl. by rewrite String.eqb_refl. }
  rewrite reachable_loop_closure.
  destruct (closure_loop_total (S (length ts)) (omap tuple_edge ts) direct) as [gs Hgs].
  { eapply Nat.le_lt_trans; [|apply Nat.lt_succ_diag_r].
    etrans; [apply subseteq_size, subseteq_difference_l; reflexivity|].
    etrans; [apply size_list_to_set_le|]. rewrite length_fmap. apply length_omap_le. }
  rewrite Hgs. simpl. apply closure_loop_spec in Hgs as (Hsub & Hcl & Hind). split.
  - apply (Hind (in_group db user_id)).
    + intros p ms m (t & m' & Hin & Ho & Hr & Hs & Hid & -> & ->)%elem_of_tuple_edges
        ->%list_elem_of_singleton Hm'.
      destruct t as [ot oid rel st sid cond]; simpl in *; subst.
      apply Hts in Hin as [(?&?&_&_&[=])|[(?&_&[=])|(c & p & Hn & _ & Ht)]].
      injection Ht as -> Heq%app_inj_r _. subst. by eapply in_group_nested.
    + intros x Hx. by apply in_group_direct, Hd.
  - intros (d & Hdd & Hr). refine (rtc_ind_r (λ y, y ∈ gs) d _ _ g Hr).
    + by apply Hsub, Hd.
    + intros c p Hdc Hcp IH. apply (Hcl p [c] c); [|set_solver|done].
      apply elem_of_tuple_edges. exists (nested_tuple p c), c. split_and!; try done.
      apply Hts. right. right. exists c, p. split_and!; [done| |done]. by exists d.
Qed.

(** * Pushing filters into the queries *)

Section Pushdown.
Context (db : Db) (f : TupleFilter).

Lemma where_permutation {A} (p : A → bool) l l' : l ≡ₚ l' → where_ p l ≡ₚ where_ p l'.
Proof.
  unfold where_. induction 1 as [|x l l' _ IH|x y l|l l1 l2 _ IH1 _ IH2]; simpl.
  - done.
  - destruct (p x); by rewrite IH.
  - destruct (p x), (p y); try done. apply Permutation_swap.
  - by rewrite IH1.
Qed.

(** Filtering what a query selects is selecting under a stronger condition. *)
Lemma where_map {A B} (h : A → B) (m : B → bool) (p q : A → bool) l :
  (∀ a, a ∈ l → q a = p a && m (h a)) → map h (where_ q l) = where_ m (map h (where_ p l)).
Proof.
  unfold where_. induction l as [|a l IH]; intros Hq; simpl; [done|].
  assert (map h (List.filter q l) = List.filter m (map h (List.filter p l))) as IH'.
  { apply IH. intros x Hx. apply Hq. by right. }
  rewrite Hq by left. destruct (p a); simpl; [|done]. destruct (m (h a)); simpl; by rewrite IH'.
Qed.

Definition joined_tuple (row : RepositoryRow * GrantRow) : Tuple :=
  grant_tuple (rep_lore_repository_id row.1) (gt_role row.2) (gt_subject_type row.2)
    (gt_subject_id row.2).

Definition grant_clause (row : RepositoryRow * GrantRow) : bool :=
  matches_filter_value "resource" (tf_object_type f)
  && match push_grant_subject_filter f with
     | Some subject_clause =>
         is_active row.1
         && match tf_object_id f with
            | Some object_id =>
                String.eqb (rep_lore_repository_id row.1) (repository_id_from_resource_id object_id)
            | None => true
            end
         && match tf_relation f with
            | Some relation => String.eqb (gt_role row.2) relation
            | None => true
            end
         && subject_clause row.2
     | None => false
     end.

Lemma joined_rows_permutation rows :
  omap grant_tuple_from_row (order_by grant_row_key (map (λ row, (row.1, Some row.2)) rows))
  ≡ₚ map joined_tuple rows.
Proof.
  unfold order_by. rewrite sort_by_perm.
  induction rows as [|[r g] rows IH]; csimpl; [done|]. by rewrite IH.
Qed.

Lemma where_none {A} (p : A → bool) l : (∀ a, p a = false) → where_ p l = [].
Proof. intros Hp. unfold where_. induction l as [|x l IH]; simpl; [done|]. by rewrite Hp. Qed.

Lemma where_false {A} (l : list A) : where_ (λ _, false) l = [].
Proof. by apply where_none. Qed.

Lemma read_grant_tuples_rows tuples :
  read_grant_tuples_conn db f tuples
  ≡ₚ tuples ++ map joined_tuple
       (where_ grant_clause (join_on on_repository (db_repositories db) (db_grants db))).
Proof.
  unfold read_grant_tuples_conn, grant_clause.
  destruct (matches_filter_value "resource" (tf_object_type f)); simpl;
    [|by rewrite where_false, app_nil_r].
  destruct (push_grant_subject_filter f) as [c|]; [|by rewrite where_false, app_nil_r].
  by rewrite joined_rows_permutation.
Qed.

Lemma subject_clause_matches g :
  gt_subject_type g = "user" ∨ gt_subject_type g = "group" →
  match push_grant_subject_filter f with Some c => c g | None => false end
  = matches_filter_value (gt_subject_type g) (tf_subject_type f)
    && matches_filter_value
         (if String.eqb (gt_subject_type g) "group" then gt_subject_id g +:+ "#member" else gt_subject_id g)
         (tf_subject_id f).
Proof.
  assert (∀ s x, strip_suffix "#member" s = Some x → ∀ y, String.eqb s (y +:+ "#member") = String.eqb y x) as Hsuf.
  { intros s x ->%strip_suffix_Some y. apply eq_bool_prop_intro. rewrite !Is_true_true, !String.eqb_eq.
    split; [by intros ->%app_inj_r|by intros ->]. }
  assert (∀ s, strip_suffix "#member" s = None → ∀ y, String.eqb s (y +:+ "#member") = false) as Hnone.
  { intros s Hs y. apply String.eqb_neq. by apply strip_suffix_None. }
  unfold push_grant_subject_filter, matches_filter_value.
  intros [Hst|Hst]; destruct (tf_subject_type f) as [t|]; rewrite ?Hst;
    repeat match goal with
    | |- context [String.eqb t ?s] => destruct (String.eqb_spec t s); subst; simpl
    end; try done; destruct (tf_subject_id f) as [s|]; simpl; rewrite ?Hst; try done;
    try (destruct (strip_suffix "#member" s) as [x|] eqn:Hs; simpl; rewrite ?Hst); try done;
    simpl; rewrite ?(Hsuf _ _ Hs), ?(Hnone _ Hs), ?orb_false_r, ?(String.eqb_sym s); done.
Qed.

Hypothesis Hsubjects : known_subjects db.
Hypothesis Hcanonical : canonical_ids db.
Hypothesis Hobject : ∀ object_id, tf_object_id f = Some object_id →
  matches_filter_value "resource" (tf_object_type f) = true → canonical_resource_id object_id.

Lemma grant_clause_matches row :
  row ∈ join_on on_repository (db_repositories db) (db_grants db) →
  grant_clause row = is_active row.1 && tuple_matches_filter (joined_tuple row) f.
Proof.
  destruct row as [r g]. intros (Hr & Hg & _)%elem_of_join_on.
  unfold grant_clause, tuple_matches_filter. simpl tp_object_type. simpl tp_relation.
  simpl tp_subject_type. simpl tp_object_id. simpl tp_subject_id. simpl fst. simpl snd.
  pose proof (subject_clause_matches g (Hsubjects g Hg)) as Hs.
  destruct (matches_filter_value "resource" (tf_object_type f)) eqn:Ht; simpl;
    [|by rewrite andb_false_r].
  assert (match tf_object_id f with
    | Some object_id => String.eqb (rep_lore_repository_id r) (repository_id_from_resource_id object_id)
    | None => true end
    = matches_filter_value (resource_of r) (tf_object_id f)) as ->.
  { destruct (tf_object_id f) as [o|] eqn:Ho; [|done]. simpl. specialize (Hobject o eq_refl eq_refl).
    apply eq_bool_prop_intro. rewrite !Is_true_true, !String.eqb_eq. split.
    - intros Heq. unfold resource_of. rewrite Heq. symmetry. exact Hobject.
    - intros ->. by rewrite (canonical_resource_of db). }
  assert (match tf_relation f with Some relation => String.eqb (gt_role g) relation | None => true end
    = matches_filter_value (gt_role g) (tf_relation f)) as ->.
  { destruct (tf_relation f); [|done]. apply String.eqb_sym. }
  fold (resource_of r).
  destruct (push_grant_subject_filter f) as [c|]; simpl.
  - rewrite Hs. btauto.
  - symmetry. destruct (matches_filter_value (gt_subject_type g) _); simpl in Hs |- *; [|by rewrite !andb_false_r].
    rewrite <- Hs. by rewrite !andb_false_r.
Qed.

Lemma pushed_grants tuples :
  read_grant_tuples_conn db f tuples
  ≡ₚ tuples ++ where_ (λ t, tuple_matches_filter t f)
       (map joined_tuple
         (where_ (λ row, is_active row.1)
           (join_on on_repository (db_repositories db) (db_grants db)))).
Proof.
  rewrite read_grant_tuples_rows. f_equiv.
  by rewrite (where_map joined_tuple (λ t, tuple_matches_filter t f) (λ row, is_active row.1) _ _
    grant_clause_matches).
Qed.

Definition member_row_tuple (gm : GroupMemberRow) : Tuple := member_tuple (gm_group_id gm) (gm_user_id gm).
Definition nested_row_tuple (gg : GroupGroupRow) : Tuple :=
  nested_tuple (gg_group_id gg) (gg_member_group_id gg).

Lemma map_order_by {A} (h : A → Tuple) key rows : map h (order_by key rows) ≡ₚ map h rows.
Proof. unfold order_by. by rewrite sort_by_perm. Qed.

Lemma where_true {A} (l : list A) : where_ (λ _, true) l = l.
Proof. unfold where_. induction l as [|x l IH]; simpl; congruence. Qed.

(** Selecting rows by a clause that agrees with the filter is filtering their tuples. *)
Lemma clause_matches {A} (h : A → Tuple) (q : A → bool) l :
  (∀ a, q a = tuple_matches_filter (h a) f) →
  map h (where_ q l) = where_ (λ t, tuple_matches_filter t f) (map h l).
Proof. intros Hq. rewrite (where_map h (λ t, tuple_matches_filter t f) (λ _, true)); [by rewrite where_true|]. intros a _. by rewrite Hq. Qed.

(** The filter lets membership tuples through. *)
Definition asks_members : bool :=
  matches_filter_value "group" (tf_object_type f) && matches_filter_value "member" (tf_relation f).

Lemma pushed_user_members tuples :
  (if asks_members then read_user_group_member_tuples_conn db f tuples else tuples)
  ≡ₚ tuples ++ where_ (λ t, tuple_matches_filter t f) (map member_row_tuple (db_group_members db)).
Proof.
  rewrite <- (clause_matches member_row_tuple (λ gm,
    asks_members && matches_filter_value "user" (tf_subject_type f)
    && (matches_filter_value (gm_group_id gm) (tf_object_id f)
        && matches_filter_value (gm_user_id gm) (tf_subject_id f))))
    by (intros gm; unfold tuple_matches_filter, asks_members; simpl; btauto).
  unfold read_user_group_member_tuples_conn. fold member_row_tuple.
  destruct asks_members, (matches_filter_value "user" (tf_subject_type f)); simpl;
    rewrite ?where_false, ?app_nil_r; try done. by rewrite map_order_by.
Qed.

Lemma pushed_group_members tuples :
  (if asks_members then read_group_group_member_tuples_conn db f tuples else tuples)
  ≡ₚ tuples ++ where_ (λ t, tuple_matches_filter t f) (map nested_row_tuple (db_group_groups db)).
Proof.
  set (clause := λ gg, match tf_subject_id f with
    | Some s => match strip_suffix "#member" s with
                | Some m => String.eqb (gg_member_group_id gg) m | None => false end
    | None => true end).
  rewrite <- (clause_matches nested_row_tuple (λ gg,
    asks_members && matches_filter_value "group" (tf_subject_type f)
    && (matches_filter_value (gg_group_id gg) (tf_object_id f) && clause gg))).
  2: { intros gg. unfold tuple_matches_filter, asks_members. simpl.
       assert (clause gg = matches_filter_value (gg_member_group_id gg +:+ "#member") (tf_subject_id f))
         as ->; [|btauto].
       unfold clause, matches_filter_value. destruct (tf_subject_id f) as [s|]; [|done].
       destruct (strip_suffix "#member" s) as [m|] eqn:Hs.
       - apply strip_suffix_Some in Hs as ->. apply eq_bool_prop_intro.
         rewrite !Is_true_true, !String.eqb_eq. split; [by intros ->|by intros ->%app_inj_r].
       - symmetry. apply String.eqb_neq. by apply strip_suffix_None. }
  unfold read_group_group_member_tuples_conn, clause. fold nested_row_tuple.
  destruct asks_members, (matches_filter_value "group" (tf_subject_type f)); simpl;
    rewrite ?where_false, ?app_nil_r; try done.
  destruct (tf_subject_id f) as [s|]; [destruct (strip_suffix "#member" s)|];
    rewrite ?map_order_by; try done.
  rewrite where_none; [by rewrite app_nil_r|]. intros. apply andb_false_r.
Qed.

Lemma pushed_members tuples :
  read_group_member_tuples_conn db f tuples
  ≡ₚ tuples ++ where_ (λ t, tuple_matches_filter t f) (map member_row_tuple (db_group_members db))
     ++ where_ (λ t, tuple_matches_filter t f) (map nested_row_tuple (db_group_groups db)).
Proof.
  rewrite app_assoc, <- pushed_user_members, <- pushed_group_members.
  unfold read_group_member_tuples_conn, asks_members.
  by destruct (matches_filter_value "group" _), (matches_filter_value "member" _).
Qed.

(** A filtered read returns the tuples of the database that match. *)
Lemma pushed_filter :
  read_tuples_conn db f
  ≡ₚ where_ (λ t, tuple_matches_filter t f)
       (map joined_tuple (where_ (λ row, is_active row.1)
          (join_on on_repository (db_repositories db) (db_grants db)))
        ++ map member_row_tuple (db_group_members db) ++ map nested_row_tuple (db_group_groups db)).
Proof.
  unfold read_tuples_conn. rewrite pushed_members, pushed_grants.
  unfold where_. by rewrite !List.filter_app.
Qed.
End Pushdown.
