(* ===== verification/SqlAuthzFacts.v ===== *)
(** The authorization policy of production.  Over any resolver that decides relation
    tuples up to a depth ([ResolverLaws]), an answer of the SQL policy is right, its
    errors have three causes, unknown roles fail closed, listing agrees with deciding, and
    the policy decides as the in-memory one does on the store it represents. *)

From Stdlib Require Import ZArith Lia Ascii.
From stdpp Require Import base gmap strings list sorting.
From S2P Require Import Prelude Model MemState MemGraph MemGrants ModelFacts Demo AuthzFacts.
From S2P Require Import Ports.
From S2P Require Import SqlRows.
From S2P Require Import SqlAuthz.
From S2P Require Import SqlTuples.

(** * The interface of the resolver *)

Definition no_hash (s : string) : bool := negb (contains_byte "#" s).

(** A tuple without a condition, whose subject is a user or the members of a group. *)
Definition plain_tuple (t : Tuple) : Prop :=
  tp_condition t = None
  ∧ (tp_subject_type t = "user" ∧ no_hash (tp_subject_id t) = true
     ∨ tp_subject_type t = "group"
       ∧ ∃ g, no_hash g = true ∧ tp_subject_id t = g +:+ "#member").

(** The reader answers every filter with the matching tuples. *)
Definition reads {E} (r : TupleReader E) (ts : list Tuple) : Prop :=
  ∀ f, ∃ l, read_tuples r f = Ok l ∧ ∀ t, t ∈ l ↔ t ∈ ts ∧ tuple_matches_filter t f = true.

(** The relations that the schema defines. *)
Definition declared (object_type relation : string) : Prop :=
  object_type = "resource" ∧ relation ∈ ["reader"; "writer"; "admin"]
  ∨ object_type = "group" ∧ relation = "member".

(** What the policy relies on: the schema parses, and the resolver answers membership of
    a user by the tuples it reads, with an error only for chains of groups longer than
    its recursion limit. *)
Class ResolverLaws `{AuthzCore} (max_depth : nat) : Prop := {
  rl_parse : ∃ p, parse_dsl AUTHZ_DSL = Ok p;
  rl_check p r ts object_type object_id relation user_id :
    parse_dsl AUTHZ_DSL = Ok p → reads r ts → (∀ t, t ∈ ts → plain_tuple t) →
    declared object_type relation → no_hash user_id = true →
    match resolve_check r p (mkResolveCheckRequest object_type object_id relation "user" user_id) with
    | Ok Allowed => tuple_member ts user_id object_type object_id relation
    | Ok Denied => ¬ tuple_member ts user_id object_type object_id relation
    | Ok (ConditionRequired _) => False
    | Err _ => ¬ tuples_within ts max_depth object_type object_id relation
    end
}.

(** Rows as the adapter writes them: subjects are users or groups, ids have no [#]. *)
Record plain_db (db : Db) : Prop := {
  pd_grants g : g ∈ db_grants db →
    (gt_subject_type g = "user" ∨ gt_subject_type g = "group") ∧ no_hash (gt_subject_id g) = true;
  pd_members u g : direct_group db u g → no_hash u = true;
  pd_nested c p : nested_in db c p → no_hash c = true
}.

(** * Checks over a snapshot *)

Lemma snapshot_reads {E} ts : reads (E := E) (snapshot_tuple_reader ts) ts.
Proof.
  intros f. eexists. split; [reflexivity|]. intros t.
  apply (elem_of_where (λ t, tuple_matches_filter t f)).
Qed.

Lemma snapshot_plain db user_id P ts :
  plain_db db → user_snapshot db user_id P ts → ∀ t, t ∈ ts → plain_tuple t.
Proof.
  intros [Hg Hm Hn] Hts t [(r & g & (_ & Hin & _ & _) & _ & ->)|[(g & Hd & ->)|(c & p & Hc & _ & ->)]]%Hts.
  - destruct (Hg g Hin) as [[Ht|Ht] Hs]; rewrite Ht; (split; [done|]).
    + by left.
    + right. split; [done|]. by exists (gt_subject_id g).
  - split; [done|]. left. split; [done|]. by eapply Hm.
  - split; [done|]. right. split; [done|]. exists c. split; [by eapply Hn|done].
Qed.

(** The user holds the role on the resource, by a grant on one of the selected repositories. *)
Definition holds (db : Db) (user_id : string) (P : string → Prop) (resource_id role : string) : Prop :=
  ∃ r g, grant_of db r g ∧ P (rep_lore_repository_id r) ∧ resource_of r = resource_id
    ∧ gt_role g = role ∧ covers db user_id g.

Lemma holds_granted_row db user_id resource_id role :
  holds db user_id (λ l, l = repository_id_from_resource_id resource_id) resource_id role
  ↔ granted_row db user_id resource_id role.
Proof.
  unfold holds, granted_row, reachable_role, canonical_resource_id, resource_of. split.
  - intros (r & g & Hg & Hl & Hr & <- & Hc). rewrite <- Hl. naive_solver.
  - intros (Hr & r & g & Hg & Hl & Hro & Hc). exists r, g. rewrite Hl. naive_solver.
Qed.

(** Some chain of nested groups is longer than the limit. *)
Definition too_deep (db : Db) (n : nat) : Prop := ¬ ∀ g, nesting_within db n g.

(** An answer is right; an error means that the limit was exceeded. *)
Definition decides (Q deep : Prop) (r : result CoreError bool) : Prop :=
  match r with Ok b => b = true ↔ Q | Err _ => deep end.

Definition known_role_list : list string := ["reader"; "writer"; "admin"].

Section Checks.
Context `{Env} `{AuthzCore} (n : nat) `{!ResolverLaws (S n)} (self : Rebac.RebacAuthorizationPolicy).
Hypothesis Hself : Rebac.new = Ok self.
Context (db : Db) (user_id : string) (P : string → Prop) (ts : list Tuple).
Hypothesis Hplain : plain_db db.
Hypothesis Huser : no_hash user_id = true.
Hypothesis Hts : user_snapshot db user_id P ts.

Lemma new_provider : parse_dsl AUTHZ_DSL = Ok (Rebac.provider self).
Proof. unfold Rebac.new in Hself. destruct (parse_dsl AUTHZ_DSL); by simplify_eq/=. Qed.

Lemma check_allowed_spec resource_id role w :
  role ∈ known_role_list →
  ∃ r, Rebac.check_allowed_with_resolver self ts "resource" resource_id role "user" user_id w = (r, w)
    ∧ decides (holds db user_id P resource_id role) (too_deep db n) r.
Proof.
  intros Hrole. unfold Rebac.check_allowed_with_resolver. mrun.
  pose proof (rl_check (Rebac.provider self) (snapshot_tuple_reader ts) ts "resource" resource_id role
    user_id new_provider (snapshot_reads ts) (snapshot_plain _ _ _ _ Hplain Hts)
    (or_introl (conj eq_refl Hrole)) Huser) as Hc.
  destruct (resolve_check _ _ _) as [[| |ps]|e]; [| |done|].
  - eexists. split; [done|]. simpl. split; [|done]. intros _.
    by apply (snapshot_resource_member _ _ _ _ Hts).
  - eexists. split; [done|]. simpl. split; [done|]. intros Hh. destruct Hc.
    by apply (snapshot_resource_member _ _ _ _ Hts).
  - eexists. split; [done|]. simpl. intros Hn. apply Hc. by apply (snapshot_within _ _ _ _ Hts).
Qed.

Lemma check_any_spec resource_id roles w :
  roles ⊆ known_role_list →
  ∃ r, Rebac.check_any_relation_with_resolver self ts resource_id user_id roles w = (r, w)
    ∧ decides (∃ role, role ∈ roles ∧ holds db user_id P resource_id role) (too_deep db n) r.
Proof.
  induction roles as [|role roles IH]; intros Hsub; simpl.
  - eexists. split; [done|]. simpl. split; [done|]. by intros (? & ?%not_elem_of_nil & _).
  - destruct (check_allowed_spec resource_id role w) as (r & Hr & Hd); [apply Hsub; left|].
    unfold bind. rewrite Hr. destruct r as [[]|e]; simpl in Hd.
    + eexists. split; [done|]. simpl. split; [|done]. intros _. exists role. split; [left|by apply Hd].
    + destruct IH as (r & -> & Hr'); [set_solver|]. exists r. split; [done|].
      destruct r as [b|]; simpl in *; [|done]. rewrite Hr'. set_solver.
    + by eexists.
Qed.
End Checks.

(** * Roles of the snapshot *)

Lemma str_leb_trans a b c : str_leb a b = true → str_leb b c = true → str_leb a c = true.
Proof.
  unfold str_leb, String.leb. revert b c.
  induction a as [|x a IH]; intros [|y b] [|z c]; simpl; try done.
  unfold Ascii.compare.
  destruct (N.compare_spec (N_of_ascii x) (N_of_ascii y)) as [Hxy|Hxy|Hxy],
    (N.compare_spec (N_of_ascii y) (N_of_ascii z)) as [Hyz|Hyz|Hyz],
    (N.compare_spec (N_of_ascii x) (N_of_ascii z)) as [Hxz|Hxz|Hxz];
    try done; try lia. apply IH.
Qed.

Lemma str_leb_refl a : str_leb a a = true.
Proof. by destruct (str_leb_total a a). Qed.

Lemma StronglySorted_sublist {A} (R : A → A → Prop) l1 l2 :
  sublist l1 l2 → StronglySorted R l2 → StronglySorted R l1.
Proof.
  induction 1 as [|x l1 l2 Hs IH|x l1 l2 _ IH]; intros H2; [done| |];
    apply StronglySorted_inv in H2 as [H2 Hx]; [|by apply IH].
  constructor; [by apply IH|]. rewrite Forall_forall in Hx |- *. intros y Hy. apply Hx.
  by eapply elem_of_submseteq; [exact Hy|apply sublist_submseteq].
Qed.

Lemma applicable_role_spec db user_id P ts role :
  user_snapshot db user_id P ts →
  role ∈ omap (applicable_role (reachable_group_ids_from_tuples ts user_id) user_id) ts
  ↔ ∃ r g, grant_of db r g ∧ P (rep_lore_repository_id r) ∧ gt_role g = role ∧ covers db user_id g.
Proof.
  intros Hts. rewrite list_elem_of_omap. unfold applicable_role.
  split.
  - intros (t & [(r & g & Hg & HP & ->)|[(g & _ & ->)|(c & p & _ & _ & ->)]]%Hts & Ht); [|done..].
    exists r, g. simpl in Ht. unfold covers.
    destruct (String.eqb_spec (gt_subject_type g) "group") as [Hst|Hst].
    + rewrite Hst, strip_suffix_app in Ht. simpl in Ht. case_bool_decide as Hin; [|done].
      apply (elem_of_reachable_group_ids _ _ _ _ _ Hts) in Hin. naive_solver.
    + destruct (String.eqb_spec (gt_subject_type g) "user"), (String.eqb_spec (gt_subject_id g) user_id);
        simpl in Ht; naive_solver.
  - intros (r & g & Hg & HP & <- & Hc).
    exists (grant_tuple (rep_lore_repository_id r) (gt_role g) (gt_subject_type g) (gt_subject_id g)).
    split; [apply Hts; left; eauto|]. simpl. destruct Hc as [[-> ->]|[-> Hin]].
    + simpl. by rewrite String.eqb_refl.
    + simpl. rewrite strip_suffix_app. simpl. rewrite bool_decide_eq_true_2; [done|].
      by apply (elem_of_reachable_group_ids _ _ _ _ _ Hts).
Qed.

(** A role decides the action: admin, or one that allows it. *)
Definition decisive (role action : string) : Prop := role = "admin" ∨ role_allows role action = true.

Lemma decisive_known role action : decisive role action → is_known_role role = true.
Proof.
  intros [-> | Ha]; [done|]. unfold role_allows in Ha. unfold is_known_role.
  destruct (role_from_name role); [|done]. by apply bool_decide_eq_true_2.
Qed.

Section ValidateRoles.
Context `{Env}.

Lemma validate_roles_Err roles action e :
  validate_roles roles action = Err e → ∃ role, role ∈ roles ∧ is_known_role role = false.
Proof.
  induction roles as [|role roles IH]; simpl; [done|].
  destruct (String.eqb role "admin"); [done|].
  destruct (is_known_role role) eqn:Hk; simpl; [|intros _; exists role; split; [left|done]].
  destruct (role_allows role action); [done|]. intros (r & ? & ?)%IH. exists r. split; [by right|done].
Qed.

(** An unknown role that comes before every decisive one fails the scan. *)
Lemma validate_roles_unknown roles action role :
  StronglySorted (λ a b, str_leb a b = true) roles →
  role ∈ roles → is_known_role role = false →
  (∀ r, r ∈ roles → decisive r action → str_leb r role = false) →
  ∃ m, validate_roles roles action = Err (InvalidArgument m).
Proof.
  intros Hs. induction Hs as [|x roles Hs IH Hall]; intros Hin Hk Hd; simpl.
  - by apply not_elem_of_nil in Hin.
  - assert (¬ decisive x action) as Hx.
    { intros Hx. pose proof (Hd x (list_elem_of_here _ _) Hx) as Hle.
      apply elem_of_cons in Hin as [<-|Hin].
      - by rewrite str_leb_refl in Hle.
      - rewrite Forall_forall in Hall. rewrite Hall in Hle by done. done. }
    destruct (String.eqb_spec x "admin"); [by destruct Hx; left|].
    destruct (is_known_role x) eqn:Hkx; simpl; [|eauto].
    destruct (role_allows x action) eqn:Ha; [by destruct Hx; right|].
    apply IH; [|done|intros r Hr; apply Hd; by right].
    apply elem_of_cons in Hin as [->|]; congruence.
Qed.

Lemma validate_snapshot_Err db user_id P ts action e :
  user_snapshot db user_id P ts →
  validate_snapshot_can_access_roles ts user_id action = Err e →
  ∃ r g, grant_of db r g ∧ P (rep_lore_repository_id r) ∧ covers db user_id g
    ∧ is_known_role (gt_role g) = false.
Proof.
  intros Hts (role & Hin & Hk)%validate_roles_Err. rewrite elem_of_sort_by in Hin.
  apply (applicable_role_spec _ _ _ _ _ Hts) in Hin as (r & g & ? & ? & <- & ?). eauto 10.
Qed.

Lemma validate_snapshot_unknown db user_id P ts action r0 g0 :
  user_snapshot db user_id P ts →
  grant_of db r0 g0 → P (rep_lore_repository_id r0) → covers db user_id g0 →
  is_known_role (gt_role g0) = false →
  (∀ r g, grant_of db r g → P (rep_lore_repository_id r) → covers db user_id g →
     decisive (gt_role g) action → str_leb (gt_role g) (gt_role g0) = false) →
  ∃ m, validate_snapshot_can_access_roles ts user_id action = Err (InvalidArgument m).
Proof.
  intros Hts Hg HP Hc Hk Hd. eapply (validate_roles_unknown _ _ (gt_role g0)); [| |done|].
  - apply Sorted_StronglySorted; [intros a b c; apply str_leb_trans|].
    apply sort_by_sorted. intros. apply str_leb_total.
  - apply elem_of_sort_by, (applicable_role_spec _ _ _ _ _ Hts). by exists r0, g0.
  - intros role Hin. rewrite elem_of_sort_by in Hin.
    apply (applicable_role_spec _ _ _ _ _ Hts) in Hin as (r & g & ? & ? & <- & ?). eauto.
Qed.

(** The repository that a resource id names exists and is active. *)
Definition active_repository (db : Db) (resource_id : string) : Prop :=
  ∃ r, r ∈ db_repositories db ∧ rep_status r = "active"
    ∧ rep_lore_repository_id r = repository_id_from_resource_id resource_id.

(** The three outcomes of loading the snapshot of a check. *)
Lemma can_access_snapshot_spec db resource_id user_id action :
  let lore := repository_id_from_resource_id resource_id in
  match can_access_snapshot_conn db lore user_id action with
  | Ok ts => active_repository db resource_id ∧ user_snapshot db user_id (λ l, l = lore) ts
  | Err e => e = NotFound ∧ ¬ active_repository db resource_id
      ∨ ∃ role, reachable_role db user_id lore role ∧ is_known_role role = false
  end.
Proof.
  intros lore. destruct (can_access_snapshot_conn db lore user_id action) as [ts|e] eqn:Hc.
  - split; [|by eapply can_access_snapshot_is_user_snapshot].
    unfold can_access_snapshot_conn in Hc.
    destruct (read_active_repository_grant_tuples_conn _ _ _) eqn:Ha; [|done].
    apply active_grants_spec in Ha as [(r & ? & ? & ?) _]. by exists r.
  - unfold can_access_snapshot_conn in Hc.
    destruct (read_active_repository_grant_tuples_conn _ _ _) as [ts0|e'] eqn:Ha;
      pose proof (active_grants_spec _ _ _ _ Ha) as Hs; simpl in Hs.
    + destruct (validate_snapshot_can_access_roles _ _ _) eqn:Hv; [done|]. right.
      eapply validate_snapshot_Err in Hv as (r & g & ? & Hl & ? & ?);
        [|apply (user_snapshot_of_grants _ _ _ _ Ha)].
      exists (gt_role g). split; [|done]. by exists r, g.
    + left. destruct Hs as [-> Hs]. injection Hc as <-. split; [done|].
      intros (r & ? & ? & ?). by eapply Hs.
Qed.
End ValidateRoles.

(** * Decisions *)

Lemma relations_known action : Rebac.relations_for_action action ⊆ known_role_list.
Proof. unfold Rebac.relations_for_action, known_role_list. repeat case_match; set_solver. Qed.

(** A permission is what the relations of its action give. *)
Lemma role_allows_relations role p :
  role_allows role (permission_as_str p) = true
  ↔ role ∈ Rebac.relations_for_action (permission_as_str p).
Proof.
  unfold role_allows, role_from_name.
  destruct (String.eqb_spec role "reader") as [->|H1];
    [destruct p; simpl; split; set_solver|].
  destruct (String.eqb_spec role "writer") as [->|H2];
    [destruct p; simpl; split; set_solver|].
  destruct (String.eqb_spec role "admin") as [->|H3];
    [destruct p; simpl; split; set_solver|].
  destruct p; simpl; split; set_solver.
Qed.

(** The relations of an action are the roles that decide it. *)
Lemma relations_decisive role action :
  role ∈ Rebac.relations_for_action action ↔ decisive role action.
Proof.
  unfold decisive. destruct (permission_from_name action) as [p|] eqn:Hp.
  - assert (action = permission_as_str p) as ->.
    { unfold permission_from_name in Hp. repeat case_match; simplify_eq/=;
        by match goal with H : String.eqb _ _ = true |- _ => apply String.eqb_eq in H end. }
    rewrite <- role_allows_relations. split; [by right|]. intros [->|?]; [by destruct p|done].
  - assert (Rebac.relations_for_action action = ["admin"]) as ->.
    { unfold permission_from_name in Hp. unfold Rebac.relations_for_action. by repeat case_match. }
    rewrite list_elem_of_singleton. split; [by left|]. intros [?|Hr]; [done|].
    unfold role_allows in Hr. rewrite Hp in Hr. by destruct (role_from_name role).
Qed.

Section Decisions.
Context `{Env} `{AuthzCore} (n : nat) `{!ResolverLaws (S n)} (self : Rebac.RebacAuthorizationPolicy).
Hypothesis Hself : Rebac.new = Ok self.

(** What a check of the policy answers, and why it fails. *)
Definition can_access_outcome (db : Db) (user_id resource_id action : string)
    (r : result CoreError bool) : Prop :=
  match r with
  | Ok b => active_repository db resource_id
      ∧ (b = true ↔ ∃ role, granted_row db user_id resource_id role ∧ decisive role action)
  | Err e => e = NotFound ∧ ¬ active_repository db resource_id
      ∨ (∃ role, reachable_role db user_id (repository_id_from_resource_id resource_id) role
           ∧ is_known_role role = false)
      ∨ too_deep db n
  end.

Lemma can_access_outcome_holds user_id resource_id action w :
  plain_db (st w) → no_hash user_id = true →
  ∃ r, Rebac.can_access self user_id resource_id action w = (r, w)
    ∧ can_access_outcome (st w) user_id resource_id action r.
Proof.
  intros Hplain Huser. unfold Rebac.can_access, Rebac.can_access_snapshot, bind, get_state, lift.
  pose proof (can_access_snapshot_spec (st w) resource_id user_id action) as Hs. simpl in Hs.
  destruct (can_access_snapshot_conn _ _ _ _) as [ts|e]; [|eexists; split; [done|simpl; tauto]].
  destruct Hs as [Ha Hts].
  destruct (check_any_spec n self Hself (st w) user_id _ ts Hplain Huser Hts resource_id
    (Rebac.relations_for_action action) w (relations_known action)) as (r & -> & Hd).
  exists r. split; [done|]. destruct r as [b|e]; simpl in *; [|by right; right].
  split; [done|]. rewrite Hd. setoid_rewrite holds_granted_row. setoid_rewrite relations_decisive.
  naive_solver.
Qed.

(** Within the limits the policy answers. *)
Lemma can_access_answers user_id resource_id action w :
  plain_db (st w) → no_hash user_id = true →
  active_repository (st w) resource_id →
  (∀ role, reachable_role (st w) user_id (repository_id_from_resource_id resource_id) role →
     is_known_role role = true) →
  (∀ g, nesting_within (st w) n g) →
  ∃ b, Rebac.can_access self user_id resource_id action w = (Ok b, w)
    ∧ (b = true ↔ ∃ role, granted_row (st w) user_id resource_id role ∧ decisive role action).
Proof.
  intros Hp Hu Ha Hk Hn. destruct (can_access_outcome_holds user_id resource_id action w Hp Hu)
    as ([b|e] & -> & Ho); simpl in Ho.
  - exists b. split; [done|apply Ho].
  - destruct Ho as [[_ ?]|[(role & Hr & Hf)|?]]; [done| |by exfalso].
    rewrite Hk in Hf by done. done.
Qed.

(** A permission, decided. *)
Lemma can_access_permission user_id resource_id p w :
  plain_db (st w) → no_hash user_id = true →
  (∀ r g, grant_of (st w) r g → covers (st w) user_id g → is_known_role (gt_role g) = true) →
  (∀ g, nesting_within (st w) n g) →
  Rebac.can_access self user_id resource_id (permission_as_str p) w = (Ok true, w)
  ↔ ∃ role, granted_row (st w) user_id resource_id role
      ∧ role_allows role (permission_as_str p) = true.
Proof.
  intros Hp Hu Hk Hn.
  assert (∀ role, role_allows role (permission_as_str p) = true ↔ decisive role (permission_as_str p)) as Ha.
  { intros role. by rewrite role_allows_relations, relations_decisive. }
  setoid_rewrite Ha.
  destruct (can_access_outcome_holds user_id resource_id (permission_as_str p) w Hp Hu)
    as (r & Hrun & Ho). split.
  - rewrite Hrun. intros [= ->]. simpl in Ho. destruct Ho as [_ [Ho _]]. naive_solver.
  - intros (role & Hg & Hr).
    destruct (can_access_answers user_id resource_id (permission_as_str p) w Hp Hu)
      as (b & -> & Hb); [| |done|].
    + destruct Hg as [_ (rep & g & (? & ? & ? & ?) & ? & _)]. by exists rep.
    + intros role' (rep & g & Hgo & _ & <- & Hc). by eapply Hk.
    + do 2 f_equal. apply Hb. eauto.
Qed.

(** C11: For every user, repository and action, the production policy changes nothing, and when it
    answers, the repository exists and is active and the answer is true exactly when a grant of
    admin, or of a role that allows the action, covers the user directly or through nested
    groups. It fails only with NotFound for a repository that does not exist or is not active,
    for a grant with an unknown role, or for groups nested deeper than the limit of the
    resolver. *)
Theorem rebac_can_access_decides user_id resource_id action w :
  plain_db (st w) → no_hash user_id = true →
  ∃ r, Rebac.can_access self user_id resource_id action w = (r, w)
    ∧ match r with
      | Ok b => active_repository (st w) resource_id
          ∧ (b = true ↔ ∃ role, granted_row (st w) user_id resource_id role ∧ decisive role action)
      | Err e => e = NotFound ∧ ¬ active_repository (st w) resource_id
          ∨ (∃ role, reachable_role (st w) user_id (repository_id_from_resource_id resource_id) role
               ∧ is_known_role role = false)
          ∨ too_deep (st w) n
      end.
Proof. intros. by apply can_access_outcome_holds. Qed.

(** * Listing *)

Lemma check_allowed_bounded db user_id P ts resource_id role w :
  plain_db db → no_hash user_id = true → user_snapshot db user_id P ts →
  (∀ g, nesting_within db n g) → role ∈ known_role_list →
  ∃ b, Rebac.check_allowed_with_resolver self ts "resource" resource_id role "user" user_id w = (Ok b, w)
    ∧ (b = true ↔ holds db user_id P resource_id role).
Proof.
  intros Hp Hu Hts Hn Hr.
  destruct (check_allowed_spec n self Hself db user_id P ts Hp Hu Hts resource_id role w Hr)
    as ([b|e] & -> & Hd); [by exists b|by destruct Hd].
Qed.

Lemma resource_permissions_spec db user_id P ts resource_id w :
  plain_db db → no_hash user_id = true → user_snapshot db user_id P ts →
  (∀ g, nesting_within db n g) →
  ∃ ps, Rebac.resource_permissions_with_resolver self ts user_id resource_id w = (Ok ps, w)
    ∧ ∀ p, p ∈ ps ↔ ∃ role, holds db user_id P resource_id role
                      ∧ role_allows role (permission_as_str p) = true.
Proof.
  intros Hp Hu Hts Hn. unfold Rebac.resource_permissions_with_resolver, bind.
  pose proof (λ role, check_allowed_bounded db user_id P ts resource_id role w Hp Hu Hts Hn) as Hc.
  destruct (Hc "admin") as (ba & -> & Ha); [set_solver|].
  assert (∀ p, (∃ role, holds db user_id P resource_id role ∧ role_allows role (permission_as_str p) = true)
    ↔ ∃ role, role ∈ Rebac.relations_for_action (permission_as_str p) ∧ holds db user_id P resource_id role)
    as Hp'.
  { intros p. setoid_rewrite role_allows_relations. naive_solver. }
  setoid_rewrite Hp'. destruct ba.
  - eexists. split; [done|]. intros p. split; [|destruct p; set_solver].
    intros _. exists "admin". split; [destruct p; set_solver|by apply Ha].
  - destruct (Hc "reader") as (br & -> & Hr); [set_solver|].
    destruct (Hc "writer") as (bw & -> & Hw); [set_solver|].
    eexists. split; [done|]. intros p.
    assert (¬ holds db user_id P resource_id "admin") as Hna by (intros ?%Ha; done).
    assert (∀ roles, (∃ role, role ∈ roles ∧ holds db user_id P resource_id role)
      ↔ Exists (holds db user_id P resource_id) roles) as He by (intros; by rewrite Exists_exists).
    rewrite He. unfold Rebac.relations_for_action. destruct p; simpl; rewrite !Exists_cons, Exists_nil, <- ?Hr, <- ?Hw;
      destruct br, bw; simpl; set_solver.
Qed.

Lemma list_resources_spec db user_id P ts ids w :
  plain_db db → no_hash user_id = true → user_snapshot db user_id P ts →
  (∀ g, nesting_within db n g) →
  ∃ l, Rebac.list_resources self ts user_id ids w = (Ok l, w)
    ∧ sublist (rp_resource_id <$> l) ids
    ∧ (∀ rp, rp ∈ l → rp_permission rp ≠ [])
    ∧ ∀ resource_id p,
        (∃ rp, rp ∈ l ∧ rp_resource_id rp = resource_id ∧ p ∈ rp_permission rp)
        ↔ resource_id ∈ ids ∧ ∃ role, holds db user_id P resource_id role
            ∧ role_allows role (permission_as_str p) = true.
Proof.
  intros Hp Hu Hts Hn. induction ids as [|id ids IH]; simpl.
  - exists []. split_and!; [done|constructor|by intros ? ?%not_elem_of_nil|].
    intros r p. split; [by intros (? & ?%not_elem_of_nil & _)|by intros [?%not_elem_of_nil _]].
  - destruct (resource_permissions_spec db user_id P ts id w Hp Hu Hts Hn) as (ps & Hps & Hspec).
    destruct IH as (l & Hl & Hsub & Hne & Hmem). unfold bind. rewrite Hps, Hl.
    case_bool_decide as Hnil; eexists; (split; [reflexivity|]); split_and!.
    + by apply sublist_cons.
    + done.
    + intros r p. rewrite Hmem, elem_of_cons. split; [intros [? ?]; split; [by right|done]|].
      intros [[->|?] Hr]; [|done]. apply Hspec in Hr. rewrite Hnil in Hr. by apply not_elem_of_nil in Hr.
    + simpl. by apply sublist_skip.
    + intros rp [->|?]%elem_of_cons; [done|by apply Hne].
    + intros r p. setoid_rewrite elem_of_cons. split.
      * intros (rp & [->|Hin] & <- & Hr); simpl in *; [split; [by left|by apply Hspec]|].
        destruct (proj1 (Hmem (rp_resource_id rp) p)) as [? ?]; [by exists rp|]. tauto.
      * intros [[->|Hin] Hr].
        -- eexists. split; [by left|]. split; [done|]. by apply Hspec.
        -- destruct (proj2 (Hmem r p)) as (rp & ? & ? & ?); [done|]. exists rp. tauto.
Qed.

Lemma candidate_rows_spec rows prefix acc :
  (∀ r g, (r, g) ∈ rows → is_known_role (gt_role g) = true) →
  ∃ s, candidate_rows rows prefix acc = Ok s
    ∧ ∀ id, id ∈ s ↔ id ∈ acc ∨ starts_with prefix id = true ∧ ∃ r g, (r, g) ∈ rows ∧ resource_of r = id.
Proof.
  revert acc. induction rows as [|[r g] rows IH]; intros acc Hk; simpl.
  - exists acc. split; [done|]. intros id. split; [by left|].
    intros [?|(_ & r & g & Hin & _)]; [done|by apply not_elem_of_nil in Hin].
  - fold (resource_of r). rewrite prefix_test.
    assert (∀ r' g', (r', g') ∈ rows → is_known_role (gt_role g') = true) as Hk'.
    { intros. eapply Hk. by right. }
    assert (is_Some (role_permissions (gt_role g))) as [ps ->].
    { apply role_permissions_known. eapply Hk. by left. }
    destruct (starts_with prefix (resource_of r)) eqn:Hpre; simpl.
    + destruct (IH ({[resource_of r]} ∪ acc) Hk') as (s & -> & Hs). exists s. split; [done|].
      intros id. rewrite Hs, elem_of_union, elem_of_singleton. setoid_rewrite elem_of_cons. split.
      * intros [[->|?]|(? & r' & g' & ? & ?)]; [right|by left|right]; (split; [done|]);
          [exists r, g|exists r', g']; auto.
      * intros [?|(? & r' & g' & [[= -> ->]|?] & <-)]; [by left; right|by left; left|right].
        split; [done|]. by exists r', g'.
    + destruct (IH acc Hk') as (s & -> & Hs). exists s. split; [done|].
      intros id. rewrite Hs. setoid_rewrite elem_of_cons. split.
      * intros [?|(? & r' & g' & ? & ?)]; [by left|right]. split; [done|]. exists r', g'. auto.
      * intros [?|(? & r' & g' & [[= -> ->]|?] & <-)]; [by left|congruence|right].
        split; [done|]. by exists r', g'.
Qed.

Lemma candidate_ids_spec db user_id prefix :
  (∀ r g, grant_of db r g → covers db user_id g → is_known_role (gt_role g) = true) →
  ∃ ids, candidate_resource_ids_conn db user_id prefix = Ok ids
    ∧ NoDup ids ∧ Sorted (λ a b, str_leb a b = true) ids
    ∧ ∀ id, id ∈ ids ↔ starts_with prefix id = true
        ∧ ∃ r g, grant_of db r g ∧ covers db user_id g ∧ resource_of r = id.
Proof.
  intros Hk. unfold candidate_resource_ids_conn. set (rows := order_by _ _).
  assert (∀ r g, (r, g) ∈ rows ↔ grant_of db r g ∧ covers db user_id g) as Hrows.
  { intros r g. unfold rows, covers. rewrite elem_of_order_by, elem_of_where. simpl.
    rewrite andb_true_iff, orb_true_iff, !andb_true_iff, !String.eqb_eq, bool_decide_eq_true,
      elem_of_user_groups, <- elem_of_joined. tauto. }
  destruct (candidate_rows_spec rows prefix ∅) as (s & -> & Hs).
  { intros r g [? ?]%Hrows. by eapply Hk. }
  eexists. split; [done|]. split_and!.
  - rewrite sort_by_perm. apply NoDup_elements.
  - apply sort_by_sorted. intros. apply str_leb_total.
  - intros id. rewrite elem_of_sort_by, elem_of_elements, Hs. setoid_rewrite Hrows. set_solver.
Qed.

(** Within the limits the listing is what the candidates hold. *)
Lemma list_accessible_run user_id prefix w :
  plain_db (st w) → no_hash user_id = true → canonical_ids (st w) →
  (∀ r g, grant_of (st w) r g → covers (st w) user_id g → is_known_role (gt_role g) = true) →
  (∀ g, nesting_within (st w) n g) →
  ∃ ids l P, candidate_resource_ids_conn (st w) user_id prefix = Ok ids
    ∧ P = (λ l, l ∈ map repository_id_from_resource_id ids)
    ∧ Rebac.list_accessible self user_id (mkResourceFilter prefix) w = (Ok l, w)
    ∧ sublist (rp_resource_id <$> l) ids ∧ (∀ rp, rp ∈ l → rp_permission rp ≠ [])
    ∧ ∀ resource_id p,
        (∃ rp, rp ∈ l ∧ rp_resource_id rp = resource_id ∧ p ∈ rp_permission rp)
        ↔ resource_id ∈ ids ∧ ∃ role, holds (st w) user_id P resource_id role
            ∧ role_allows role (permission_as_str p) = true.
Proof.
  intros Hp Hu Hcan Hk Hn.
  destruct (candidate_ids_spec (st w) user_id prefix Hk) as (ids & Hids & _).
  unfold Rebac.list_accessible, Rebac.list_accessible_snapshot, bind, get_state, lift,
    list_accessible_snapshot_conn. simpl. rewrite Hids. exists ids. destruct ids as [|id ids'].
  - exists [], (λ l, l ∈ map repository_id_from_resource_id []).
    split_and!; [done|done|done|constructor|by intros ? ?%not_elem_of_nil|]. intros r p.
    split; [by intros (? & ?%not_elem_of_nil & _)|by intros [?%not_elem_of_nil _]].
  - set (ts := read_user_reachable_group_member_tuples_conn _ _ _).
    destruct (list_resources_spec (st w) user_id
      (λ l, l ∈ map repository_id_from_resource_id (id :: ids')) ts (id :: ids') w) as (l & Hl); try done.
    { intros t. unfold ts. by rewrite elem_of_user_tuples, elem_of_candidate_tuples. }
    by exists l, (λ l, l ∈ map repository_id_from_resource_id (id :: ids')).
Qed.

(** C32: When no stored repository id starts with urc-, the roles that cover the user are known and
    groups are not nested deeper than the limit, the listing of the production policy succeeds,
    is sorted by and without duplicates of resource ids, has no empty entries, and lists a
    permission on a resource exactly when the resource has the requested prefix and can_access
    allows that permission. *)
Theorem rebac_listing_agrees user_id prefix w :
  plain_db (st w) → no_hash user_id = true → canonical_ids (st w) →
  (∀ r g, grant_of (st w) r g → covers (st w) user_id g → is_known_role (gt_role g) = true) →
  (∀ g, nesting_within (st w) n g) →
  ∃ l, Rebac.list_accessible self user_id (mkResourceFilter prefix) w = (Ok l, w)
    ∧ NoDup (rp_resource_id <$> l)
    ∧ Sorted (λ a b, str_leb a b = true) (rp_resource_id <$> l)
    ∧ (∀ rp, rp ∈ l → rp_permission rp ≠ [])
    ∧ ∀ resource_id p,
        (∃ rp, rp ∈ l ∧ rp_resource_id rp = resource_id ∧ p ∈ rp_permission rp)
        ↔ starts_with prefix resource_id = true
          ∧ Rebac.can_access self user_id resource_id (permission_as_str p) w = (Ok true, w).
Proof.
  intros Hp Hu Hcan Hk Hn.
  destruct (candidate_ids_spec (st w) user_id prefix Hk) as (ids & Hids & Hnd & Hsort & Hmem).
  destruct (list_accessible_run user_id prefix w) as (ids' & l & P & Hids' & -> & Hrun & Hsub & Hne & Hl);
    try done. rewrite Hids in Hids'. injection Hids' as <-.
  exists l. split_and!; [done|by eapply sublist_NoDup| |done|].
  { apply StronglySorted_Sorted. eapply StronglySorted_sublist; [exact Hsub|].
    apply Sorted_StronglySorted; [intros a b c; apply str_leb_trans|done]. }
  intros r p. rewrite Hl, (can_access_permission user_id r p w) by done. split.
  - intros [Hin (role & (rep & g & Hg & HP & <- & <- & Hc) & Ha)]. split; [by apply Hmem in Hin as [? _]|].
    exists (gt_role g). split; [|done].
    pose proof (canonical_resource_of _ rep Hcan (proj1 Hg)) as Hcr.
    split; [unfold canonical_resource_id; by rewrite Hcr|]. exists rep, g. by rewrite Hcr.
  - intros [Hpre (role & [Hcr (rep & g & Hg & Hlore & <- & Hc)] & Ha)].
    assert (resource_of rep = r) as Hrr by (unfold resource_of; by rewrite Hlore).
    assert (r ∈ ids) as Hin by (apply Hmem; split; [done|]; by exists rep, g).
    split; [done|]. exists (gt_role g). split; [|done]. exists rep, g. split_and!; try done.
    rewrite Hlore. apply elem_of_map. by exists r.
Qed.
End Decisions.

(** * Failing closed *)

Section FailClosed.
Context `{Env} `{AuthzCore} (self : Rebac.RebacAuthorizationPolicy).

(** C27: A grant of an unknown role on the active repository that covers the user makes the
    production policy fail with an invalid argument, unless a covering role that decides the
    action (admin, or one that allows it) sorts before it. *)
Theorem unknown_role_fails_closed user_id resource_id action role w :
  active_repository (st w) resource_id →
  reachable_role (st w) user_id (repository_id_from_resource_id resource_id) role →
  is_known_role role = false →
  (∀ r, reachable_role (st w) user_id (repository_id_from_resource_id resource_id) r →
     decisive r action → str_leb r role = false) →
  ∃ m, Rebac.can_access self user_id resource_id action w = (Err (InvalidArgument m), w).
Proof.
  intros Ha (r0 & g0 & Hg & Hl & <- & Hc) Hk Hd.
  unfold Rebac.can_access, Rebac.can_access_snapshot, bind, get_state, lift, can_access_snapshot_conn.
  destruct (read_active_repository_grant_tuples_conn _ _ _) as [ts0|e] eqn:Hr.
  - destruct (validate_snapshot_unknown (st w) user_id _ _ action r0 g0
      (user_snapshot_of_grants _ _ user_id _ Hr) Hg Hl Hc Hk) as [m ->]; [|by exists m].
    intros r g ? ? ? ?. apply Hd; [|done]. by exists r, g.
  - apply active_grants_spec in Hr as [_ Hr]. destruct Ha as (r & ? & ? & ?). by destruct (Hr r).
Qed.

(** C30: The tuples of the snapshot that a check loads for one user and one repository, with only
    the group memberships above the user, give (when no stored repository id starts with urc-)
    the user the same relations on that repository as all tuples of the database. *)
Theorem snapshot_suffices db user_id resource_id action ts :
  canonical_ids db →
  can_access_snapshot_conn db (repository_id_from_resource_id resource_id) user_id action = Ok ts →
  ∀ role, tuple_member ts user_id "resource" resource_id role
    ↔ tuple_member (read_tuples_conn db no_filter) user_id "resource" resource_id role.
Proof.
  intros Hcan Hts%can_access_snapshot_is_user_snapshot role.
  rewrite (snapshot_resource_member _ _ _ _ Hts), all_tuples_resource_member. split; [naive_solver|].
  intros (r & g & Hg & <- & Hrest). exists r, g. split_and!; [done| |done|apply Hrest..].
  symmetry. apply (canonical_resource_of db); [done|apply Hg].
Qed.

(** C37: The tuple reader that pushes a filter into its SQL statements returns, up to order, exactly
    the tuples that an unfiltered read followed by the in-memory filter returns, for every
    combination of filters on object, relation and subject, when subjects are users or groups,
    no stored repository id starts with urc- and an object filter that may select resources is a
    canonical resource id. *)
Theorem filter_pushdown db f :
  known_subjects db → canonical_ids db →
  (∀ object_id, tf_object_id f = Some object_id →
     matches_filter_value "resource" (tf_object_type f) = true → canonical_resource_id object_id) →
  read_tuples_conn db f ≡ₚ filtered_tuples (read_tuples_conn db no_filter) f.
Proof.
  intros Hs Hc Ho. rewrite (pushed_filter db f Hs Hc Ho).
  unfold filtered_tuples. fold (where_ (λ t, tuple_matches_filter t f) (read_tuples_conn db no_filter)).
  apply where_permutation. rewrite (pushed_filter db no_filter Hs Hc) by done.
  unfold where_. by rewrite filter_true.
Qed.
End FailClosed.

(** * The in-memory policy decides the same *)

(** The in-memory store has the memberships, the nestings and the grants on active
    repositories that the rows have. *)
Record represents `{Env} (db : Db) (s : State) : Prop := {
  rp_direct u g : direct_group db u g ↔ g ∈ direct_group_ids_for_user s u;
  rp_nested c p : nested_in db c p ↔ member_edge (group_groups s) p c;
  rp_grants subject_type subject_id resource_id role :
    (∃ entries, grants s !! (subject_type, subject_id) = Some entries
       ∧ entries !! resource_id = Some role)
    ↔ ∃ r g, grant_of db r g ∧ resource_of r = resource_id ∧ gt_subject_type g = subject_type
        ∧ gt_subject_id g = subject_id ∧ gt_role g = role
}.

Section Refinement.
Context `{Env} (db : Db) (s : State).
Hypothesis Hrep : represents db s.
Hypothesis Hcan : canonical_ids db.

Lemma rtc_mono {A} (R R' : A → A → Prop) x y : (∀ a b, R a b → R' a b) → rtc R x y → rtc R' x y.
Proof. intros HR. induction 1 as [|a b c Hab _ IH]; [apply rtc_refl|]. eapply rtc_l; [by apply HR|done]. Qed.

Lemma represents_in_group user_id g :
  in_group db user_id g
  ↔ contains_transitively (group_groups s) (direct_group_ids_for_user s user_id) g.
Proof.
  unfold in_group, contains_transitively. destruct Hrep as [Hd Hn _]. split.
  - intros (d & Hdd & Hr). exists d. split; [by apply Hd|].
    eapply rtc_mono; [|exact Hr]. intros x y. apply Hn.
  - intros (d & Hdd & Hr). exists d. split; [by apply Hd|].
    eapply rtc_mono; [|exact Hr]. intros x y. apply Hn.
Qed.

Lemma represents_granted user_id resource_id role :
  granted_role s user_id resource_id role ↔ granted_row db user_id resource_id role.
Proof.
  split.
  - intros (subject & es & Hsub & He & Hr). destruct subject as [ty id].
    destruct (proj1 (rp_grants _ _ Hrep ty id resource_id role)) as (r & g & Hg & <- & <- & <- & <-);
      [by exists es|].
    pose proof (canonical_resource_of _ r Hcan (proj1 Hg)) as Hcr.
    split; [unfold canonical_resource_id; by rewrite Hcr|].
    exists r, g. rewrite Hcr. split_and!; try done. inversion Hsub as [Heq|x Hx Heq]; unfold covers.
    + by left.
    + right. split; [done|]. by apply represents_in_group.
  - intros [Hc (r & g & Hg & Hl & <- & Hcov)].
    assert (resource_of r = resource_id) as Hrr by (unfold resource_of; by rewrite Hl).
    destruct (proj2 (rp_grants _ _ Hrep (gt_subject_type g) (gt_subject_id g) resource_id (gt_role g)))
      as (es & He & Hes); [by exists r, g|].
    exists (gt_subject_type g, gt_subject_id g), es. split; [|done].
    destruct Hcov as [[-> ->]|[-> Hin]]; constructor. by apply represents_in_group.
Qed.
End Refinement.

Section Policies.
Context `{Env} `{AuthzCore} (n : nat) `{!ResolverLaws (S n)} (self : Rebac.RebacAuthorizationPolicy).
Hypothesis Hself : Rebac.new = Ok self.

(** C20: On a database that an in-memory store represents, with known roles, repository ids without
    the urc- prefix and groups nested within the limit of the resolver, the production policy
    and the in-memory one decide every permission alike, except that where the repository does
    not exist or is not active the first answers NotFound and the second false. *)
Theorem sql_policy_refines_memory user_id resource_id p w wm :
  represents (st w) (st wm) → canonical_ids (st w) → plain_db (st w) → no_hash user_id = true →
  (∀ r g, grant_of (st w) r g → covers (st w) user_id g → is_known_role (gt_role g) = true) →
  (∀ g, nesting_within (st w) n g) →
  ∃ b, Grants.can_access user_id resource_id (permission_as_str p) wm = (Ok b, wm)
    ∧ (Rebac.can_access self user_id resource_id (permission_as_str p) w = (Ok b, w)
       ∨ b = false ∧ ¬ active_repository (st w) resource_id
         ∧ Rebac.can_access self user_id resource_id (permission_as_str p) w = (Err NotFound, w)).
Proof.
  intros Hrep Hcan Hp Hu Hk Hn. eexists. split; [apply can_access_run|].
  set (b := decision _ _ _ _).
  assert (b = true ↔ Rebac.can_access self user_id resource_id (permission_as_str p) w = (Ok true, w)) as Hb.
  { unfold b. rewrite decision_spec, (can_access_permission n self Hself) by done.
    unfold granted. by setoid_rewrite (represents_granted _ _ Hrep Hcan). }
  destruct (can_access_outcome_holds n self Hself user_id resource_id (permission_as_str p) w Hp Hu)
    as (r & Hrun & Ho). rewrite Hrun in Hb |- *.
  destruct r as [b'|e]; simpl in Ho.
  - left. do 2 f_equal. destruct b, b'; naive_solver.
  - right. assert (b = false) by (destruct b; [by specialize (proj1 Hb eq_refl)|done]).
    destruct Ho as [[-> ?]|[(role & (r & g & Hg & _ & <- & Hc) & Hf)|?]]; [done| |by exfalso].
    by rewrite (Hk r g) in Hf.
Qed.

(** For an action other than read, write and admin the production policy answers true exactly
    for those whom a grant of the admin role covers, while the in-memory policy answers false to
    everyone. *)
Theorem unknown_action_checks_admin user_id resource_id action w wm :
  permission_from_name action = None →
  plain_db (st w) → no_hash user_id = true → active_repository (st w) resource_id →
  (∀ role, reachable_role (st w) user_id (repository_id_from_resource_id resource_id) role →
     is_known_role role = true) →
  (∀ g, nesting_within (st w) n g) →
  Grants.can_access user_id resource_id action wm = (Ok false, wm)
  ∧ ∃ b, Rebac.can_access self user_id resource_id action w = (Ok b, w)
      ∧ (b = true ↔ granted_row (st w) user_id resource_id "admin").
Proof.
  intros Ha Hp Hu Hact Hk Hn. split.
  - rewrite can_access_run. do 2 f_equal. apply not_true_iff_false. rewrite decision_spec.
    intros (role & _ & Hr). unfold role_allows in Hr. rewrite Ha in Hr. by destruct (role_from_name role).
  - destruct (can_access_answers n self Hself user_id resource_id action w) as (b & Hb & Hd); try done.
    exists b. split; [done|]. rewrite Hd. split; [|intros Hg; exists "admin"; split; [done|by left]].
    intros (role & Hg & [->|Hr]); [done|]. unfold role_allows in Hr. rewrite Ha in Hr.
    by destruct (role_from_name role).
Qed.
End Policies.

(** * A resolver that satisfies the interface, and a small database *)

(** Depth-first search over the filtered reads. *)
Fixpoint check_usersets {E} (sub : string → result E CheckResult) (l : list Tuple) : result E CheckResult :=
  match l with
  | [] => Ok Denied
  | t :: l =>
      match strip_suffix "#member" (tp_subject_id t) with
      | Some g =>
          if String.eqb (tp_subject_type t) "group"
          then match sub g with Ok Denied => check_usersets sub l | r => r end
          else check_usersets sub l
      | None => check_usersets sub l
      end
  end.

Fixpoint demo_check (fuel : nat) (r : TupleReader string)
    (object_type object_id relation subject_type subject_id : string) : result string CheckResult :=
  match read_tuples r (mkTupleFilter (Some object_type) (Some object_id) (Some relation) None None) with
  | Err e => Err e
  | Ok l =>
      if existsb (λ t, String.eqb (tp_subject_type t) subject_type
                       && String.eqb (tp_subject_id t) subject_id) l
      then Ok Allowed
      else check_usersets
        (match fuel with
         | 0 => λ _, Err "max recursion depth exceeded"
         | S fuel => λ g, demo_check fuel r "group" g "member" subject_type subject_id
         end) l
  end.

#[local] Instance demo_authz_core : AuthzCore := {|
  AuthzError := string;
  authz_error_to_string e := e;
  PolicyProvider := ();
  parse_dsl _ := Ok tt;
  resolve_check r _ rq :=
    demo_check 3 r (rq_object_type rq) (rq_object_id rq) (rq_relation rq) (rq_subject_type rq)
      (rq_subject_id rq)
|}.

Section DemoResolver.
Context (ts : list Tuple) (r : TupleReader string) (user_id : string).
Hypothesis Hreads : reads r ts.
Hypothesis Hplain : ∀ t, t ∈ ts → plain_tuple t.
Hypothesis Huser : no_hash user_id = true.

Lemma check_usersets_spec sub l :
  match check_usersets (E := string) sub l with
  | Ok Denied => ∀ t g, t ∈ l → tp_subject_type t = "group" → tp_subject_id t = g +:+ "#member" →
      sub g = Ok Denied
  | a => ∃ t g, t ∈ l ∧ tp_subject_type t = "group" ∧ tp_subject_id t = g +:+ "#member" ∧ sub g = a
  end.
Proof.
  induction l as [|t l IH]; simpl; [by intros ? ? ?%not_elem_of_nil|].
  assert (∀ a : result string CheckResult,
    (∃ t' g, t' ∈ l ∧ tp_subject_type t' = "group" ∧ tp_subject_id t' = g +:+ "#member" ∧ sub g = a) →
    ∃ t' g, t' ∈ t :: l ∧ tp_subject_type t' = "group" ∧ tp_subject_id t' = g +:+ "#member" ∧ sub g = a)
    as Hlift by (intros a (t' & g & ? & ?); exists t', g; split; [by right|done]).
  destruct (strip_suffix "#member" (tp_subject_id t)) as [g|] eqn:Hs;
    [destruct (String.eqb_spec (tp_subject_type t) "group") as [Ht|Ht]|].
  - apply strip_suffix_Some in Hs.
    destruct (sub g) as [[| |ps]|e] eqn:Hg; try by (exists t, g; split_and!; [left|..]).
    destruct (check_usersets sub l) as [[| |ps]|e]; try by apply Hlift.
    intros t' g' [->|?]%elem_of_cons ? Hid; [|by eapply IH]. rewrite Hs in Hid.
    by apply app_inj_r in Hid as <-.
  - destruct (check_usersets sub l) as [[| |ps]|e]; try by apply Hlift.
    intros t' g' [->|?]%elem_of_cons ? ?; [done|by eapply IH].
  - destruct (check_usersets sub l) as [[| |ps]|e]; try by apply Hlift.
    intros t' g' [->|?]%elem_of_cons ? Hid; [|by eapply IH]. by apply strip_suffix_None with (r := g') in Hs.
Qed.

(** The tuples read for a relation. *)
Lemma relation_tuples object_type object_id relation l t :
  read_tuples r (mkTupleFilter (Some object_type) (Some object_id) (Some relation) None None) = Ok l →
  t ∈ l → t ∈ ts ∧ t = mkTuple object_type object_id relation (tp_subject_type t) (tp_subject_id t) None.
Proof.
  intros Hl Ht. destruct (Hreads (mkTupleFilter (Some object_type) (Some object_id) (Some relation) None None))
    as (l' & Hl' & Hin). rewrite Hl in Hl'. injection Hl' as <-. apply Hin in Ht as [Ht Hm].
  split; [done|]. destruct (Hplain t Ht) as [Hc _]. destruct t; simpl in *.
  unfold tuple_matches_filter in Hm. simpl in Hm. rewrite !andb_true_iff, !String.eqb_eq in Hm. naive_solver.
Qed.

Lemma relation_tuples_complete object_type object_id relation l st sid :
  read_tuples r (mkTupleFilter (Some object_type) (Some object_id) (Some relation) None None) = Ok l →
  mkTuple object_type object_id relation st sid None ∈ ts →
  mkTuple object_type object_id relation st sid None ∈ l.
Proof.
  intros Hl Ht. destruct (Hreads (mkTupleFilter (Some object_type) (Some object_id) (Some relation) None None))
    as (l' & Hl' & Hin). rewrite Hl in Hl'. injection Hl' as <-. apply Hin. split; [done|].
  unfold tuple_matches_filter. simpl. by rewrite !String.eqb_refl.
Qed.

(** A tuple of the user's own among those read for a relation. *)
Lemma own_tuple object_type object_id relation l :
  read_tuples r (mkTupleFilter (Some object_type) (Some object_id) (Some relation) None None) = Ok l →
  existsb (λ t, String.eqb (tp_subject_type t) "user" && String.eqb (tp_subject_id t) user_id) l = true
  ↔ mkTuple object_type object_id relation "user" user_id None ∈ ts.
Proof.
  intros Hl. rewrite existsb_exists. split.
  - intros (t & Ht%list_elem_of_In & [H1%String.eqb_eq H2%String.eqb_eq]%andb_true_iff).
    apply (relation_tuples _ _ _ _ _ Hl) in Ht as [Ht Heq]. rewrite H1, H2 in Heq. by rewrite <- Heq.
  - intros Hin. eexists. split; [by apply list_elem_of_In, (relation_tuples_complete _ _ _ _ _ _ Hl Hin)|].
    simpl. by rewrite String.eqb_refl.
Qed.

(** A group among those read for a relation. *)
Lemma userset_tuple object_type object_id relation l t g :
  read_tuples r (mkTupleFilter (Some object_type) (Some object_id) (Some relation) None None) = Ok l →
  t ∈ l → tp_subject_type t = "group" → tp_subject_id t = g +:+ "#member" →
  mkTuple object_type object_id relation "group" (g +:+ "#member") None ∈ ts.
Proof.
  intros Hl Hin Ht Hid. apply (relation_tuples _ _ _ _ _ Hl) in Hin as [Hin Heq].
  rewrite Ht, Hid in Heq. by subst t.
Qed.

Lemma demo_check_spec fuel object_type object_id relation :
  match demo_check fuel r object_type object_id relation "user" user_id with
  | Ok Allowed => tuple_member ts user_id object_type object_id relation
  | Ok Denied => ¬ tuple_member ts user_id object_type object_id relation
  | Ok (ConditionRequired _) => False
  | Err _ => ¬ tuples_within ts fuel object_type object_id relation
  end.
Proof.
  revert object_type object_id relation. induction fuel as [|fuel IH]; intros ot oid rel; simpl;
    (destruct (Hreads (mkTupleFilter (Some ot) (Some oid) (Some rel) None None)) as (l & Hl & _));
    rewrite Hl; pose proof (own_tuple _ _ _ _ Hl) as Hown;
    (destruct (existsb _ l); [by apply tm_user, Hown|]).
  - pose proof (check_usersets_spec (λ _, Err "max recursion depth exceeded") l) as Hu.
    destruct (check_usersets _ l) as [[| |ps]|e]; try by destruct Hu as (? & ? & _ & _ & _ & [=]).
    + intros Hm. inversion Hm as [? ? ? Hin|? ? ? g Hin]; subst; [by apply Hown in Hin|].
      apply (relation_tuples_complete _ _ _ _ _ _ Hl) in Hin. by specialize (Hu _ g Hin eq_refl eq_refl).
    + destruct Hu as (t & g & Hin & Ht & Hid & _). intros Hw. apply (Hw g). by eapply userset_tuple.
  - pose proof (check_usersets_spec (λ g, demo_check fuel r "group" g "member" "user" user_id) l) as Hu.
    destruct (check_usersets _ l) as [[| |ps]|e];
      try (destruct Hu as (t & g & Hin & Ht & Hid & Hsub); specialize (IH "group" g "member");
           rewrite Hsub in IH; eapply userset_tuple in Hin; [|done..]).
    + by eapply tm_userset.
    + intros Hm. inversion Hm as [? ? ? Hin|? ? ? g Hin Hg]; subst; [by apply Hown in Hin|].
      apply (relation_tuples_complete _ _ _ _ _ _ Hl) in Hin. specialize (Hu _ g Hin eq_refl eq_refl).
      specialize (IH "group" g "member"). simpl in Hu. by rewrite Hu in IH.
    + done.
    + intros Hw. by apply IH, Hw.
Qed.
End DemoResolver.

#[local] Instance demo_resolver_laws : ResolverLaws 3.
Proof.
  split; [by exists tt|]. intros p r ts ot oid rel u _ Hr Hp _ _. by apply demo_check_spec.
Qed.

(** Ann is in the group [g2], which is nested in [g1], which may write to [game]. *)
Definition game_row : RepositoryRow :=
  mkRepositoryRow "r1" "game" "lore://h/game" "game" "active" "manual" 0 0.
Definition game_grant : GrantRow := mkGrantRow "grant1" "group" "g1" "r1" "writer" 0 0.
Definition demo_db : Db :=
  set_repositories (λ _, [game_row]) (set_grants (λ _, [game_grant])
    (set_group_members (λ _, [mkGroupMemberRow "g2" "ann" 0])
    (set_group_groups (λ _, [mkGroupGroupRow "g1" "g2" 0]) empty_db))).
Definition demo_sql_world : World Db := mkWorld demo_db 0 0.
Definition demo_policy : Rebac.RebacAuthorizationPolicy := Rebac.mkRebacAuthorizationPolicy tt.

(** The same with a grant whose role is misspelt. *)
Definition typo_grant : GrantRow := mkGrantRow "grant2" "user" "ann" "r1" "aaa-typo" 0 0.
Definition typo_db : Db :=
  set_grants (λ rows, rows ++ [typo_grant]) demo_db.
Definition typo_world : World Db := mkWorld typo_db 0 0.

Example demo_can_write :
  (Rebac.can_access demo_policy "ann" "urc-game" "write" demo_sql_world).1 = Ok true.
Proof. vm_compute. reflexivity. Qed.
Example demo_cannot_administer :
  (Rebac.can_access demo_policy "ann" "urc-game" "admin" demo_sql_world).1 = Ok false.
Proof. vm_compute. reflexivity. Qed.
Example demo_listing :
  (Rebac.list_accessible demo_policy "ann" (mkResourceFilter "urc-") demo_sql_world).1
  = Ok [mkResourcePermission "urc-game" [PermRead; PermWrite]].
Proof. vm_compute. reflexivity. Qed.
Example demo_closure : reachable_group_ids_from_tuples (read_tuples_conn demo_db no_filter) "ann" = {["g1"; "g2"]}.
Proof. vm_compute. reflexivity. Qed.

Lemma demo_nested c p : nested_in demo_db c p ↔ c = "g2" ∧ p = "g1".
Proof.
  unfold nested_in. simpl. split; [by intros (gg & ->%list_elem_of_singleton & <- & <-)|].
  intros [-> ->]. eexists. split; [by left|done].
Qed.

Lemma demo_direct u g : direct_group demo_db u g ↔ u = "ann" ∧ g = "g2".
Proof.
  unfold direct_group. simpl. split; [by intros (gm & ->%list_elem_of_singleton & <- & <-)|].
  intros [-> ->]. eexists. split; [by left|done].
Qed.

Lemma demo_plain : plain_db demo_db.
Proof.
  split.
  - intros g ->%list_elem_of_singleton. simpl. auto.
  - by intros u g [-> _]%demo_direct.
  - by intros c p [-> _]%demo_nested.
Qed.

Lemma demo_within g : nesting_within demo_db 2 g.
Proof. intros c [-> ->]%demo_nested c' [-> [=]]%demo_nested. Qed.

Lemma demo_grant_of r g : grant_of demo_db r g ↔ r = game_row ∧ g = game_grant.
Proof.
  unfold grant_of. simpl. rewrite !list_elem_of_singleton. split; [naive_solver|]. by intros [-> ->].
Qed.

Lemma demo_known r g : grant_of demo_db r g → covers demo_db "ann" g → is_known_role (gt_role g) = true.
Proof. by intros [-> ->]%demo_grant_of _. Qed.

Lemma demo_canonical : canonical_ids demo_db.
Proof. by intros r ->%list_elem_of_singleton. Qed.

Lemma demo_active : active_repository demo_db "urc-game".
Proof. exists game_row. split; [by left|done]. Qed.

Lemma demo_represents : represents demo_db demo_store.
Proof.
  split.
  - intros u g. rewrite demo_direct. unfold direct_group_ids_for_user. simpl.
    destruct (decide (u = "ann")) as [->|Hne].
    + rewrite lookup_singleton_eq. simpl. change (resolve_group_id demo_store "devs") with (@Ok CoreError string "g2").
      set_solver.
    + rewrite lookup_singleton_ne by done. set_solver.
  - intros c p. rewrite demo_nested. unfold member_edge. simpl. split.
    + intros [-> ->]. exists ["g2"]. split; [apply lookup_singleton_eq|by left].
    + intros (ms & [<- <-]%lookup_singleton_Some & ->%list_elem_of_singleton). done.
  - intros st sid rid role. simpl. split.
    + intros (es & [[= <- <-] <-]%lookup_singleton_Some & [<- <-]%lookup_singleton_Some).
      exists game_row, game_grant. split; [by apply demo_grant_of|done].
    + intros (r & g & [-> ->]%demo_grant_of & <- & <- & <- & <-).
      eexists. split; apply lookup_singleton_Some; done.
Qed.

Lemma rebac_can_access_decides_witness :
  ∃ r, Rebac.can_access demo_policy "ann" "urc-game" "write" demo_sql_world = (r, demo_sql_world) ∧ r = Ok true.
Proof.
  destruct (rebac_can_access_decides 2 demo_policy eq_refl "ann" "urc-game" "write" demo_sql_world
    demo_plain eq_refl) as (r & Hr & Ho).
  exists r. split; [exact Hr|]. vm_compute in Hr. by injection Hr as <-.
Defined.

Lemma sql_policy_refines_memory_witness :
  ∃ b, Grants.can_access "ann" "urc-game" "write" demo_world = (Ok b, demo_world)
    ∧ (Rebac.can_access demo_policy "ann" "urc-game" "write" demo_sql_world = (Ok b, demo_sql_world)
       ∨ b = false ∧ ¬ active_repository demo_db "urc-game"
         ∧ Rebac.can_access demo_policy "ann" "urc-game" "write" demo_sql_world = (Err NotFound, demo_sql_world)).
Proof.
  exact (sql_policy_refines_memory 2 demo_policy eq_refl "ann" "urc-game" PermWrite demo_sql_world demo_world
    demo_represents demo_canonical demo_plain eq_refl demo_known demo_within).
Defined.

Lemma rebac_listing_agrees_witness :
  ∃ l, Rebac.list_accessible demo_policy "ann" (mkResourceFilter "urc-") demo_sql_world = (Ok l, demo_sql_world)
    ∧ NoDup (rp_resource_id <$> l).
Proof.
  destruct (rebac_listing_agrees 2 demo_policy eq_refl "ann" "urc-" demo_sql_world demo_plain eq_refl
    demo_canonical demo_known demo_within) as (l & Hl & Hnd & _).
  exists l. split; [exact Hl|exact Hnd].
Defined.

Lemma typo_reachable role :
  reachable_role typo_db "ann" "game" role → role = "writer" ∨ role = "aaa-typo".
Proof.
  intros (r & g & (_ & Hg & _) & _ & <- & _). simpl in Hg.
  apply elem_of_cons in Hg as [->|Hg%list_elem_of_singleton]; [by left|]. subst g. by right.
Qed.

Lemma unknown_role_fails_closed_witness :
  ∃ m, Rebac.can_access demo_policy "ann" "urc-game" "write" typo_world = (Err (InvalidArgument m), typo_world).
Proof.
  apply (unknown_role_fails_closed demo_policy "ann" "urc-game" "write" "aaa-typo" typo_world).
  - exists game_row. split; [by left|done].
  - exists game_row, typo_grant. split_and!; [|done|done|by left].
    split_and!; [by left|by right; left|done|done].
  - reflexivity.
  - intros r Hr%typo_reachable Hd. destruct Hr; subst r; [done|]. by destruct Hd.
Defined.

Lemma snapshot_suffices_witness :
  ∃ ts, can_access_snapshot_conn demo_db "game" "ann" "write" = Ok ts
    ∧ (tuple_member ts "ann" "resource" "urc-game" "writer"
       ↔ tuple_member (read_tuples_conn demo_db no_filter) "ann" "resource" "urc-game" "writer").
Proof.
  eexists. split; [vm_compute; reflexivity|].
  apply (snapshot_suffices demo_db "ann" "urc-game" "write"); [exact demo_canonical|vm_compute; reflexivity].
Defined.

Lemma filter_pushdown_witness :
  let f := mkTupleFilter (Some "resource") (Some "urc-game") (Some "writer") (Some "group") (Some "g1#member") in
  read_tuples_conn demo_db f ≡ₚ filtered_tuples (read_tuples_conn demo_db no_filter) f
  ∧ length (read_tuples_conn demo_db f) = 1.
Proof.
  intros f. split; [|vm_compute; reflexivity]. apply filter_pushdown.
  - intros g ->%list_elem_of_singleton. by right.
  - exact demo_canonical.
  - intros o [= <-] _. vm_compute. reflexivity.
Defined.

