(* ===== verification/SqlKeep.v ===== *)
(** Invariants of the SQLite database, statement by statement: the statements of the adapter with
    what is known where each one runs.  A property that every statement keeps is kept by every
    call ([run_store_keeps], [run_sql_keeps]). *)

From Stdlib Require Import ZArith Lia Ascii.
From stdpp Require Import base gmap strings list.
From S2P Require Import Prelude Model MemState ModelFacts.
From S2P Require Import SqlRows SqlBase SqlAccounts SqlGroups SqlGrants SqlTokens.
From S2P Require Import SqlAudited SqlSessions SqlStore.

(** * Statements *)

(** The repository ids that are stored: the prefix is taken off a valid id, which leaves nothing
    of the id [urc-]. *)
Definition stored_repository_id (id : string) : Prop := id = "" ∨ valid_repository_id id.

(** The subject of a grant: not a foreign key, so the code looks it up. *)
Definition subject_exists (db : Db) (subject_type subject_id : string) : Prop :=
  subject_type = "user" ∧ subject_id ∈ ur_id <$> db_users db
  ∨ subject_type = "group" ∧ subject_id ∈ gp_id <$> db_groups db.

(** The statements of the account, repository and token stores. *)
Class StoreStatements `{Env} (I : Db → Prop) : Prop := {
  user_inserted row db : I db → fresh_in ur_id (db_users db) (ur_id row) = true →
    email_free db (ur_id row) (ur_primary_email_normalized row) = true →
    ur_status row ∈ ["active"; "pending"] → (∃ i, ur_id row = uuid_src i) → I (set_users (λ rows, rows ++ [row]) db);
  user_status_set p status now db : I db → status ∈ ["active"; "disabled"] →
    (∀ r, p r = true → ur_status r ≠ "deleted") →
    I (set_users (update_where p (row_user_status status now)) db);
  user_logged_in p now db : I db → I (set_users (update_where p (row_logged_in now)) db);
  user_bound id email name now db : I db → email_free db id (Some (normalize_email email)) = true →
    I (set_users (update_where (λ r, String.eqb (ur_id r) id) (row_user_bound email name now)) db);
  identity_inserted row db : I db → fresh_in xr_id (db_external_identities db) (xr_id row) = true →
    identity_free db (xr_provider_id row) (xr_issuer row) (xr_subject row) = true →
    user_exists db (xr_user_id row) = true →
    I (set_external_identities (λ rows, rows ++ [row]) db);
  identity_seen p now db : I db →
    I (set_external_identities (update_where p (row_identity_seen now)) db);
  invitation_inserted row db : I db →
    fresh_in ir_id (db_identity_invitations db) (ir_id row) = true →
    invitation_free db (ir_provider_id row) (ir_issuer row) (ir_email_normalized row) = true →
    ir_accepted_identity_id row = None → ir_status row = "pending" → user_exists db (ir_user_id row) = true →
    I (set_identity_invitations (λ rows, rows ++ [row]) db);
  invitation_accepted p id now db : I db → id ∈ xr_id <$> db_external_identities db →
    I (set_identity_invitations (update_where p (row_invitation_accepted id now)) db);
  group_inserted row db : I db → fresh_in gp_id (db_groups db) (gp_id row) = true →
    fresh_in gp_name (db_groups db) (gp_name row) = true → gp_name row ≠ "" →
    (∃ i, gp_id row = uuid_src i) →
    I (set_groups (λ rows, rows ++ [row]) db);
  member_inserted g u now db : I db → affected (membership g u) (db_group_members db) = 0 →
    group_exists db g = true → user_exists db u = true →
    I (set_group_members (λ rows, rows ++ [mkGroupMemberRow g u now]) db);
  members_deleted p db : I db → I (set_group_members (where_ p) db);
  edge_inserted p m now db : I db → affected (edge p m) (db_group_groups db) = 0 →
    p ≠ m → p ∉ descendants db m → group_exists db p = true → group_exists db m = true →
    I (set_group_groups (λ rows, rows ++ [mkGroupGroupRow p m now]) db);
  edges_deleted p db : I db → I (set_group_groups (where_ p) db);
  grant_inserted row db : I db → fresh_in gt_id (db_grants db) (gt_id row) = true →
    affected (same_grant (gt_subject_type row) (gt_subject_id row) (gt_repository_id row)
      (gt_role row)) (db_grants db) = 0 →
    gt_repository_id row ∈ rep_id <$> db_repositories db →
    is_known_role (gt_role row) = true → subject_exists db (gt_subject_type row) (gt_subject_id row) →
    I (set_grants (λ rows, rows ++ [row]) db);
  grants_deleted p db : I db → I (set_grants (where_ p) db);
  repository_inserted row db : I db → fresh_in rep_id (db_repositories db) (rep_id row) = true →
    fresh_in rep_name (db_repositories db) (rep_name row) = true →
    fresh_in rep_lore_repository_id (db_repositories db) (rep_lore_repository_id row) = true →
    stored_repository_id (rep_lore_repository_id row) → rep_status row = "active" →
    rep_created_by_source row ∈ ["manual"; "rebac_create_resource"] →
    I (set_repositories (λ rows, rows ++ [row]) db);
  repository_saved p id name remote_url now db : I db → (∀ r, p r = true → rep_id r = id) →
    repository_name_free id name db = true →
    I (set_repositories (update_where p (row_saved name remote_url now)) db);
  repository_status_set p status now db : I db → status ∈ ["active"; "deleted"] →
    I (set_repositories (update_where p (row_repository_status status now)) db);
  token_inserted row db : I db → fresh_in tk_jti (db_issued_tokens db) (tk_jti row) = true →
    in_column ur_id (db_users db) (tk_user_id row) = true →
    in_column rep_id (db_repositories db) (tk_repository_id row) = true →
    I (set_issued_tokens (λ rows, rows ++ [row]) db);
  token_revoked p now db : I db → I (set_issued_tokens (update_where p (row_token_revoked now)) db);
  key_inserted row db : I db → fresh_in kr_kid (db_signing_keys db) (kr_kid row) = true →
    I (set_signing_keys (λ rows, rows ++ [row]) db);
  audit_inserted row db : I db → fresh_in ar_id (db_admin_audit db) (ar_id row) = true →
    I (set_admin_audit (λ rows, rows ++ [row]) db)
}.

(** The statements of the device and state stores. *)
Class SessionStatements (I : Db → Prop) : Prop := {
  device_inserted row db : I db → fresh_in dr_id (db_device_authorizations db) (dr_id row) = true →
    fresh_in dr_device_code_hash (db_device_authorizations db) (dr_device_code_hash row) = true →
    fresh_in dr_user_code_hash (db_device_authorizations db) (dr_user_code_hash row) = true →
    dr_approved_user_id row = None → dr_status row = "pending" →
    in_column rep_id (db_repositories db) (dr_requested_repository_id row) = true →
    I (set_device_authorizations (λ rows, rows ++ [row]) db);
  device_approved p user_id now db : I db → user_exists db user_id = true →
    I (set_device_authorizations (update_where p (row_approved user_id now)) db);
  device_consumed p now db : I db → (∀ r, p r = true → dr_status r = "approved") →
    I (set_device_authorizations (update_where p (row_consumed now)) db);
  device_expired p db : I db → (∀ r, p r = true → dr_status r = "pending") →
    I (set_device_authorizations (update_where p row_expired) db);
  auth_session_inserted row db : I db → fresh_in sr_id (db_auth_sessions db) (sr_id row) = true →
    fresh_in sr_session_code_hash (db_auth_sessions db) (sr_session_code_hash row) = true →
    sr_user_id row = None → sr_status row = "pending" →
    I (set_auth_sessions (λ rows, rows ++ [row]) db);
  auth_session_completed p user_id now db : I db → user_exists db user_id = true →
    I (set_auth_sessions (update_where p (row_completed user_id now)) db);
  auth_session_consumed p now db : I db → (∀ r, p r = true → sr_status r = "completed") →
    I (set_auth_sessions (update_where p (row_session_consumed now)) db);
  login_inserted row db : I db → fresh_in lr_id (db_login_transactions db) (lr_id row) = true →
    fresh_in lr_state_hash (db_login_transactions db) (lr_state_hash row) = true →
    I (set_login_transactions (λ rows, rows ++ [row]) db);
  login_private_state_set p private_state db : I db →
    I (set_login_transactions (update_where p (row_private_state private_state)) db);
  login_consumed p now db : I db →
    I (set_login_transactions (update_where p (row_login_consumed now)) db);
  session_inserted row db : I db → fresh_in br_id (db_sessions db) (br_id row) = true →
    user_exists db (br_user_id row) = true →
    I (set_sessions (λ rows, rows ++ [row]) db);
  session_revoked p now db : I db → I (set_sessions (update_where p (row_revoked now)) db);
  csrf_inserted row db : I db → fresh_in cr_token_hash (db_csrf_tokens db) (cr_token_hash row) = true →
    cr_session_id row ∈ br_id <$> db_sessions db →
    I (set_csrf_tokens (λ rows, rows ++ [row]) db);
  csrf_consumed p now db : I db →
    I (set_csrf_tokens (update_where p (row_csrf_consumed now)) db)
}.

#[local] Hint Extern 1 (∃ _, _ = uuid_src _) => (by eexists) : handler.
#[local] Hint Extern 1 (_ ∈ _ :: _) => (by repeat constructor) : handler.

Ltac known :=
  repeat match goal with
  | H : _ && _ = true |- _ => apply andb_true_iff in H; destruct H
  | H : (_ =? 0) = true |- _ => apply Nat.eqb_eq in H
  | H : bool_decide _ = true |- _ => apply bool_decide_eq_true in H
  end.

(** * Calls of the account, repository and token stores *)

Section Store.
Context `{Env} `{Sqlite} `{SerdeJson} (I : Db → Prop) `{!StoreStatements I}.

Lemma keeps_insert_user {A} user now (k : H Db A) :
  u_status user ∈ ["active"; "pending"] → (∃ i, u_id user = uuid_src i) → preserves I k →
  preserves I (SqlAccounts.insert_user user now k).
Proof.
  intros Hs Hi Hk. unfold SqlAccounts.insert_user. apply preserves_insert_row; [|done].
  intros db Hdb ??. known. by apply user_inserted.
Qed.

Lemma keeps_insert_invitation i e now :
  ii_status i = "pending" → preserves I (SqlAccounts.insert_invitation i e now).
Proof.
  intros Hs.  unfold SqlAccounts.insert_invitation. apply preserves_insert_row; [|preserve].
  intros db Hdb ??. known. by apply invitation_inserted.
Qed.

Lemma keeps_resolve_user u : preserves I (SqlAccounts.resolve_user_id_conn u).
Proof. unfold SqlAccounts.resolve_user_id_conn. preserve. Qed.

Lemma keeps_user_by_id u : preserves I (SqlAccounts.user_by_id_conn u).
Proof. unfold SqlAccounts.user_by_id_conn. preserve. Qed.

Lemma keeps_user_by_id_tx u : preserves I (SqlAccounts.user_by_id_tx u).
Proof. unfold SqlAccounts.user_by_id_tx. preserve. Qed.

Lemma keeps_group_names u : preserves I (SqlAccounts.group_names_conn u).
Proof. unfold SqlAccounts.group_names_conn. preserve. Qed.

#[local] Hint Resolve keeps_insert_user keeps_insert_invitation keeps_resolve_user keeps_user_by_id
  keeps_user_by_id_tx keeps_group_names : handler.

Lemma keeps_add_user input : preserves I (SqlAccounts.add_user_conn input).
Proof. unfold SqlAccounts.add_user_conn. preserve. Qed.

Lemma keeps_add_invitation input : preserves I (SqlAccounts.add_invitation_db input).
Proof. unfold SqlAccounts.add_invitation_db. preserve. Qed.

Lemma keeps_set_status status u :
  status ∈ ["active"; "disabled"] → preserves I (SqlAccounts.set_user_status_conn status u).
Proof.
  intros Hs. unfold SqlAccounts.set_user_status_conn. preserve. apply preserves_update_rows.
  intros db Hdb. apply user_status_set; [done..|].
  intros r [_ Hd%negb_true_iff%String.eqb_neq]%andb_true_iff. done.
Qed.

Lemma keeps_existing_login e : preserves I (SqlAccounts.existing_login e).
Proof.
  unfold SqlAccounts.existing_login. preserve; apply preserves_update_rows; intros db Hdb.
  - by apply identity_seen.
  - by apply user_logged_in.
Qed.

Lemma keeps_bind_invitation e p i s inv : preserves I (SqlAccounts.bind_invitation e p i s inv).
Proof.
  unfold SqlAccounts.bind_invitation, SqlAccounts.insert_identity. preserve.
  - apply preserves_insert_row; [|preserve]. intros db Hdb ??. known. by apply identity_inserted.
  - apply preserves_update_rows_checked; [typeclasses eauto|]. intros db Hdb ?. known.
    by apply invitation_accepted.
  - apply preserves_update_rows_checked; [typeclasses eauto|]. intros db Hdb ?. by apply user_bound.
Qed.

Lemma keeps_resolve_login req : preserves I (SqlAccounts.resolve_login req).
Proof.
  unfold SqlAccounts.resolve_login. preserve. apply preserves_transaction. preserve.
  - apply keeps_existing_login.
  - unfold SqlAccounts.claim_invitation, SqlAccounts.pending_invitation. preserve.
    apply keeps_bind_invitation.
Qed.

Lemma keeps_group_by_name g : preserves I (SqlGroups.group_id_by_name_conn g).
Proof. unfold SqlGroups.group_id_by_name_conn. preserve. Qed.

Lemma keeps_group_by_name_or_id g : preserves I (SqlGroups.group_id_by_name_or_id_conn g).
Proof. unfold SqlGroups.group_id_by_name_or_id_conn. preserve. Qed.

Lemma keeps_insert_group n d : is_empty n = false → preserves I (SqlGroups.insert_group n d).
Proof.
  intros Hn%is_empty_false.  unfold SqlGroups.insert_group. preserve. apply preserves_insert_row; [|preserve].
  intros db Hdb ??. known. apply group_inserted; eauto.
Qed.

#[local] Hint Resolve keeps_add_user keeps_add_invitation keeps_set_status keeps_group_by_name
  keeps_group_by_name_or_id keeps_insert_group : handler.

Lemma keeps_insert_member g u : preserves I (SqlGroups.insert_member g u).
Proof.
  intros w Hw. unfold SqlGroups.insert_member, insert_row. mrun.
  destruct (affected _ _ =? 0) eqn:Ha; simpl; [|done].
  destruct (group_exists _ _ && user_exists _ _) eqn:?; simpl; [|done]. known. by apply member_inserted.
Qed.

(** What is known where an edge is inserted. *)
Definition edge_allowed (p m : string) (db : Db) : Prop :=
  p ≠ m ∧ affected (edge p m) (db_group_groups db) = 0 ∧ p ∉ descendants db m.

Lemma keeps_insert_edge p m w :
  I (st w) → edge_allowed p m (st w) → I (st (SqlGroups.insert_edge p m w).2).
Proof.
  intros Hw (Hne & Ha & Hc). unfold SqlGroups.insert_edge, insert_row. mrun. rewrite Ha. simpl.
  destruct (group_exists _ _ && group_exists _ _) eqn:?; [|done]. known. by apply edge_inserted.
Qed.

(** The checks before the insertion. *)
Lemma keeps_nest {A} p m (ok_ e1 e2 insert : H Db A) :
  preserves I ok_ → preserves I e1 → preserves I e2 →
  (∀ w, I (st w) → edge_allowed p m (st w) → I (st (insert w).2)) →
  preserves I
    (if String.eqb p m then e1
     else
       exists_ <- SqlGroups.group_group_edge_exists_tx p m ;;
       if exists_ : bool then ok_ else
       cycle <- SqlGroups.group_group_would_cycle_tx p m ;;
       if cycle : bool then e2 else insert).
Proof.
  intros Hok He1 He2 Hi. destruct (String.eqb_spec p m) as [|Hne]; [done|]. intros w Hw.
  unfold SqlGroups.group_group_edge_exists_tx, SqlGroups.group_group_would_cycle_tx. mrun.
  destruct (Nat.eqb_spec (affected (edge p m) (db_group_groups (st w))) 0) as [Ha|]; simpl; [|by apply Hok].
  case_bool_decide as Hc; [by apply He2|]. by apply Hi.
Qed.

Lemma keeps_audit actor action t i d : preserves I (SqlAudited.audit actor action t i d).
Proof.
  unfold SqlAudited.audit, SqlAudited.admin_audit_entry, SqlAudited.insert_admin_audit_conn. preserve.
  apply preserves_map_err, preserves_insert_row; [|preserve]. intros db Hdb ??. by apply audit_inserted.
Qed.

#[local] Hint Resolve keeps_insert_member keeps_audit : handler.

Lemma keeps_add_group_group p m : preserves I (SqlGroups.add_group_group p m).
Proof.
  unfold SqlGroups.add_group_group. apply preserves_transaction.
  apply preserves_bind; [auto with handler|intros g]. apply preserves_bind; [auto with handler|intros h].
  apply keeps_nest; [preserve..|]. apply keeps_insert_edge.
Qed.

Lemma keeps_audited_nest actor p m : preserves I (SqlAudited.add_group_group actor p m).
Proof.
  unfold SqlAudited.add_group_group. apply preserves_transaction.
  apply preserves_bind; [auto with handler|intros g]. apply preserves_bind; [auto with handler|intros h].
  apply keeps_nest; [preserve..|]. intros w Hw Ha. unfold bind.
  pose proof (keeps_insert_edge g h w Hw Ha) as Hi. destruct (SqlGroups.insert_edge g h w) as [[]]; [|done].
  by apply keeps_audit.
Qed.

Lemma keeps_remove_group_group p m : preserves I (SqlGroups.remove_group_group p m).
Proof.
  unfold SqlGroups.remove_group_group. preserve. apply preserves_delete_rows. intros db Hdb.
  by apply edges_deleted.
Qed.

Lemma keeps_add_group_member g u : preserves I (SqlGroups.add_group_member g u).
Proof. unfold SqlGroups.add_group_member. preserve. Qed.

Lemma keeps_remove_group_member g u : preserves I (SqlGroups.remove_group_member g u).
Proof.
  unfold SqlGroups.remove_group_member. preserve. apply preserves_delete_rows. intros db Hdb.
  by apply members_deleted.
Qed.

Lemma keeps_grant_subject t u : preserves I (SqlGrants.resolve_grant_subject_id_conn t u).
Proof. unfold SqlGrants.resolve_grant_subject_id_conn. preserve; apply preserves_map_err; preserve. Qed.

Lemma keeps_repository_by_name n : preserves I (SqlGrants.repository_id_by_name_conn n).
Proof. unfold SqlGrants.repository_id_by_name_conn. preserve. Qed.

#[local] Hint Resolve keeps_grant_subject keeps_repository_by_name : handler.

Lemma keeps_remove_grant t i r o : preserves I (SqlGrants.remove_grant_conn t i r o).
Proof.
  unfold SqlGrants.remove_grant_conn. preserve. apply preserves_delete_rows. intros db Hdb.
  by apply grants_deleted.
Qed.

Lemma elem_of_hd {A} (l : list A) x : hd_error l = Some x → x ∈ l.
Proof. destruct l; intros [= ->]. left. Qed.

Lemma resolve_user_exists u w id w' :
  SqlAccounts.resolve_user_id_conn u w = (Ok id, w') → id ∈ ur_id <$> db_users (st w).
Proof.
  unfold SqlAccounts.resolve_user_id_conn. mrun. destruct (hd_error (where_ _ _)) as [r|] eqn:Hr.
  - intros [= <- _]. apply elem_of_hd, elem_of_where in Hr as [? _]. by apply list_elem_of_fmap_2.
  - destruct (hd_error (order_by_int _ _)) as [r'|] eqn:Hr'; [|done]. intros [= <- _].
    apply elem_of_hd, elem_of_sort_by, elem_of_where in Hr' as [? _]. by apply list_elem_of_fmap_2.
Qed.

Lemma resolve_group_exists g w id w' :
  SqlGroups.group_id_by_name_or_id_conn g w = (Ok id, w') → id ∈ gp_id <$> db_groups (st w).
Proof.
  unfold SqlGroups.group_id_by_name_or_id_conn. mrun. destruct (hd_error _) as [r|] eqn:Hr; [|done].
  intros [= <- _]. apply elem_of_hd, elem_of_sort_by, elem_of_where in Hr as [? _].
  by apply list_elem_of_fmap_2.
Qed.

Lemma grant_subject_exists t i w id w' :
  SqlGrants.resolve_grant_subject_id_conn t i w = (Ok id, w') → subject_exists (st w) t id.
Proof.
  unfold SqlGrants.resolve_grant_subject_id_conn.
  destruct (String.eqb_spec t "user"); [|destruct (String.eqb_spec t "group"); [|done]]; intros Hr; minv.
  - left. split; [done|]. by eapply resolve_user_exists.
  - right. split; [done|]. by eapply resolve_group_exists.
Qed.

Lemma keeps_add_grant t i r o : preserves I (SqlGrants.add_grant_conn t i r o).
Proof.
  unfold SqlGrants.add_grant_conn. destruct (is_known_role o) eqn:Ho; simpl; [|preserve].
  intros w Hw. unfold bind at 1. pose proof (grant_subject_exists t i w) as Hs.
  pose proof (readonly_grant_subject t i w) as Hro.
  destruct (SqlGrants.resolve_grant_subject_id_conn t i w) as [[id|e] w1]; simpl in *; [|by rewrite Hro].
  specialize (Hs id w1 eq_refl). rewrite <- Hro in Hw, Hs. clear Hro w. revert w1 Hw Hs.
  intros w Hw Hs. unfold SqlGrants.repository_id_by_name_conn, query_row, insert_row. mrun.
  destruct (hd_error _) as [row|]; simpl; [|done].
  destruct (_ && _) eqn:?; simpl; [|done]. known. by apply grant_inserted.
Qed.

Lemma keeps_insert_repository row :
  stored_repository_id (rep_lore_repository_id row) → rep_status row = "active" →
  rep_created_by_source row ∈ ["manual"; "rebac_create_resource"] →
  preserves I (SqlResources.insert_repository row).
Proof.
  intros Hi Hs Hc.  unfold SqlResources.insert_repository. apply preserves_insert_row; [|preserve].
  intros db Hdb ??. known. by apply repository_inserted.
Qed.

#[local] Hint Resolve keeps_insert_repository : handler.

Lemma resource_id_stored r id :
  resource_id_from_resource r = Ok id → stored_repository_id (repository_id_from_resource_id id).
Proof.
  unfold resource_id_from_resource. destruct (if negb _ then _ else _) as [rid|] eqn:Hr; [|done].
  assert (valid_repository_id rid) as Hv.
  { destruct (negb _) in Hr; by apply validated_lore_repository_id_Ok in Hr as [_ ?]. }
  destruct (for_repository_id rid) as [x|] eqn:Hf; [|done]. intros [= <-].
  apply for_repository_id_Some in Hf as (_ & Hp & [[-> _]|[-> _]]); unfold repository_id_from_resource_id.
  - apply starts_with_strip in Hp as [y Hy]. rewrite Hy. by eapply strip_prefix_valid.
  - rewrite strip_prefix_app. by right.
Qed.

Lemma keeps_upsert r : preserves I (SqlResources.upsert_resource_conn r).
Proof.
  unfold SqlResources.upsert_resource_conn, SqlResources.upsert_manual, SqlResources.upsert_managed.
  apply preserves_bind_lift. intros id Hid%resource_id_stored. preserve.
  - apply preserves_update_rows_checked; [typeclasses eauto|]. intros db Hdb ?.
    eapply repository_saved; [done| |done]. by intros x [?%String.eqb_eq _]%andb_true_iff.
  - apply preserves_update_rows. intros db Hdb. apply repository_status_set; [done|repeat constructor].
Qed.

Lemma keeps_delete_resource i : preserves I (SqlResources.delete_resource_conn i).
Proof.
  unfold SqlResources.delete_resource_conn. preserve. apply preserves_update_rows. intros db Hdb.
  apply repository_status_set; [done|repeat constructor].
Qed.

Lemma keeps_add_key k : preserves I (SqlTokens.add_signing_key_meta_conn k).
Proof.
  unfold SqlTokens.add_signing_key_meta_conn. preserve. apply preserves_insert_row; [|preserve].
  intros db Hdb ??. by apply key_inserted.
Qed.

#[local] Hint Resolve keeps_add_group_group keeps_remove_group_group keeps_add_group_member
  keeps_remove_group_member keeps_add_grant keeps_remove_grant keeps_upsert keeps_delete_resource
  keeps_add_key keeps_audited_nest : handler.

Lemma keeps_add_group n d : preserves I (SqlGroups.add_group n d).
Proof. unfold SqlGroups.add_group. destruct (is_empty (trim n)) eqn:?; preserve. Qed.

Lemma keeps_audited_add_group actor n d : preserves I (SqlAudited.add_group actor n d).
Proof.
  unfold SqlAudited.add_group. destruct (is_empty (trim n)) eqn:?; preserve.
  apply preserves_transaction. preserve.
Qed.

#[local] Hint Resolve keeps_add_group keeps_audited_add_group : handler.

Lemma keeps_plain op : preserves I (run_plain op).
Proof.
  destruct op; simpl; unfold silently, SqlAccounts.add_user, SqlAccounts.add_invitation,
    SqlAccounts.disable_user, SqlAccounts.enable_user, SqlGrants.add_grant,
    SqlGrants.remove_grant, SqlResources.upsert, SqlResources.delete_resource,
    SqlTokens.add_signing_key_meta; preserve; try apply preserves_transaction; preserve.
Qed.

Lemma keeps_audited actor op : preserves I (run_audited actor op).
Proof.
  destruct op; simpl; unfold silently, SqlAudited.add_user,
    SqlAudited.add_invitation, SqlAudited.disable_user, SqlAudited.enable_user,
    SqlAudited.add_group_member, SqlAudited.remove_group_member,
    SqlAudited.remove_group_group, SqlAudited.add_grant, SqlAudited.remove_grant, SqlAudited.upsert,
    SqlAudited.delete_resource, SqlAudited.add_signing_key_meta, map_ok.
  all: preserve; try apply preserves_transaction; preserve.
Qed.

Lemma run_store_keeps op : preserves I (run_store op).
Proof.
  destruct op as [op|actor op|req|t|jti|e]; simpl; unfold dropped.
  - preserve. apply keeps_plain.
  - preserve. apply keeps_audited.
  - preserve. apply keeps_resolve_login.
  - unfold SqlTokens.record_issued. apply preserves_insert_row; [|preserve].
    intros db Hdb ??. known. by apply token_inserted.
  - unfold SqlTokens.revoke_issued_token. preserve. apply preserves_update_rows. intros db Hdb.
    by apply token_revoked.
  - unfold SqlAudited.record_audit, SqlAudited.insert_admin_audit_conn.
    apply preserves_insert_row; [|preserve]. intros db Hdb ??. by apply audit_inserted.
Qed.
End Store.

(** * Calls of the device and state stores *)

Definition session_call (op : sql_op) : Prop :=
  match op with SStore _ => False | _ => True end.

Section Sessions.
Context `{Env} `{Sqlite} `{SerdeJson} (I : Db → Prop) `{!StoreStatements I} `{!SessionStatements I}.

Lemma keeps_modify_require f n e :
  (∀ db, I db → I (f db)) → preserves I (modify_state f ;;; require_affected n e).
Proof. intros Hf. preserve. by apply preserves_modify. Qed.

(** An update that writes a reference: it is checked when a row would change. *)
Lemma keeps_checked_update {A} (rows : Db → list A) set `{!Table rows set} p f user_id table e :
  (∀ db, I db → user_exists db user_id = true → I (set (update_where p f) db)) →
  preserves I (
    db <- get_state ;;
    let changed := affected p (rows db) in
    if negb (changed =? 0) && negb (user_exists db user_id)
    then throw (core_from_constraint table)
    else modify_state (set (update_where p f)) ;;; require_affected changed e).
Proof.
  intros Hf w Hw. unfold require_affected. mrun.
  destruct (Nat.eqb_spec (affected p (rows (st w))) 0) as [Hz|Hz]; simpl.
  - rewrite table_same; [done|]. by apply update_where_id.
  - destruct (user_exists _ _) eqn:?; simpl; auto.
Qed.

Lemma keeps_random_secret : preserves I random_secret.
Proof. unfold random_secret. preserve. Qed.

#[local] Hint Resolve keeps_random_secret : handler.

Lemma run_session_keeps op : session_call op → preserves I (run_sql op).
Proof.
  destruct op; intros Hop; try done; clear Hop; simpl; unfold dropped.
  - unfold SqlDevices.create_device_authorization. preserve. apply preserves_insert_row; [|preserve].
    intros db Hdb ??. known. by apply device_inserted.
  - unfold SqlDevices.device_by_user_code. preserve.
  - unfold SqlDevices.device_by_device_code. preserve.
  - unfold SqlDevices.approve_device_authorization. apply preserves_bind; [preserve|intros now].
    apply (keeps_checked_update db_device_authorizations); [typeclasses eauto|]. intros.
    by apply device_approved.
  - unfold SqlDevices.consume_device_authorization. preserve. apply preserves_modify. intros.
    apply device_consumed; [done|]. by intros r [_ ?%String.eqb_eq]%andb_true_iff.
  - unfold SqlDevices.expire_device_authorization. apply preserves_modify. intros.
    apply device_expired; [done|]. by intros r [_ ?%String.eqb_eq]%andb_true_iff.
  - unfold SqlState.create_auth_session. preserve. apply preserves_insert_row; [|preserve].
    intros db Hdb ??. known. by apply auth_session_inserted.
  - unfold SqlState.get_auth_session_by_code, SqlState.auth_session_by_clause. preserve.
  - unfold SqlState.get_auth_session_by_nonce, SqlState.auth_session_by_clause. preserve.
  - unfold SqlState.complete_auth_session. apply preserves_bind; [preserve|intros now].
    apply (keeps_checked_update db_auth_sessions); [typeclasses eauto|]. intros.
    by apply auth_session_completed.
  - unfold SqlState.consume_auth_session. preserve. apply preserves_modify. intros.
    apply auth_session_consumed; [done|].
    by intros r [[_ ?%String.eqb_eq]%andb_true_iff _]%andb_true_iff.
  - unfold SqlState.create_login_state. preserve. apply preserves_insert_row; [|preserve].
    intros db Hdb ??. known. by apply login_inserted.
  - unfold SqlState.set_login_state_private_state. preserve. apply preserves_modify. intros.
    by apply login_private_state_set.
  - unfold SqlState.consume_login_state. preserve. apply preserves_modify. intros.
    by apply login_consumed.
  - unfold SqlState.create_browser_session. preserve. apply preserves_insert_row; [|preserve].
    intros db Hdb ??. known. by apply session_inserted.
  - unfold SqlState.user_by_browser_session. preserve.
  - unfold SqlState.revoke_browser_session. preserve. apply preserves_modify. intros.
    by apply session_revoked.
  - unfold SqlState.create_csrf_token. preserve. apply preserves_insert_row; [|preserve].
    intros db Hdb ??. known. by apply csrf_inserted.
  - unfold SqlState.consume_csrf_token. preserve. apply preserves_modify. intros. by apply csrf_consumed.
Qed.

Lemma run_sql_keeps op : preserves I (run_sql op).
Proof.
  destruct op; try (by apply run_session_keeps). by apply run_store_keeps.
Qed.

Lemma run_sqls_keeps ops w : I (st w) → I (st (run_sqls ops w).2).
Proof.
  revert w. induction ops as [|op ops IH]; intros w Hw; simpl; [done|].
  pose proof (run_sql_keeps op w Hw) as Hop. destruct (run_sql op w) as [r w1].
  specialize (IH w1 Hop). by destruct (run_sqls ops w1).
Qed.
End Sessions.

(** The tables of the device and state stores are as in [db0]. *)
Definition same_session_tables (db0 db : Db) : Prop :=
  db_device_authorizations db = db_device_authorizations db0
  ∧ db_auth_sessions db = db_auth_sessions db0
  ∧ db_login_transactions db = db_login_transactions db0
  ∧ db_sessions db = db_sessions db0 ∧ db_csrf_tokens db = db_csrf_tokens db0.

#[export] Instance same_session_tables_statements `{Env} db0 : StoreStatements (same_session_tables db0).
Proof. split; intros; assumption. Qed.
