(* ===== verification/SqlSessionFacts.v ===== *)
(** Sessions and device authorizations on SQLite: whatever operations run, rows follow the
    state machines of the in-memory adapter, credentials are used at most once, revoked
    browser sessions stay revoked, and the operations on existing rows refine those of the
    in-memory adapter. *)

From Stdlib Require Import ZArith Lia Ascii.
From stdpp Require Import base gmap strings list.
From S2P Require Import Prelude Model MemState MemSessions MemTrace Demo.
From S2P Require Import SqlRows SqlBase SqlTokens.
From S2P Require Import SqlSessions SqlStore SqlKeep.

(** * What the schema keeps and how rows move *)

(** The primary keys and unique columns. *)
Record wf_db (db : Db) : Prop := {
  wd_device : unique_key dr_id (db_device_authorizations db);
  wd_device_code : unique_key dr_device_code_hash (db_device_authorizations db);
  wd_user_code : unique_key dr_user_code_hash (db_device_authorizations db);
  wd_auth : unique_key sr_id (db_auth_sessions db);
  wd_auth_code : unique_key sr_session_code_hash (db_auth_sessions db);
  wd_login : unique_key lr_id (db_login_transactions db);
  wd_login_hash : unique_key lr_state_hash (db_login_transactions db);
  wd_session : unique_key br_id (db_sessions db);
  wd_csrf : unique_key cr_token_hash (db_csrf_tokens db)
}.

Definition device_row_step (r r' : DeviceRow) : Prop :=
  dr_id r' = dr_id r ∧ dr_device_code_hash r' = dr_device_code_hash r
  ∧ dr_user_code_hash r' = dr_user_code_hash r
  ∧ rtc device_step (device_to_core r) (device_to_core r').

Definition auth_row_step (r r' : AuthSessionRow) : Prop :=
  sr_id r' = sr_id r ∧ sr_session_code_hash r' = sr_session_code_hash r
  ∧ rtc session_step (auth_session_from_row r) (auth_session_from_row r').

(** A time stamp that is set stays set. *)
Definition stays {A} (before after : option A) : Prop := is_null before = false → is_null after = false.

Definition login_row_step (r r' : LoginTransactionRow) : Prop :=
  lr_id r' = lr_id r ∧ lr_state_hash r' = lr_state_hash r ∧ lr_expires_at r' = lr_expires_at r
  ∧ stays (lr_consumed_at r) (lr_consumed_at r').

Definition session_row_step (r r' : SessionRow) : Prop :=
  br_id r' = br_id r ∧ br_user_id r' = br_user_id r ∧ br_expires_at r' = br_expires_at r
  ∧ stays (br_revoked_at r) (br_revoked_at r').

Definition csrf_row_step (r r' : CsrfTokenRow) : Prop :=
  cr_token_hash r' = cr_token_hash r ∧ cr_session_id r' = cr_session_id r
  ∧ cr_expires_at r' = cr_expires_at r ∧ stays (cr_consumed_at r) (cr_consumed_at r').

(** No row is lost, and each one moves along [R]. *)
Definition rows_move {A} (R : A → A → Prop) (rows rows' : list A) : Prop :=
  ∀ r, r ∈ rows → ∃ r', r' ∈ rows' ∧ R r r'.

Record sql_progress (db db' : Db) : Prop := {
  sp_device : rows_move device_row_step (db_device_authorizations db) (db_device_authorizations db');
  sp_auth : rows_move auth_row_step (db_auth_sessions db) (db_auth_sessions db');
  sp_login : rows_move login_row_step (db_login_transactions db) (db_login_transactions db');
  sp_session : rows_move session_row_step (db_sessions db) (db_sessions db');
  sp_csrf : rows_move csrf_row_step (db_csrf_tokens db) (db_csrf_tokens db')
}.

Definition sql_evolution (w w' : World Db) : Prop :=
  wf_db (st w) → wf_db (st w') ∧ sql_progress (st w) (st w').

#[export] Instance device_row_step_preorder : PreOrder device_row_step.
Proof.
  split; [intros r; split_and!; done || apply rtc_refl|].
  intros x y z (?&?&?&?) (?&?&?&?). split_and!; [congruence..|by etrans].
Qed.
#[export] Instance auth_row_step_preorder : PreOrder auth_row_step.
Proof.
  split; [intros r; split_and!; done || apply rtc_refl|].
  intros x y z (?&?&?) (?&?&?). split_and!; [congruence..|by etrans].
Qed.
#[export] Instance stays_preorder {A} : PreOrder (@stays A).
Proof. split; unfold stays; intros ?; auto. Qed.
#[export] Instance login_row_step_preorder : PreOrder login_row_step.
Proof.
  split; [intros r; split_and!; done|].
  intros x y z (?&?&?&?) (?&?&?&?). split_and!; [congruence..|by etrans].
Qed.
#[export] Instance session_row_step_preorder : PreOrder session_row_step.
Proof.
  split; [intros r; split_and!; done|].
  intros x y z (?&?&?&?) (?&?&?&?). split_and!; [congruence..|by etrans].
Qed.
#[export] Instance csrf_row_step_preorder : PreOrder csrf_row_step.
Proof.
  split; [intros r; split_and!; done|].
  intros x y z (?&?&?&?) (?&?&?&?). split_and!; [congruence..|by etrans].
Qed.

#[export] Instance rows_move_preorder {A} (R : A → A → Prop) `{!PreOrder R} : PreOrder (rows_move R).
Proof.
  split.
  - intros l r Hr. exists r. split; [done|reflexivity].
  - intros l1 l2 l3 H12 H23 r (r2 & Hr2 & HR)%H12. destruct (H23 r2 Hr2) as (r3 & ? & ?).
    exists r3. split; [done|by etrans].
Qed.

#[export] Instance sql_progress_preorder : PreOrder sql_progress.
Proof.
  split; [intros db; split; reflexivity|].
  intros x y z [] []. split; by etrans.
Qed.

#[export] Instance sql_evolution_order : WorldOrder sql_evolution.
Proof.
  split.
  - intros w Hw. split; [done|reflexivity].
  - intros w1 w2 w3 H12 H23 [Hw2 Hp]%H12. destruct (H23 Hw2) as [? ?]. split; [done|by etrans].
  - intros s t d Hw. split; [done|reflexivity].
  - intros s t d Hw. split; [done|reflexivity].
Qed.

Lemma rows_move_update {A} (R : A → A → Prop) `{!PreOrder R} p f rows :
  (∀ r, p r = true → R r (f r)) → rows_move R rows (update_where p f rows).
Proof.
  intros Hf r Hr. exists (if p r then f r else r). split; [apply elem_of_update_where; eauto|].
  destruct (p r) eqn:Hp; [by apply Hf|reflexivity].
Qed.

Lemma rows_move_insert {A} (R : A → A → Prop) `{!PreOrder R} rows x : rows_move R rows (rows ++ [x]).
Proof. intros r Hr. exists r. split; [set_solver|reflexivity]. Qed.

Section Evolution.
Context `{Env} `{Sqlite} `{SerdeJson}.

(** ** Updates *)

Lemma evolves_device_update {E} p f :
  (∀ r, dr_id (f r) = dr_id r ∧ dr_device_code_hash (f r) = dr_device_code_hash r
        ∧ dr_user_code_hash (f r) = dr_user_code_hash r) →
  (∀ r, p r = true → rtc device_step (device_to_core r) (device_to_core (f r))) →
  evolves (E := E) sql_evolution (modify_state (set_device_authorizations (update_where p f))).
Proof.
  intros Hk Hs w []. split; split; simpl; try done; try (by apply unique_key_update; [apply Hk|]).
  apply rows_move_update; [typeclasses eauto|]. intros r Hp. destruct (Hk r) as (?&?&?).
  split_and!; try done. by apply Hs.
Qed.

Lemma evolves_auth_update {E} p f :
  (∀ r, sr_id (f r) = sr_id r ∧ sr_session_code_hash (f r) = sr_session_code_hash r) →
  (∀ r, p r = true → rtc session_step (auth_session_from_row r) (auth_session_from_row (f r))) →
  evolves (E := E) sql_evolution (modify_state (set_auth_sessions (update_where p f))).
Proof.
  intros Hk Hs w []. split; split; simpl; try done; try (by apply unique_key_update; [apply Hk|]).
  apply rows_move_update; [typeclasses eauto|]. intros r Hp. destruct (Hk r) as (?&?).
  split_and!; try done. by apply Hs.
Qed.

Lemma evolves_login_update {E} p f :
  (∀ r, login_row_step r (f r)) →
  evolves (E := E) sql_evolution (modify_state (set_login_transactions (update_where p f))).
Proof.
  intros Hk w []. split; split; simpl; try done; try (by apply unique_key_update; [apply Hk|]).
  apply rows_move_update; [typeclasses eauto|]. intros r _. apply Hk.
Qed.

Lemma evolves_session_update {E} p f :
  (∀ r, session_row_step r (f r)) →
  evolves (E := E) sql_evolution (modify_state (set_sessions (update_where p f))).
Proof.
  intros Hk w []. split; split; simpl; try done; try (by apply unique_key_update; [apply Hk|]).
  apply rows_move_update; [typeclasses eauto|]. intros r _. apply Hk.
Qed.

Lemma evolves_csrf_update {E} p f :
  (∀ r, csrf_row_step r (f r)) →
  evolves (E := E) sql_evolution (modify_state (set_csrf_tokens (update_where p f))).
Proof.
  intros Hk w []. split; split; simpl; try done; try (by apply unique_key_update; [apply Hk|]).
  apply rows_move_update; [typeclasses eauto|]. intros r _. apply Hk.
Qed.

(** ** Insertions *)

Lemma evolves_insert_row {A} table fresh references insert (k : H Db A) :
  (∀ db, fresh db = true → wf_db db → wf_db (insert db) ∧ sql_progress db (insert db)) →
  evolves sql_evolution k →
  evolves sql_evolution (insert_row table fresh references insert k).
Proof.
  intros Hi Hk. unfold insert_row. apply evolves_bind_get. intros w.
  destruct (fresh (st w) && references (st w)) eqn:Ht; [|apply wo_refl].
  apply andb_true_iff in Ht as [Hf _]. eapply wo_trans; [|apply Hk]. intros Hw. by apply Hi.
Qed.

Ltac insertion :=
  let db := fresh "db" in let Hf := fresh "Hf" in
  intros db Hf []; rewrite ?andb_true_iff, !fresh_in_true in Hf;
  repeat match goal with H : _ ∧ _ |- _ => destruct H end;
  split; split; simpl; try done; try (by apply unique_key_insert);
  apply rows_move_insert; typeclasses eauto.

Lemma evolves_require_affected changed e : evolves sql_evolution (require_affected changed e).
Proof. unfold require_affected. evolve. Qed.

Lemma evolves_random_secret : evolves sql_evolution random_secret.
Proof. unfold random_secret. evolve. Qed.

#[local] Hint Resolve evolves_require_affected evolves_random_secret : handler.

(** ** Every call *)

Lemma device_update_evolves op :
  match op with SApproveDevice _ _ | SConsumeDevice _ | SExpireDevice _ => True | _ => False end →
  evolves sql_evolution (run_sql op).
Proof.
  destruct op; try done; intros _; simpl.
  - unfold SqlDevices.approve_device_authorization. evolve. apply evolves_device_update; [done|].
    intros r [[_ Hp%String.eqb_eq]%andb_true_iff _]%andb_true_iff. apply rtc_once. by constructor.
  - unfold SqlDevices.consume_device_authorization. evolve. apply evolves_device_update; [done|].
    intros r [_ Hp%String.eqb_eq]%andb_true_iff. apply rtc_once. by constructor.
  - unfold SqlDevices.expire_device_authorization. apply evolves_device_update; [done|].
    intros r [_ Hp%String.eqb_eq]%andb_true_iff. apply rtc_once. by constructor.
Qed.

Lemma session_update_evolves op :
  match op with SCompleteSession _ _ | SConsumeSession _ => True | _ => False end →
  evolves sql_evolution (run_sql op).
Proof.
  destruct op; try done; intros _; simpl.
  - unfold SqlState.complete_auth_session. evolve. apply evolves_auth_update; [done|].
    intros r [[_ Hp%String.eqb_eq]%andb_true_iff _]%andb_true_iff. apply rtc_once. by constructor.
  - unfold SqlState.consume_auth_session. evolve. apply evolves_auth_update; [done|].
    intros r [[_ Hp%String.eqb_eq]%andb_true_iff _]%andb_true_iff. apply rtc_once. by constructor.
Qed.

(** The other stores leave these tables alone. *)
Lemma same_session_tables_progress db db' :
  same_session_tables db db' → wf_db db → wf_db db' ∧ sql_progress db db'.
Proof.
  intros (H1' & H2' & H3' & H4' & H5') [].
  split; split; rewrite ?H1', ?H2', ?H3', ?H4', ?H5'; done || reflexivity.
Qed.

Lemma run_store_evolves op : evolves sql_evolution (run_store op).
Proof.
  intros w. refine (same_session_tables_progress _ _ _).
  apply (run_store_keeps (same_session_tables (st w))). by split_and!.
Qed.

Lemma run_sql_evolves op : evolves sql_evolution (run_sql op).
Proof.
  destruct op; try (by apply device_update_evolves); try (by apply session_update_evolves); simpl;
    unfold dropped.
  - unfold SqlDevices.create_device_authorization. evolve.
    apply evolves_insert_row; [insertion|evolve].
  - unfold SqlDevices.device_by_user_code. evolve.
  - unfold SqlDevices.device_by_device_code. evolve.
  - unfold SqlState.create_auth_session. evolve. apply evolves_insert_row; [insertion|evolve].
  - unfold SqlState.get_auth_session_by_code, SqlState.auth_session_by_clause. evolve.
  - unfold SqlState.get_auth_session_by_nonce, SqlState.auth_session_by_clause. evolve.
  - unfold SqlState.create_login_state. evolve. apply evolves_insert_row; [insertion|evolve].
  - unfold SqlState.set_login_state_private_state. evolve. by apply evolves_login_update.
  - unfold SqlState.consume_login_state. evolve. by apply evolves_login_update.
  - unfold SqlState.create_browser_session. evolve. apply evolves_insert_row; [insertion|evolve].
  - unfold SqlState.user_by_browser_session. evolve.
  - unfold SqlState.revoke_browser_session. evolve. by apply evolves_session_update.
  - unfold SqlState.create_csrf_token. evolve. apply evolves_insert_row; [insertion|evolve].
  - unfold SqlState.consume_csrf_token. evolve. by apply evolves_csrf_update.
  - apply run_store_evolves.
Qed.

Lemma run_sqls_evolves ops w : sql_evolution w (run_sqls ops w).2.
Proof.
  revert w. induction ops as [|op ops IH]; intros w; simpl; [apply wo_refl|].
  pose proof (run_sql_evolves op w) as Hop. destruct (run_sql op w) as [r w1].
  specialize (IH w1). destruct (run_sqls ops w1) as [rs w2]. simpl in *. by eapply wo_trans.
Qed.

Lemma wf_empty_db : wf_db empty_db.
Proof. split; apply NoDup_nil_2. Qed.
End Evolution.

(** * One-shot credentials *)

Definition sql_shot (op : sql_op) : option one_shot :=
  match op with
  | SApproveDevice id _ => Some (ShotApproveDevice id)
  | SConsumeDevice id => Some (ShotConsumeDevice id)
  | SCompleteSession id _ => Some (ShotCompleteSession id)
  | SConsumeSession id => Some (ShotConsumeSession id)
  | SConsumeCsrf _ token => Some (ShotCsrf token)
  | SConsumeLoginState state => Some (ShotLoginState state)
  | _ => None
  end.

(** How often a trace used a credential with success. *)
Definition sql_uses (shot : one_shot) (trace : list (sql_op * result CoreError ())) : nat :=
  length (filter (λ e, sql_shot e.1 = Some shot ∧ e.2 = Ok tt) trace).

Section OneShot.
Context `{Env} `{Sqlite} `{SerdeJson}.

(** The credential is used up. *)
Definition row_spent (db : Db) (shot : one_shot) : Prop :=
  match shot with
  | ShotApproveDevice id =>
      ∃ r, r ∈ db_device_authorizations db ∧ dr_id r = id ∧ dr_status r ≠ "pending"
  | ShotConsumeDevice id =>
      ∃ r, r ∈ db_device_authorizations db ∧ dr_id r = id ∧ dr_status r = "consumed"
  | ShotCompleteSession id =>
      ∃ r, r ∈ db_auth_sessions db ∧ sr_id r = id ∧ sr_status r ≠ "pending"
  | ShotConsumeSession id =>
      ∃ r, r ∈ db_auth_sessions db ∧ sr_id r = id ∧ sr_status r = "consumed"
  | ShotCsrf token =>
      ∃ r, r ∈ db_csrf_tokens db ∧ cr_token_hash r = hash_secret token
        ∧ is_null (cr_consumed_at r) = false
  | ShotLoginState state =>
      ∃ r, r ∈ db_login_transactions db ∧ lr_state_hash r = hash_secret state
        ∧ is_null (lr_consumed_at r) = false
  end.

Lemma row_spent_progress db db' shot : sql_progress db db' → row_spent db shot → row_spent db' shot.
Proof.
  intros [P1 P2 P3 P4 P5]. destruct shot; simpl.
  - intros (r & (r' & Hr' & <- & _ & _ & Hs)%P1 & <- & Hn). exists r'. split_and!; [done|done|].
    exact (device_not_pending _ _ Hs Hn).
  - intros (r & (r' & Hr' & Hid & _ & _ & Hs)%P1 & <- & Hn). exists r'. split_and!; [done|done|].
    pose proof (f_equal da_status (device_consumed_final _ _ Hs Hn)) as Heq. simpl in Heq. congruence.
  - intros (r & (r' & Hr' & Hid & _ & Hs)%P2 & <- & Hn). exists r'. split_and!; [done|done|].
    exact (session_not_pending _ _ Hs Hn).
  - intros (r & (r' & Hr' & Hid & _ & Hs)%P2 & <- & Hn). exists r'. split_and!; [done|done|].
    pose proof (f_equal as_status (session_consumed_final _ _ Hs Hn)) as Heq. simpl in Heq. congruence.
  - intros (r & (r' & Hr' & Hid & _ & _ & Hs)%P5 & <- & Hn). exists r'. auto.
  - intros (r & (r' & Hr' & _ & Hid & _ & Hs)%P3 & <- & Hn). exists r'. auto.
Qed.

(** An update that changed a row with this key found the row there is. *)
Lemma update_hits {A} (key : A → string) p f (rows : list A) k :
  unique_key key rows → (∀ r, r ∈ rows → p r = true → key r = k) → affected p rows ≠ 0 →
  ∃ r, r ∈ rows ∧ key r = k ∧ p r = true ∧ f r ∈ update_where p f rows
    ∧ ∀ r', r' ∈ rows → key r' = k → r' = r.
Proof.
  intros Hu Hk (r & Hr & Hp)%affected_pos. exists r. split_and!; [done|by apply Hk|done| |].
  - apply elem_of_update_where. exists r. by rewrite Hp.
  - intros r' Hr' Hkr. eapply unique_key_eq; [done..|]. by rewrite (Hk r Hr Hp).
Qed.

(** The update that uses a credential hits one row, which was unused. *)
Lemma update_spends {A} (key : A → string) (used : A → Prop) p f (rows : list A) k :
  unique_key key rows → (∀ r, r ∈ rows → p r = true → key r = k ∧ ¬ used r) → (∀ r, key (f r) = key r) →
  (∀ r, used (f r)) → affected p rows ≠ 0 →
  ¬ (∃ r, r ∈ rows ∧ key r = k ∧ used r) ∧ ∃ r, r ∈ update_where p f rows ∧ key r = k ∧ used r.
Proof.
  intros Hu Hp Hf Hused Ha.
  destruct (update_hits key p f rows k Hu) as (r & Hr & Hid & Hpr & Hin & Hun); [|done|].
  { intros r Hr Hpr. by apply Hp. }
  split.
  - intros (r' & Hr' & Hid' & Hn). rewrite (Hun r' Hr' Hid') in Hn. by apply (Hp r Hr Hpr).
  - exists (f r). split_and!; [done|by rewrite Hf|apply Hused].
Qed.

(** Using a credential succeeds only while it is not used up, and uses it up. *)
Lemma use_spends_device op shot w w' :
  match op with SApproveDevice _ _ | SConsumeDevice _ => True | _ => False end →
  wf_db (st w) → sql_shot op = Some shot → run_sql op w = (Ok tt, w') →
  ¬ row_spent (st w) shot ∧ row_spent (st w') shot.
Proof.
  destruct op; try done; intros _ Hw [= <-] Hrun; simpl in Hrun.
  - unfold SqlDevices.approve_device_authorization, require_affected in Hrun. mrun.
    destruct (affected _ _ =? 0) eqn:Ha; simpl in Hrun; [done|].
    destruct (user_exists _ _); simplify_eq/=. apply Nat.eqb_neq in Ha.
    apply (update_spends dr_id (λ r, dr_status r ≠ "pending")); try done; [apply Hw|].
    intros r _. rewrite !andb_true_iff, !String.eqb_eq. tauto.
  - unfold SqlDevices.consume_device_authorization, require_affected in Hrun. mrun.
    destruct (affected _ _ =? 0) eqn:Ha; simplify_eq/=. apply Nat.eqb_neq in Ha.
    apply (update_spends dr_id (λ r, dr_status r = "consumed")); try done; [apply Hw|].
    intros r _. rewrite !andb_true_iff, !String.eqb_eq. intros [-> ->]. done.
Qed.

Lemma use_spends_session op shot w w' :
  match op with SCompleteSession _ _ | SConsumeSession _ => True | _ => False end →
  wf_db (st w) → sql_shot op = Some shot → run_sql op w = (Ok tt, w') →
  ¬ row_spent (st w) shot ∧ row_spent (st w') shot.
Proof.
  destruct op; try done; intros _ Hw [= <-] Hrun; simpl in Hrun.
  - unfold SqlState.complete_auth_session, require_affected in Hrun. mrun.
    destruct (affected _ _ =? 0) eqn:Ha; simpl in Hrun; [done|].
    destruct (user_exists _ _); simplify_eq/=. apply Nat.eqb_neq in Ha.
    apply (update_spends sr_id (λ r, sr_status r ≠ "pending")); try done; [apply Hw|].
    intros r _. rewrite !andb_true_iff, !String.eqb_eq. tauto.
  - unfold SqlState.consume_auth_session, require_affected in Hrun. mrun.
    destruct (affected _ _ =? 0) eqn:Ha; simplify_eq/=. apply Nat.eqb_neq in Ha.
    apply (update_spends sr_id (λ r, sr_status r = "consumed")); try done; [apply Hw|].
    intros r _. rewrite !andb_true_iff, !String.eqb_eq. intros [[-> ->] _]. done.
Qed.

Lemma use_spends_csrf session_id token w w' :
  wf_db (st w) → run_sql (SConsumeCsrf session_id token) w = (Ok tt, w') →
  ¬ row_spent (st w) (ShotCsrf token) ∧ row_spent (st w') (ShotCsrf token).
Proof.
  intros Hw Hrun. simpl in Hrun. unfold SqlState.consume_csrf_token, require_affected in Hrun. mrun.
  destruct (affected _ _ =? 0) eqn:Ha; simplify_eq/=. apply Nat.eqb_neq in Ha.
  apply (update_spends cr_token_hash (λ r, is_null (cr_consumed_at r) = false)); try done; [apply Hw|].
  intros r _. rewrite !andb_true_iff, !String.eqb_eq. intros [[[-> _] ->] _]. done.
Qed.

Lemma use_spends_login state w w' :
  wf_db (st w) → run_sql (SConsumeLoginState state) w = (Ok tt, w') →
  ¬ row_spent (st w) (ShotLoginState state) ∧ row_spent (st w') (ShotLoginState state).
Proof.
  intros Hw Hrun. simpl in Hrun. unfold dropped, SqlState.consume_login_state, require_affected in Hrun.
  mrun. destruct (hd_error _) as [row|] eqn:Hrow; [|done].
  apply (hd_where_unique lr_state_hash) in Hrow as [Hin Hh]; [|apply Hw].
  destruct (negb _); [done|]. destruct (_ <=? _)%Z; [done|].
  destruct (affected _ _ =? 0) eqn:Ha; simplify_eq/=. apply Nat.eqb_neq in Ha.
  apply (update_spends lr_state_hash (λ r, is_null (lr_consumed_at r) = false)); try done; [apply Hw|].
  intros r Hr. rewrite !andb_true_iff, String.eqb_eq. intros [[Hid ->] _]. split; [|done].
  rewrite <- Hh. f_equal. by eapply (unique_key_eq lr_id); [apply Hw|..].
Qed.

Lemma sql_use_spends w op shot w' :
  wf_db (st w) → sql_shot op = Some shot → run_sql op w = (Ok tt, w') →
  ¬ row_spent (st w) shot ∧ row_spent (st w') shot.
Proof.
  intros Hw Hshot Hrun. destruct op; try discriminate Hshot;
    try (by refine (use_spends_device _ _ w w' _ Hw Hshot Hrun));
    try (by refine (use_spends_session _ _ w w' _ Hw Hshot Hrun)); injection Hshot as <-.
  - by apply use_spends_login.
  - by eapply use_spends_csrf.
Qed.

Lemma row_spent_uses_zero ops w shot trace w' :
  wf_db (st w) → row_spent (st w) shot → run_sqls ops w = (trace, w') → sql_uses shot trace = 0.
Proof.
  revert w trace. induction ops as [|op ops IH]; intros w trace Hw Hs; simpl; [naive_solver|].
  destruct (run_sql op w) as [r w1] eqn:Hr. destruct (run_sqls ops w1) as [rs w2] eqn:Ho.
  intros [= <- <-]. pose proof (run_sql_evolves op w Hw) as [Hw1 Hp].
  rewrite Hr in Hw1, Hp. simpl in *. unfold sql_uses. rewrite filter_cons.
  rewrite decide_False.
  - eapply IH; [exact Hw1|by eapply row_spent_progress|exact Ho].
  - intros [Hsh Hok]; simpl in *. subst r. by destruct (sql_use_spends w op shot w1 Hw Hsh Hr).
Qed.

(** C31: In every sequence of calls to the SQLite store, from any database that satisfies its unique
    columns, a device authorization is approved at most once and redeemed at most once, an auth
    session is completed and consumed at most once, and a CSRF token and a login state are
    consumed at most once, whatever secrets are drawn. *)
Theorem sql_credentials_are_one_shot ops w shot :
  wf_db (st w) → sql_uses shot (run_sqls ops w).1 ≤ 1.
Proof.
  revert w. induction ops as [|op ops IH]; intros w Hw; simpl; [cbn; lia|].
  destruct (run_sql op w) as [r w1] eqn:Hr. pose proof (run_sql_evolves op w Hw) as [Hw1 _].
  rewrite Hr in Hw1. specialize (IH w1 Hw1). destruct (run_sqls ops w1) as [rs w2] eqn:Ho.
  simpl in *. unfold sql_uses in *. rewrite filter_cons. case_decide as Hd; [|done].
  destruct Hd as [Hsh Hok]; simpl in *. subst r.
  destruct (sql_use_spends w op shot w1 Hw Hsh Hr) as [_ Hsp].
  pose proof (row_spent_uses_zero ops w1 shot rs w2 Hw1 Hsp Ho) as Hz. unfold sql_uses in Hz. lia.
Qed.

(** C39: Whatever calls run, the unique columns of the SQLite tables stay unique, no row of a device
    authorization, session, login transaction or CSRF token is lost, and each moves only along
    its state machine: the same as in memory for devices and auth sessions, and a time of
    consumption or revocation that is set stays set. *)
Theorem sql_rows_follow_state_machines ops w :
  wf_db (st w) →
  wf_db (st (run_sqls ops w).2) ∧ sql_progress (st w) (st (run_sqls ops w).2).
Proof. apply run_sqls_evolves. Qed.
End OneShot.

(** * Browser sessions *)

Section BrowserSessions.
Context `{Env} `{Sqlite} `{SerdeJson}.

Lemma browser_session_row session_id w u w' :
  SqlState.user_by_browser_session session_id w = (Ok u, w') →
  w' = mkWorld (st w) (S (ticks w)) (draws w)
  ∧ ∃ r ur, r ∈ db_sessions (st w) ∧ br_id r = session_id ∧ br_revoked_at r = None
    ∧ (unix_of (clock (ticks w)) < br_expires_at r)%Z
    ∧ ur ∈ db_users (st w) ∧ ur_id ur = br_user_id r ∧ ur_status ur = "active" ∧ u = user_from_row ur.
Proof.
  unfold SqlState.user_by_browser_session. mrun.
  destruct (hd_error _) as [[r ur]|] eqn:Hrow; [|done]. intros [= <- <-]. split; [done|].
  exists r, ur.
  match type of Hrow with hd_error ?l = _ => assert ((r, ur) ∈ l) as Hin end.
  { destruct (where_ _ _); [done|]. injection Hrow as ->. left. }
  apply elem_of_where in Hin as [Hj Hp]. simpl in Hp. apply elem_of_join_on in Hj as (? & ? & Hu).
  rewrite !andb_true_iff, !String.eqb_eq, Z.ltb_lt in Hp. apply String.eqb_eq in Hu.
  destruct (br_revoked_at r); simpl in Hp; naive_solver.
Qed.

(** C32: On SQLite a browser session authenticates only an active user, only before it runs out and
    only while it is not revoked, and after it was revoked no sequence of calls makes it
    authenticate again. *)
Theorem sql_browser_session_ends session_id w :
  wf_db (st w) →
  (∀ u w', SqlState.user_by_browser_session session_id w = (Ok u, w') →
     st w' = st w
     ∧ ∃ r ur, r ∈ db_sessions (st w) ∧ br_id r = session_id ∧ br_revoked_at r = None
       ∧ (unix_of (clock (ticks w)) < br_expires_at r)%Z
       ∧ ur ∈ db_users (st w) ∧ ur_id ur = br_user_id r ∧ ur_status ur = "active"
       ∧ u = user_from_row ur)
  ∧ ∀ w1 ops, SqlState.revoke_browser_session session_id w = (Ok tt, w1) →
      (SqlState.user_by_browser_session session_id (run_sqls ops w1).2).1 = Err NotFound.
Proof.
  intros Hw. split.
  - intros u w' [-> ?]%browser_session_row. done.
  - intros w1 ops Hrev. pose proof (run_sql_evolves (SRevokeBrowserSession session_id) w Hw) as [Hw1 _].
    simpl in Hw1. rewrite Hrev in Hw1. simpl in Hw1.
    assert (∃ r, r ∈ db_sessions (st w1) ∧ br_id r = session_id ∧ is_null (br_revoked_at r) = false)
      as (r & Hr & Hid & Hn).
    { unfold SqlState.revoke_browser_session, require_affected in Hrev. mrun.
      destruct (affected _ _ =? 0) eqn:Ha; simplify_eq/=. apply Nat.eqb_neq in Ha.
      destruct (update_hits br_id _ (row_revoked (unix_of (clock (ticks w)))) _ session_id
        (wd_session _ Hw) ltac:(intros r _ [Hp%String.eqb_eq _]%andb_true_iff; exact Hp) Ha)
        as (r & _ & Hid & _ & Hin & _).
      by exists (row_revoked (unix_of (clock (ticks w))) r). }
    destruct (run_sqls_evolves ops w1 Hw1) as [Hw2 Hp].
    destruct (sp_session _ _ Hp r Hr) as (r' & Hr' & Hid' & _ & _ & Hs).
    destruct (SqlState.user_by_browser_session session_id (run_sqls ops w1).2) as [[u|e] w3] eqn:Hu.
    + apply browser_session_row in Hu as [_ (r2 & _ & Hr2 & Hid2 & Hn2 & _)].
      assert (r2 = r') as -> by (eapply (unique_key_eq br_id); [apply Hw2|done..|congruence]).
      specialize (Hs Hn). by rewrite Hn2 in Hs.
    + simpl. unfold SqlState.user_by_browser_session in Hu. mrun. by destruct (hd_error _); simplify_eq/=.
Qed.
End BrowserSessions.

(** * The in-memory adapter answers the same *)

(** The calls that act on existing rows, and their answers. *)
Inductive session_call :=
  | CDeviceByUserCode (code : string)
  | CDeviceByDeviceCode (code : string)
  | CApproveDevice (id user_id : string)
  | CConsumeDevice (id : string)
  | CExpireDevice (id : string)
  | CSessionByCode (code : string)
  | CCompleteSession (id user_id : string)
  | CConsumeSession (id : string)
  | CConsumeCsrf (session_id token : string).

Inductive answer :=
  | Done
  | ADevice (d : DeviceAuthorization)
  | ASession (s : AuthSession).

(** A map holds, under its key, what each row stands for. *)
Definition table_of {A B} (key : A → string) (core : A → B) (rows : list A) (m : gmap string B) : Prop :=
  ∀ k b, m !! k = Some b ↔ ∃ r, r ∈ rows ∧ key r = k ∧ core r = b.

Definition csrf_from_row (r : CsrfTokenRow) : CsrfToken :=
  mkCsrfToken (cr_session_id r) (cr_expires_at r) (negb (is_null (cr_consumed_at r))).

(** The in-memory store has the rows of the database. *)
Record same_sessions (db : Db) (s : State) : Prop := {
  ss_devices : table_of dr_id device_to_core (db_device_authorizations db) (device_authorizations s);
  ss_device_codes : table_of dr_device_code_hash dr_id (db_device_authorizations db) (device_code_index s);
  ss_user_codes : table_of dr_user_code_hash dr_id (db_device_authorizations db) (user_code_index s);
  ss_sessions : table_of sr_id auth_session_from_row (db_auth_sessions db) (auth_sessions s);
  ss_codes : table_of sr_session_code_hash sr_id (db_auth_sessions db) (auth_session_codes s);
  ss_csrf : table_of cr_token_hash csrf_from_row (db_csrf_tokens db) (csrf_tokens s)
}.

Section Tables.
Context {A B : Type} (key : A → string) (core : A → B).
Implicit Types (rows : list A) (m : gmap string B).

Lemma table_none rows m k : table_of key core rows m → m !! k = None ↔ ∀ r, r ∈ rows → key r ≠ k.
Proof.
  intros Ht. split.
  - intros Hn r Hr Hk. by rewrite (proj2 (Ht k (core r)) (ex_intro _ r (conj Hr (conj Hk eq_refl)))) in Hn.
  - intros Hall. destruct (m !! k) as [b|] eqn:Hm; [|done]. apply Ht in Hm as (r & Hr & Hk & _).
    by destruct (Hall r).
Qed.

Lemma table_update rows m p f k r0 :
  unique_key key rows → table_of key core rows m → r0 ∈ rows → key r0 = k → p r0 = true →
  (∀ r, r ∈ rows → p r = true → key r = k) → (∀ r, key (f r) = key r) →
  table_of key core (update_where p f rows) (<[k := core (f r0)]> m).
Proof.
  intros Hu Ht Hr0 Hk0 Hp0 Hp Hf k' b. setoid_rewrite elem_of_update_where.
  destruct (decide (k' = k)) as [->|Hne].
  - rewrite lookup_insert_eq. split.
    + intros [= <-]. exists (f r0). split_and!; [|by rewrite Hf|done]. exists r0. by rewrite Hp0.
    + intros (r & (r1 & Hr1 & ->) & Hk & <-).
      assert (key r1 = k) by (destruct (p r1); [by rewrite Hf in Hk|done]).
      assert (r1 = r0) as -> by (eapply unique_key_eq; [done..|congruence]). by rewrite Hp0.
  - rewrite lookup_insert_ne by done. rewrite (Ht k' b). split.
    + intros (r & Hr & Hk & <-). exists r. split_and!; [|done|done]. exists r. split; [done|].
      destruct (p r) eqn:Hpr; [|done]. rewrite (Hp r Hr Hpr) in Hk. congruence.
    + intros (r & (r1 & Hr1 & ->) & Hk & <-). destruct (p r1) eqn:Hpr; [|by exists r1].
      rewrite Hf, (Hp r1 Hr1 Hpr) in Hk. congruence.
Qed.

(** An index of the keys is not changed by an update that keeps keys. *)
Lemma index_update rows (ix : gmap string string) p f (h : A → string) :
  table_of h key rows ix → (∀ r, h (f r) = h r) → (∀ r, key (f r) = key r) →
  table_of h key (update_where p f rows) ix.
Proof.
  intros Ht Hh Hf k b. rewrite (Ht k b). setoid_rewrite elem_of_update_where. split.
  - intros (r & Hr & Hk & Hb). exists (if p r then f r else r). split_and!; [eauto| |];
      destruct (p r); rewrite ?Hh, ?Hf; done.
  - intros (r & (r1 & Hr1 & ->) & Hk & Hb). exists r1. split; [done|].
    destruct (p r1); by rewrite ?Hh, ?Hf in *.
Qed.

(** Either nothing is updated, or exactly the row with the key. *)
Lemma update_cases rows p k :
  unique_key key rows → (∀ r, r ∈ rows → p r = true → key r = k) →
  ∀ r0, r0 ∈ rows → key r0 = k → (affected p rows =? 0) = negb (p r0).
Proof.
  intros Hu Hp r0 Hr0 Hk0. destruct (p r0) eqn:Hpr; simpl.
  - apply Nat.eqb_neq, affected_pos. by exists r0.
  - apply Nat.eqb_eq, affected_zero. intros r Hr. apply not_true_iff_false. intros Hpr'.
    assert (r = r0) as -> by (eapply unique_key_eq; [done..|]; rewrite (Hp r Hr Hpr'); congruence).
    congruence.
Qed.

Lemma update_misses rows p k :
  (∀ r, r ∈ rows → p r = true → key r = k) → (∀ r, r ∈ rows → key r ≠ k) → affected p rows = 0.
Proof.
  intros Hp Hn. apply affected_zero. intros r Hr. apply not_true_iff_false. intros Hpr.
  by destruct (Hn r Hr), (Hp r Hr Hpr).
Qed.
End Tables.

Section Refinement.
Context `{Env} `{Sqlite}.

Definition run_sql_call (c : session_call) : H Db answer :=
  match c with
  | CDeviceByUserCode code => map_ok ADevice (SqlDevices.device_by_user_code code)
  | CDeviceByDeviceCode code => map_ok ADevice (SqlDevices.device_by_device_code code)
  | CApproveDevice id user_id => map_ok (λ _, Done) (SqlDevices.approve_device_authorization id user_id)
  | CConsumeDevice id => map_ok (λ _, Done) (SqlDevices.consume_device_authorization id)
  | CExpireDevice id => map_ok (λ _, Done) (SqlDevices.expire_device_authorization id)
  | CSessionByCode code => map_ok ASession (SqlState.get_auth_session_by_code code)
  | CCompleteSession id user_id => map_ok (λ _, Done) (SqlState.complete_auth_session id user_id)
  | CConsumeSession id => map_ok (λ _, Done) (SqlState.consume_auth_session id)
  | CConsumeCsrf session_id token => map_ok (λ _, Done) (SqlState.consume_csrf_token session_id token)
  end.

Definition run_memory_call (c : session_call) : H State answer :=
  match c with
  | CDeviceByUserCode code => map_ok ADevice (Devices.device_by_user_code code)
  | CDeviceByDeviceCode code => map_ok ADevice (Devices.device_by_device_code code)
  | CApproveDevice id user_id => map_ok (λ _, Done) (Devices.approve_device_authorization id user_id)
  | CConsumeDevice id => map_ok (λ _, Done) (Devices.consume_device_authorization id)
  | CExpireDevice id => map_ok (λ _, Done) (Devices.expire_device_authorization id)
  | CSessionByCode code => map_ok ASession (Sessions.get_auth_session_by_code code)
  | CCompleteSession id user_id => map_ok (λ _, Done) (Sessions.complete_auth_session id user_id)
  | CConsumeSession id => map_ok (λ _, Done) (Sessions.consume_auth_session id)
  | CConsumeCsrf session_id token => map_ok (λ _, Done) (Sessions.consume_csrf_token session_id token)
  end.

(** The user a call refers to. *)
Definition call_user (c : session_call) : option string :=
  match c with CApproveDevice _ u | CCompleteSession _ u => Some u | _ => None end.

(** ** Lookups *)

Lemma lookup_agrees {A B} (hash : A → string) key core rows (ix : gmap string string)
    (m : gmap string B) h :
  unique_key hash rows → unique_key key rows →
  table_of hash key rows ix → table_of key core rows m →
  match hd_error (where_ (λ r, String.eqb (hash r) h) rows) with
  | Some r => ix !! h = Some (key r) ∧ m !! key r = Some (core r)
  | None => ix !! h = None
  end.
Proof.
  intros Hu Huk Hix Hm. destruct (hd_error _) as [r|] eqn:Hh.
  - apply hd_where_unique in Hh as [Hr Hk]; [|done]. split; [apply Hix; by exists r|].
    apply Hm. by exists r.
  - by apply (table_none _ _ _ _ _ Hix), hd_where_none.
Qed.

(** ** Updates of a device or a session *)

Context (frozen : ∀ i j, clock i = clock j).
Context (w : World Db) (wm : World State).
Hypothesis Hwf : wf_db (st w).
Hypothesis Hsame : same_sessions (st w) (st wm).

(** What an update of device rows does to related stores. *)
Lemma same_after_device_update p f id r0 :
  r0 ∈ db_device_authorizations (st w) → dr_id r0 = id → p r0 = true →
  (∀ r, r ∈ db_device_authorizations (st w) → p r = true → dr_id r = id) →
  (∀ r, dr_id (f r) = dr_id r ∧ dr_device_code_hash (f r) = dr_device_code_hash r
        ∧ dr_user_code_hash (f r) = dr_user_code_hash r) →
  same_sessions (set_device_authorizations (update_where p f) (st w))
    (upd_device_authorizations (<[id := device_to_core (f r0)]>) (st wm)).
Proof.
  intros Hr0 Hid Hp0 Hp Hf. destruct Hsame as [D1 D2 D3 D4 D5 D6]. split; simpl; try done.
  - apply table_update; [apply Hwf|done..|]. intros r. by destruct (Hf r).
  - by apply index_update; [|apply Hf|apply Hf].
  - by apply index_update; [|apply Hf|apply Hf].
Qed.

Lemma same_after_session_update p f id r0 :
  r0 ∈ db_auth_sessions (st w) → sr_id r0 = id → p r0 = true →
  (∀ r, r ∈ db_auth_sessions (st w) → p r = true → sr_id r = id) →
  (∀ r, sr_id (f r) = sr_id r ∧ sr_session_code_hash (f r) = sr_session_code_hash r) →
  same_sessions (set_auth_sessions (update_where p f) (st w))
    (upd_auth_sessions (<[id := auth_session_from_row (f r0)]>) (st wm)).
Proof.
  intros Hr0 Hid Hp0 Hp Hf. destruct Hsame as [D1 D2 D3 D4 D5 D6]. split; simpl; try done.
  - apply table_update; [apply Hwf|done..|]. intros r. by destruct (Hf r).
  - by apply index_update; [|apply Hf|apply Hf].
Qed.

Lemma same_after_csrf_update p f h r0 :
  r0 ∈ db_csrf_tokens (st w) → cr_token_hash r0 = h → p r0 = true →
  (∀ r, r ∈ db_csrf_tokens (st w) → p r = true → cr_token_hash r = h) →
  (∀ r, cr_token_hash (f r) = cr_token_hash r) →
  same_sessions (set_csrf_tokens (update_where p f) (st w))
    (upd_csrf_tokens (<[h := csrf_from_row (f r0)]>) (st wm)).
Proof.
  intros Hr0 Hid Hp0 Hp Hf. destruct Hsame as [D1 D2 D3 D4 D5 D6]. split; simpl; try done.
  apply table_update; [apply Hwf|done..].
Qed.

Lemma set_devices_id p f : affected p (db_device_authorizations (st w)) = 0 →
  set_device_authorizations (update_where p f) (st w) = st w.
Proof. intros Ha. unfold set_device_authorizations. rewrite update_where_id by done. by destruct (st w). Qed.
Lemma set_auth_id p f : affected p (db_auth_sessions (st w)) = 0 →
  set_auth_sessions (update_where p f) (st w) = st w.
Proof. intros Ha. unfold set_auth_sessions. rewrite update_where_id by done. by destruct (st w). Qed.
Lemma set_csrf_id p f : affected p (db_csrf_tokens (st w)) = 0 →
  set_csrf_tokens (update_where p f) (st w) = st w.
Proof. intros Ha. unfold set_csrf_tokens. rewrite update_where_id by done. by destruct (st w). Qed.

Definition refines_call (c : session_call) : Prop :=
  (run_sql_call c w).1 = (run_memory_call c wm).1
  ∧ same_sessions (st (run_sql_call c w).2) (st (run_memory_call c wm).2).

(** The time of a call. *)
Definition frozen_time : Z := unix_of (clock 0).

Lemma frozen_now i : unix_of (clock i) = frozen_time.
Proof. unfold frozen_time. by rewrite (frozen i 0). Qed.

Lemma refine_approve id user_id :
  user_exists (st w) user_id = true → refines_call (CApproveDevice id user_id).
Proof.
  intros Hu. unfold refines_call. simpl.
  unfold SqlDevices.approve_device_authorization, Devices.approve_device_authorization, require_affected.
  mrun. rewrite Hu, andb_false_r, frozen_now.
  set (p := λ r, String.eqb (dr_id r) id && _ && _).
  assert (∀ r, r ∈ db_device_authorizations (st w) → p r = true → dr_id r = id) as Hp.
  { unfold p. intros r _. rewrite !andb_true_iff, String.eqb_eq. tauto. }
  destruct (device_authorizations (st wm) !! id) as [d|] eqn:Hd; simpl.
  - apply (ss_devices _ _ Hsame) in Hd as (r0 & Hr0 & Hid & <-). simpl.
    rewrite (update_cases dr_id _ p id (wd_device _ Hwf) Hp r0 Hr0 Hid).
    destruct (p r0) eqn:Hp0; simpl; pose proof Hp0 as Hp1; unfold p in Hp0;
      rewrite Hid, String.eqb_refl, Z.ltb_antisym in Hp0; simpl in Hp0.
    + apply andb_true_iff in Hp0 as [-> Hlt%negb_true_iff]. simpl. rewrite frozen_now, Hlt. simpl.
      split; [done|]. rewrite frozen_now. by eapply (same_after_device_update p (row_approved user_id frozen_time)).
    + rewrite set_devices_id by
        (apply Nat.eqb_eq; by rewrite (update_cases dr_id _ p id (wd_device _ Hwf) Hp r0 Hr0 Hid), Hp1).
      destruct (String.eqb (dr_status r0) "pending"); simpl in *; [|done].
      rewrite frozen_now. apply negb_false_iff in Hp0. by rewrite Hp0.
  - rewrite (update_misses dr_id _ p id Hp); [|by apply (table_none _ _ _ _ _ (ss_devices _ _ Hsame))].
    rewrite set_devices_id; [done|].
    by apply (update_misses dr_id _ p id Hp), (table_none _ _ _ _ _ (ss_devices _ _ Hsame)).
Qed.

Lemma refine_consume_device id : refines_call (CConsumeDevice id).
Proof.
  unfold refines_call. simpl.
  unfold SqlDevices.consume_device_authorization, Devices.consume_device_authorization, require_affected.
  mrun. rewrite frozen_now. set (p := λ r, String.eqb (dr_id r) id && _).
  assert (∀ r, r ∈ db_device_authorizations (st w) → p r = true → dr_id r = id) as Hp.
  { unfold p. intros r _. rewrite !andb_true_iff, String.eqb_eq. tauto. }
  destruct (device_authorizations (st wm) !! id) as [d|] eqn:Hd; simpl.
  - apply (ss_devices _ _ Hsame) in Hd as (r0 & Hr0 & Hid & <-). simpl.
    pose proof (update_cases dr_id _ p id (wd_device _ Hwf) Hp r0 Hr0 Hid) as Hc. rewrite Hc.
    destruct (p r0) eqn:Hp0; simpl; pose proof Hp0 as Hp1; unfold p in Hp0;
      rewrite Hid, String.eqb_refl in Hp0; simpl in Hp0; rewrite Hp0; simpl.
    + split; [done|]. rewrite frozen_now. by eapply (same_after_device_update p (row_consumed frozen_time)).
    + rewrite set_devices_id; [done|]. by apply Nat.eqb_eq.
  - rewrite (update_misses dr_id _ p id Hp); [|by apply (table_none _ _ _ _ _ (ss_devices _ _ Hsame))].
    rewrite set_devices_id; [done|].
    by apply (update_misses dr_id _ p id Hp), (table_none _ _ _ _ _ (ss_devices _ _ Hsame)).
Qed.

Lemma refine_expire_device id : refines_call (CExpireDevice id).
Proof.
  unfold refines_call. simpl.
  unfold SqlDevices.expire_device_authorization, Devices.expire_device_authorization.
  mrun. set (p := λ r, String.eqb (dr_id r) id && _).
  assert (∀ r, r ∈ db_device_authorizations (st w) → p r = true → dr_id r = id) as Hp.
  { unfold p. intros r _. rewrite !andb_true_iff, String.eqb_eq. tauto. }
  destruct (device_authorizations (st wm) !! id) as [d|] eqn:Hd; simpl.
  - apply (ss_devices _ _ Hsame) in Hd as (r0 & Hr0 & Hid & <-). simpl.
    pose proof (update_cases dr_id _ p id (wd_device _ Hwf) Hp r0 Hr0 Hid) as Hc.
    destruct (p r0) eqn:Hp0; simpl; pose proof Hp0 as Hp1; unfold p in Hp0;
      rewrite Hid, String.eqb_refl in Hp0; simpl in Hp0; rewrite Hp0; simpl.
    + split; [done|]. by eapply (same_after_device_update p row_expired).
    + rewrite set_devices_id; [done|]. by apply Nat.eqb_eq.
  - rewrite set_devices_id; [done|].
    by apply (update_misses dr_id _ p id Hp), (table_none _ _ _ _ _ (ss_devices _ _ Hsame)).
Qed.

Lemma refine_complete id user_id :
  user_exists (st w) user_id = true → refines_call (CCompleteSession id user_id).
Proof.
  intros Hu. unfold refines_call. simpl.
  unfold SqlState.complete_auth_session, Sessions.complete_auth_session, require_affected.
  mrun. rewrite Hu, andb_false_r, frozen_now.
  set (p := λ r, String.eqb (sr_id r) id && _ && _).
  assert (∀ r, r ∈ db_auth_sessions (st w) → p r = true → sr_id r = id) as Hp.
  { unfold p. intros r _. rewrite !andb_true_iff, String.eqb_eq. tauto. }
  destruct (auth_sessions (st wm) !! id) as [d|] eqn:Hd; simpl.
  - apply (ss_sessions _ _ Hsame) in Hd as (r0 & Hr0 & Hid & <-). simpl.
    pose proof (update_cases sr_id _ p id (wd_auth _ Hwf) Hp r0 Hr0 Hid) as Hc. rewrite Hc.
    destruct (p r0) eqn:Hp0; simpl; pose proof Hp0 as Hp1; unfold p in Hp0;
      rewrite Hid, String.eqb_refl, Z.ltb_antisym in Hp0; simpl in Hp0.
    + apply andb_true_iff in Hp0 as [-> Hlt%negb_true_iff]. simpl. rewrite frozen_now, Hlt. simpl.
      split; [done|]. by eapply (same_after_session_update p (row_completed user_id frozen_time)).
    + rewrite set_auth_id by (by apply Nat.eqb_eq).
      destruct (String.eqb (sr_status r0) "pending"); simpl in *; [|done].
      rewrite frozen_now. apply negb_false_iff in Hp0. by rewrite Hp0.
  - rewrite (update_misses sr_id _ p id Hp); [|by apply (table_none _ _ _ _ _ (ss_sessions _ _ Hsame))].
    rewrite set_auth_id; [done|].
    by apply (update_misses sr_id _ p id Hp), (table_none _ _ _ _ _ (ss_sessions _ _ Hsame)).
Qed.

Lemma refine_consume_session id : refines_call (CConsumeSession id).
Proof.
  unfold refines_call. simpl.
  unfold SqlState.consume_auth_session, Sessions.consume_auth_session, require_affected.
  mrun. rewrite frozen_now. set (p := λ r, String.eqb (sr_id r) id && _ && _).
  assert (∀ r, r ∈ db_auth_sessions (st w) → p r = true → sr_id r = id) as Hp.
  { unfold p. intros r _. rewrite !andb_true_iff, String.eqb_eq. tauto. }
  destruct (auth_sessions (st wm) !! id) as [d|] eqn:Hd; simpl.
  - apply (ss_sessions _ _ Hsame) in Hd as (r0 & Hr0 & Hid & <-). simpl.
    pose proof (update_cases sr_id _ p id (wd_auth _ Hwf) Hp r0 Hr0 Hid) as Hc. rewrite Hc.
    destruct (p r0) eqn:Hp0; simpl; pose proof Hp0 as Hp1; unfold p in Hp0;
      rewrite Hid, String.eqb_refl, Z.ltb_antisym in Hp0; simpl in Hp0.
    + apply andb_true_iff in Hp0 as [-> Hlt%negb_true_iff]. simpl. rewrite frozen_now, Hlt. simpl.
      split; [done|]. by eapply (same_after_session_update p (row_session_consumed frozen_time)).
    + rewrite set_auth_id by (by apply Nat.eqb_eq).
      destruct (String.eqb (sr_status r0) "completed"); simpl in *; [|done].
      rewrite frozen_now. apply negb_false_iff in Hp0. by rewrite Hp0.
  - rewrite (update_misses sr_id _ p id Hp); [|by apply (table_none _ _ _ _ _ (ss_sessions _ _ Hsame))].
    rewrite set_auth_id; [done|].
    by apply (update_misses sr_id _ p id Hp), (table_none _ _ _ _ _ (ss_sessions _ _ Hsame)).
Qed.

Lemma refine_consume_csrf session_id token : refines_call (CConsumeCsrf session_id token).
Proof.
  unfold refines_call. simpl.
  unfold SqlState.consume_csrf_token, Sessions.consume_csrf_token, require_affected.
  mrun. rewrite !frozen_now. set (p := λ r, String.eqb (cr_token_hash r) _ && _ && _ && _).
  assert (∀ r, r ∈ db_csrf_tokens (st w) → p r = true → cr_token_hash r = hash_secret token) as Hp.
  { unfold p. intros r _. rewrite !andb_true_iff, !String.eqb_eq. tauto. }
  destruct (csrf_tokens (st wm) !! hash_secret token) as [d|] eqn:Hd; simpl.
  - apply (ss_csrf _ _ Hsame) in Hd as (r0 & Hr0 & Hid & <-). simpl.
    pose proof (update_cases cr_token_hash _ p _ (wd_csrf _ Hwf) Hp r0 Hr0 Hid) as Hc. rewrite Hc.
    destruct (p r0) eqn:Hp0; simpl; pose proof Hp0 as Hp1; unfold p in Hp0;
      rewrite Hid, String.eqb_refl, Z.ltb_antisym in Hp0; simpl in Hp0.
    + apply andb_true_iff in Hp0 as [[-> Hn]%andb_true_iff Hlt%negb_true_iff]. rewrite Hn. simpl.
      rewrite frozen_now, Hlt. simpl. split; [done|].
      by eapply (same_after_csrf_update p (row_csrf_consumed frozen_time)).
    + rewrite set_csrf_id by (by apply Nat.eqb_eq).
      destruct (String.eqb (cr_session_id r0) session_id); simpl in *; [|done].
      destruct (is_null (cr_consumed_at r0)); simpl in *; [|done].
      rewrite frozen_now. apply negb_false_iff in Hp0. by rewrite Hp0.
  - rewrite (update_misses cr_token_hash _ p _ Hp); [|by apply (table_none _ _ _ _ _ (ss_csrf _ _ Hsame))].
    rewrite set_csrf_id; [done|].
    by apply (update_misses cr_token_hash _ p _ Hp), (table_none _ _ _ _ _ (ss_csrf _ _ Hsame)).
Qed.

Lemma refine_lookups c :
  match c with CDeviceByUserCode _ | CDeviceByDeviceCode _ | CSessionByCode _ => True | _ => False end →
  refines_call c.
Proof.
  destruct c; try done; intros _; unfold refines_call; simpl.
  - unfold SqlDevices.device_by_user_code, Devices.device_by_user_code. mrun.
    pose proof (lookup_agrees _ _ _ _ _ _ (hash_code code) (wd_user_code _ Hwf) (wd_device _ Hwf)
      (ss_user_codes _ _ Hsame) (ss_devices _ _ Hsame)) as Hl.
    destruct (hd_error _) as [r|]; [destruct Hl as [-> Hl]; simpl; by rewrite Hl|by rewrite Hl].
  - unfold SqlDevices.device_by_device_code, Devices.device_by_device_code. mrun.
    pose proof (lookup_agrees _ _ _ _ _ _ (hash_code code) (wd_device_code _ Hwf) (wd_device _ Hwf)
      (ss_device_codes _ _ Hsame) (ss_devices _ _ Hsame)) as Hl.
    destruct (hd_error _) as [r|]; [destruct Hl as [-> Hl]; simpl; by rewrite Hl|by rewrite Hl].
  - unfold SqlState.get_auth_session_by_code, SqlState.auth_session_by_clause,
      Sessions.get_auth_session_by_code, not_expired. mrun.
    pose proof (lookup_agrees _ _ _ _ _ _ (hash_secret code) (wd_auth_code _ Hwf) (wd_auth _ Hwf)
      (ss_codes _ _ Hsame) (ss_sessions _ _ Hsame)) as Hl.
    destruct (hd_error _) as [r|]; [|by rewrite Hl]. destruct Hl as [-> Hl]. simpl. rewrite Hl. simpl.
    rewrite !frozen_now. by destruct (_ <=? _)%Z.
Qed.

(** C33: Within one second, on a database and an in-memory store with the same rows, every call that
    looks up, approves, consumes or expires a device authorization, looks up by code, completes
    or consumes an auth session, or consumes a CSRF token gives the same answer on both and
    leaves them with the same rows, provided the user it refers to exists. *)
Theorem sql_sessions_refine_memory c :
  (∀ u, call_user c = Some u → user_exists (st w) u = true) →
  (run_sql_call c w).1 = (run_memory_call c wm).1
  ∧ same_sessions (st (run_sql_call c w).2) (st (run_memory_call c wm).2).
Proof.
  intros Hu. change (refines_call c). destruct c; try (by apply refine_lookups).
  - apply refine_approve. by apply Hu.
  - apply refine_consume_device.
  - apply refine_expire_device.
  - apply refine_complete. by apply Hu.
  - apply refine_consume_session.
  - apply refine_consume_csrf.
Qed.
End Refinement.

(** * Examples *)

Definition ann_row : UserRow := mkUserRow "ann" None (Some "ann@example.org") None "active" 0 0 None.

(** A database with one user and one repository. *)
Definition account_db : Db :=
  set_users (λ _, [ann_row])
    (set_repositories (λ _, [mkRepositoryRow "r1" "game" "lore://h/game" "game" "active" "manual" 0 0])
      empty_db).
Definition account_world : World Db := mkWorld account_db 0 0.

Lemma account_wf : wf_db account_db.
Proof. split; apply NoDup_nil_2. Qed.

(** A device is created, approved twice and redeemed twice. *)
Definition device_calls : list sql_op :=
  [SCreateDevice (mkCreateDeviceAuthorizationInput "dev" "usr" "lore://h/game" "r1" (from_secs 60));
   SApproveDevice (letters 1) "ann"; SApproveDevice (letters 1) "ann";
   SConsumeDevice (letters 1); SConsumeDevice (letters 1)].

Example device_calls_run :
  (run_sqls device_calls account_world).1.*2 = [Ok tt; Ok tt; Err NotFound; Ok tt; Err NotFound].
Proof. vm_compute. reflexivity. Qed.

Example missing_user_is_refused :
  (run_sqls [SCreateDevice (mkCreateDeviceAuthorizationInput "dev" "usr" "lore://h/game" "r1" (from_secs 60));
             SApproveDevice (letters 1) "bob"] account_world).1.*2
  = [Ok tt; Err (InvalidArgument "sqlite: UNIQUE constraint failed: device_authorizations")].
Proof. vm_compute. reflexivity. Qed.

Lemma sql_credentials_are_one_shot_witness :
  sql_uses (ShotConsumeDevice (letters 1)) (run_sqls device_calls account_world).1 = 1
  ∧ sql_uses (ShotConsumeDevice (letters 1)) (run_sqls device_calls account_world).1 ≤ 1.
Proof.
  split; [vm_compute; reflexivity|]. apply sql_credentials_are_one_shot. exact account_wf.
Defined.

Lemma sql_rows_follow_state_machines_witness :
  wf_db (st (run_sqls device_calls account_world).2)
  ∧ sql_progress account_db (st (run_sqls device_calls account_world).2).
Proof. apply (sql_rows_follow_state_machines device_calls account_world). exact account_wf. Defined.

(** A browser session, used and revoked. *)
Definition browser_db : Db :=
  set_sessions (λ _, [mkSessionRow "sid" "ann" 0 5000 None]) account_db.
Definition browser_world : World Db := mkWorld browser_db 0 0.

Lemma sql_browser_session_ends_witness :
  (SqlState.user_by_browser_session "sid" browser_world).1 = Ok (user_from_row ann_row)
  ∧ (SqlState.user_by_browser_session "sid"
      (run_sqls [] (SqlState.revoke_browser_session "sid" browser_world).2).2).1 = Err NotFound.
Proof.
  split; [vm_compute; reflexivity|].
  eapply (proj2 (sql_browser_session_ends "sid" browser_world
    ltac:(split; first [apply NoDup_nil_2 | apply NoDup_singleton]))).
  vm_compute. reflexivity.
Defined.

(** Both stores with one pending device, in a second that does not pass. *)
Definition frozen_env : Env := {|
  clock _ := 1000%Z;
  uuid_src n := letters (S n);
  sha256_hex s := s;
  str_debug s := s;
  hash_iter K V _ _ m := map_to_list m;
  hash_iter_perm K V _ _ m := Permutation_refl _;
  hashset_iter K _ _ s := elements s;
  hashset_iter_perm K _ _ s := Permutation_refl _
|}.

Definition pending_row : DeviceRow :=
  mkDeviceRow "d1" "DEV" "USR" "lore://h/game" (Some "r1") None "pending" 900 2000 None None.
Definition pending_db : Db := set_device_authorizations (λ _, [pending_row]) account_db.
Definition pending_store : State :=
  upd_device_authorizations (λ _, {[ "d1" := device_to_core pending_row ]})
  (upd_device_code_index (λ _, {[ "DEV" := "d1" ]})
  (upd_user_code_index (λ _, {[ "USR" := "d1" ]}) default_State)).

Lemma table_singleton {A B} (key : A → string) (core : A → B) r :
  table_of key core [r] {[ key r := core r ]}.
Proof.
  intros k b. rewrite lookup_singleton_Some. setoid_rewrite list_elem_of_singleton. naive_solver.
Qed.

Lemma table_empty {A B} (key : A → string) (core : A → B) : table_of key core [] ∅.
Proof. intros k b. rewrite lookup_empty. split; [done|]. by intros (? & ?%not_elem_of_nil & _). Qed.

Lemma pending_same : same_sessions pending_db pending_store.
Proof.
  split; try apply table_empty.
  - apply (table_singleton dr_id device_to_core pending_row).
  - apply (table_singleton dr_device_code_hash dr_id pending_row).
  - apply (table_singleton dr_user_code_hash dr_id pending_row).
Qed.

Lemma sql_sessions_refine_memory_witness :
  let c := CApproveDevice "d1" "ann" in
  let w := mkWorld pending_db 0 0 in let wm := mkWorld pending_store 0 0 in
  (@run_sql_call frozen_env _ c w).1 = Ok Done
  ∧ (@run_sql_call frozen_env _ c w).1 = (@run_memory_call frozen_env c wm).1
  ∧ same_sessions (st (@run_sql_call frozen_env _ c w).2) (st (@run_memory_call frozen_env c wm).2).
Proof.
  intros c w wm. split; [vm_compute; reflexivity|].
  apply (@sql_sessions_refine_memory frozen_env demo_sqlite (λ _ _, eq_refl) w wm).
  - split; first [apply NoDup_nil_2 | apply NoDup_singleton].
  - exact pending_same.
  - intros u [= <-]. vm_compute. reflexivity.
Defined.
