(* ===== verification/SqlSchema.v ===== *)
(** The schema of the SQLite database ([sqlite/migrations.rs]) as an invariant: the primary keys
    and unique indexes, partial ones included, and the foreign keys.  The database file does not
    have to be trusted for it: every call keeps it. *)

From Stdlib Require Import ZArith Lia Ascii.
From stdpp Require Import base gmap strings list.
From S2P Require Import Prelude Model MemState.
From S2P Require Import SqlRows SqlBase SqlAccounts SqlGroups SqlGrants SqlTokens.
From S2P Require Import SqlAudited SqlSessions SqlStore SqlKeep.

(** * Constraints *)

(** [REFERENCES]: a column that is not [NULL] holds a key of the other table. *)
Definition references {A} (column : A → option string) (keys : list string) (rows : list A) : Prop :=
  ∀ r k, r ∈ rows → column r = Some k → k ∈ keys.

(** [CREATE UNIQUE INDEX .. WHERE p] *)
Definition unique_where {A K} (p : A → bool) (key : A → K) (rows : list A) : Prop :=
  unique_key key (where_ p rows).

Definition indexed_email (r : UserRow) : bool :=
  negb (is_null (ur_primary_email_normalized r)) && negb (String.eqb (ur_status r) "deleted").
Definition indexed_invitation (r : InvitationRow) : bool :=
  String.eqb (ir_status r) "pending" && negb (is_null (ir_email_normalized r)).

Section Tables.
Implicit Types users identities groups repositories sessions : list string.

Definition users_ok (rows : list UserRow) : Prop :=
  unique_key ur_id rows ∧ unique_where indexed_email ur_primary_email_normalized rows.
Definition identities_ok users (rows : list IdentityRow) : Prop :=
  unique_key xr_id rows
  ∧ unique_key (λ r, (xr_provider_id r, xr_issuer r, xr_subject r)) rows
  ∧ references (Some ∘ xr_user_id) users rows.
Definition invitations_ok users identities (rows : list InvitationRow) : Prop :=
  unique_key ir_id rows
  ∧ unique_where indexed_invitation (λ r, (ir_provider_id r, ir_issuer r, ir_email_normalized r)) rows
  ∧ references (Some ∘ ir_user_id) users rows
  ∧ references ir_accepted_identity_id identities rows.
Definition groups_ok (rows : list GroupRow) : Prop := unique_key gp_id rows ∧ unique_key gp_name rows.
Definition members_ok groups users (rows : list GroupMemberRow) : Prop :=
  unique_key (λ r, (gm_group_id r, gm_user_id r)) rows
  ∧ references (Some ∘ gm_group_id) groups rows ∧ references (Some ∘ gm_user_id) users rows.
Definition edges_ok groups (rows : list GroupGroupRow) : Prop :=
  unique_key (λ r, (gg_group_id r, gg_member_group_id r)) rows
  ∧ references (Some ∘ gg_group_id) groups rows ∧ references (Some ∘ gg_member_group_id) groups rows.
Definition repositories_ok (rows : list RepositoryRow) : Prop :=
  unique_key rep_id rows ∧ unique_key rep_name rows ∧ unique_key rep_lore_repository_id rows.
Definition grants_ok repositories (rows : list GrantRow) : Prop :=
  unique_key gt_id rows
  ∧ unique_key (λ r, (gt_subject_type r, gt_subject_id r, gt_repository_id r, gt_role r)) rows
  ∧ references (Some ∘ gt_repository_id) repositories rows.
Definition devices_ok repositories users (rows : list DeviceRow) : Prop :=
  unique_key dr_id rows ∧ unique_key dr_device_code_hash rows ∧ unique_key dr_user_code_hash rows
  ∧ references dr_requested_repository_id repositories rows
  ∧ references dr_approved_user_id users rows.
Definition auth_sessions_ok users (rows : list AuthSessionRow) : Prop :=
  unique_key sr_id rows ∧ unique_key sr_session_code_hash rows ∧ references sr_user_id users rows.
Definition logins_ok (rows : list LoginTransactionRow) : Prop :=
  unique_key lr_id rows ∧ unique_key lr_state_hash rows.
Definition sessions_ok users (rows : list SessionRow) : Prop :=
  unique_key br_id rows ∧ references (Some ∘ br_user_id) users rows.
Definition csrf_ok sessions (rows : list CsrfTokenRow) : Prop :=
  unique_key cr_token_hash rows ∧ references (Some ∘ cr_session_id) sessions rows.
Definition issued_ok users repositories (rows : list IssuedTokenRow) : Prop :=
  unique_key tk_jti rows ∧ references tk_user_id users rows
  ∧ references tk_repository_id repositories rows.
End Tables.

Record schema (db : Db) : Prop := {
  sc_users : users_ok (db_users db);
  sc_identities : identities_ok (ur_id <$> db_users db) (db_external_identities db);
  sc_invitations : invitations_ok (ur_id <$> db_users db) (xr_id <$> db_external_identities db)
    (db_identity_invitations db);
  sc_groups : groups_ok (db_groups db);
  sc_members : members_ok (gp_id <$> db_groups db) (ur_id <$> db_users db) (db_group_members db);
  sc_edges : edges_ok (gp_id <$> db_groups db) (db_group_groups db);
  sc_repositories : repositories_ok (db_repositories db);
  sc_grants : grants_ok (rep_id <$> db_repositories db) (db_grants db);
  sc_devices : devices_ok (rep_id <$> db_repositories db) (ur_id <$> db_users db)
    (db_device_authorizations db);
  sc_auth_sessions : auth_sessions_ok (ur_id <$> db_users db) (db_auth_sessions db);
  sc_logins : logins_ok (db_login_transactions db);
  sc_sessions : sessions_ok (ur_id <$> db_users db) (db_sessions db);
  sc_csrf : csrf_ok (br_id <$> db_sessions db) (db_csrf_tokens db);
  sc_issued : issued_ok (ur_id <$> db_users db) (rep_id <$> db_repositories db) (db_issued_tokens db);
  sc_signing_keys : unique_key kr_kid (db_signing_keys db);
  sc_audit : unique_key ar_id (db_admin_audit db)
}.

(** * Lemmas on one table *)

Section OneTable.
Context {A : Type}.
Implicit Types (rows : list A) (keys : list string).

Lemma references_mono column keys keys' rows :
  references column keys rows → keys ⊆ keys' → references column keys' rows.
Proof. intros Hr Hk r k Hin Hc. eapply Hk, Hr; done. Qed.

Lemma references_insert column keys rows x :
  references column keys rows → (∀ k, column x = Some k → k ∈ keys) →
  references column keys (rows ++ [x]).
Proof.
  intros Hr Hx r k [Hin|Hin%list_elem_of_singleton]%elem_of_app Hc; [by eapply Hr|].
  subst r. by apply Hx.
Qed.

Lemma references_update column keys rows p f :
  references column keys rows →
  (∀ r k, r ∈ rows → p r = true → column (f r) = Some k → column r = Some k ∨ k ∈ keys) →
  references column keys (update_where p f rows).
Proof.
  intros Hr Hf r k (x & Hx & ->)%elem_of_update_where Hc. destruct (p x) eqn:Hp; [|by eapply Hr].
  destruct (Hf x k Hx Hp Hc); [by eapply Hr|done].
Qed.

Lemma references_where column keys rows p :
  references column keys rows → references column keys (where_ p rows).
Proof. intros Hr r k [Hin _]%elem_of_where. by apply Hr. Qed.

Lemma unique_key_where {K} (key : A → K) rows p : unique_key key rows → unique_key key (where_ p rows).
Proof.
  unfold unique_key, where_. induction rows as [|r rows IH]; simpl; [done|].
  intros [Hr Hnd]%NoDup_cons. destruct (p r); [|by apply IH].
  simpl. apply NoDup_cons. split; [|by apply IH].
  intros Hin. apply Hr. apply list_elem_of_fmap in Hin as (x & -> & Hx).
  apply list_elem_of_fmap_2. by apply (elem_of_where p) in Hx as [? _].
Qed.

Lemma where_app p rows rows' : where_ p (rows ++ rows') = where_ p rows ++ where_ p rows'.
Proof. apply List.filter_app. Qed.

Lemma unique_where_insert {K} p (key : A → K) rows x :
  unique_where p key rows → (p x = true → key x ∉ key <$> where_ p rows) →
  unique_where p key (rows ++ [x]).
Proof.
  unfold unique_where. rewrite where_app. unfold where_ at 4. simpl.
  destruct (p x); [|by rewrite app_nil_r]. intros Hu Hx. by apply unique_key_insert; [|apply Hx].
Qed.

Section Update.
Context {K : Type} (p : A → bool) (key : A → K) (q : A → bool) (f : A → A).
Hypothesis Hf : ∀ r, q r = true → p (f r) = true → p r = true ∧ key (f r) = key r.

Lemma where_update_keys rows k :
  k ∈ key <$> where_ p (update_where q f rows) → k ∈ key <$> where_ p rows.
Proof.
  intros (y & -> & [(x & Hx & ->)%elem_of_update_where Hp]%elem_of_where)%list_elem_of_fmap.
  destruct (q x) eqn:Hq; [destruct (Hf x Hq Hp) as [Hp' ->]|];
    apply list_elem_of_fmap_2, elem_of_where; done.
Qed.

(** An update that takes rows out of the index or keeps their key. *)
Lemma unique_where_update rows :
  unique_where p key rows → unique_where p key (update_where q f rows).
Proof.
  unfold unique_where, unique_key. induction rows as [|r rows IH]; [done|].
  pose proof (where_update_keys rows) as Hsub. unfold update_where, where_ in *. simpl.
  assert (p (if q r then f r else r) = true →
    p r = true ∧ key (if q r then f r else r) = key r) as Hr by (destruct (q r) eqn:Hq; auto).
  intros Hnd. destruct (p (if q r then f r else r)).
  - destruct (Hr eq_refl) as [Hpr Hk]. rewrite Hpr in Hnd. csimpl in *.
    apply NoDup_cons in Hnd as [Hn Hnd]. rewrite Hk. apply NoDup_cons. split; [|by apply IH].
    intros Hin. by apply Hn, Hsub.
  - apply IH. destruct (p r); [|done]. csimpl in Hnd. by apply NoDup_cons in Hnd as [_ ?].
Qed.
End Update.

(** An update of the row with one key may change another key to one that no other row has. *)
Lemma unique_where_update_one {K} (id : A → string) p (key : A → K) rows q f k :
  unique_key id rows → (∀ r, q r = true → id r = k) →
  (∀ r, r ∈ rows → q r = true → key (f r) ∉ key <$> where_ p (where_ (λ r, negb (String.eqb (id r) k)) rows)) →
  unique_where p key rows → unique_where p key (update_where q f rows).
Proof.
  intros Hid Hq. unfold unique_where, unique_key, update_where.
  induction rows as [|r rows IH]; [done|]. intros Hf Hnd. unfold unique_key in Hid.
  csimpl in Hid. apply NoDup_cons in Hid as [Hr Hid].
  assert (q r = true → ∀ x, x ∈ rows → q x = false) as Hone.
  { intros Hqr x Hx. apply not_true_iff_false. intros Hqx. destruct Hr.
    rewrite (Hq r Hqr), <- (Hq x Hqx). by apply list_elem_of_fmap_2. }
  assert (unique_where p key rows) as Htl.
  { unfold unique_where, unique_key. simpl in Hnd. destruct (p r); [|done].
    csimpl in Hnd. by apply NoDup_cons in Hnd as [_ ?]. }
  destruct (q r) eqn:Hqr.
  - assert (map (λ r, if q r then f r else r) rows = rows) as Hmap.
    { rewrite <- (List.map_id rows) at 2. apply List.map_ext_in. intros x Hx.
      rewrite (Hone eq_refl x); [done|]. by apply list_elem_of_In. }
    simpl. rewrite Hqr, Hmap. simpl. destruct (p (f r)); [|done]. csimpl. apply NoDup_cons. split; [|done].
    intros Hin. apply (Hf r); [left|done|]. simpl.
    assert (negb (String.eqb (id r) k) = false) as ->.
    { rewrite (Hq r Hqr). by rewrite String.eqb_refl. }
    apply list_elem_of_fmap in Hin as (x & Hx & [Hin Hp]%elem_of_where). rewrite Hx.
    apply list_elem_of_fmap_2, elem_of_where. split; [|done]. apply elem_of_where. split; [done|].
    apply negb_true_iff, String.eqb_neq. intros Hk. destruct Hr. rewrite (Hq r Hqr), <- Hk.
    by apply list_elem_of_fmap_2.
  - simpl. rewrite Hqr. 
    assert (NoDup (key <$> where_ p (map (λ r, if q r then f r else r) rows))) as Hnd'.
    { apply IH; [done| |done]. intros x Hx Hqx Hin. apply (Hf x); [by right|done|].
      apply list_elem_of_fmap in Hin as (y & Hy & [[Hin Hk]%elem_of_where Hp]%elem_of_where). rewrite Hy.
      apply list_elem_of_fmap_2, elem_of_where. split; [|done]. apply elem_of_where.
      split; [by right|done]. }
    destruct (p r) eqn:Hpr; [|done]. csimpl. apply NoDup_cons. split; [|done].
    intros Hin. apply list_elem_of_fmap in Hin as (y & Hy & [(x & Hx & ->)%elem_of_update_where Hp]%elem_of_where).
    destruct (q x) eqn:Hqx.
    + apply (Hf x); [by right|done|]. rewrite <- Hy. apply list_elem_of_fmap_2, elem_of_where.
      split; [|done]. apply elem_of_where. split; [left|].
      apply negb_true_iff, String.eqb_neq. intros Hk. destruct Hr. rewrite Hk, <- (Hq x Hqx).
      by apply list_elem_of_fmap_2.
    + simpl in Hnd. rewrite Hpr in Hnd. csimpl in Hnd. apply NoDup_cons in Hnd as [Hn _].
      destruct Hn. rewrite Hy. by apply list_elem_of_fmap_2, elem_of_where.
Qed.
End OneTable.

(** * What the checks of the statements say *)

Lemma email_free_spec db id email :
  email_free db id email = true ↔
  ∀ e r, email = Some e → r ∈ db_users db → ur_id r ≠ id → ur_status r ≠ "deleted" →
    ur_primary_email_normalized r ≠ Some e.
Proof.
  unfold email_free. destruct email as [e|]; [|naive_solver].
  rewrite negb_true_iff, <- not_true_iff_false, existsb_exists. split.
  - intros Hn e' r [= <-] Hr Hid Hs He. apply Hn. exists r. rewrite <- list_elem_of_In.
    split; [done|]. apply String.eqb_neq in Hid, Hs. rewrite Hid, Hs. simpl.
    by apply bool_decide_eq_true.
  - intros Hall (r & Hr & Hc). rewrite <- list_elem_of_In in Hr.
    apply andb_true_iff in Hc as [[Hid Hs]%andb_true_iff He%bool_decide_eq_true].
    apply negb_true_iff in Hid, Hs. apply String.eqb_neq in Hid, Hs. by eapply Hall.
Qed.

Lemma indexed_email_true r :
  indexed_email r = true ↔ is_Some (ur_primary_email_normalized r) ∧ ur_status r ≠ "deleted".
Proof.
  unfold indexed_email. rewrite andb_true_iff, !negb_true_iff, String.eqb_neq.
  destruct (ur_primary_email_normalized r); simpl; (split; intros [Hx ?]; (split; [|done])); eauto.
  - done.
  - by destruct Hx.
Qed.

Lemma identity_free_spec db provider_id issuer subject :
  identity_free db provider_id issuer subject = true →
  (provider_id, issuer, subject)
    ∉ (λ r, (xr_provider_id r, xr_issuer r, xr_subject r)) <$> db_external_identities db.
Proof.
  unfold identity_free. rewrite negb_true_iff, <- not_true_iff_false, existsb_exists.
  intros Hn (r & [= -> -> ->] & Hr)%list_elem_of_fmap. apply Hn. exists r. rewrite <- list_elem_of_In.
  split; [done|]. by rewrite !String.eqb_refl.
Qed.

Lemma invitation_free_spec db provider_id issuer email :
  invitation_free db provider_id issuer email = true → is_Some email →
  (provider_id, issuer, email)
    ∉ (λ r, (ir_provider_id r, ir_issuer r, ir_email_normalized r))
        <$> where_ indexed_invitation (db_identity_invitations db).
Proof.
  unfold invitation_free. intros Hf [e ->]. revert Hf.
  rewrite negb_true_iff, <- not_true_iff_false, existsb_exists.
  intros Hn (r & [= -> -> He] & [Hr Hp]%elem_of_where)%list_elem_of_fmap. apply Hn. exists r.
  rewrite <- list_elem_of_In. split; [done|]. rewrite !String.eqb_refl. simpl.
  apply andb_true_iff in Hp as [-> _]. simpl. by apply bool_decide_eq_true.
Qed.

Lemma affected_zero_key {A K} (p : A → bool) (key : A → K) rows k :
  (∀ r, key r = k → p r = true) → affected p rows = 0 → k ∉ key <$> rows.
Proof.
  intros Hk Hz (r & -> & Hr)%list_elem_of_fmap. rewrite affected_zero in Hz.
  specialize (Hz r Hr). by rewrite Hk in Hz.
Qed.

Lemma in_column_true {A} (key : A → string) rows column k :
  in_column key rows column = true → column = Some k → k ∈ key <$> rows.
Proof. unfold in_column. intros Hc ->. by apply bool_decide_eq_true in Hc. Qed.

(** * Statements keep the schema *)

#[local] Hint Resolve references_mono references_insert references_where unique_key_insert
  unique_key_where : schema.
#[local] Hint Extern 1 (_ ⊆ _ ++ _) => set_solver : schema.

Lemma update_fmap {A B} (g : A → B) p f (rows : list A) :
  (∀ r, g (f r) = g r) → g <$> update_where p f rows = g <$> rows.
Proof. apply update_where_keys. Qed.

Lemma references_update_same {A} (column : A → option string) keys rows p f :
  (∀ r, column (f r) = column r) → references column keys rows →
  references column keys (update_where p f rows).
Proof. intros Hf Hr. apply references_update; [done|]. intros r k _ _. rewrite Hf. by left. Qed.

Lemma user_exists_true db u k : user_exists db u = true → Some u = Some k → k ∈ ur_id <$> db_users db.
Proof. unfold user_exists. intros Hu [= <-]. by apply bool_decide_eq_true in Hu. Qed.

Lemma group_exists_true db g k : group_exists db g = true → Some g = Some k → k ∈ gp_id <$> db_groups db.
Proof. unfold group_exists. intros Hu [= <-]. by apply bool_decide_eq_true in Hu. Qed.

#[local] Hint Resolve unique_key_update references_update_same user_exists_true group_exists_true
  in_column_true : schema.
#[local] Hint Extern 1 (_ ∉ _) => (by apply fresh_in_true) : schema.

Ltac schema_unfold :=
  unfold users_ok, identities_ok, invitations_ok, groups_ok, members_ok, edges_ok, repositories_ok,
    grants_ok, devices_ok, auth_sessions_ok, logins_ok, sessions_ok, csrf_ok, issued_ok in *;
  destruct_and?.

(** One table changes: the others are as before or refer to the same or more rows. *)
Ltac schema_table :=
  constructor; simpl; rewrite ?fmap_app, ?update_fmap by done; try assumption; schema_unfold;
  split_and?; eauto with schema.

Lemma membership_free g u rows :
  affected (membership g u) rows = 0 → (g, u) ∉ (λ r, (gm_group_id r, gm_user_id r)) <$> rows.
Proof.
  apply affected_zero_key. intros r ?; simplify_eq. unfold membership. by rewrite !String.eqb_refl.
Qed.

Lemma edge_free p m rows :
  affected (edge p m) rows = 0 → (p, m) ∉ (λ r, (gg_group_id r, gg_member_group_id r)) <$> rows.
Proof. apply affected_zero_key. intros r ?; simplify_eq. unfold edge. by rewrite !String.eqb_refl. Qed.

Lemma same_grant_free t i re o rows :
  affected (same_grant t i re o) rows = 0 →
  (t, i, re, o) ∉ (λ r, (gt_subject_type r, gt_subject_id r, gt_repository_id r, gt_role r)) <$> rows.
Proof.
  apply affected_zero_key. intros r ?; simplify_eq. unfold same_grant. by rewrite !String.eqb_refl.
Qed.

Lemma email_index_insert rows db row :
  unique_where indexed_email ur_primary_email_normalized rows → db_users db = rows →
  ur_id row ∉ ur_id <$> rows → email_free db (ur_id row) (ur_primary_email_normalized row) = true →
  unique_where indexed_email ur_primary_email_normalized (rows ++ [row]).
Proof.
  intros Hu <- Hid Hem. apply unique_where_insert; [done|]. intros [[e He] Hs]%indexed_email_true.
  intros (r & Hr & [Hin [_ Hd]%indexed_email_true]%elem_of_where)%list_elem_of_fmap.
  rewrite email_free_spec in Hem. eapply (Hem e r He Hin); [|done|congruence].
  intros Heq. apply Hid. rewrite <- Heq. by apply list_elem_of_fmap_2.
Qed.

(** Binding an invitation gives one user an address that no other user has. *)
Lemma email_index_bound db id email name now :
  users_ok (db_users db) → email_free db id (Some (normalize_email email)) = true →
  unique_where indexed_email ur_primary_email_normalized
    (update_where (λ r, String.eqb (ur_id r) id) (row_user_bound email name now) (db_users db)).
Proof.
  intros [Hid Hu] Hem. eapply unique_where_update_one; [done| | |done].
  - by intros r ?%String.eqb_eq.
  - intros r Hr _ (x & Hx & [[Hin Hne]%elem_of_where [_ Hd]%indexed_email_true]%elem_of_where)%list_elem_of_fmap.
    apply negb_true_iff, String.eqb_neq in Hne. rewrite email_free_spec in Hem.
    by apply (Hem _ x eq_refl).
Qed.

Lemma invitation_index_insert db row :
  unique_where indexed_invitation (λ r, (ir_provider_id r, ir_issuer r, ir_email_normalized r))
    (db_identity_invitations db) →
  invitation_free db (ir_provider_id row) (ir_issuer row) (ir_email_normalized row) = true →
  unique_where indexed_invitation (λ r, (ir_provider_id r, ir_issuer r, ir_email_normalized r))
    (db_identity_invitations db ++ [row]).
Proof.
  intros Hu Hf. apply unique_where_insert; [done|]. intros [_ Hn]%andb_true_iff.
  apply invitation_free_spec; [done|]. destruct (ir_email_normalized row); [eauto|done].
Qed.

(** The new name belongs to no other repository. *)
Lemma name_saved db p id name remote_url now :
  repositories_ok (db_repositories db) → (∀ r, p r = true → rep_id r = id) →
  repository_name_free id name db = true →
  unique_key rep_name (update_where p (row_saved name remote_url now) (db_repositories db)).
Proof.
  intros (Hid & Hn & _) Hp Hf%fresh_in_true.
  assert (∀ rows : list RepositoryRow, where_ (λ _, true) rows = rows) as Htrue.
  { intros rows. unfold where_. induction rows as [|r rows IH]; simpl; [done|]. by rewrite IH. }
  pose proof (unique_where_update_one rep_id (λ _, true) rep_name (db_repositories db) p
    (row_saved name remote_url now) id Hid Hp) as Hone.
  unfold unique_where in Hone. rewrite !Htrue in Hone. by apply Hone.
Qed.

#[export] Instance schema_store `{Env} : StoreStatements schema.
Proof.
  split.
  - intros row db [] Hid%fresh_in_true Hem _ _. schema_table. by eapply email_index_insert.
  - intros p status now db [] Hs Hp. schema_table. apply unique_where_update; [|done].
    intros r Hr%Hp [He _]%indexed_email_true. split; [|done]. apply indexed_email_true. auto.
  - intros p now db []. schema_table. by apply unique_where_update.
  - intros id email name now db Hsc Hem. pose proof (email_index_bound db id email name now
      (sc_users _ Hsc) Hem). destruct Hsc. schema_table.
  - intros row db [] Hid Hfree%identity_free_spec Hu. schema_table.
  - intros p now db []. schema_table.
  - intros row db [] Hid Hfree Hacc _ Hu. schema_table; [by apply invitation_index_insert|].
    apply references_insert; [done|]. by rewrite Hacc.
  - intros p id now db [] Hin. schema_table.
    + by apply unique_where_update.
    + apply references_update; [done|]. intros r k _ _ [= <-]. by right.
  - intros row db [] Hid Hname _ _. schema_table.
  - intros g u now db [] Hfree%membership_free Hg Hu. schema_table.
  - intros p db []. schema_table.
  - intros p m now db [] Hfree%edge_free _ _ Hp Hm. schema_table.
  - intros p db []. schema_table.
  - intros row db [] Hid Hfree%same_grant_free Hr _ _. schema_table. apply references_insert; [done|].
    by intros k [= <-].
  - intros p db []. schema_table.
  - intros row db [] Hid Hname Hlore _ _ _. schema_table.
  - intros p id name remote_url now db Hsc Hp Hf. pose proof (name_saved db p id name remote_url now
      (sc_repositories _ Hsc) Hp Hf). destruct Hsc. schema_table.
  - intros p status now db [] _. schema_table.
  - intros row db [] Hid Hu Hr. schema_table.
  - intros p now db []. schema_table.
  - intros row db [] Hid. schema_table.
  - intros row db [] Hid. schema_table.
Qed.

#[export] Instance schema_sessions : SessionStatements schema.
Proof.
  split.
  - intros row db [] H1 H2 H3 Happ _ Hr. schema_table. apply references_insert; [done|]. by rewrite Happ.
  - intros p user_id now db [] Hu. schema_table. apply references_update; [done|].
    intros r k _ _ Hk. right. by eapply user_exists_true.
  - intros p now db [] _. schema_table.
  - intros p db [] _. schema_table.
  - intros row db [] H1 H2 Hn _. schema_table. apply references_insert; [done|]. by rewrite Hn.
  - intros p user_id now db [] Hu. schema_table. apply references_update; [done|].
    intros r k _ _ Hk. right. by eapply user_exists_true.
  - intros p now db [] _. schema_table.
  - intros row db [] H1 H2. schema_table.
  - intros p private_state db []. schema_table.
  - intros p now db []. schema_table.
  - intros row db [] H1 Hu. schema_table.
  - intros p now db []. schema_table.
  - intros row db [] H1 Hs. schema_table. apply references_insert; [done|]. by intros k [= <-].
  - intros p now db []. schema_table.
Qed.
