(* ===== verification/SqlTyped.v ===== *)
(** What the code adds to the schema of the SQLite database: the values of its status columns,
    roles and repository ids, the subjects of grants, which are no foreign keys, and a group graph
    without cycles.  With the schema it is an invariant of every call. *)

From Stdlib Require Import ZArith Lia Ascii.
From stdpp Require Import base gmap strings list.
From S2P Require Import Prelude Model MemState ModelFacts Demo.
From S2P Require Import SqlRows SqlBase SqlAccounts SqlGroups SqlGrants SqlTokens.
From S2P Require Import SqlAudited SqlSessions SqlStore SqlKeep SqlSchema.

(** * Well-typed rows *)

Definition user_typed (r : UserRow) : Prop := ur_status r ∈ ["active"; "pending"; "disabled"].
Definition group_typed (r : GroupRow) : Prop := gp_name r ≠ "".
Definition repository_typed (r : RepositoryRow) : Prop :=
  stored_repository_id (rep_lore_repository_id r)
  ∧ rep_status r ∈ ["active"; "deleted"]
  ∧ rep_created_by_source r ∈ ["manual"; "rebac_create_resource"].
Definition grant_typed (db : Db) (r : GrantRow) : Prop :=
  is_known_role (gt_role r) = true ∧ subject_exists db (gt_subject_type r) (gt_subject_id r).
Definition invitation_typed (r : InvitationRow) : Prop :=
  ir_status r = "pending" ∧ ir_accepted_identity_id r = None
  ∨ ir_status r = "accepted" ∧ is_Some (ir_accepted_identity_id r).

(** A pending or expired device or session has no user, an approved, completed or consumed one
    has. *)
Definition device_typed (r : DeviceRow) : Prop :=
  dr_status r ∈ ["pending"; "expired"] ∧ dr_approved_user_id r = None
  ∨ dr_status r ∈ ["approved"; "consumed"] ∧ is_Some (dr_approved_user_id r).
Definition auth_session_typed (r : AuthSessionRow) : Prop :=
  sr_status r = "pending" ∧ sr_user_id r = None
  ∨ sr_status r ∈ ["completed"; "consumed"] ∧ is_Some (sr_user_id r).

(** No group is a (transitive) member of itself. *)
Definition nesting_acyclic (db : Db) : Prop := ∀ g, ¬ tc (nested_in db) g g.

Record typed (db : Db) : Prop := {
  ty_users : Forall user_typed (db_users db);
  ty_groups : Forall group_typed (db_groups db);
  ty_repositories : Forall repository_typed (db_repositories db);
  ty_grants : Forall (grant_typed db) (db_grants db);
  ty_invitations : Forall invitation_typed (db_identity_invitations db);
  ty_devices : Forall device_typed (db_device_authorizations db);
  ty_auth_sessions : Forall auth_session_typed (db_auth_sessions db);
  ty_nesting : nesting_acyclic db
}.

(** * Lemmas *)

Section Rows.
Context {A : Type} (P : A → Prop).

Lemma Forall_insert rows x : Forall P rows → P x → Forall P (rows ++ [x]).
Proof. intros. apply Forall_app. by split; [|apply Forall_singleton]. Qed.

Lemma Forall_where p rows : Forall P rows → Forall P (where_ p rows).
Proof. rewrite !Forall_forall. intros Hall x [Hx _]%elem_of_where. by apply Hall. Qed.

Lemma Forall_update p f rows :
  (∀ r, P r → p r = true → P (f r)) → Forall P rows → Forall P (update_where p f rows).
Proof.
  rewrite !Forall_forall. intros Hf Hall x (r & Hr & ->)%elem_of_update_where.
  destruct (p r) eqn:Hp; auto.
Qed.
End Rows.

(** The query of the cycle check is complete, so it decides the nesting. *)
Lemma elem_of_member_groups db g m : m ∈ member_groups db g ↔ nested_in db m g.
Proof.
  unfold member_groups. autorewrite with sql. setoid_rewrite elem_of_where.
  setoid_rewrite String.eqb_eq. unfold nested_in. naive_solver.
Qed.

Lemma elem_of_descendants db g m : m ∈ descendants db g ↔ rtc (nested_in db) m g.
Proof.
  unfold descendants.
  destruct (recursive_query_spec (member_groups db) [g] (S (S (length (db_group_groups db))))
    (g :: map gg_member_group_id (db_group_groups db))) as (rows & -> & _ & Hrows).
  - apply NoDup_singleton.
  - set_solver.
  - intros c p (gg & Hin & _ & <-)%elem_of_member_groups. right. apply elem_of_map. eauto.
  - simpl. rewrite length_map. lia.
  - simpl. rewrite Hrows. unfold derived. setoid_rewrite list_elem_of_singleton.
    assert (∀ a b, rtc (λ a b, b ∈ member_groups db a) a b ↔ rtc (nested_in db) b a) as Hflip.
    { intros a b. split; induction 1; try apply rtc_refl.
      - eapply rtc_r; [done|]. by apply elem_of_member_groups.
      - eapply rtc_r; [done|]. by apply elem_of_member_groups. }
    split; [intros (x & -> & Hr)|intros Hr; exists g; split; [done|]]; by apply Hflip.
Qed.

Lemma nesting_acyclic_insert db p m now :
  nesting_acyclic db → p ∉ descendants db m →
  nesting_acyclic (set_group_groups (λ rows, rows ++ [mkGroupGroupRow p m now]) db).
Proof.
  intros Hac Hc g. eapply (acyclic_add (nested_in db) _ m p); [|exact Hac|].
  - intros x y (gg & [Hin|Hin%list_elem_of_singleton]%elem_of_app & Hp & Hm); simpl in *.
    + left. by exists gg.
    + right. by subst.
  - by rewrite <- elem_of_descendants.
Qed.

Lemma nesting_acyclic_delete db p :
  nesting_acyclic db → nesting_acyclic (set_group_groups (where_ p) db).
Proof.
  intros Hac g Hg. apply (Hac g). eapply tc_congruence with (f := λ x, x); [|done].
  intros x y (gg & [Hin _]%elem_of_where & ?). by exists gg.
Qed.

Lemma grant_typed_mono db db' rows :
  ur_id <$> db_users db ⊆ ur_id <$> db_users db' → gp_id <$> db_groups db ⊆ gp_id <$> db_groups db' →
  Forall (grant_typed db) rows → Forall (grant_typed db') rows.
Proof.
  intros Hu Hg Hall. eapply Forall_impl; [exact Hall|]. intros r [Hr Hs]. split; [done|].
  destruct Hs as [[??]|[??]]; [left|right]; split; auto.
Qed.

(** * Statements keep the rows well typed *)

Ltac one_of := repeat constructor.

(** The tables that the statement does not write are well typed as before. *)
Ltac typed_table :=
  split; simpl; try assumption; try (apply Forall_insert; [done|]); try (apply Forall_where; done);
  try (eapply Forall_update; [|done]).

#[export] Instance typed_store `{Env} : StoreStatements typed.
Proof.
  split.
  - intros row db [] _ _ Hs _. typed_table; [unfold user_typed; set_solver|].
    eapply grant_typed_mono; [| |done]; simpl; rewrite ?fmap_app; set_solver.
  - intros p status now db [] Hs _. typed_table.
    + intros r _ _. unfold user_typed. simpl. set_solver.
    + eapply grant_typed_mono; [| |done]; simpl; rewrite ?update_fmap by done; set_solver.
  - intros p now db []. typed_table; [by intros r ??|].
    eapply grant_typed_mono; [| |done]; simpl; rewrite ?update_fmap by done; set_solver.
  - intros id email name now db [] _. typed_table; [intros r ??; unfold user_typed; one_of|].
    eapply grant_typed_mono; [| |done]; simpl; rewrite ?update_fmap by done; set_solver.
  - intros row db [] _ _ _. typed_table.
  - intros p now db []. typed_table.
  - intros row db [] _ _ Ha Hs _. typed_table. by left.
  - intros p id now db [] _. typed_table. intros r _ _. right. by split.
  - intros row db [] _ _ Hn _. typed_table; [done|].
    eapply grant_typed_mono; [| |done]; simpl; rewrite ?fmap_app; set_solver.
  - intros g u now db [] _ _ _. typed_table.
  - intros p db []. typed_table.
  - intros p m now db [] _ _ Hc _ _. typed_table. by apply nesting_acyclic_insert.
  - intros p db []. typed_table. by apply nesting_acyclic_delete.
  - intros row db [] _ _ _ Hr Hs. typed_table. by split.
  - intros p db []. typed_table.
  - intros row db [] _ _ _ Hi Hs Hc. typed_table. split_and!; [done| |done]. rewrite Hs. one_of.
  - intros p id name url now db [] _ _. typed_table. intros r (?&?&?) _. split_and!; [done|one_of|done].
  - intros p status now db [] Hs. typed_table. intros r (?&?&?) _. by split_and!.
  - intros row db [] _ _ _. typed_table.
  - intros p now db []. typed_table.
  - intros row db [] _. typed_table.
  - intros row db [] _. typed_table.
Qed.

#[export] Instance typed_sessions : SessionStatements typed.
Proof.
  split.
  - intros row db [] _ _ _ Ha Hs _. typed_table. left. rewrite Hs. split; [one_of|done].
  - intros p u now db [] _. typed_table. intros r _ _. right. split; [one_of|eauto].
  - intros p now db [] Hp. typed_table. intros r [[Hs _]|[_ ?]] Hr%Hp.
    + rewrite Hr in Hs. set_solver.
    + right. split; [one_of|done].
  - intros p db [] Hp. typed_table. intros r [[_ ?]|[Hs _]] Hr%Hp.
    + left. split; [one_of|done].
    + rewrite Hr in Hs. set_solver.
  - intros row db [] _ _ Ha Hs. typed_table. by left.
  - intros p u now db [] _. typed_table. intros r _ _. right. split; [one_of|eauto].
  - intros p now db [] Hp. typed_table. intros r [[Hs _]|[_ ?]] Hr%Hp.
    + congruence.
    + right. split; [one_of|done].
  - intros row db [] _ _. typed_table.
  - intros p ps db []. typed_table.
  - intros p now db []. typed_table.
  - intros row db [] _ _. typed_table.
  - intros p now db []. typed_table.
  - intros row db [] _ _. typed_table.
  - intros p now db []. typed_table.
Qed.

(** Ids of users and groups are drawn, so they inherit what holds of every UUID. *)
Definition drawn_ids (P : string → Prop) (db : Db) : Prop :=
  Forall P (ur_id <$> db_users db) ∧ Forall P (gp_id <$> db_groups db).

Section Drawn.
Context `{Env} (P : string → Prop).
Hypothesis Hdrawn : ∀ i, P (uuid_src i).

Lemma drawn_ids_store : StoreStatements (drawn_ids P).
Proof.
  split; intros; unfold drawn_ids in *; destruct_and?; simpl;
    rewrite ?fmap_app, ?update_fmap by done; split; try done.
  all: apply Forall_insert; [done|].
  all: match goal with Hx : ∃ _, _ = uuid_src _ |- _ => by destruct Hx as [i ->] end.
Qed.

Lemma drawn_ids_sessions : SessionStatements (drawn_ids P).
Proof. split; intros; assumption. Qed.
End Drawn.

(** * Every call *)

Lemma schema_empty : schema empty_db.
Proof. split; simpl; schema_unfold; split_and?; by try apply NoDup_nil_2; intros ??; set_solver. Qed.

Lemma typed_empty : typed empty_db.
Proof.
  split; try apply Forall_nil_2. intros g Hg. inversion Hg as [x y (gg & Hin & _)|x y z (gg & Hin & _)];
    by apply not_elem_of_nil in Hin.
Qed.

Section Calls.
Context `{Env} `{Sqlite} `{SerdeJson}.

(** C4: Every call of the SQLite adapter, plain, audited, sign-in, token, device or session, keeps
    the database well typed: the keys, unique and partial indexes and foreign keys of the
    schema, and what only the code guarantees: status values, known roles, stored repository
    ids, grant subjects that exist, a user on every approved device and completed session, an
    accepted identity on every accepted invitation, and a group graph without cycles. *)
Theorem sql_rows_well_typed ops w :
  schema (st w) → typed (st w) →
  schema (st (run_sqls ops w).2) ∧ typed (st (run_sqls ops w).2).
Proof. intros. split; by apply run_sqls_keeps; try typeclasses eauto. Qed.
End Calls.

Lemma office_schema : schema (st office_world).
Proof. apply (run_sqls_keeps schema office). apply schema_empty. Qed.

Lemma sql_rows_well_typed_witness :
  schema (st office_world) ∧ typed (st office_world)
  ∧ tc (nested_in (st office_world)) (letters 5) (letters 3).
Proof.
  destruct (sql_rows_well_typed office (mkWorld empty_db 0 0) schema_empty typed_empty).
  split_and!; [assumption..|]. apply tc_once.
  exists (mkGroupGroupRow (letters 3) (letters 5) 1008). vm_compute. repeat split. left.
Defined.
