(* ===== verification/SqlReach.v ===== *)
(** The production policy over the databases that calls reach: what its theorems assume of the
    rows is an invariant of the stores, so a check of access is total and decides. *)

From Stdlib Require Import ZArith Lia Ascii.
From stdpp Require Import base gmap strings list.
From S2P Require Import Prelude Model MemState ModelFacts Demo.
From S2P Require Import SqlRows SqlBase SqlGroups SqlTokens SqlAuthz SqlTuples SqlAuthzFacts.
From S2P Require Import SqlStore SqlKeep SqlSchema SqlTyped.

(** * Depth of the nesting *)

(** Chains of an acyclic nesting use each edge once. *)
Lemma acyclic_within db : nesting_acyclic db →
  ∀ n g (used : list (string * string)),
    NoDup used → (∀ p c, (p, c) ∈ used → nested_in db c p ∧ rtc (nested_in db) g c) →
    length (db_group_groups db) ≤ n + length used → nesting_within db n g.
Proof.
  intros Hac. induction n as [|n IH]; intros g used Hnd Hused Hlen c Hc.
  all: assert ((g, c) ∉ used) as Hnew by
    (intros [_ Hr]%Hused; apply (Hac g); eapply tc_rtc_l; [exact Hr|by apply tc_once]).
  all: assert (NoDup ((g, c) :: used)) as Hnd' by (by apply NoDup_cons).
  - assert (length ((g, c) :: used) ≤ length (db_group_groups db)); [|simpl in *; lia].
    rewrite <- (length_map (λ r, (gg_group_id r, gg_member_group_id r)) (db_group_groups db)).
    apply submseteq_length, NoDup_submseteq; [done|].
    intros [p m] Hin. assert (nested_in db m p) as (gg & ? & <- & <-).
    { apply elem_of_cons in Hin as [[= -> ->]|Hin]; [done|]. by apply Hused. }
    apply elem_of_map. by exists gg.
  - apply (IH c ((g, c) :: used)); [done| |simpl; lia].
    intros p m [[= -> ->]|[Hm Hr]%Hused]%elem_of_cons; [done|]. split; [done|].
    etrans; [|exact Hr]. by apply rtc_once.
Qed.

Lemma few_nestings_within db n g :
  nesting_acyclic db → length (db_group_groups db) ≤ n → nesting_within db n g.
Proof.
  intros Hac Hn. apply (acyclic_within db Hac n g []); [apply NoDup_nil_2| |simpl; lia].
  by intros p c ?%not_elem_of_nil.
Qed.

(** * What the policy assumes of the rows *)

Definition plain_id (id : string) : Prop := no_hash id = true.

Lemma typed_plain db : schema db → typed db → drawn_ids plain_id db → plain_db db.
Proof.
  intros Hs Ht [Hu Hg]. rewrite Forall_forall in Hu, Hg. split.
  - intros g Hin. pose proof (ty_grants _ Ht) as Hgt. rewrite Forall_forall in Hgt.
    destruct (Hgt g Hin) as [_ [[-> ?]|[-> ?]]]; (split; [auto|]); [by apply Hu|by apply Hg].
  - intros u g (gm & Hin & <- & <-). apply Hu. destruct (sc_members _ Hs) as (_ & _ & Href).
    by apply (Href gm _ Hin).
  - intros c p (gg & Hin & <- & <-). apply Hg. destruct (sc_edges _ Hs) as (_ & _ & Href).
    by apply (Href gg _ Hin).
Qed.

Lemma typed_known_role db user_id id role :
  typed db → reachable_role db user_id id role → is_known_role role = true.
Proof.
  intros Ht (r & g & (_ & Hin & _) & _ & <- & _). pose proof (ty_grants _ Ht) as Hg.
  rewrite Forall_forall in Hg. by destruct (Hg g Hin).
Qed.

Section Reach.
Context `{Env} `{Sqlite} `{SerdeJson} `{AuthzCore} (n : nat) `{!ResolverLaws (S n)}.
Context (self : Rebac.RebacAuthorizationPolicy).
Hypothesis Hself : Rebac.new = Ok self.

(** UUIDs are hexadecimal digits and dashes. *)
Hypothesis Huuid : ∀ i, plain_id (uuid_src i).

Definition reached (ops : list sql_op) : World Db := (run_sqls ops (mkWorld empty_db 0 0)).2.

Lemma reached_invariants ops :
  schema (st (reached ops)) ∧ typed (st (reached ops)) ∧ drawn_ids plain_id (st (reached ops)).
Proof.
  pose proof (drawn_ids_store plain_id Huuid). pose proof (drawn_ids_sessions plain_id).
  unfold reached. split_and!.
  - apply (run_sqls_keeps schema). exact schema_empty.
  - apply (run_sqls_keeps typed). exact typed_empty.
  - apply (run_sqls_keeps (drawn_ids plain_id)). split; apply Forall_nil_2.
Qed.

(** C9: On every database that calls of the stores reach from the empty one, the production policy
    answers each check of access: true exactly when a grant of admin, or of a role that allows
    the action, covers the user, on a repository that is active. It fails only with NotFound for
    a repository that is not active, or when more nestings of groups are stored than the
    resolver has levels. *)
Theorem reached_policy_decides ops user_id resource_id action :
  plain_id user_id →
  ∃ r, Rebac.can_access self user_id resource_id action (reached ops) = (r, reached ops)
    ∧ match r with
      | Ok b => active_repository (st (reached ops)) resource_id
          ∧ (b = true ↔ ∃ role, granted_row (st (reached ops)) user_id resource_id role
                              ∧ decisive role action)
      | Err e => e = NotFound ∧ ¬ active_repository (st (reached ops)) resource_id
          ∨ n < length (db_group_groups (st (reached ops)))
      end.
Proof.
  intros Hu. destruct (reached_invariants ops) as (Hs & Ht & Hd).
  destruct (can_access_outcome_holds n self Hself user_id resource_id action (reached ops))
    as (r & Hrun & Ho); [by apply typed_plain|done|].
  exists r. split; [exact Hrun|]. destruct r as [b|e]; [exact Ho|].
  destruct Ho as [?|[(role & Hr%(typed_known_role _ _ _ _ Ht) & Hf)|Hdeep]]; [by left|congruence|right].
  apply Nat.nle_gt. intros Hle. apply Hdeep. intros g. apply few_nestings_within; [apply Ht|done].
Qed.
End Reach.

(** * Examples *)

#[local] Existing Instances demo_authz_core demo_resolver_laws.

Lemma demo_plain_ids i : plain_id (uuid_src i).
Proof. change (no_hash (letters (S i)) = true). generalize (S i). by induction n. Qed.

Lemma reached_policy_decides_witness :
  Rebac.can_access demo_policy bob_id "urc-game" "write" (reached office) = (Ok true, reached office)
  ∧ ∃ role, granted_row (st (reached office)) bob_id "urc-game" role ∧ decisive role "write".
Proof.
  destruct (reached_policy_decides 2 demo_policy eq_refl demo_plain_ids office bob_id "urc-game" "write"
    eq_refl) as (r & Hr & Ho).
  assert (r = Ok true) as ->.
  { assert ((Rebac.can_access demo_policy bob_id "urc-game" "write" (reached office)).1 = Ok true) as Hv
      by (vm_compute; reflexivity). rewrite Hr in Hv. exact Hv. }
  split; [exact Hr|]. by apply Ho.
Defined.
