(* ===== verification/SqlLoginFacts.v ===== *)
(** Signing in on SQLite: only a bound identity of an active user or the invited owner of a
    verified address gets in, and a binding holds whatever calls follow. *)

From Stdlib Require Import ZArith Lia Ascii.
From stdpp Require Import base gmap strings list.
From S2P Require Import Prelude Model MemState Demo.
From S2P Require Import SqlRows SqlBase SqlAccounts SqlGroups SqlTokens.
From S2P Require Import SqlSessions SqlStore SqlKeep SqlSchema SqlTyped.

(** * Specification *)

Section Spec.
Context (req : LoginResolutionRequest).

Definition login_key : string * string * string :=
  (trim (ei_provider_id (lrr_identity req)), trim (ei_issuer (lrr_identity req)),
   trim (ei_subject (lrr_identity req))).

(** The identity row of the request. *)
Definition bound_row (db : Db) (r : IdentityRow) : Prop :=
  r ∈ db_external_identities db ∧ (xr_provider_id r, xr_issuer r, xr_subject r) = login_key
  ∧ xr_status r = "active".

Definition group_names (db : Db) (user_id : string) : list string :=
  map (λ row : GroupRow * GroupMemberRow, gp_name row.1)
    (order_by (λ row : GroupRow * GroupMemberRow, [gp_name row.1])
      (where_ (λ row : GroupRow * GroupMemberRow, String.eqb (gm_user_id row.2) user_id)
        (join_on (λ g gm, String.eqb (gm_group_id gm) (gp_id g)) (db_groups db)
          (db_group_members db)))).

(** The identity is bound: both rows are stamped and nothing else changes. *)
Definition known_sign_in (now : Z) (db db' : Db) (p : TokenPrincipal) : Prop :=
  ∃ r u, bound_row db r ∧ u ∈ db_users db ∧ ur_id u = xr_user_id r ∧ ur_status u = "active"
    ∧ p = principal_from_user (user_from_row (row_logged_in now u)) (xr_provider_id r)
            (group_names db (ur_id u))
    ∧ db' = set_users (update_where (λ u, String.eqb (ur_id u) (xr_user_id r)) (row_logged_in now))
              (set_external_identities
                (update_where (λ x, String.eqb (xr_id x) (xr_id r)) (row_identity_seen now)) db).

(** The policy and the provider vouch for the address of the identity. *)
Definition vouched : Prop :=
  ei_email_verified (lrr_identity req) = true
  ∧ allows_verified_email_invitation_binding (lrr_policy req) = true
  ∧ email_domain_allowed (normalize_email (ei_email (lrr_identity req)))
      (ltp_allowed_email_domains (lrr_policy req)) = true.

(** The invitation of the address that an identity of the request may claim at [now]. *)
Definition claimable (now : Z) (i : InvitationRow) : Prop :=
  (ir_provider_id i, ir_issuer i) = login_key.1
  ∧ ir_email_normalized i = Some (normalize_email (ei_email (lrr_identity req)))
  ∧ ir_binding_policy i = "verified_email_invitation" ∧ ir_status i = "pending"
  ∧ ∀ t, ir_expires_at i = Some t → (now < t)%Z.

(** The invitation is spent on a new identity row of its user, who is active from then on. *)
Definition invited_sign_in (now : Z) (db db' : Db) (p : TokenPrincipal) (b : LoginBindingResult) : Prop :=
  vouched ∧ ∃ i, i ∈ db_identity_invitations db ∧ claimable now i ∧ ir_id i = lb_invitation_id b
    ∧ (∃ r, db_external_identities db' = db_external_identities db ++ [r]
         ∧ bound_row db' r ∧ xr_user_id r = ir_user_id i ∧ xr_id r = lb_external_identity_id b)
    ∧ (∃ t, row_invitation_accepted (lb_external_identity_id b) t i ∈ db_identity_invitations db')
    ∧ (∃ u, u ∈ db_users db' ∧ ur_id u = ir_user_id i ∧ ur_status u = "active"
         ∧ p = principal_from_user (user_from_row u) login_key.1.1 (group_names db' (ur_id u))).
End Spec.

(** * Sign-in *)

Section SignIn.
Context `{Env} `{Sqlite} `{SerdeJson}.

Lemma group_names_run user_id w :
  SqlAccounts.group_names_conn user_id w = (Ok (group_names (st w) user_id), w).
Proof. done. Qed.

Lemma user_by_id_run id w u :
  schema (st w) → u ∈ db_users (st w) → ur_id u = id →
  SqlAccounts.user_by_id_tx id w = (Ok (user_from_row u), w).
Proof.
  intros Hs Hu <-. unfold SqlAccounts.user_by_id_tx, query_row. mrun.
  assert (hd_error (where_ (λ r, String.eqb (ur_id r) (ur_id u)) (db_users (st w))) = Some u) as ->; [|done].
  by apply hd_where_unique; [apply (sc_users _ Hs)|].
Qed.

(** The query for the identity finds its one row. *)
Lemma find_bound_row req db :
  schema db →
  match hd_error (where_ (λ r, String.eqb (xr_provider_id r) (trim (ei_provider_id (lrr_identity req)))
                     && String.eqb (xr_issuer r) (trim (ei_issuer (lrr_identity req)))
                     && String.eqb (xr_subject r) (trim (ei_subject (lrr_identity req)))
                     && String.eqb (xr_status r) "active") (db_external_identities db)) with
  | Some r => bound_row req db r ∧ ∀ x, bound_row req db x → x = r
  | None => ∀ x, ¬ bound_row req db x
  end.
Proof.
  intros Hs.
  assert (∀ x, x ∈ where_ (λ r, String.eqb (xr_provider_id r) (trim (ei_provider_id (lrr_identity req)))
                     && String.eqb (xr_issuer r) (trim (ei_issuer (lrr_identity req)))
                     && String.eqb (xr_subject r) (trim (ei_subject (lrr_identity req)))
                     && String.eqb (xr_status r) "active") (db_external_identities db)
            ↔ bound_row req db x) as Hin.
  { intros x. unfold bound_row, login_key. rewrite elem_of_where, !andb_true_iff, !String.eqb_eq.
    split; [intros (? & ((-> & ->) & ->) & ->); done|].
    intros (? & [= -> -> ->] & ->). done. }
  destruct (hd_error _) as [r|] eqn:Hr.
  - apply elem_of_hd in Hr. apply Hin in Hr. split; [done|]. intros x Hx.
    destruct (sc_identities _ Hs) as (_ & Hk & _).
    eapply unique_key_eq; [exact Hk|apply Hx|apply Hr|]. simpl.
    destruct Hx as (_ & -> & _), Hr as (_ & -> & _). done.
  - intros x Hx%Hin. destruct (where_ _ _); [by apply not_elem_of_nil in Hx|done].
Qed.

Lemma bound_user req db r :
  schema db → bound_row req db r → ∃ u, u ∈ db_users db ∧ ur_id u = xr_user_id r.
Proof.
  intros Hs (Hr & _). destruct (sc_identities _ Hs) as (_ & _ & Href).
  destruct (proj1 (list_elem_of_fmap ur_id (db_users db) (xr_user_id r)) (Href r _ Hr eq_refl))
    as (u & -> & ?). by exists u.
Qed.

(** The first branch, on the row that was found. *)
Lemma existing_login_run r u w :
  schema (st w) → r ∈ db_external_identities (st w) → u ∈ db_users (st w) → ur_id u = xr_user_id r →
  let now := unix_of (clock (ticks w)) in
  let db' := set_users (update_where (λ u, String.eqb (ur_id u) (xr_user_id r)) (row_logged_in now))
    (set_external_identities (update_where (λ x, String.eqb (xr_id x) (xr_id r)) (row_identity_seen now))
      (st w)) in
  let w' := mkWorld db' (S (ticks w)) (draws w) in
  SqlAccounts.existing_login (external_identity_from_row r) w
  = if String.eqb (ur_status u) "active"
    then (Ok (principal_from_user (user_from_row (row_logged_in now u)) (xr_provider_id r)
                (group_names (st w) (ur_id u)), mkLoginBindingResult "existing" (xr_id r) ""), w')
    else (Err PermissionDenied, w').
Proof.
  intros Hs Hr Hu Hid. simpl. unfold SqlAccounts.existing_login, update_rows. mrun.
  set (w' := mkWorld (set_users _ _) _ _).
  assert (schema (st w')) as Hs'.
  { unfold w'. simpl. by apply user_logged_in, identity_seen. }
  erewrite (user_by_id_run (xr_user_id r) w' (row_logged_in _ u)); [|done| |done].
  - unfold SqlAccounts.active_user. simpl. destruct (String.eqb (ur_status u) "active"); [|done].
    unfold SqlAccounts.group_names_conn. mrun. done.
  - simpl. apply elem_of_update_where. exists u. split; [done|]. by rewrite Hid, String.eqb_refl.
Qed.

(** The statements of a claimed invitation, when they all succeed. *)
Lemma bind_invitation_Ok identity provider_id issuer subject i w p b w' :
  i ∈ db_identity_invitations (st w) → ir_status i = "pending" →
  SqlAccounts.bind_invitation identity provider_id issuer subject (identity_invitation_from_row i) w
    = (Ok (p, b), w') →
  ∃ r now, let id := lb_external_identity_id b in
    lb_status b = "bound_invitation" ∧ lb_invitation_id b = ir_id i
    ∧ xr_id r = id ∧ xr_user_id r = ir_user_id i ∧ xr_status r = "active"
    ∧ (xr_provider_id r, xr_issuer r, xr_subject r) = (provider_id, issuer, subject)
    ∧ db_external_identities (st w') = db_external_identities (st w) ++ [r]
    ∧ row_invitation_accepted id now i ∈ db_identity_invitations (st w')
    ∧ ∃ u, u ∈ db_users (st w') ∧ ur_id u = ir_user_id i ∧ ur_status u = "active"
        ∧ p = principal_from_user (user_from_row u) provider_id (group_names (st w') (ur_id u)).
Proof.
  intros Hi Hst. unfold SqlAccounts.bind_invitation, SqlAccounts.insert_identity, insert_row,
    update_rows_checked, update_rows, require_affected, SqlAccounts.user_by_id_tx, query_row,
    SqlAccounts.group_names_conn.
  intros Hrun. minv.
  match goal with Hh : hd_error _ = Some ?row |- _ => rename row into u; rename Hh into Hu end.
  apply elem_of_hd, elem_of_where in Hu as [Hu Hid]. apply String.eqb_eq in Hid. simpl in *.
  eexists _, _. split_and!; try reflexivity. all: try reflexivity.
  - apply elem_of_update_where. exists i. split; [done|]. by rewrite Hst, !String.eqb_refl.
  - exists u. split_and!; [done|done| |done].
    apply elem_of_update_where in Hu as (u0 & _ & ->). revert Hid.
    destruct (String.eqb_spec (ur_id u0) (ir_user_id i)); [done|]. by intros ?.
Qed.

Lemma pending_invitation_Ok req now i db :
  (hd_error (order_by_int ir_created_at (where_ (λ r,
      String.eqb (ir_provider_id r) (trim (ei_provider_id (lrr_identity req)))
      && String.eqb (ir_issuer r) (trim (ei_issuer (lrr_identity req)))
      && bool_decide (ir_email_normalized r = Some (normalize_email (ei_email (lrr_identity req))))
      && String.eqb (ir_binding_policy r) "verified_email_invitation"
      && String.eqb (ir_status r) "pending"
      && match ir_expires_at r with None => true | Some t => (now <? t)%Z end)
      (db_identity_invitations db)))) = Some i →
  i ∈ db_identity_invitations db ∧ claimable req now i.
Proof.
  intros Hi%elem_of_hd%elem_of_sort_by. apply elem_of_where in Hi as [Hin Hp]. split; [done|].
  rewrite !andb_true_iff, !String.eqb_eq, bool_decide_eq_true in Hp.
  destruct Hp as (((((Hpr & His) & He) & Hb) & Hs) & Hx). split_and!; try done.
  - unfold login_key. simpl. congruence.
  - intros t Ht. rewrite Ht in Hx. by apply Z.ltb_lt.
Qed.

Lemma sql_claim_invitation_Ok req w p b w' :
  SqlAccounts.claim_invitation req (trim (ei_provider_id (lrr_identity req)))
    (trim (ei_issuer (lrr_identity req))) (trim (ei_subject (lrr_identity req))) w = (Ok (p, b), w') →
  lb_status b = "bound_invitation"
  ∧ invited_sign_in req (unix_of (clock (ticks w))) (st w) (st w') p b.
Proof.
  unfold SqlAccounts.claim_invitation, SqlAccounts.pending_invitation. intros Hrun. minv.
  match goal with Hh : hd_error _ = Some ?row |- _ => rename row into i; rename Hh into Hi end.
  apply pending_invitation_Ok in Hi as [Hin Hc].
  match goal with Hb : SqlAccounts.bind_invitation _ _ _ _ _ _ = _ |- _ =>
    apply bind_invitation_Ok in Hb as (r & t & Hst & Hii & Hxi & Hxu & Hxs & Hkey & Hids & Hacc & Hu);
      [|done|apply Hc] end.
  simpl in *. split; [done|]. split.
  - unfold vouched. rewrite !negb_false_iff in *. by destruct (ei_email_verified _).
  - exists i. split_and!; [done|done|done| |by exists t|done].
    exists r. split_and!; [done| |done|done]. split_and!; [|done|done].
    rewrite Hids. apply elem_of_app. right. by left.
Qed.

Lemma sql_resolve_login_Ok req w p b w' :
  schema (st w) → SqlAccounts.resolve_login req w = (Ok (p, b), w') →
  lb_status b = "existing" ∧ known_sign_in req (unix_of (clock (ticks w))) (st w) (st w') p
  ∨ lb_status b = "bound_invitation" ∧ (∀ r, ¬ bound_row req (st w) r)
    ∧ invited_sign_in req (unix_of (clock (ticks w))) (st w) (st w') p b.
Proof.
  intros Hs. unfold SqlAccounts.resolve_login. destruct (_ || _ || _); [done|].
  unfold transaction. intros Hrun.
  match type of Hrun with match ?m with _ => _ end = _ => destruct m as [[[p0 b0]|e] w0] eqn:Hbody end;
    [|done].
  injection Hrun as -> -> ->. unfold bind at 1, get_state at 1 in Hbody.
  pose proof (find_bound_row req (st w) Hs) as Hf.
  destruct (hd_error (where_ _ (db_external_identities (st w)))) as [r|].
  - destruct Hf as [Hr _]. destruct (bound_user req (st w) r Hs Hr) as (u & Hu & Hid).
    rewrite (existing_login_run r u w Hs (proj1 Hr) Hu Hid) in Hbody.
    destruct (String.eqb_spec (ur_status u) "active") as [Ha|]; [|done].
    injection Hbody as <- <- <-. left. split; [done|]. by exists r, u.
  - right. apply sql_claim_invitation_Ok in Hbody as [? ?]. done.
Qed.

(** A request that passes the first check. *)
Definition complete_request (req : LoginResolutionRequest) : Prop :=
  let '(provider_id, issuer, subject) := login_key req in
  provider_id ≠ "" ∧ issuer ≠ "" ∧ subject ≠ "".

Lemma resolve_login_complete req w a w' :
  SqlAccounts.resolve_login req w = (Ok a, w') → complete_request req.
Proof.
  unfold SqlAccounts.resolve_login, complete_request, login_key. destruct (_ || _ || _) eqn:He; [done|].
  intros _. apply orb_false_iff in He as [[?%is_empty_false ?%is_empty_false]%orb_false_iff ?%is_empty_false].
  done.
Qed.

(** Once bound, the identity decides the sign-in: its user gets in while active. *)
Lemma resolve_login_bound req w r u :
  schema (st w) → complete_request req → bound_row req (st w) r → u ∈ db_users (st w) →
  ur_id u = xr_user_id r →
  match SqlAccounts.resolve_login req w with
  | (Ok (p, b), _) => ur_status u = "active" ∧ tp_user_id p = ur_id u ∧ lb_status b = "existing"
      ∧ lb_external_identity_id b = xr_id r
  | (Err e, w') => ur_status u ≠ "active" ∧ e = PermissionDenied ∧ st w' = st w
  end.
Proof.
  intros Hs Hc Hr Hu Hid. unfold SqlAccounts.resolve_login.
  assert (is_empty (trim (ei_provider_id (lrr_identity req)))
    || is_empty (trim (ei_issuer (lrr_identity req)))
    || is_empty (trim (ei_subject (lrr_identity req))) = false) as ->.
  { destruct Hc as (?%is_empty_false & ?%is_empty_false & ?%is_empty_false). rewrite !orb_false_iff. done. }
  unfold transaction. unfold bind at 1, get_state at 1.
  pose proof (find_bound_row req (st w) Hs) as Hf.
  destruct (hd_error (where_ _ (db_external_identities (st w)))) as [x|]; [|by destruct (Hf r)].
  destruct Hf as [_ Hx]. apply Hx in Hr as Hrx. subst x.
  rewrite (existing_login_run r u w Hs (proj1 Hr) Hu Hid).
  destruct (String.eqb_spec (ur_status u) "active"); simpl; done.
Qed.

(** The identity is bound to the user. *)
Definition bound_to (req : LoginResolutionRequest) (user_id id : string) (db : Db) : Prop :=
  ∃ r, bound_row req db r ∧ xr_user_id r = user_id ∧ xr_id r = id.

#[local] Instance bound_to_store req user_id id : StoreStatements (bound_to req user_id id).
Proof.
  split; intros; try assumption;
    match goal with Hb : bound_to _ _ _ _ |- _ => destruct Hb as (x & (Hin & ? & ?) & ? & ?) end.
  - exists x. split; [|done]. split; [|done]. simpl. apply elem_of_app. by left.
  - exists (if p x then row_identity_seen now x else x). split; [split|by destruct (p x)].
    + simpl. apply elem_of_update_where. by exists x.
    + by destruct (p x).
Qed.

#[local] Instance bound_to_sessions req user_id id : SessionStatements (bound_to req user_id id).
Proof. split; intros; assumption. Qed.

(** A sign-in leaves the identity bound to the user it admitted. *)
Lemma sign_in_binds req w p b w' :
  schema (st w) → SqlAccounts.resolve_login req w = (Ok (p, b), w') →
  bound_to req (tp_user_id p) (lb_external_identity_id b) (st w').
Proof.
  intros Hs Hrun. destruct (sql_resolve_login_Ok req w p b w' Hs Hrun) as
    [(Hb & r & u & Hr & Hu & Hid & Ha & -> & Hw)|(_ & _ & _ & i & _ & _ & _ & (r & _ & Hr & Hxu & Hxi) & _ & u & _ & Hu & _ & ->)].
  - exists (row_identity_seen (unix_of (clock (ticks w))) r). split; [|split].
    + destruct Hr as (Hin & ? & ?). split; [|done]. rewrite Hw. simpl. apply elem_of_update_where.
      exists r. split; [done|]. by rewrite String.eqb_refl.
    + by simpl.
    + pose proof (resolve_login_bound req w r u Hs (resolve_login_complete _ _ _ _ Hrun) Hr Hu Hid) as Hx.
      rewrite Hrun in Hx. simpl. by destruct Hx as (_ & _ & _ & ->).
  - exists r. split; [done|]. split; [|done]. simpl. congruence.
Qed.

(** C14: On SQLite a sign-in succeeds only for an identity row of an active user, and then only
    stamps the two rows, or by claiming a pending, unexpired invitation of the same provider and
    issuer for the verified address under a policy that permits it, when no identity row exists:
    then the invitation is spent on a new identity row of its user, who is active afterwards. *)
Theorem sql_login_sound req w p b w' :
  schema (st w) → SqlAccounts.resolve_login req w = (Ok (p, b), w') →
  lb_status b = "existing" ∧ known_sign_in req (unix_of (clock (ticks w))) (st w) (st w') p
  ∨ lb_status b = "bound_invitation" ∧ (∀ r, ¬ bound_row req (st w) r)
    ∧ invited_sign_in req (unix_of (clock (ticks w))) (st w) (st w') p b.
Proof. apply sql_resolve_login_Ok. Qed.

(** C17: Once an identity signed in, whatever calls follow, it signs in as the same user through the
    same identity row exactly while that user is active, and otherwise is refused with
    PermissionDenied and nothing changes: no invitation or other user can take it over. *)
Theorem sql_identity_stays_bound req req' w p b w1 ops :
  schema (st w) → SqlAccounts.resolve_login req w = (Ok (p, b), w1) → login_key req' = login_key req →
  let w2 := (run_sqls ops w1).2 in
  ∃ u, u ∈ db_users (st w2) ∧ ur_id u = tp_user_id p
    ∧ match SqlAccounts.resolve_login req' w2 with
      | (Ok (p', b'), _) => ur_status u = "active" ∧ tp_user_id p' = tp_user_id p
          ∧ lb_status b' = "existing" ∧ lb_external_identity_id b' = lb_external_identity_id b
      | (Err e, w3) => ur_status u ≠ "active" ∧ e = PermissionDenied ∧ st w3 = st w2
      end.
Proof.
  intros Hs Hrun Hkey w2. assert (schema (st w1)) as Hs1.
  { pose proof (keeps_resolve_login schema req w Hs) as Hk. by rewrite Hrun in Hk. }
  pose proof (sign_in_binds req w p b w1 Hs Hrun) as Hb.
  apply (run_sqls_keeps (bound_to _ _ _) ops) in Hb as (r & Hr & Hxu & Hxi). fold w2 in Hr.
  assert (schema (st w2)) as Hs2 by (by apply run_sqls_keeps; try typeclasses eauto).
  destruct (bound_user req (st w2) r Hs2 Hr) as (u & Hu & Hid). exists u.
  split; [done|]. split; [congruence|]. pose proof (resolve_login_bound req' w2 r u Hs2) as Hx.
  assert (complete_request req') as Hc.
  { unfold complete_request. rewrite Hkey. by eapply resolve_login_complete. }
  specialize (Hx Hc). unfold bound_row in Hx. rewrite Hkey in Hx. specialize (Hx Hr Hu Hid).
  destruct (SqlAccounts.resolve_login req' w2) as [[[p' b']|e] w3]; [|done].
  destruct Hx as (? & ? & ? & ?). split_and!; congruence.
Qed.
End SignIn.

(** * Examples *)

Definition signed_in : World Db := (SqlAccounts.resolve_login ann_request office_world).2.

Lemma ann_signs_in :
  ∃ p b, SqlAccounts.resolve_login ann_request office_world = (Ok (p, b), signed_in)
    ∧ tp_user_id p = ann_id ∧ lb_status b = "bound_invitation".
Proof. vm_compute. eexists _, _. done. Qed.

Lemma sql_login_sound_witness :
  ∃ p b, SqlAccounts.resolve_login ann_request office_world = (Ok (p, b), signed_in)
    ∧ tp_user_id p = ann_id
    ∧ invited_sign_in ann_request (unix_of (clock (ticks office_world))) (st office_world)
        (st signed_in) p b.
Proof.
  destruct ann_signs_in as (p & b & Hrun & Hp & Hb). exists p, b. split; [exact Hrun|].
  split; [exact Hp|].
  destruct (sql_login_sound ann_request office_world p b signed_in office_schema Hrun)
    as [[Hx _]|(_ & _ & Hx)]; [rewrite Hb in Hx; discriminate Hx|exact Hx].
Defined.

(** Ann is disabled: she does not get in. *)
Definition ban : list sql_op := [SStore (DPlain (DDisableUser ann_id))].

Lemma ban_holds :
  (SqlAccounts.resolve_login ann_request (run_sqls ban signed_in).2).1 = Err PermissionDenied.
Proof. vm_compute. reflexivity. Qed.

Lemma sql_identity_stays_bound_witness :
  ∃ u, u ∈ db_users (st (run_sqls ban signed_in).2) ∧ ur_id u = ann_id ∧ ur_status u ≠ "active".
Proof.
  destruct ann_signs_in as (p & b & Hrun & Hp & Hb). pose proof ban_holds as Hban.
  destruct (sql_identity_stays_bound ann_request ann_request office_world p b signed_in ban
    office_schema Hrun eq_refl) as (u & Hu & Hid & Hx).
  exists u. rewrite <- Hp. split; [exact Hu|]. split; [exact Hid|].
  destruct (SqlAccounts.resolve_login ann_request (run_sqls ban signed_in).2) as [[[p' b']|e] w3];
    [discriminate Hban|apply Hx].
Defined.

(** An invited user who was disabled before signing in becomes active by signing in. *)
Example disabled_invitee_signs_in :
  let w := (run_sqls [SStore (DPlain (DDisableUser ann_id))] office_world).2 in
  (ur_status <$> List.filter (λ r, String.eqb (ur_id r) ann_id) (db_users (st w))) = ["disabled"]
  ∧ match SqlAccounts.resolve_login ann_request w with
    | (Ok (p, _), w') => tp_user_id p = ann_id
        ∧ (ur_status <$> List.filter (λ r, String.eqb (ur_id r) ann_id) (db_users (st w'))) = ["active"]
    | (Err _, _) => False
    end.
Proof. vm_compute. done. Qed.
