(* ===== verification/SqlEvidence.v ===== *)
(** The evidence of access on SQLite: the search for paths through nested groups ends and labels
    exactly the groups of the user, and the evidence of a user and a repository is every grant
    that the policy counts, each with a chain of memberships that leads to it. *)

From Stdlib Require Import ZArith Lia Ascii.
From stdpp Require Import base gmap strings list sorting.
From S2P Require Import Prelude Model MemState ModelFacts Demo.
From S2P Require Import SqlRows SqlBase SqlGroups SqlGrants SqlTokens SqlAuthz SqlTuples SqlAuthzFacts.
From S2P Require Import SqlStore SqlKeep SqlSchema SqlTyped.

(** * Maps filled row by row *)

Section Fill.
Context {A : Type} (k : A → string).

Lemma foldl_insert_Some (v : A → string) (l : list A) (m : gmap string string) g x :
  foldl (λ m r, <[k r := v r]> m) m l !! g = Some x →
  m !! g = Some x ∨ ∃ r, r ∈ l ∧ k r = g ∧ v r = x.
Proof.
  revert m. induction l as [|r l IH]; intros m; simpl; [by left|].
  intros [Hm|(r' & ? & ?)]%IH; [|right; exists r'; split; [by right|done]].
  destruct (decide (k r = g)) as [<-|Hne].
  - rewrite lookup_insert_eq in Hm. injection Hm as <-. right. exists r. split; [by left|done].
  - rewrite lookup_insert_ne in Hm by done. by left.
Qed.

Lemma foldl_insert_is_Some (v : A → string) (l : list A) (m : gmap string string) r :
  (r ∈ l ∨ is_Some (m !! k r)) → is_Some (foldl (λ m r, <[k r := v r]> m) m l !! k r).
Proof.
  revert m. induction l as [|x l IH]; intros m; simpl; [by intros [?%not_elem_of_nil|?]|].
  intros Hr. apply IH. destruct (decide (k x = k r)) as [Heq|Hne].
  - right. rewrite Heq, lookup_insert_eq. eauto.
  - rewrite lookup_insert_ne by done. destruct Hr as [[->|?]%elem_of_cons|?]; [done|by left|by right].
Qed.

Lemma foldl_append (v : A → string) (l : list A) (m : gmap string (list string)) g x :
  x ∈ default [] (foldl (λ m r, <[k r := default [] (m !! k r) ++ [v r]]> m) m l !! g)
  ↔ x ∈ default [] (m !! g) ∨ ∃ r, r ∈ l ∧ k r = g ∧ v r = x.
Proof.
  revert m. induction l as [|r l IH]; intros m; simpl.
  - split; [by left|]. by intros [?|(? & ?%not_elem_of_nil & _)].
  - rewrite IH. destruct (decide (k r = g)) as [<-|Hne].
    + rewrite lookup_insert_eq. simpl. rewrite elem_of_app, list_elem_of_singleton.
      setoid_rewrite elem_of_cons. naive_solver.
    + rewrite lookup_insert_ne by done. setoid_rewrite elem_of_cons. naive_solver.
Qed.
End Fill.

(** * Paths *)

(** The name of a group, or its id when it has no row. *)
Definition group_label (db : Db) (group_id : string) : string :=
  default group_id (gp_name <$> hd_error (where_ (λ r, String.eqb (gp_id r) group_id) (db_groups db))).

(** A path renders a chain of memberships from a direct group of the user. *)
Inductive renders_chain (db : Db) (user_id : string) : string → string → Prop :=
  | renders_direct g : direct_group db user_id g → renders_chain db user_id g (group_label db g)
  | renders_step c g p :
      renders_chain db user_id c p → nested_in db c g →
      renders_chain db user_id g (p +:+ " -> " +:+ group_label db g).

Lemma label_chain_sound db user_id g p : renders_chain db user_id g p → in_group db user_id g.
Proof. induction 1; [by apply in_group_direct|by eapply in_group_nested]. Qed.

Section Paths.
Context (db : Db) (user_id : string).
Hypothesis Hid : unique_key gp_id (db_groups db).

Lemma group_label_row r : r ∈ db_groups db → group_label db (gp_id r) = gp_name r.
Proof.
  intros Hr. unfold group_label.
  assert (hd_error (where_ (λ x, String.eqb (gp_id x) (gp_id r)) (db_groups db)) = Some r) as ->; [|done].
  by apply hd_where_unique.
Qed.

Lemma group_label_none g : (∀ r, r ∈ db_groups db → gp_id r ≠ g) → group_label db g = g.
Proof. intros Hn. unfold group_label. by rewrite (proj2 (hd_where_none gp_id (db_groups db) g) Hn). Qed.

Lemma group_labels_spec g : default g (group_labels db !! g) = group_label db g.
Proof.
  unfold group_labels. destruct (foldl _ _ _ !! g) as [x|] eqn:Hx; simpl.
  - apply foldl_insert_Some in Hx as [?|(r & Hr & <- & <-)]; [by rewrite lookup_empty in H|].
    symmetry. apply group_label_row. by apply elem_of_order_by in Hr.
  - symmetry. apply group_label_none. intros r Hr <-. apply eq_None_not_Some in Hx. destruct Hx.
    apply foldl_insert_is_Some. left. by apply elem_of_order_by.
Qed.

Lemma parents_by_member_spec c p : p ∈ default [] (parents_by_member db !! c) ↔ nested_in db c p.
Proof.
  unfold parents_by_member. rewrite foldl_append, lookup_empty. setoid_rewrite elem_of_order_by.
  unfold nested_in. simpl. split; [intros [?%not_elem_of_nil|?]; [done|naive_solver]|naive_solver].
Qed.

Lemma direct_rows_spec row :
  row ∈ direct_rows db user_id →
  direct_group db user_id (gm_group_id row.1) ∧ member_label row = group_label db (gm_group_id row.1).
Proof.
  unfold direct_rows. intros [Hj Hu%String.eqb_eq]%elem_of_order_by%elem_of_where.
  destruct row as [gm [r|]]; apply elem_of_left_join_on in Hj as [Hgm Hr]; simpl in *;
    (split; [by exists gm|]); unfold member_label; simpl.
  - destruct Hr as [Hr <-%String.eqb_eq]. symmetry. by apply group_label_row.
  - symmetry. apply group_label_none. intros r Hin Heq. specialize (Hr r Hin).
    by apply String.eqb_neq in Hr.
Qed.

Lemma direct_rows_complete g :
  direct_group db user_id g → ∃ row, row ∈ direct_rows db user_id ∧ gm_group_id row.1 = g.
Proof.
  intros (gm & Hgm & Hg & Hu). unfold direct_rows.
  assert (∃ o, (gm, o) ∈ left_join_on (λ gm g, String.eqb (gp_id g) (gm_group_id gm))
    (db_group_members db) (db_groups db)) as [o Ho].
  { destruct (where_ (λ g, String.eqb (gp_id g) (gm_group_id gm)) (db_groups db)) as [|r l] eqn:Hw.
    - exists None. apply elem_of_left_join_on. split; [done|]. intros r Hr. apply not_true_iff_false.
      intros Ht. destruct (not_elem_of_nil r). rewrite <- Hw. by apply elem_of_where.
    - exists (Some r). apply elem_of_left_join_on. split; [done|].
      apply (elem_of_where (λ g, String.eqb (gp_id g) (gm_group_id gm))). rewrite Hw. left. }
  exists (gm, o). split; [|done]. apply elem_of_order_by, elem_of_where. split; [done|].
  by apply String.eqb_eq.
Qed.

Context (R : gset string).

(** What the search keeps true of its map and its queue. *)
Record paths_inv (paths : gmap string string) (queue : list string) : Prop := {
  pi_sound g p : paths !! g = Some p → g ∈ R ∧ renders_chain db user_id g p;
  pi_direct g : direct_group db user_id g → g ∈ R → is_Some (paths !! g);
  pi_closed c p : is_Some (paths !! c) → nested_in db c p → p ∈ R → c ∈ queue ∨ is_Some (paths !! p);
  pi_queue g : g ∈ queue → is_Some (paths !! g)
}.

Lemma seed_fold rows (paths : gmap string string) queue :
  (∀ row, row ∈ rows → row ∈ direct_rows db user_id) →
  (∀ g p, paths !! g = Some p → g ∈ R ∧ renders_chain db user_id g p) →
  (∀ g, is_Some (paths !! g) ↔ g ∈ queue) → length queue = size paths →
  let '(paths', queue') := foldl (seed_row R) (paths, queue) rows in
  (∀ g p, paths' !! g = Some p → g ∈ R ∧ renders_chain db user_id g p)
  ∧ (∀ g, is_Some (paths' !! g) ↔ g ∈ queue') ∧ length queue' = size paths'
  ∧ (∀ row, row ∈ rows → gm_group_id row.1 ∈ R → is_Some (paths' !! gm_group_id row.1))
  ∧ (∀ g, is_Some (paths !! g) → is_Some (paths' !! g)).
Proof.
  revert paths queue. induction rows as [|row rows IH]; intros paths queue Hrows Hp Hq Hl; simpl.
  { split_and!; try done. by intros ? ?%not_elem_of_nil. }
  unfold seed_row at 2. cbn [fst snd]. set (g0 := gm_group_id row.1). case_bool_decide as Hg0.
  - destruct (direct_rows_spec row) as [Hd Hlab]; [apply Hrows; left|].
    match goal with |- let '(_, _) := foldl _ (?p1, ?q1) rows in _ =>
      specialize (IH p1 q1); destruct (foldl _ (p1, q1) rows) as [paths' queue'] end.
    destruct IH as (H1 & H2 & H3 & H4 & H5).
    + intros r ?. apply Hrows. by right.
    + intros g p. destruct (decide (g = g0)) as [->|Hne].
      * rewrite lookup_insert_eq, Hlab. intros [= <-]. split; [done|by constructor].
      * rewrite lookup_insert_ne by done. apply Hp.
    + intros g. destruct (decide (g = g0)) as [->|Hne].
      * rewrite lookup_insert_eq. split; [|eauto]. intros _.
        destruct (paths !! g0) eqn:Hx; [apply Hq; eauto|]. apply elem_of_app. right. by left.
      * rewrite lookup_insert_ne by done. rewrite Hq. destruct (paths !! g0); [done|].
        rewrite elem_of_app, list_elem_of_singleton. naive_solver.
    + destruct (paths !! g0) eqn:Hx.
      * rewrite map_size_insert_Some by done. done.
      * rewrite map_size_insert_None, length_app by done. simpl. lia.
    + assert (∀ g, is_Some (paths !! g) ∨ g = g0 → is_Some (paths' !! g)) as Hm.
      { intros g Hg. apply H5. destruct (decide (g = g0)) as [->|Hne].
        - rewrite lookup_insert_eq. eauto.
        - rewrite lookup_insert_ne by done. naive_solver. }
      split_and!; [done..| |by auto]. intros r [->|Hr]%elem_of_cons ?; [by auto|by apply H4].
  - specialize (IH paths queue). destruct (foldl _ (paths, queue) rows) as [paths' queue'].
    destruct IH as (H1 & H2 & H3 & H4 & H5); [|done..|].
    + intros r ?. apply Hrows. by right.
    + split_and!; [done..| |done]. intros r [->|Hr]%elem_of_cons ?; [done|by apply H4].
Qed.

Lemma seed_paths_spec :
  let '(paths, queue) := seed_paths db user_id R in
  paths_inv paths queue ∧ length queue = size paths.
Proof.
  unfold seed_paths. pose proof (seed_fold (direct_rows db user_id) ∅ []) as Hs.
  destruct (foldl _ _ _) as [paths queue].
  destruct Hs as (H1 & H2 & H3 & H4 & _); [done|by intros g p; rewrite lookup_empty| |done|].
  { intros g. rewrite lookup_empty. split; [by intros []|by intros ?%not_elem_of_nil]. }
  split; [|done]. split; [done| | |by intros g ?%H2].
  - intros g (row & Hrow & <-)%direct_rows_complete ?. by apply H4.
  - intros c p Hc%H2 _ _. by left.
Qed.

(** One child: its parents that may be reached and have no path yet get one. *)
Record visit_spec (cp : string) (parents : list string) (paths : gmap string string)
    (queue : list string) (paths' : gmap string string) (queue' : list string) : Prop := {
  vi_mono g p : paths !! g = Some p → paths' !! g = Some p;
  vi_new g p : paths' !! g = Some p → paths !! g = None →
    g ∈ parents ∧ g ∈ R ∧ p = cp +:+ " -> " +:+ group_label db g;
  vi_queue g : g ∈ queue' ↔ g ∈ queue ∨ (is_Some (paths' !! g) ∧ paths !! g = None);
  vi_all g : g ∈ parents → g ∈ R → is_Some (paths' !! g);
  vi_size : length queue' + size paths = length queue + size paths'
}.

Lemma visit_fold cp parents (paths : gmap string string) queue :
  let '(paths', queue') := foldl (visit_parent db R cp) (paths, queue) parents in
  visit_spec cp parents paths queue paths' queue'.
Proof.
  revert paths queue. induction parents as [|g parents IH]; intros paths queue; simpl.
  { split; [done|congruence| | |done].
    - intros g. split; [by left|]. intros [?|[[] ?]]; [done|congruence].
    - by intros ? ?%not_elem_of_nil. }
  unfold visit_parent at 2. cbn [fst snd].
  destruct (negb (bool_decide (g ∈ R)) || bool_decide (is_Some (paths !! g))) eqn:Ht.
  - specialize (IH paths queue). destruct (foldl _ (paths, queue) parents) as [paths' queue'].
    destruct IH as [H1 H2 H3 H4 H5]. split; [done| |done| |done].
    + intros x p Hx Hn. destruct (H2 x p Hx Hn) as (? & ?). split; [by right|done].
    + intros x [->|Hx]%elem_of_cons HR; [|by apply H4].
      rewrite bool_decide_true in Ht by done. apply bool_decide_eq_true in Ht as [p Hp].
      exists p. by apply H1.
  - apply orb_false_iff in Ht as [HgR%negb_false_iff%bool_decide_eq_true Hg%bool_decide_eq_false].
    apply eq_None_not_Some in Hg. rewrite group_labels_spec.
    set (p0 := cp +:+ _). specialize (IH (<[g := p0]> paths) (queue ++ [g])).
    destruct (foldl _ (_, queue ++ [g]) parents) as [paths' queue'].
    destruct IH as [H1 H2 H3 H4 H5].
    assert (paths' !! g = Some p0) as Hg' by (apply H1, lookup_insert_eq).
    split.
    + intros x p Hx. apply H1. rewrite lookup_insert_ne; [done|congruence].
    + intros x p Hx Hn. destruct (decide (x = g)) as [->|Hne].
      * rewrite Hg' in Hx. injection Hx as <-. split; [by left|done].
      * destruct (H2 x p Hx) as (? & ?); [by rewrite lookup_insert_ne|]. split; [by right|done].
    + intros x. rewrite H3, elem_of_app, list_elem_of_singleton.
      destruct (decide (x = g)) as [->|Hne]; [naive_solver|]. rewrite lookup_insert_ne by done.
      naive_solver.
    + intros x [->|Hx]%elem_of_cons HR; [eauto|by apply H4].
    + rewrite length_app in H5. rewrite map_size_insert_None in H5 by done. simpl in H5. lia.
Qed.

Lemma paths_inv_step child cp paths queue paths' queue' :
  paths_inv paths (child :: queue) → paths !! child = Some cp →
  visit_spec cp (default [] (parents_by_member db !! child)) paths queue paths' queue' →
  paths_inv paths' queue'.
Proof.
  intros [Hs Hd Hc Hq] Hcp [Hm Hn Hq' Ha _]. split.
  - intros g p Hg. destruct (paths !! g) as [p0|] eqn:Hg0.
    + rewrite (Hm _ _ Hg0) in Hg. injection Hg as ->. by apply Hs.
    + destruct (Hn g p Hg Hg0) as (Hpar%parents_by_member_spec & ? & ->). split; [done|].
      econstructor; [by apply (Hs child)|done].
  - intros g Hg HR. destruct (Hd g Hg HR) as [v Hv]. eexists. by apply Hm.
  - intros c p [v Hv] Hcp' HR. destruct (paths !! c) as [v0|] eqn:Hc0.
    + destruct (Hc c p) as [[->|Hin]%elem_of_cons|[u Hu]]; [by eauto|done|done| | |].
      * right. apply Ha; [by apply parents_by_member_spec|done].
      * left. apply Hq'. by left.
      * right. eexists. by apply Hm.
    + left. apply Hq'. right. split; [by eexists|done].
  - intros g Hg. apply Hq' in Hg as [Hg|[Hg _]]; [|done]. destruct (Hq g) as [v Hv]; [by right|].
    eexists. by apply Hm.
Qed.

Lemma paths_inv_size paths queue : paths_inv paths queue → size paths ≤ size R.
Proof.
  intros Hi. rewrite <- size_dom. apply subseteq_size. intros g [p Hp]%elem_of_dom.
  by apply (pi_sound _ _ Hi g p).
Qed.

(** One unit of fuel per reachable group is enough. *)
Lemma paths_loop_spec fuel paths queue :
  paths_inv paths queue → length queue + size R < fuel + size paths →
  ∃ paths', paths_loop db fuel R paths queue = Some paths' ∧ paths_inv paths' [].
Proof.
  revert paths queue. induction fuel as [|fuel IH]; intros paths queue Hi Hf.
  { pose proof (paths_inv_size _ _ Hi). lia. }
  simpl. destruct queue as [|child queue]; [eauto|].
  destruct (pi_queue _ _ Hi child) as [cp Hcp]; [by left|]. rewrite Hcp.
  pose proof (visit_fold cp (default [] (parents_by_member db !! child)) paths queue) as Hv.
  pose proof (paths_inv_step child cp paths queue) as Hstep.
  destruct (parents_by_member db !! child) as [parents|] eqn:Hp; simpl in *.
  - destruct (foldl _ _ parents) as [paths' queue']. apply IH; [by apply Hstep|].
    pose proof (vi_size _ _ _ _ _ _ Hv). lia.
  - apply IH; [by apply Hstep|lia].
Qed.

Lemma group_paths_inv : paths_inv (group_paths db user_id R) [].
Proof.
  unfold group_paths. pose proof seed_paths_spec as Hs. destruct (seed_paths _ _ _) as [paths queue].
  destruct Hs as [Hi Hl]. destruct (paths_loop_spec (S (size R)) paths queue Hi) as (paths' & -> & ?); [lia|done].
Qed.
End Paths.

(** On the groups that the database finds, the search labels all of them. *)
Lemma group_paths_reachable db user_id g :
  unique_key gp_id (db_groups db) → in_group db user_id g →
  ∃ p, group_paths db user_id (SqlGrants.reachable_group_ids_conn db user_id) !! g = Some p
    ∧ renders_chain db user_id g p.
Proof.
  intros Hid Hg. set (R := SqlGrants.reachable_group_ids_conn db user_id).
  assert (∀ x, x ∈ R ↔ in_group db user_id x) as HR.
  { intros x. unfold R, SqlGrants.reachable_group_ids_conn. by rewrite elem_of_list_to_set, elem_of_user_groups. }
  destruct (group_paths_inv db user_id Hid R) as [Hs Hd Hc _].
  destruct Hg as (d & Hdir & Hr).
  assert (is_Some (group_paths db user_id R !! g)) as [p Hp].
  { refine (proj2 (rtc_ind_r (λ y, in_group db user_id y ∧ is_Some (group_paths db user_id R !! y)) d _ _ g Hr)).
    - pose proof (in_group_direct _ _ _ Hdir). split; [done|]. by apply Hd; [|apply HR].
    - intros y z _ Hyz [Hy Hsome]. pose proof (in_group_nested _ _ _ _ Hy Hyz). split; [done|].
      destruct (Hc y z Hsome Hyz) as [Hin|?]; [by apply HR|by apply not_elem_of_nil in Hin|done]. }
  exists p. split; [done|]. by apply (Hs g p).
Qed.

(** * Evidence *)

(** What an entry says about the grant it comes from. *)
Record evidence_of (db : Db) (user_id label : string) (g : GrantRow) (e : GrantEvidence) : Prop := {
  eo_grant : (ge_subject_type e, ge_subject_id e, ge_role e)
    = (gt_subject_type g, gt_subject_id g, gt_role g);
  eo_path :
    gt_subject_type g = "user" ∧ ge_path e = "user:" +:+ label +:+ " -> grant"
    ∨ gt_subject_type g = "group" ∧ ge_subject_name e = group_label db (gt_subject_id g)
      ∧ ∃ p, renders_chain db user_id (gt_subject_id g) p
          ∧ ge_path e = "user:" +:+ label +:+ " -> " +:+ p +:+ " -> grant"
}.

Section Evidence.
Context `{Env} (db : Db) (user_id : string) (repository_id label : string).
Hypothesis Hid : unique_key gp_id (db_groups db).

Lemma left_join_total {A B} (p : A → B → bool) la lb a :
  a ∈ la → ∃ ob, (a, ob) ∈ left_join_on p la lb.
Proof.
  intros Ha. destruct (where_ (p a) lb) as [|b l] eqn:Hw.
  - exists None. apply elem_of_left_join_on. split; [done|]. intros b Hb. apply not_true_iff_false.
    intros Ht. destruct (not_elem_of_nil b). rewrite <- Hw. by apply elem_of_where.
  - exists (Some b). apply elem_of_left_join_on. split; [done|]. apply (elem_of_where (p a)). rewrite Hw.
    left.
Qed.

Lemma direct_evidence_spec e :
  e ∈ SqlGrants.direct_evidence db repository_id user_id label →
  ∃ g, g ∈ db_grants db ∧ gt_repository_id g = repository_id ∧ gt_subject_type g = "user"
    ∧ gt_subject_id g = user_id ∧ evidence_of db user_id label g e.
Proof.
  unfold SqlGrants.direct_evidence. intros ([g o] & [Hj Hp]%elem_of_order_by%elem_of_where & <-)%elem_of_map.
  simpl in *. rewrite !andb_true_iff, !String.eqb_eq in Hp. destruct Hp as ((Hr & Ht) & Hs).
  apply elem_of_left_join_on in Hj as [Hg _]. exists g. split_and!; try done.
  split; [done|]. left. done.
Qed.

Lemma direct_evidence_complete g :
  g ∈ db_grants db → gt_repository_id g = repository_id → gt_subject_type g = "user" →
  gt_subject_id g = user_id →
  ∃ e, e ∈ SqlGrants.direct_evidence db repository_id user_id label ∧ evidence_of db user_id label g e.
Proof.
  intros Hg Hr Ht Hs.
  destruct (left_join_total (λ g u, String.eqb (ur_id u) (gt_subject_id g)) _ (db_users db) g Hg) as [o Ho].
  eexists. split; [apply elem_of_map; exists (g, o); split; [|reflexivity]|].
  - apply elem_of_order_by, elem_of_where. split; [done|]. simpl. by rewrite Hr, Ht, Hs, !String.eqb_refl.
  - split; [done|]. left. done.
Qed.

(** The joined group row, or its absence, gives the label. *)
Lemma subject_name_label g o :
  (g, o) ∈ left_join_on (λ g gr, String.eqb (gp_id gr) (gt_subject_id g)) (db_grants db) (db_groups db) →
  SqlGrants.subject_name (g, o) = group_label db (gt_subject_id g).
Proof.
  intros [_ Ho]%elem_of_left_join_on. unfold SqlGrants.subject_name. simpl. destruct o as [r|].
  - destruct Ho as [Hr <-%String.eqb_eq]. symmetry. by apply group_label_row.
  - symmetry. apply group_label_none. intros r Hr Heq. specialize (Ho r Hr).
    by apply String.eqb_neq in Ho.
Qed.

Notation paths := (group_paths db user_id (SqlGrants.reachable_group_ids_conn db user_id)).

Lemma group_entry g o :
  in_group db user_id (gt_subject_id g) → gt_subject_type g = "group" →
  (g, o) ∈ left_join_on (λ g gr, String.eqb (gp_id gr) (gt_subject_id g)) (db_grants db) (db_groups db) →
  evidence_of db user_id label g
    (mkGrantEvidence (gt_subject_type g) (gt_subject_id g) (SqlGrants.subject_name (g, o)) (gt_role g)
      ("user:" +:+ label +:+ " -> "
         +:+ default (SqlGrants.subject_name (g, o)) (paths !! gt_subject_id g) +:+ " -> grant")).
Proof.
  intros Hin Ht Hj%subject_name_label. destruct (group_paths_reachable db user_id _ Hid Hin) as (p & Hp & Hr).
  split; [done|]. right. split; [done|]. split; [done|]. exists p. split; [done|]. simpl. by rewrite Hp.
Qed.

Lemma group_evidence_spec e gid :
  in_group db user_id gid → e ∈ SqlGrants.group_evidence db repository_id label paths gid →
  ∃ g, g ∈ db_grants db ∧ gt_repository_id g = repository_id ∧ gt_subject_type g = "group"
    ∧ gt_subject_id g = gid ∧ evidence_of db user_id label g e.
Proof.
  intros Hin. unfold SqlGrants.group_evidence.
  intros ([g o] & [Hj Hp]%elem_of_order_by%elem_of_where & <-)%elem_of_map.
  cbn [fst snd] in *. rewrite !andb_true_iff, !String.eqb_eq in Hp. destruct Hp as ((Hr & Ht) & Hs).
  exists g. pose proof Hj as [Hg _]%elem_of_left_join_on. split_and!; try done.
  apply group_entry; [by rewrite Hs|done|done].
Qed.

Lemma group_evidence_complete g :
  g ∈ db_grants db → gt_repository_id g = repository_id → gt_subject_type g = "group" →
  in_group db user_id (gt_subject_id g) →
  ∃ e, e ∈ SqlGrants.group_evidence db repository_id label paths (gt_subject_id g)
    ∧ evidence_of db user_id label g e.
Proof.
  intros Hg Hr Ht Hin.
  destruct (left_join_total (λ g gr, String.eqb (gp_id gr) (gt_subject_id g)) _ (db_groups db) g Hg) as [o Ho].
  eexists. split; [apply elem_of_map; exists (g, o); split; [|reflexivity]|by apply group_entry].
  apply elem_of_order_by, elem_of_where. split; [done|]. simpl. by rewrite Hr, Ht, !String.eqb_refl.
Qed.

(** All the entries before they are sorted. *)
Definition evidence_entries : list GrantEvidence :=
  SqlGrants.direct_evidence db repository_id user_id label ++
  (let group_ids := SqlGrants.reachable_group_ids_conn db user_id in
   if bool_decide (group_ids = ∅) then []
   else flat_map (SqlGrants.group_evidence db repository_id label paths)
          (order_by (λ g, [g]) (hashset_iter group_ids))).

Lemma evidence_entries_spec :
  (∀ e, e ∈ evidence_entries → ∃ g, g ∈ db_grants db ∧ gt_repository_id g = repository_id
     ∧ covers db user_id g ∧ evidence_of db user_id label g e)
  ∧ ∀ g, g ∈ db_grants db → gt_repository_id g = repository_id → covers db user_id g →
      ∃ e, e ∈ evidence_entries ∧ evidence_of db user_id label g e.
Proof.
  assert (∀ x, x ∈ SqlGrants.reachable_group_ids_conn db user_id ↔ in_group db user_id x) as HR.
  { intros x. unfold SqlGrants.reachable_group_ids_conn. by rewrite elem_of_list_to_set, elem_of_user_groups. }
  unfold evidence_entries. split.
  - intros e [(g & ? & ? & ? & ? & ?)%direct_evidence_spec|He]%elem_of_app.
    { exists g. split_and!; try done. by left. }
    case_bool_decide; [by apply not_elem_of_nil in He|].
    apply elem_of_flat_map in He as (gid & Hgid & He). rewrite elem_of_order_by, hashset_iter_perm in Hgid.
    apply elem_of_elements, HR in Hgid.
    destruct (group_evidence_spec e gid Hgid He) as (g & ? & ? & ? & <- & ?). exists g.
    split_and!; try done. by right.
  - intros g Hg Hr [[Ht Hs]|[Ht Hin]]; setoid_rewrite elem_of_app.
    + destruct (direct_evidence_complete g) as (e & ? & ?); try done. exists e. split; [by left|done].
    + destruct (group_evidence_complete g) as (e & ? & ?); try done. exists e. split; [right|done].
      case_bool_decide as Hempty; [apply HR in Hin; rewrite Hempty in Hin; set_solver|].
      apply elem_of_flat_map. exists (gt_subject_id g). split; [|done].
      rewrite elem_of_order_by, hashset_iter_perm. by apply elem_of_elements, HR.
Qed.
End Evidence.

Section Query.
Context `{Env} `{Sqlite}.

(** The active repository that the resource id names. *)
Definition named_repository (db : Db) (resource_id : string) (r : RepositoryRow) : Prop :=
  r ∈ db_repositories db ∧ rep_status r = "active"
  ∧ rep_lore_repository_id r = repository_id_from_resource_id (trim resource_id).

Lemma repository_run resource_id w :
  match SqlGrants.repository_id_by_resource_conn resource_id w with
  | (Ok id, w') => w' = w ∧ ∃ r, named_repository (st w) resource_id r ∧ rep_id r = id
  | (Err e, w') => w' = w ∧ (e = InvalidArgument "resource_id must not be empty"
      ∧ repository_id_from_resource_id (trim resource_id) = ""
      ∨ e = NotFound ∧ ¬ ∃ r, named_repository (st w) resource_id r)
  end.
Proof.
  unfold SqlGrants.repository_id_by_resource_conn, query_row, named_repository.
  destruct (is_empty _) eqn:He; [split; [done|]; left; split; [done|]; by apply is_empty_true|]. mrun.
  destruct (hd_error (where_ _ _)) as [r|] eqn:Hr; simpl; (split; [done|]).
  - apply elem_of_hd, elem_of_where in Hr as [Hr Hp]. rewrite andb_true_iff, !String.eqb_eq in Hp.
    destruct Hp. by exists r.
  - right. split; [done|]. intros (r & Hin & Hs & Hl). destruct (where_ _ _) as [|x l] eqn:Hw; [|done].
    destruct (not_elem_of_nil r). rewrite <- Hw. apply elem_of_where. split; [done|].
    by rewrite Hs, Hl, !String.eqb_refl.
Qed.

End Query.

(** * Examples *)

Lemma bob_evidence :
  SqlGrants.grants_for_user_on_repository bob_id "urc-game" office_world
  = (Ok [mkGrantEvidence "group" (letters 3) "all" "writer"
           "user:bob@example.org -> devs -> all -> grant"], office_world).
Proof. vm_compute. reflexivity. Qed.

