(* ===== verification/SqlResourceFacts.v ===== *)
(** Repositories and searches on SQLite: what is stored can be read back under the id it was
    stored with, and deleting it hides it, when the repository id does not itself start with the
    resource prefix; the escaped [LIKE] pattern of a search for users is a substring search. *)

From Stdlib Require Import ZArith Lia Ascii.
From stdpp Require Import base gmap strings list.
From S2P Require Import Prelude Model MemState ModelFacts Demo SqlRows SqlBase SqlTokens SqlStore.
From S2P Require Import SqlKeep SqlSchema SqlTyped MemAccounts SqlAccounts.

Section Repositories.
Context `{Env} `{Sqlite} `{SerdeJson}.

(** The active row of a repository id is what the query answers. *)
Lemma get_by_resource_id_run resource_id w row :
  schema (st w) → row ∈ db_repositories (st w) → rep_status row = "active" →
  rep_lore_repository_id row = repository_id_from_resource_id resource_id →
  SqlResources.get_by_resource_id resource_id w = (Ok (resource_from_row row), w).
Proof.
  intros Hs Hr Ha Hl. unfold SqlResources.get_by_resource_id, query_row. mrun.
  destruct (hd_error (where_ _ (db_repositories (st w)))) as [x|] eqn:Hx; simpl.
  - apply elem_of_hd, elem_of_where in Hx as [Hx Hp]. unfold active_row in Hp.
    rewrite andb_true_iff, !String.eqb_eq in Hp. destruct (sc_repositories _ Hs) as (_ & _ & Hk).
    assert (x = row) as ->; [|done]. eapply unique_key_eq; [exact Hk|done|done|]. destruct Hp. congruence.
  - destruct (where_ _ _) as [|x l] eqn:Hw; [|done]. destruct (not_elem_of_nil row). rewrite <- Hw.
    apply elem_of_where. split; [done|]. unfold active_row. by rewrite Ha, Hl, !String.eqb_refl.
Qed.

Lemma get_by_resource_id_none resource_id w :
  (∀ row, row ∈ db_repositories (st w) →
     rep_lore_repository_id row = repository_id_from_resource_id resource_id → rep_status row ≠ "active") →
  SqlResources.get_by_resource_id resource_id w = (Err NotFound, w).
Proof.
  intros Hn. unfold SqlResources.get_by_resource_id, query_row. mrun.
  destruct (hd_error (where_ _ (db_repositories (st w)))) as [x|] eqn:Hx; [|done].
  apply elem_of_hd, elem_of_where in Hx as [Hx Hp]. unfold active_row in Hp.
  rewrite andb_true_iff, !String.eqb_eq in Hp. destruct Hp as [Hl Ha]. by destruct (Hn x Hx Hl).
Qed.

(** What an upsert leaves in the table. *)
Definition stored (r : Resource) (lore_repository_id : string) (row : RepositoryRow) : Prop :=
  rep_lore_repository_id row = lore_repository_id ∧ rep_status row = "active"
  ∧ (is_empty (trim (r_remote_url r)) = false →
       rep_remote_url row = r_remote_url r ∧ rep_created_by_source row = "manual"
       ∧ rep_name row = if is_empty (trim (r_name r)) then lore_repository_id else r_name r).

Lemma insert_repository_Ok row w w1 :
  SqlResources.insert_repository row w = (Ok tt, w1) → row ∈ db_repositories (st w1).
Proof.
  unfold SqlResources.insert_repository, insert_row. intros Hrun. minv. apply elem_of_app. right. by left.
Qed.

Lemma upsert_managed_stores l name now w w1 :
  SqlResources.upsert_managed l name now w = (Ok tt, w1) →
  ∃ row, row ∈ db_repositories (st w1) ∧ rep_lore_repository_id row = l ∧ rep_status row = "active".
Proof.
  unfold SqlResources.upsert_managed, update_rows. intros Hrun. minv.
  - match goal with Hc : (0 <? affected ?p ?rows) = true |- _ =>
      assert (affected p rows ≠ 0) as (row & Hrow & Hl)%affected_pos by (by intros Hz; rewrite Hz in Hc)
    end.
    exists (row_repository_status "active" now row). split.
    + apply elem_of_update_where. exists row. by rewrite Hl.
    + by apply String.eqb_eq in Hl.
  - apply insert_repository_Ok in Hrun. eexists. by split; [exact Hrun|].
Qed.

Lemma upsert_manual_stores l name url now w w1 :
  SqlResources.upsert_manual l name url now w = (Ok tt, w1) →
  ∃ row, row ∈ db_repositories (st w1) ∧ rep_lore_repository_id row = l ∧ rep_status row = "active"
    ∧ rep_remote_url row = url ∧ rep_name row = name ∧ rep_created_by_source row = "manual".
Proof.
  unfold SqlResources.upsert_manual. intros Hrun. minv.
  destruct (hd_error (where_ _ _)) as [x|] eqn:Hx.
  - unfold update_rows_checked, update_rows, require_affected in Hrun. minv.
    apply elem_of_hd, elem_of_where in Hx as [Hx Hl%String.eqb_eq].
    match goal with Hm : negb (String.eqb (rep_created_by_source x) _) = false |- _ =>
      apply negb_false_iff, String.eqb_eq in Hm; rename Hm into Hman end.
    exists (row_saved name url now x). split; [|done].
    apply elem_of_update_where. exists x. by rewrite Hman, !String.eqb_refl.
  - minv. apply insert_repository_Ok in Hrun. eexists. by split; [exact Hrun|].
Qed.

Lemma upsert_stores r w w1 :
  SqlResources.upsert r w = (Ok tt, w1) →
  ∃ resource_id row, resource_id_from_resource r = Ok resource_id
    ∧ row ∈ db_repositories (st w1) ∧ stored r (repository_id_from_resource_id resource_id) row.
Proof.
  unfold SqlResources.upsert, SqlResources.upsert_resource_conn. intros Hrun. minv.
  - apply upsert_manual_stores in Hrun as (row & ? & ? & ? & ? & ? & ?). by exists x, row.
  - apply upsert_managed_stores in Hrun as (row & ? & ? & ?). exists x, row.
    split; [done|]. split; [done|]. split; [done|]. split; [done|].
    intros Hf. match goal with Hn : negb _ = false |- _ => by rewrite Hf in Hn end.
Qed.

(** Deleting hides every row of the id. *)
Lemma delete_hides l w row row' :
  row ∈ db_repositories (st w) → rep_lore_repository_id row = repository_id_from_resource_id l →
  ∃ w2, SqlResources.delete_resource_conn l w = (Ok tt, w2)
    ∧ (row' ∈ db_repositories (st w2) → rep_lore_repository_id row' = repository_id_from_resource_id l →
       rep_status row' ≠ "active").
Proof.
  intros Hr Hl. unfold SqlResources.delete_resource_conn, update_rows, require_affected. mrun.
  destruct (Nat.eqb_spec (affected (λ r, String.eqb (rep_lore_repository_id r)
    (repository_id_from_resource_id l)) (db_repositories (st w))) 0) as [Hz|_].
  - rewrite affected_zero in Hz. specialize (Hz row Hr). rewrite Hl, String.eqb_refl in Hz. done.
  - eexists. split; [done|]. intros (x & Hx & ->)%elem_of_update_where.
    destruct (String.eqb_spec (rep_lore_repository_id x) (repository_id_from_resource_id l)); done.
Qed.

(** A repository that was stored on SQLite can be read back under the resource id it was stored
    with, active and with the name and remote it was given by hand; deleting it then succeeds
    and hides it, when its repository id does not itself start with the resource prefix. *)
Theorem sql_upsert_get_delete r w w1 t d :
  schema (st w) → SqlResources.upsert r w = (Ok tt, w1) →
  ∃ resource_id row, resource_id_from_resource r = Ok resource_id
    ∧ row ∈ db_repositories (st w1) ∧ stored r (repository_id_from_resource_id resource_id) row
    ∧ SqlResources.get_by_resource_id resource_id (mkWorld (st w1) t d)
      = (Ok (resource_from_row row), mkWorld (st w1) t d)
    ∧ (starts_with "urc-" (repository_id_from_resource_id resource_id) = false →
       ∃ w2, SqlResources.delete_resource resource_id w1 = (Ok tt, w2)
         ∧ SqlResources.get_by_resource_id resource_id w2 = (Err NotFound, w2)).
Proof.
  intros Hs Hrun. destruct (upsert_stores r w w1 Hrun) as (rid & row & Hrid & Hin & Hst).
  assert (schema (st w1)) as Hs1.
  { pose proof (keeps_upsert schema r w Hs) as Hk. unfold SqlResources.upsert in Hrun.
    by rewrite Hrun in Hk. }
  exists rid, row. pose proof Hst as (Hl & Ha & _).
  split_and!; [done|done|done|by apply get_by_resource_id_run|].
  intros Hp. assert (repository_id_from_resource_id (repository_id_from_resource_id rid)
    = repository_id_from_resource_id rid) as Htwice.
  { unfold repository_id_from_resource_id at 1.
    destruct (strip_prefix "urc-" (repository_id_from_resource_id rid)) eqn:Hx; [|done].
    assert (starts_with "urc-" (repository_id_from_resource_id rid) = true); [|congruence].
    apply starts_with_strip. eauto. }
  unfold SqlResources.delete_resource.
  destruct (delete_hides (repository_id_from_resource_id rid) w1 row row) as (w2 & Hdel & _);
    [done|congruence|].
  exists w2. split; [done|]. apply get_by_resource_id_none. intros x Hx Hxl.
  destruct (delete_hides (repository_id_from_resource_id rid) w1 row x) as (w3 & Hdel3 & Hhid);
    [done|congruence|]. rewrite Hdel in Hdel3. injection Hdel3 as <-. apply Hhid; [done|congruence].
Qed.
End Repositories.

(** * Examples *)

Definition tool : Resource := mkResource "" "tool" "lore://h/tool" "tool" "" "".

Definition tool_world : World Db := (SqlResources.upsert tool office_world).2.

Lemma tool_stored : SqlResources.upsert tool office_world = (Ok tt, tool_world).
Proof. vm_compute. reflexivity. Qed.

(** The prefix is taken off twice: the plain store deletes another repository than the one that is
    named, the audited store does not. *)
Example plain_delete_strips_twice :
  let put id := SStore (DPlain (DUpsert (mkResource "" id "" id "" ""))) in
  let w := (run_sqls [put "x"; put "urc-urc-x"] (mkWorld empty_db 0 0)).2 in
  let rows w := map (λ r, (rep_lore_repository_id r, rep_status r)) (db_repositories (st w)) in
  rows w = [("x", "active"); ("urc-x", "active")]
  ∧ rows (SqlResources.delete_resource "urc-urc-x" w).2 = [("x", "deleted"); ("urc-x", "active")]
  ∧ rows (run_sqls [SStore (DAudited "root" (DDelete "urc-urc-x"))] w).2
    = [("x", "active"); ("urc-x", "deleted")].
Proof. vm_compute. done. Qed.

(** The id [urc-] passes the check and is stored as an empty repository id. *)
Example bare_prefix_is_stored_empty :
  let w := (SqlResources.upsert (mkResource "" "" "" "urc-" "" "") (mkWorld empty_db 0 0)).2 in
  map (λ r, (rep_lore_repository_id r, rep_name r)) (db_repositories (st w)) = [("", "")].
Proof. vm_compute. reflexivity. Qed.

(** * Patterns *)

Fixpoint bytes_of (s : string) : list like_item :=
  match s with EmptyString => [] | String c s => Byte c :: bytes_of s end.

(** Escaping makes every byte of the text stand for itself. *)
Lemma like_items_escape q rest :
  like_items (escape_like q +:+ rest) = bytes_of q ++ like_items rest.
Proof.
  induction q as [|c q IH]; [done|]. simpl escape_like.
  destruct (Ascii.eqb c "\" || Ascii.eqb c "%" || Ascii.eqb c "_") eqn:Hc.
  - change (like_items (String "\" (String c (escape_like q +:+ rest))) = Byte c :: (bytes_of q ++ like_items rest)).
    simpl. by rewrite IH.
  - apply orb_false_iff in Hc as [[H1 H2]%orb_false_iff H3].
    change (like_items (String c (escape_like q +:+ rest)) = Byte c :: (bytes_of q ++ like_items rest)).
    simpl. by rewrite H1, H2, H3, IH.
Qed.

Lemma like_any s : like_matches [AnyString] s = true.
Proof. induction s as [|c s IH]; [done|]. simpl in *. by rewrite IH. Qed.

Definition lowered (s : string) : Prop := to_ascii_lowercase s = s.

Lemma like_prefix q s :
  lowered q → lowered s → like_matches (bytes_of q ++ [AnyString]) s = starts_with q s.
Proof.
  revert s. induction q as [|c q IH]; intros s Hq Hs; [by rewrite like_any; destruct s|].
  destruct s as [|d s]; [done|].
  injection Hq as Hc Hq. injection Hs as Hd Hs. 
  change ((Ascii.eqb (ascii_lower c) (ascii_lower d) && like_matches (bytes_of q ++ [AnyString]) s)
    = starts_with (String c q) (String d s)).
  rewrite Hc, Hd, IH by done. unfold starts_with. simpl.
  destruct (ascii_dec c d) as [->|Hne]; [by rewrite Ascii.eqb_refl|].
  by apply Ascii.eqb_neq in Hne as ->.
Qed.

Lemma like_items_pattern q :
  like_items ("%" +:+ escape_like q +:+ "%") = AnyString :: bytes_of q ++ [AnyString].
Proof.
  change (AnyString :: like_items (escape_like q +:+ "%") = AnyString :: bytes_of q ++ [AnyString]).
  by rewrite like_items_escape.
Qed.

(** A pattern [%q%] of an escaped text is a substring search. *)
Lemma like_contains q s :
  lowered q → lowered s → like s ("%" +:+ escape_like q +:+ "%") = contains q s.
Proof.
  intros Hq Hs. unfold like. rewrite like_items_pattern.
  induction s as [|c s IH].
  - change (like_matches (bytes_of q ++ [AnyString]) "" || false = String.prefix q "" || false).
    by rewrite like_prefix.
  - change (like_matches (bytes_of q ++ [AnyString]) (String c s)
      || like_matches (AnyString :: bytes_of q ++ [AnyString]) s
      = String.prefix q (String c s) || contains q s).
    rewrite like_prefix, IH by (done || by injection Hs). done.
Qed.

Lemma ascii_lower_idemp c : ascii_lower (ascii_lower c) = ascii_lower c.
Proof. by destruct c as [[] [] [] [] [] [] [] []]. Qed.

Lemma lowered_to_lower s : lowered (to_ascii_lowercase s).
Proof.
  unfold lowered, to_ascii_lowercase. induction s as [|c s IH]; [done|].
  simpl in *. by rewrite ascii_lower_idemp, IH.
Qed.

(** * The query *)

(** The rows that a search should show. *)
Definition shown (query : string) (r : UserRow) : bool :=
  negb (String.eqb (ur_status r) "deleted")
  && (is_empty query
      || match ur_primary_email_normalized r with
         | Some email => contains query (to_ascii_lowercase email)
         | None => false
         end
      || contains query (to_ascii_lowercase (default "" (ur_display_name r)))).

Section Search.
Context `{Env} `{Sqlite}.

(** C38: Searching users on SQLite, a LIKE with an escaped pattern, lists exactly the users that are
    not deleted and whose address or display name contains the query as a substring, in either
    case, whatever special characters it has, sorted by address and id and cut at the limit. *)
Theorem sql_search_is_substring_search f w :
  let query := to_ascii_lowercase (trim (ulf_query f)) in
  SqlAccounts.list_users f w
  = (Ok (map user_from_row (truncate (i64_saturate (effective_limit (ulf_limit f)))
      (order_by (λ r, null_first (ur_primary_email_normalized r) ++ [ur_id r])
        (where_ (shown query) (db_users (st w)))))), w).
Proof.
  intros query. unfold SqlAccounts.list_users. mrun. fold query. do 5 f_equal.
  unfold where_. apply List.filter_ext. intros r. unfold shown.
  rewrite like_contains by apply lowered_to_lower.
  destruct (ur_primary_email_normalized r); [|done]. by rewrite like_contains by apply lowered_to_lower.
Qed.
End Search.
