(* ===== verification/SqlAtomic.v ===== *)
(** Every call of the SQLite stores is all or nothing: one that fails leaves the database as it
    was, whether it runs in a transaction or is a single statement. Every audited write is the
    plain write and one audit row, together or not at all. *)

From Stdlib Require Import ZArith Lia Ascii.
From stdpp Require Import base gmap strings list.
From S2P Require Import Prelude Model MemState Demo SqlRows SqlBase SqlAccounts SqlGroups SqlGrants SqlTokens SqlAudited SqlSessions SqlStore.

(** Structural proof of [atomic]: reads, then one statement. *)
Ltac atomic_step :=
  match goal with
  | |- atomic (bind (update_rows _ _ _ _) _) => apply atomic_update_rows; typeclasses eauto
  | |- atomic (bind (update_rows_checked _ _ _ _ _ _) _) => apply atomic_update_rows_checked; typeclasses eauto
  | |- atomic (bind (delete_rows _ _ _) _) => apply atomic_delete_rows; typeclasses eauto
  | |- atomic (bind _ _) => apply atomic_bind; [solve [eauto with handler]|intros ?]
  | |- atomic (insert_row _ _ _ _ (ret _)) => by apply atomic_insert_row
  | |- atomic (if _ then _ else _) => apply atomic_if
  | |- atomic (match ?x with _ => _ end) => destruct x eqn:?
  | |- atomic _ => solve [eauto with handler typeclass_instances]
  end.
Ltac atomic_run := repeat atomic_step.

Section CallsAtomic.
Context `{Env} `{Sqlite} `{SerdeJson}.

Lemma atomic_insert_repository row : atomic (SqlResources.insert_repository row).
Proof. unfold SqlResources.insert_repository. atomic_run. Qed.

Lemma atomic_upsert r : atomic (SqlResources.upsert r).
Proof.
  unfold SqlResources.upsert, SqlResources.upsert_resource_conn, SqlResources.upsert_manual.
  atomic_run; try apply atomic_insert_repository. unfold SqlResources.upsert_managed.
  intros w e w' Heq. unfold update_rows in Heq. minv.
  destruct (affected _ _) eqn:Ha; [|done]. apply atomic_insert_repository in Heq.
  rewrite Heq. simpl. by apply table_same, update_where_id.
Qed.

Lemma atomic_plain op : atomic (run_plain op).
Proof.
  destruct op; simpl; unfold SqlAccounts.add_user, SqlAccounts.add_user_conn, SqlAccounts.insert_user,
    SqlAccounts.add_invitation, SqlAccounts.disable_user, SqlAccounts.enable_user,
    SqlAccounts.set_user_status_conn, SqlGroups.add_group, SqlGroups.insert_group,
    SqlGroups.add_group_member, SqlGroups.insert_member, SqlGroups.remove_group_member,
    SqlGroups.add_group_group, SqlGroups.remove_group_group, SqlGrants.add_grant,
    SqlGrants.add_grant_conn, SqlGrants.remove_grant, SqlGrants.remove_grant_conn,
    SqlResources.delete_resource, SqlResources.delete_resource_conn, SqlTokens.add_signing_key_meta,
    SqlTokens.add_signing_key_meta_conn.
  all: try apply atomic_map_ok; try apply atomic_upsert; atomic_run.
Qed.
End CallsAtomic.

(** * Audited writes, and the device and state stores *)

Section Calls.
Context `{Env} `{Sqlite} `{SerdeJson}.

Lemma atomic_run_audited actor op : atomic (run_audited actor op).
Proof.
  destruct op; simpl; unfold silently; apply atomic_map_ok;
    unfold SqlAudited.upsert, SqlAudited.add_group; atomic_run.
Qed.

(** Where the rows were counted and the count was zero, the update changed none. *)
Lemma no_rows_changed {A} (rows : Db → list A) set `{!Table rows set} p f db :
  (affected p (rows db) =? 0) = true → set (update_where p f) db = db.
Proof. intros Hz. apply table_same, update_where_id. by apply Nat.eqb_eq. Qed.

Ltac no_rows := eapply no_rows_changed; [typeclasses eauto|eassumption].

Lemma atomic_run_sql op : atomic (run_sql op).
Proof.
  destruct op; simpl; unfold dropped; try apply atomic_map_ok.
  - unfold SqlDevices.create_device_authorization. atomic_run.
  - unfold SqlDevices.device_by_user_code. atomic_run.
  - unfold SqlDevices.device_by_device_code. atomic_run.
  - intros w e w' Heq. unfold SqlDevices.approve_device_authorization, require_affected in Heq.
    minv; [done|no_rows].
  - intros w e w' Heq. unfold SqlDevices.consume_device_authorization, require_affected in Heq.
    minv. no_rows.
  - intros w e w' Heq. unfold SqlDevices.expire_device_authorization in Heq. minv.
  - unfold SqlState.create_auth_session, random_secret. atomic_run.
  - unfold SqlState.get_auth_session_by_code, SqlState.auth_session_by_clause. atomic_run.
  - unfold SqlState.get_auth_session_by_nonce, SqlState.auth_session_by_clause. atomic_run.
  - intros w e w' Heq. unfold SqlState.complete_auth_session, require_affected in Heq.
    minv; [done|no_rows].
  - intros w e w' Heq. unfold SqlState.consume_auth_session, require_affected in Heq. minv. no_rows.
  - unfold SqlState.create_login_state, random_secret. atomic_run.
  - intros w e w' Heq. unfold SqlState.set_login_state_private_state, require_affected in Heq.
    minv. no_rows.
  - intros w e w' Heq. unfold SqlState.consume_login_state, require_affected in Heq. minv; try done.
    no_rows.
  - unfold SqlState.create_browser_session, random_secret. atomic_run.
  - unfold SqlState.user_by_browser_session. atomic_run.
  - intros w e w' Heq. unfold SqlState.revoke_browser_session, require_affected in Heq. minv. no_rows.
  - unfold SqlState.create_csrf_token, random_secret. atomic_run.
  - intros w e w' Heq. unfold SqlState.consume_csrf_token, require_affected in Heq. minv. no_rows.
  - destruct op as [op|actor op|req|t|jti|e]; simpl; unfold dropped; try apply atomic_map_ok.
    + apply atomic_plain.
    + apply atomic_run_audited.
    + unfold SqlAccounts.resolve_login. atomic_run.
    + unfold SqlTokens.record_issued. atomic_run.
    + unfold SqlTokens.revoke_issued_token. atomic_run.
    + unfold SqlAudited.record_audit, SqlAudited.insert_admin_audit_conn. atomic_run.
Qed.

(** C29: A call of the SQLite adapter that fails leaves the database as it was, for all calls of all
    stores: those of several statements run in a transaction, and the others write once. *)
Theorem sql_calls_all_or_nothing op w e w' : run_sql op w = (Err e, w') → st w' = st w.
Proof. apply atomic_run_sql. Qed.
End Calls.

(** * Examples *)

(** The identity of another provider cannot claim Ann's invitation. *)
Definition stranger_request : LoginResolutionRequest :=
  mkLoginResolutionRequest
    (mkExternalIdentity "" "" "github" "https://github.com" "subject-1" "" "ann@example.org" true
       "Ann" "" "" "") (lrr_policy ann_request).

Lemma sql_calls_all_or_nothing_witness :
  (run_sql (SStore (DResolveLogin stranger_request)) office_world).1 = Err NotFound
  ∧ st (run_sql (SStore (DResolveLogin stranger_request)) office_world).2 = st office_world.
Proof.
  assert ((run_sql (SStore (DResolveLogin stranger_request)) office_world).1 = Err NotFound) as Hno
    by (vm_compute; reflexivity).
  split; [exact Hno|].
  pose proof (sql_calls_all_or_nothing (SStore (DResolveLogin stranger_request)) office_world) as Hx.
  destruct (run_sql (SStore (DResolveLogin stranger_request)) office_world) as [[[]|e] w1];
    [discriminate Hno|]. exact (Hx e w1 eq_refl).
Defined.

(** Nesting a group that is nested already is the one success that leaves no audit row. *)
Definition keeps_silent (op : admin_op) (before after : Db) : Prop :=
  match op with DAddGroupGroup _ _ => after = before | _ => False end.

Definition audit_row (actor action : string) (plain audited : Db) : Prop :=
  ∃ row, ar_actor row = actor ∧ ar_action row = action
    ∧ audited = set_admin_audit (λ rows, rows ++ [row]) plain.

(** [audited] is [plain] and one audit row, or it fails as [plain] does or because the audit row
    could not be written, and then changes nothing. *)
Definition audit_refines `{Env} (silent : Db → Db → Prop) (actor action : string)
    (plain audited : H Db admin_answer) (w : World Db) : Prop :=
  match audited w with
  | (Ok a, w1) =>
      ∃ w2, plain w = (Ok a, w2)
        ∧ ((silent (st w) (st w2) ∧ st w1 = st w2)
           ∨ (¬ silent (st w) (st w2) ∧ audit_row actor action (st w2) (st w1)))
  | (Err e, w1) =>
      st w1 = st w
      ∧ ((∃ w2, plain w = (Err e, w2)) ∨ (∃ m a w2, e = AdminAuditFailed m ∧ plain w = (Ok a, w2)))
  end.

(** [resource_id] names one repository, with or without one prefix. *)
Definition strips_once (op : admin_op) : Prop :=
  match op with
  | DDelete resource_id =>
      starts_with "urc-" (repository_id_from_resource_id resource_id) = false
  | _ => True
  end.

Section Refinement.
Context `{Env} `{Sqlite} `{SerdeJson}.

Lemma audit_run actor action object_type object_id detail w :
  (∃ row w1, SqlAudited.audit actor action object_type object_id detail w = (Ok tt, w1)
     ∧ ar_actor row = actor ∧ ar_action row = action
     ∧ st w1 = set_admin_audit (λ rows, rows ++ [row]) (st w))
  ∨ (∃ m w1, SqlAudited.audit actor action object_type object_id detail w
       = (Err (AdminAuditFailed m), w1)).
Proof.
  unfold SqlAudited.audit, SqlAudited.admin_audit_entry, SqlAudited.insert_admin_audit_conn, insert_row.
  mrun. destruct (_ && true); [|right; eauto].
  left. eexists (mkAdminAuditRow _ _ _ _ _ _ _), _. split_and!; reflexivity.
Qed.

Lemma audited_body {A} (body : H Db A) (f : A → admin_answer) actor action object_type
    (object_id detail : A → string) w :
  audit_refines (λ _ _, False) actor action (map_ok f body)
    (map_ok f (transaction (a <- body ;;
      SqlAudited.audit actor action object_type (object_id a) (detail a) ;;; ret a))) w.
Proof.
  unfold audit_refines, transaction. mrun.
  destruct (body w) as [[a|e] w2] eqn:Hb; simpl; [|eauto].
  destruct (audit_run actor action object_type (object_id a) (detail a) w2)
    as [(row & w1 & -> & ? & ? & ?)|(m & w1 & ->)]; simpl; unfold audit_row; naive_solver eauto 10.
Qed.

(** The same for a write without an answer. *)
Lemma audited_unit (body : H Db ()) actor action object_type object_id detail w :
  audit_refines (λ _ _, False) actor action (silently body)
    (silently (transaction (body ;;; SqlAudited.audit actor action object_type object_id detail))) w.
Proof.
  unfold audit_refines, silently, transaction. mrun.
  destruct (body w) as [[[]|e] w2] eqn:Hb; simpl; [|eauto].
  destruct (audit_run actor action object_type object_id detail w2)
    as [(row & w1 & -> & ? & ? & ?)|(m & w1 & ->)]; simpl; unfold audit_row; naive_solver eauto 10.
Qed.

(** A check that the plain write makes too may come first. *)
Lemma audited_lift {A} silent actor action (r : result CoreError A) (plain : H Db ()) audited w :
  (∀ a, r = Ok a → audit_refines silent actor action (silently plain) (silently (audited a)) w) →
  (∀ e, r = Err e → ∃ w2, plain w = (Err e, w2)) →
  audit_refines silent actor action (silently plain) (silently (bind (lift r) audited)) w.
Proof.
  intros Ha He. destruct r as [a|e]; [by apply Ha|]. destruct (He e eq_refl) as [w2 Hp].
  unfold audit_refines, silently. mrun. rewrite Hp. eauto.
Qed.

Lemma resolve_then_find u w id w1 :
  SqlAccounts.resolve_user_id_conn u w = (Ok id, w1) → w1 = w ∧
  match SqlAccounts.user_by_id_conn id w with
  | (Ok _, w2) => w2 = w
  | (Err e, w2) => w2 = w ∧ e = NotFound ∧ affected (λ r, String.eqb (ur_id r) id
      && negb (String.eqb (ur_status r) "deleted")) (db_users (st w)) = 0
  end.
Proof.
  intros Hr. assert (w1 = w) as ->.
  { unfold SqlAccounts.resolve_user_id_conn in Hr. minv.
    destruct (hd_error _); minv; done. }
  split; [done|]. unfold SqlAccounts.user_by_id_conn, query_row. mrun. unfold affected.
  destruct (where_ _ _); done.
Qed.

Lemma status_refines actor action status u w :
  audit_refines (λ _ _, False) actor action (silently (SqlAccounts.set_user_status_conn status u))
    (silently (transaction (
      id <- SqlAccounts.resolve_user_id_conn u ;;
      user <- SqlAccounts.user_by_id_conn id ;;
      SqlAccounts.set_user_status_conn status u ;;;
      SqlAudited.audit actor action "user" (u_id user) ("email=" +:+ u_email user)))) w.
Proof.
  destruct (SqlAccounts.resolve_user_id_conn u w) as [[id|e] w1] eqn:Hr.
  - pose proof (resolve_then_find u w id w1 Hr) as [-> Hf].
    destruct (SqlAccounts.user_by_id_conn id w) as [[user|e] w2] eqn:Hu.
    + subst w2. pose proof (audited_unit (SqlAccounts.set_user_status_conn status u) actor action
        "user" (u_id user) ("email=" +:+ u_email user) w) as Ha.
      unfold audit_refines, silently, map_ok, transaction, bind in *. by rewrite Hr, Hu.
    + destruct Hf as (-> & -> & Hz). unfold audit_refines, silently, transaction, SqlAccounts.set_user_status_conn, update_rows,
        require_affected.
      mrun. rewrite Hr, Hu. simpl. split; [done|]. left. rewrite Hz. eauto.
  - unfold audit_refines, silently, transaction, SqlAccounts.set_user_status_conn. mrun. rewrite Hr. eauto.
Qed.

(** Only the answer of the plain write and the state of its successes matter. *)
Lemma audit_refines_plain silent actor action plain plain' audited w :
  (∀ a w2, plain w = (Ok a, w2) → plain' w = (Ok a, w2)) →
  (∀ e w2, plain w = (Err e, w2) → ∃ w3, plain' w = (Err e, w3)) →
  audit_refines silent actor action plain audited w → audit_refines silent actor action plain' audited w.
Proof.
  intros Hok Herr. unfold audit_refines. destruct (audited w) as [[a|e] w1]; [naive_solver|].
  intros [Hs [[w2 Hp]|(m & a & w2 & -> & Hp)]]; (split; [done|]); [left; by eapply Herr|right; eauto 6].
Qed.

Lemma plain_transaction {A} silent actor action (body : H Db A) f audited w :
  audit_refines silent actor action (map_ok f body) audited w →
  audit_refines silent actor action (map_ok f (transaction body)) audited w.
Proof.
  apply audit_refines_plain; unfold transaction; mrun;
    destruct (body w) as [[a|e] w2]; naive_solver.
Qed.

Lemma audit_refines_loud silent actor action plain audited w :
  (∀ db, ¬ silent (st w) db) →
  audit_refines (λ _ _, False) actor action plain audited w →
  audit_refines silent actor action plain audited w.
Proof.
  intros Hs. unfold audit_refines. destruct (audited w) as [[a|e] w1]; [|done].
  intros (w2 & ? & [[[] _]|[_ ?]]). exists w2. split; [done|]. right. auto.
Qed.

(** The nesting is new exactly when a row is inserted. *)
Lemma nest_refines actor p m w :
  audit_refines (keeps_silent (DAddGroupGroup p m)) actor "group.nest.add"
    (silently (SqlGroups.add_group_group p m)) (silently (SqlAudited.add_group_group actor p m)) w.
Proof.
  unfold SqlGroups.add_group_group, SqlAudited.add_group_group, audit_refines, silently, map_ok,
    transaction, bind.
  destruct (SqlGroups.group_id_by_name_or_id_conn p w) as [[pid|e] w1] eqn:Hp; [|eauto].
  apply (readonly_eq _ _ _ _ (readonly_group_by_name_or_id p)) in Hp.
  destruct (SqlGroups.group_id_by_name_or_id_conn m w1) as [[mid|e] w2] eqn:Hm; [|eauto].
  apply (readonly_eq _ _ _ _ (readonly_group_by_name_or_id m)) in Hm. rewrite <- Hp, <- Hm.
  unfold SqlGroups.group_group_edge_exists_tx. mrun.
  destruct (String.eqb pid mid); [eauto|]. destruct (affected (edge pid mid) (db_group_groups (st w2)) =? 0) eqn:Ha; simpl;
    [|exists w2; naive_solver].
  destruct (bool_decide (pid ∈ descendants (st w2) mid)); [eauto|].
  unfold SqlGroups.insert_edge, insert_row. mrun. rewrite Ha. simpl.
  destruct (group_exists _ pid && group_exists _ mid); [|eauto].
  match goal with |- context [SqlAudited.audit actor ?a ?ot ?oid ?d ?w3] =>
    destruct (audit_run actor a ot oid d w3) as [(row & w4 & -> & ? & ? & Hs)|(msg & w4 & ->)] end;
    simpl in *.
  - eexists. split; [done|]. right. split.
    + intros Heq. apply (f_equal (length ∘ db_group_groups)) in Heq. simpl in Heq.
      rewrite length_app in Heq. simpl in Heq. lia.
    + by exists row.
  - split; [done|]. right. eauto 6.
Qed.

Lemma sql_upsert_refines actor r w :
  audit_refines (λ _ _, False) actor "repository.add" (silently (SqlResources.upsert r))
    (silently (SqlAudited.upsert actor r)) w.
Proof.
  unfold SqlAudited.upsert. apply audited_lift.
  - intros rid Hr. apply audited_unit.
  - intros e Hr. unfold SqlResources.upsert, SqlResources.upsert_resource_conn, bind, lift.
    rewrite Hr. eauto.
Qed.

Lemma sql_audited_refines actor op w :
  strips_once op →
  audit_refines (keeps_silent op) actor (admin_action op) (run_plain op) (run_audited actor op) w.
Proof.
  destruct op; simpl; intros Hs; try apply nest_refines;
    (apply audit_refines_loud; [by intros db ?|]); try apply audited_body; try apply audited_unit;
    try apply status_refines; try apply sql_upsert_refines.
  - apply plain_transaction, audited_body.
  - unfold SqlGroups.add_group, SqlAudited.add_group. destruct (is_empty (trim name)).
    + unfold audit_refines. mrun. eauto.
    + apply audited_body.
  - unfold SqlResources.delete_resource, SqlAudited.delete_resource.
    assert (SqlResources.delete_resource_conn (repository_id_from_resource_id resource_id)
      = SqlResources.delete_resource_conn resource_id) as ->; [|apply audited_unit].
    unfold SqlResources.delete_resource_conn.
    assert (repository_id_from_resource_id (repository_id_from_resource_id resource_id)
      = repository_id_from_resource_id resource_id) as ->; [|done].
    unfold repository_id_from_resource_id at 1.
    destruct (strip_prefix "urc-" (repository_id_from_resource_id resource_id)) eqn:Hx; [|done].
    assert (starts_with "urc-" (repository_id_from_resource_id resource_id) = true); [|congruence].
    apply starts_with_strip. eauto.
Qed.

(** C28: Every audited write of the SQLite adapter refines the plain one: the same answer and the
    same rows, and one audit row of the actor and action unless the nesting existed already; a
    failed write fails as the plain one does, or because the audit row could not be written, and
    leaves the database as it was. For deletion the resource id must not carry the prefix twice. *)
Theorem sql_audited_refines_plain actor op w :
  strips_once op →
  audit_refines (keeps_silent op) actor (admin_action op) (run_plain op) (run_audited actor op) w.
Proof. apply sql_audited_refines. Qed.
End Refinement.

(** * Examples *)

Lemma audited_success `{Env} silent actor action plain audited w a w1 :
  audit_refines silent actor action plain audited w → audited w = (Ok a, w1) →
  (∀ db db', ¬ silent db db') →
  ∃ w2, plain w = (Ok a, w2) ∧ audit_row actor action (st w2) (st w1).
Proof.
  intros Hr Ha Hs. unfold audit_refines in Hr. rewrite Ha in Hr.
  destruct Hr as (w2 & ? & [[Hx _]|[_ ?]]); [by apply Hs in Hx|eauto].
Qed.

Definition disable_bob : admin_op := DDisableUser bob_id.

Lemma bob_is_disabled : ∃ w1, run_audited "root" disable_bob office_world = (Ok NoAnswer, w1).
Proof. vm_compute. eauto. Qed.

Lemma sql_audited_refines_plain_witness :
  ∃ w1 w2, run_audited "root" disable_bob office_world = (Ok NoAnswer, w1)
    ∧ run_plain disable_bob office_world = (Ok NoAnswer, w2)
    ∧ audit_row "root" (admin_action disable_bob) (st w2) (st w1).
Proof.
  destruct bob_is_disabled as [w1 Hrun].
  destruct (audited_success _ _ _ _ _ office_world NoAnswer w1
    (sql_audited_refines_plain "root" disable_bob office_world I) Hrun (λ _ _ H, H)) as (w2 & Hp & Hr).
  exists w1, w2. split; [exact Hrun|]. split; [exact Hp|exact Hr].
Defined.
