(* ===== verification/KeyFacts.v ===== *)
(** Facts on the administration of signing keys: generating a key never overwrites a file or a
    key, and what it leaves can be loaded again. *)

From Stdlib Require Import ZArith Lia Ascii.
From stdpp Require Import base gmap strings list.
From S2P Require Import Prelude Model Ports MemState Files Demo.
From S2P Require Import SqlRows SqlBase SqlTokens SqlAudited SqlStore SqlAtomic Rs256 Rs256Facts.
From S2P Require Import Config ServiceGraph.

(** * Files *)

Section KeyFiles.
Context `{Env} `{JwtLib} `{FileSystem} {S : Type}.
Notation disk w := (st w).1.
Notation store w := (st w).2.

(** The store and all files but [path] stay. *)
Definition touches (path : string) (w w' : World (Disk * S)) : Prop :=
  store w' = store w ∧ ∀ p, p ≠ path → d_files (disk w') !! p = d_files (disk w) !! p.

#[local] Instance touches_order path : WorldOrder (touches path).
Proof.
  split; unfold touches; try done. intros w1 w2 w3 [Hs1 Hf1] [Hs2 Hf2].
  split; [by rewrite Hs2|]. intros p Hp. by rewrite Hf2, Hf1.
Qed.

Definition same_files (w w' : World (Disk * S)) : Prop :=
  store w' = store w ∧ d_files (disk w') = d_files (disk w).

#[local] Instance same_files_order : WorldOrder same_files.
Proof. split; unfold same_files; try done. intros ??? [??] [??]. split; congruence. Qed.

Lemma allowed_io_same op path : evolves same_files (allowed_io op path).
Proof. unfold allowed_io. evolve. Qed.
Lemma on_disk_dirs f : evolves same_files (on_disk (set_dirs f)).
Proof. by intros w. Qed.
#[local] Hint Resolve allowed_io_same on_disk_dirs : handler.

Lemma crypto_evolves R `{!WorldOrder R} {A} context (m : M string (Disk * S) A) :
  evolves R m → evolves R (crypto context m).
Proof. apply evolves_map_err. Qed.

Lemma make_dir_same dir :
  evolves same_files (crypto "create key dir" (create_dir_all (S := S) dir) ;;;
                      crypto "chmod key dir" (set_permissions dir 448)).
Proof.
  evolve; apply crypto_evolves; try typeclasses eauto; unfold create_dir_all, set_permissions; evolve.
Qed.

(** Writing a private key: a file that exists stays as it is. *)
Definition written (key : SigningKey) (path : string) (w : World (Disk * S)) (r : result Error ())
    (w' : World (Disk * S)) : Prop :=
  touches path w w'
  ∧ (d_files (disk w) !! path = None ∨ d_files (disk w') !! path = d_files (disk w) !! path)
  ∧ (r = Ok tt → d_files (disk w) !! path = None
       ∧ ∃ pem, to_pkcs8_pem (key_private key) = Ok pem
           ∧ d_files (disk w') !! path = Some (mkFile pem 384)).

Lemma not_written key path w err w' : same_files w w' → written key path w (Err err) w'.
Proof. intros [Hs Hf]. unfold written, touches. rewrite Hf. split_and!; try done. by right. Qed.

(** What follows the opening of the new file. *)
Lemma fill_file key path pem (w w1 : World (Disk * S)) r w' :
  same_files w w1 → d_files (disk w) !! path = None → to_pkcs8_pem (key_private key) = Ok pem →
  (crypto "write private key" (write_all path pem) ;;; crypto "sync private key" (sync_all path))
    (mkWorld (set_files <[path := mkFile "" 384]> (disk w1), store w1) (ticks w1) (draws w1)) = (r, w') →
  written key path w r w'.
Proof.
  intros [Hs Hf] Hnone Hpem. unfold crypto, write_all, sync_all, allowed_io.
  destruct (io_refused OpWrite path), (io_refused OpSync path); mrun; intros [= <- <-];
    unfold written, touches; simpl; rewrite Hs, Hf; split_and!; try done; try (by left);
    try (intros p Hp; by rewrite ?lookup_alter_ne, lookup_insert_ne by done).
  intros _. split; [done|]. exists pem. split; [done|].
  by rewrite lookup_alter, lookup_insert; simplify_map_eq.
Qed.

Lemma write_exclusive_run key path (w : World (Disk * S)) r w' :
  write_private_pem_exclusive key path w = (r, w') → written key path w r w'.
Proof.
  unfold write_private_pem_exclusive, write_private_pem_inner. intros Hrun.
  unfold bind at 1, lift at 1 in Hrun.
  destruct (crypto_result _ _) as [pem|] eqn:Hpem;
    [|simplify_eq; by apply not_written].
  assert (to_pkcs8_pem (key_private key) = Ok pem) as Hp
    by (unfold crypto_result in Hpem; destruct (to_pkcs8_pem _); congruence).
  cbn zeta in Hrun. match type of Hrun with (?m ;;; _) _ = _ => assert (evolves same_files m) as Hdir end.
  { destruct (is_empty _); [evolve|apply make_dir_same]. }
  specialize (Hdir w). unfold bind at 1 in Hrun.
  match type of Hdir with same_files _ (?m w).2 => destruct (m w) as [[[]|e] w1] end; simpl in Hdir;
    [|simplify_eq; by apply not_written].
  unfold bind at 1, crypto at 1, map_err at 1, open_options in Hrun.
  unfold allowed_io at 1 in Hrun. destruct (io_refused OpOpen path);
    [mrun; simplify_eq; by apply not_written|].
  unfold bind at 1, ret at 1 in Hrun. unfold bind at 1, get_state at 1 in Hrun.
  destruct (_ && _); [simpl in Hrun; simplify_eq; by apply not_written|].
  destruct (d_files (disk w1) !! path) as [file|] eqn:Hfile;
    [simpl in Hrun; simplify_eq; by apply not_written|].
  simpl in Hrun. eapply fill_file; [exact Hdir| |exact Hp|exact Hrun].
  destruct Hdir as [_ Hf]. by rewrite <- Hf.
Qed.
End KeyFiles.

(** * Generating a key *)

Section Generate.
Context `{Env} `{Sqlite} `{SerdeJson} `{JwtLib} `{FileSystem}.
Notation disk w := (st w).1.
Notation store w := (st w).2.

Lemma in_store_run {E S A} (m : M E S A) (w : World (Disk * S)) r w' :
  in_store m w = (r, w') →
  disk w' = disk w ∧ ∃ w0 w1, st w0 = store w ∧ m w0 = (r, w1) ∧ st w1 = store w'.
Proof.
  unfold in_store. destruct (m _) as [r1 w1] eqn:Hm. intros [= -> <-]. split; [done|].
  eexists _, w1. split_and!; [|exact Hm|]; done.
Qed.

Lemma generate_run {S} kid bits (w : World S) key w' :
  generate kid bits w = (Ok key, w') → st w' = st w ∧ ∃ private, from_private kid private = Ok key.
Proof.
  unfold generate. destruct (is_empty kid); [done|]. intros Hrun. minv. unfold os_rng, lift in *.
  simplify_eq/=. split; [done|]. by eexists.
Qed.

Lemma generate_same {S} kid bits (w : World S) : st (generate kid bits w).2 = st w.
Proof.
  unfold generate, os_rng. destruct (is_empty kid); [done|]. unfold bind, lift.
  destruct (crypto_result _ _); [|done]. by destruct (from_private _ _).
Qed.

Lemma key_added actor key bits (w : World Db) r w' :
  SqlAudited.add_signing_key_meta actor key bits w = (r, w') → sk_status key = "active" →
  match r with
  | Ok meta => meta = key ∧ ∃ row audit,
      db_signing_keys (st w') = db_signing_keys (st w) ++ [row] ∧ signing_key_from_row row = meta
      ∧ (∀ row, row ∈ db_signing_keys (st w) → kr_kid row ≠ sk_kid key)
      ∧ db_admin_audit (st w') = db_admin_audit (st w) ++ [audit] ∧ ar_actor audit = actor
  | Err _ => st w' = st w
  end.
Proof.
  intros Hrun Hstatus.
  pose proof (sql_audited_refines actor (DAddSigningKey key bits) w I) as Href.
  unfold audit_refines in Href. simpl in Href. unfold map_ok, bind, ret in Href. rewrite Hrun in Href.
  destruct r as [meta|err]; [|by destruct Href].
  destruct Href as (w2 & Hplain & [[[] _]|[_ (audit & Hactor & _ & Hdb)]]).
  destruct (SqlTokens.add_signing_key_meta key w) as [[meta'|err] w3] eqn:Hadd; [|done].
  injection Hplain as <- <-.
  unfold SqlTokens.add_signing_key_meta, SqlTokens.add_signing_key_meta_conn in Hadd.
  rewrite Hstatus in Hadd. unfold insert_row in Hadd. minv.
  rewrite andb_true_r in *. match goal with H : fresh_in _ _ _ = true |- _ => apply fresh_in_true in H end.
  split; [by destruct key; simpl in *; subst|]. rewrite Hdb. eexists _, audit.
  split_and!; [reflexivity|done| |reflexivity|done].
  intros row Hrow Heq. match goal with H : _ ∉ _ |- _ => apply H end.
  apply list_elem_of_fmap. eauto.
Qed.

Lemma lookup_key kid (w : World (Disk * Db)) r w' :
  in_store (SqlTokens.signing_key_by_kid kid) w = (r, w') → w' = w.
Proof.
  destruct w as [[d db] t n]. unfold in_store, SqlTokens.signing_key_by_kid, query_row. mrun.
  destruct (hd_error _); by intros [= _ <-].
Qed.

(** What a run leaves of the files when the key is not stored. *)
Definition kept (path : string) (w w' : World (Disk * Db)) : Prop :=
  (∀ p, p ≠ path → d_files (disk w') !! p = d_files (disk w) !! p)
  ∧ (∀ file, d_files (disk w) !! path = Some file → d_files (disk w') !! path = Some file).

Lemma kept_refl path w w' : disk w' = disk w → kept path w w'.
Proof. intros Hd. unfold kept. by rewrite Hd. Qed.

Lemma kept_written key path w r w' : written key path w r w' → kept path w w'.
Proof.
  intros ([_ Hother] & Hpath & _). split; [done|]. intros file Hfile.
  destruct Hpath as [Hnone|Hsame]; [by rewrite Hnone in Hfile|by rewrite Hsame].
Qed.

Lemma removed_run path (w : World (Disk * Db)) r w' :
  remove_file path w = (r, w') →
  store w' = store w ∧ ∀ p, p ≠ path → d_files (disk w') !! p = d_files (disk w) !! p.
Proof.
  unfold remove_file, allowed_io, on_disk.
  destruct (io_refused OpRemove path); mrun; [by intros [= _ <-]|].
  destruct (d_files (disk w) !! path); mrun; intros [= _ <-]; simpl; split; try done.
  intros p Hp. by rewrite lookup_delete_ne by done.
Qed.

(** The last step: the row of the key, or the file is removed again. *)
Lemma store_key actor meta bits path (w w1 : World (Disk * Db)) r w' :
  store w1 = store w → (∀ p, p ≠ path → d_files (disk w1) !! p = d_files (disk w) !! p) →
  d_files (disk w) !! path = None → sk_status meta = "active" →
  (added <- attempt (in_store (add_signing_key_meta (KeyAdminStore := audited_keys actor) meta bits)) ;;
   match added with
   | Ok meta => ret meta
   | Err err => attempt (remove_file path) ;;; throw err
   end) w1 = (r, w') →
  kept path w w'
  ∧ match r with
    | Err _ => store w' = store w
    | Ok meta' => meta' = meta ∧ disk w' = disk w1
        ∧ (∀ row, row ∈ db_signing_keys (store w) → kr_kid row ≠ sk_kid meta) ∧ ∃ row audit,
        db_signing_keys (store w') = db_signing_keys (store w) ++ [row]
        ∧ signing_key_from_row row = meta
        ∧ db_admin_audit (store w') = db_admin_audit (store w) ++ [audit] ∧ ar_actor audit = actor
    end.
Proof.
  intros Hs Hother Hnone Hstatus. unfold bind at 1, attempt at 1.
  destruct (in_store _ w1) as [[meta'|err] w2] eqn:Hadd;
    apply in_store_run in Hadd as (Hd & wi & wo & Hwi & Hrun & Hwo);
    pose proof (key_added _ _ _ _ _ _ Hrun Hstatus) as Hadded; simpl in Hadded; rewrite Hwi, Hwo, Hs in Hadded.
  - intros [= <- <-]. destruct Hadded as (-> & row & audit & Hkeys & Hrow & Hnew & Haudit & Hactor).
    split; [|eauto 10]. split; [by rewrite Hd|]. intros file Hf. by rewrite Hnone in Hf.
  - unfold bind, attempt, throw. destruct (remove_file path w2) as [r3 w3] eqn:Hrem.
    apply removed_run in Hrem as [Hs3 Hf3]. intros [= <- <-].
    split; [|by rewrite Hs3]. split; [intros p Hp; rewrite Hf3, Hd by done; by apply Hother|].
    intros file Hf. by rewrite Hnone in Hf.
Qed.

(** What generating a key does: no file changes but the new one in the key directory; on failure
    the database stays; on success the file is new, holds the key in PKCS#8 and is readable by its
    owner only, and the database has one more key, which is active and describes it, and one more
    audit row. *)
Definition generated (actor dir kid : string) (w : World (Disk * Db)) (r : result CoreError SigningKeyMeta)
    (w' : World (Disk * Db)) : Prop :=
  let path := SigningKeyAdmin.key_path dir kid in
  kept path w w'
  ∧ match r with
    | Err _ => store w' = store w
    | Ok meta =>
        valid_kid kid = true ∧ d_files (disk w) !! path = None
        ∧ (∀ row, row ∈ db_signing_keys (store w) → kr_kid row ≠ kid)
        ∧ (∃ key private pem public_jwk,
             from_private kid private = Ok key ∧ to_pkcs8_pem private = Ok pem
             ∧ d_files (disk w') !! path = Some (mkFile pem 384)
             ∧ value_to_vec (jwk_to_json (jwk key)) = Ok public_jwk
             ∧ meta = mkSigningKeyMeta kid ALG_RS256 public_jwk path "active")
        ∧ ∃ row audit,
            db_signing_keys (store w') = db_signing_keys (store w) ++ [row]
            ∧ signing_key_from_row row = meta
            ∧ db_admin_audit (store w') = db_admin_audit (store w) ++ [audit] ∧ ar_actor audit = actor
    end.

Lemma not_generated actor dir kid (w : World (Disk * Db)) err w' :
  kept (SigningKeyAdmin.key_path dir kid) w w' → store w' = store w →
  generated actor dir kid w (Err err) w'.
Proof. done. Qed.

Lemma from_private_fields kid private key : from_private kid private = Ok key →
  key_kid key = kid ∧ key_alg key = ALG_RS256 ∧ key_private key = private.
Proof. unfold from_private. destruct (crypto_result _ _); [by intros [= <-]|done]. Qed.

Lemma generate_active_run actor dir kid alg bits w r w' :
  SigningKeyAdmin.generate_active_key (KeyAdminStore0 := audited_keys actor) dir kid alg bits w = (r, w') →
  generated actor dir kid w r w'.
Proof.
  unfold SigningKeyAdmin.generate_active_key. cbn zeta. intros Hrun.
  destruct (negb (String.eqb _ ALG_RS256));
    [injection Hrun as <- <-; by apply not_generated; [apply kept_refl|]|].
  destruct (valid_kid kid) eqn:Hkid; cbn [negb] in Hrun;
    [|injection Hrun as <- <-; by apply not_generated; [apply kept_refl|]].
  unfold bind at 1, attempt at 1 in Hrun.
  destruct (in_store _ w) as [found w0] eqn:Hfound. apply lookup_key in Hfound as ->.
  destruct found as [?|err]; [injection Hrun as <- <-; by apply not_generated; [apply kept_refl|]|].
  destruct err; try (injection Hrun as <- <-; by apply not_generated; [apply kept_refl|]).
  unfold bind at 1, map_err at 1 in Hrun. pose proof (generate_same kid bits w) as Hsame.
  destruct (generate kid bits w) as [[key|err] w1] eqn:Hgen; simpl in Hsame;
    [|injection Hrun as <- <-; apply not_generated; [apply kept_refl|]; by rewrite Hsame].
  apply generate_run in Hgen as [_ [private Hkey]].
  destruct (from_private_fields _ _ _ Hkey) as (Hk & Ha & Hp).
  unfold bind at 1, map_err at 1 in Hrun.
  destruct (write_private_pem_exclusive key _ w1) as [wr w2] eqn:Hwrite.
  apply write_exclusive_run in Hwrite. pose proof (kept_written _ _ _ _ _ Hwrite) as Hkept.
  destruct Hwrite as ([Hs2 Hother] & _ & Hok). unfold kept in Hkept. rewrite Hsame in *.
  destruct wr as [[]|err]; [|injection Hrun as <- <-; by apply not_generated].
  destruct (Hok eq_refl) as (Hnone & pem & Hpem & Hfile).
  destruct (value_to_vec (jwk_to_json (jwk key))) as [public_jwk|err] eqn:Hjwk;
    [|unfold bind, map_err, lift in Hrun; injection Hrun as <- <-; by apply not_generated].
  unfold bind at 1, map_err at 1, lift at 1 in Hrun.
  apply (store_key _ _ _ _ w w2) in Hrun as [Hk' Hr]; [|done..].
  split; [done|]. destruct r as [meta|]; [|done].
  destruct Hr as (-> & Hd & Hnew & Hrow). simpl in Hnew. rewrite Hk in Hnew.
  split_and!; [done..| |exact Hrow].
  exists key, private, pem, public_jwk. rewrite Hd, Hk, Ha. by rewrite Hp in Hpem.
Qed.
End Generate.


(** * Loading a key *)

Section Load.
Context `{Env} `{Sqlite} `{SerdeJson} `{JwtLib} `{FileSystem} `{!JwtLaws}.

Lemma json_eqb_jwk key : json_eqb (jwk_to_json (jwk key)) (jwk_to_json (jwk key)) = true.
Proof.
  unfold jwk, new_rsa_jwk, jwk_to_json. simpl. by rewrite !String.eqb_refl.
Qed.

Lemma wf_jwk key : wf_json (jwk_to_json (jwk key)) = true.
Proof. by vm_compute. Qed.

(** The check at startup passes when the row holds the public key that the signer serves. *)
Lemma preflight_passes {S} key meta (w : World S) :
  value_to_vec (jwk_to_json (jwk key)) = Ok (sk_public_jwk_json meta) →
  preflight_signer (Signer.new key) meta w = (Ok tt, w).
Proof.
  intros Hjwk. unfold preflight_signer, Signer.jwks, context.
  destruct (json_writes (jwk_set_to_json (mkJwkSet [jwk (Signer.sg_key (Signer.new key))]))) as (raw & Hraw & _).
  rewrite Hraw. unfold map_ok, map_err, lift, bind, ret. rewrite String.string_of_list_byte_of_string.
  apply json_round in Hraw as ->; [|by vm_compute].
  change (first_key _) with (Some (jwk_to_json (jwk key))). cbn [ok_or]. unfold ret.
  destruct (is_empty _); [done|].
  rewrite (json_round _ _ (wf_jwk key) Hjwk). by rewrite json_eqb_jwk.
Qed.

Lemma load_written kid private key pem path (w : World (Disk * Db)) mode :
  from_private kid private = Ok key → to_pkcs8_pem private = Ok pem → kid ≠ "" →
  d_files (st w).1 !! path = Some (mkFile pem mode) → io_refused OpRead path = None →
  Signer.from_pem_file kid path w = (Ok (Signer.new key), w).
Proof.
  intros Hkey Hpem Hkid Hfile Hio. unfold Signer.from_pem_file, load_pem, fs_read, allowed_io.
  destruct (pem_round _ _ Hpem) as [Hparse Hutf]. destruct kid as [|c kid]; [done|].
  rewrite Hio. unfold map_ok, crypto, map_err, bind, ret, get_state, ok_or. cbn [is_empty].
  rewrite Hfile. unfold ret. cbn [file_bytes]. rewrite Hutf. unfold parse_rsa_private_key, lift. rewrite Hparse.
  by rewrite Hkey.
Qed.

Lemma where_last {A} (p : A → bool) rows row :
  (∀ x, x ∈ rows → p x = false) → p row = true → where_ p (rows ++ [row]) = [row].
Proof.
  intros Hrows Hrow. unfold where_. induction rows as [|x rows IH]; simpl; [by rewrite Hrow|].
  rewrite Hrows by left. apply IH. intros y Hy. apply Hrows. by right.
Qed.

(** C16: A server that is configured with a key that was just generated, and may read its file,
    loads it: the private key in the file parses and its public key passes the check at startup
    against the stored row. *)
Theorem generated_key_loads actor dir kid alg bits w meta w1 cfg :
  SigningKeyAdmin.generate_active_key (KeyAdminStore0 := audited_keys actor) dir kid alg bits w
    = (Ok meta, w1) →
  jc_active_kid (cfg_jwt cfg) = kid → io_refused OpRead (sk_private_key_path meta) = None →
  ∃ signer private,
    load_signer cfg w1 = (Ok signer, w1)
    ∧ from_private kid private = Ok (Signer.sg_key signer)
    ∧ value_to_vec (jwk_to_json (jwk (Signer.sg_key signer))) = Ok (sk_public_jwk_json meta).
Proof.
  intros Hgen Hactive Hio. apply generate_active_run in Hgen as
    (_ & Hkid & _ & Hnew & (key & private & pem & public_jwk & Hkey & Hpem & Hfile & Hjwk & ->)
     & row & audit & Hrows & Hrow & _).
  simpl in *. exists (Signer.new key), private. split_and!; [|done..].
  assert (kid ≠ "") as Hne by (by intros ->).
  assert (in_store (SqlTokens.active_signing_key kid) w1
          = (Ok (mkSigningKeyMeta kid ALG_RS256 public_jwk (SigningKeyAdmin.key_path dir kid) "active"), w1))
    as Hrun.
  { destruct w1 as [[d db] t n]. unfold in_store, SqlTokens.active_signing_key, bind, get_state. simpl in *.
    rewrite Hrows, (where_last _ (db_signing_keys (st w).2) row); [by rewrite <- Hrow|..].
    - intros row' Hin. apply Hnew in Hin. apply String.eqb_neq in Hin as ->.
      assert (is_empty kid = false) as -> by by destruct kid. apply andb_false_r.
    - unfold signing_key_from_row in Hrow. injection Hrow as -> _ _ _ ->. rewrite !String.eqb_refl. apply orb_true_r. }
  unfold load_signer, context. rewrite Hactive. unfold bind at 1, map_err at 1 2. rewrite Hrun.
  unfold bind at 1, map_err at 1 2. simpl sk_kid. simpl sk_private_key_path.
  rewrite (load_written kid private key pem _ w1 384) by done.
  unfold bind at 1. by rewrite preflight_passes.
Qed.
End Load.

(** * Examples: a first key *)

#[local] Instance demo_files : FileSystem := {|
  io_refused _ _ := None;
  io_not_found := "No such file or directory (os error 2)";
  io_already_exists := "File exists (os error 17)";
  default_dir_mode := 493
|}.

Definition empty_disk : World (Disk * Db) := mkWorld (mkDisk ∅ ∅, empty_db) 0 0.

Lemma first_key : ∃ meta w1,
  SigningKeyAdmin.generate_active_key (KeyAdminStore0 := audited_keys "root") "keys" "k1" "" 0 empty_disk
    = (Ok meta, w1)
  ∧ sk_private_key_path meta = "keys/k1.pem".
Proof.
  assert (match (SigningKeyAdmin.generate_active_key (KeyAdminStore0 := audited_keys "root") "keys" "k1" ""
                   0 empty_disk).1 with
          | Ok meta => String.eqb (sk_private_key_path meta) "keys/k1.pem" | Err _ => false end = true)
    as Hok by (vm_compute; reflexivity).
  destruct (SigningKeyAdmin.generate_active_key _ _ _ _ _) as [[meta|] w1]; [|discriminate Hok].
  exists meta, w1. split; [reflexivity|]. by apply String.eqb_eq.
Qed.


Definition k1_config : Config :=
  mkConfig (mkServerConfig "" "" "" "" "https://auth.example.org") (mkIdentityProvidersConfig None ∅)
    "rebac" "lore.db" (mkJwtConfig "https://auth.example.org" ["lore"] 3600 "keys" "k1")
    (mkLoreConfig "" "") (mkSecurityConfig 600 5 3600 600 [] []) [].

Lemma generated_key_loads_witness : ∃ meta w1 signer,
  SigningKeyAdmin.generate_active_key (KeyAdminStore0 := audited_keys "root") "keys" "k1" "" 0 empty_disk
    = (Ok meta, w1)
  ∧ load_signer k1_config w1 = (Ok signer, w1).
Proof.
  destruct first_key as (meta & w1 & Hrun & _).
  destruct (generated_key_loads _ _ _ _ _ _ _ _ k1_config Hrun eq_refl eq_refl)
    as (signer & private & Hload & _).
  exists meta, w1, signer. split; [exact Hrun|exact Hload].
Defined.
