(* ===== verification/TraceFacts.v ===== *)
(** What every run of the in-memory adapter's operations keeps true, in whatever order
    they take the lock. *)

From Stdlib Require Import ZArith Lia Ascii.
From stdpp Require Import base gmap strings list.
From S2P Require Import Prelude Model MemState MemGraph MemGroups MemSessions.
From S2P Require Import MemTokens MemAccounts MemGrants MemAudited MemTrace.
From S2P Require Import ModelFacts Demo AuthzFacts.

(** * Invariants of single operations *)

Section Leaves.
Context `{Env} (R : World State → World State → Prop) `{!WorldOrder R}.

Lemma accessible_entries_any prefix l acc : evolves R (Grants.accessible_entries prefix l acc).
Proof. revert acc. induction l as [|[r o] l IH]; intros acc; simpl; evolve. Qed.

Lemma accessible_subjects_any s prefix l acc : evolves R (Grants.accessible_subjects s prefix l acc).
Proof.
  revert acc. induction l as [|x l IH]; intros acc; simpl; evolve;
    auto using accessible_entries_any.
Qed.
End Leaves.

Lemma keeps_modify {E} (I : State → Prop) (f : State → State) :
  (∀ s, I s → I (f s)) → evolves (E := E) (keeps I) (modify_state f).
Proof. intros Hf w Hw. by apply Hf. Qed.

(** Most mutations leave the fields that an invariant reads alone. *)
Ltac kept_leaf :=
  first [ apply keeps_modify; intros ? Hs; exact Hs
        | apply accessible_entries_any; typeclasses eauto
        | apply accessible_subjects_any; typeclasses eauto ].
Ltac kept := evolve; try kept_leaf.

(** The operations that [store_ops] leaves folded. *)
Create HintDb session_ops.
#[export] Hint Unfold Devices.create_device_authorization Devices.approve_device_authorization
  Devices.consume_device_authorization Devices.expire_device_authorization
  Sessions.create_auth_session Sessions.complete_auth_session Sessions.consume_auth_session
  Sessions.create_login_state Sessions.set_login_state_private_state Sessions.consume_login_state
  Sessions.create_csrf_token Sessions.consume_csrf_token unix_after : session_ops.

Section Invariants.
Context `{Env}.

Lemma audited_add_group_group_graph_ok actor p m :
  evolves (keeps (λ s, group_graph_ok (group_groups s))) (Audited.add_group_group actor p m).
Proof.
  intros w Hok. pose proof (add_group_group_graph_ok p m w Hok) as Hg.
  unfold Groups.add_group_group, Audited.add_group_group, Audited.push_audit, admin_audit_entry in *.
  mrun. destruct (resolve_group_id (st w) p) as [pid|]; [|done].
  destruct (resolve_group_id (st w) m) as [mid|]; [|done].
  destruct (String.eqb pid mid); [done|]. destruct (bool_decide _); [done|].
  by destruct (group_group_would_cycle (st w) pid mid).
Qed.

Lemma audited_remove_group_group_graph_ok actor p m :
  evolves (keeps (λ s, group_graph_ok (group_groups s))) (Audited.remove_group_group actor p m).
Proof.
  intros w Hok. pose proof (remove_group_group_graph_ok p m w Hok) as Hg.
  unfold Groups.remove_group_group, Audited.remove_group_group, Audited.push_audit,
    admin_audit_entry in *.
  mrun. destruct (resolve_group_id (st w) p) as [pid|]; [|done].
  destruct (resolve_group_id (st w) m) as [mid|]; [|done].
  destruct (group_groups (st w) !! pid) as [ms|]; [|done]. by destruct (list_find _ ms) as [[]|].
Qed.

Lemma run_op_group_graph op : evolves (keeps (λ s, group_graph_ok (group_groups s))) (run_op op).
Proof.
  destruct op; simpl; try match goal with op : audited_op |- _ => destruct op; simpl end;
    match goal with
    | |- evolves _ (Groups.add_group_group _ _) => intros w; exact (add_group_group_graph_ok _ _ w)
    | |- evolves _ (Groups.remove_group_group _ _) => intros w; exact (remove_group_group_graph_ok _ _ w)
    | |- evolves _ (Audited.add_group_group _ _ _) => apply audited_add_group_group_graph_ok
    | |- evolves _ (Audited.remove_group_group _ _ _) => apply audited_remove_group_group_graph_ok
    | _ => autounfold with store_ops session_ops; kept
    end.
Qed.

(** Roles, unless a fixture writes an unknown one. *)
Definition op_known_role (op : store_op) : Prop :=
  match op with OpGrantRole _ _ role => is_known_role role = true | _ => True end.

Lemma keeps_insert_role {E} subject resource_id role :
  is_known_role role = true →
  evolves (E := E) (keeps known_roles)
    (modify_state (upd_grants (Grants.insert_grant subject resource_id role))).
Proof. intros Hr. apply keeps_modify. intros s. by apply known_roles_insert. Qed.

Lemma keeps_delete_role {E} subject resource_id :
  evolves (E := E) (keeps known_roles)
    (modify_state (upd_grants (alter (delete resource_id) subject))).
Proof. apply keeps_modify. intros s. by apply known_roles_delete. Qed.

Lemma run_op_known_roles op : op_known_role op → evolves (keeps known_roles) (run_op op).
Proof.
  destruct op; simpl; intros Hop;
    try match goal with op : audited_op |- _ => destruct op; simpl end;
    autounfold with store_ops session_ops; kept.
  all: first [apply keeps_insert_role; first [done|by apply negb_false_iff] | apply keeps_delete_role].
Qed.

(** Device rows are stored under their id and have one of four statuses. *)
Definition devices_wf (s : State) : Prop :=
  ∀ id d, device_authorizations s !! id = Some d →
    da_id d = id ∧ da_status d ∈ ["pending"; "approved"; "consumed"; "expired"].

Lemma devices_wf_insert s id d :
  devices_wf s → da_id d = id → da_status d ∈ ["pending"; "approved"; "consumed"; "expired"] →
  devices_wf (upd_device_authorizations (<[id := d]>) s).
Proof.
  intros Hs H1 H2 id' d'. simpl. destruct (decide (id' = id)) as [->|Hne].
  - rewrite lookup_insert_eq. by intros [= <-].
  - rewrite lookup_insert_ne by done. apply Hs.
Qed.

Lemma run_op_devices_wf op : evolves (keeps devices_wf) (run_op op).
Proof.
  destruct op; simpl; try match goal with op : audited_op |- _ => destruct op; simpl end;
    match goal with
    | |- evolves _ (Devices.approve_device_authorization ?i _) => rename i into row
    | |- evolves _ (Devices.consume_device_authorization ?i) => rename i into row
    | |- evolves _ (Devices.expire_device_authorization ?i) => rename i into row
    | _ => autounfold with store_ops session_ops; kept
    end.
  - apply keeps_modify. intros s Hs. apply devices_wf_insert; [done..|]. simpl. set_solver.
  - intros w Hs. unfold Devices.approve_device_authorization. mrun.
    destruct (device_authorizations (st w) !! row) as [d|] eqn:Hd; [|done].
    destruct (Hs _ _ Hd) as [Hid _]. repeat case_match; simplify_eq/=; try done.
    apply devices_wf_insert; [done..|]. simpl. set_solver.
  - intros w Hs. unfold Devices.consume_device_authorization. mrun.
    destruct (device_authorizations (st w) !! row) as [d|] eqn:Hd; [|done].
    destruct (Hs _ _ Hd) as [Hid _]. repeat case_match; simplify_eq/=; try done.
    apply devices_wf_insert; [done..|]. simpl. set_solver.
  - intros w Hs. unfold Devices.expire_device_authorization. mrun.
    destruct (device_authorizations (st w) !! row) as [d|] eqn:Hd; [|done].
    destruct (Hs _ _ Hd) as [Hid _]. repeat case_match; simplify_eq/=; try done.
    apply devices_wf_insert; [done..|]. simpl. set_solver.
Qed.

(** The audit log only grows. *)
Definition audit_grows (w w' : World State) : Prop := admin_audit (st w) `prefix_of` admin_audit (st w').

#[export] Instance audit_grows_order : WorldOrder audit_grows.
Proof. split; unfold audit_grows; intros; simpl; try done. by etrans. Qed.

Lemma audit_grows_frame {E} (f : State → State) :
  (∀ s, admin_audit s `prefix_of` admin_audit (f s)) → evolves (E := E) audit_grows (modify_state f).
Proof. intros Hf w. apply Hf. Qed.

Lemma run_op_audit_grows op : evolves audit_grows (run_op op).
Proof.
  destruct op; simpl; try match goal with op : audited_op |- _ => destruct op; simpl end;
    autounfold with store_ops session_ops; evolve;
    first [ apply accessible_subjects_any; typeclasses eauto
          | apply audit_grows_frame; intros ?; simpl; first [done | by apply prefix_app_r] ].
Qed.
End Invariants.

(** * Runs *)

Section Runs.
Context `{Env}.

Lemma run_ops_evolves (R : World State → World State → Prop) `{!WorldOrder R}
    (P : store_op → Prop) ops w :
  (∀ op, P op → evolves R (run_op op)) → Forall P ops → R w (run_ops ops w).2.
Proof.
  intros HR. revert w. induction ops as [|op ops IH]; intros w HP; simpl; [apply wo_refl|].
  inversion_clear HP as [|? ? Hop Hops]. specialize (HR op Hop w).
  destruct (run_op op w) as [r w1]. specialize (IH w1 Hops).
  destruct (run_ops ops w1) as [rs w2]. simpl in *. by eapply wo_trans.
Qed.

Lemma run_ops_reachable ops w : reachable w → reachable (run_ops ops w).2.
Proof.
  revert w. induction ops as [|op ops IH]; intros w Hw; simpl; [done|].
  pose proof (reachable_step w op Hw) as Hw1. destruct (run_op op w) as [r w1].
  specialize (IH w1 Hw1). by destruct (run_ops ops w1).
Qed.

Lemma reachable_devices_wf w : reachable w → devices_wf (st w).
Proof.
  induction 1 as [|w op _ IH]; [intros id d; simpl; by rewrite lookup_empty|].
  by apply run_op_devices_wf.
Qed.

(** In every reachable store the group graph is acyclic and no group is listed twice under the
    same parent. *)
Theorem reachable_group_graph_acyclic w :
  reachable w →
  acyclic (group_groups (st w)) ∧ ∀ p ms, group_groups (st w) !! p = Some ms → NoDup ms.
Proof.
  change (reachable w → group_graph_ok (group_groups (st w))).
  induction 1 as [|w op _ IH]; [apply group_graph_ok_empty|]. by apply run_op_group_graph.
Qed.

(** Administration stores only the roles reader, writer and admin, so listing accessible
    repositories never fails on a stored role. *)
Theorem runs_store_known_roles_only ops w :
  known_roles (st w) → Forall op_known_role ops → known_roles (st (run_ops ops w).2).
Proof.
  intros Hw Hops. apply (run_ops_evolves (keeps known_roles) op_known_role); [|done|done].
  apply run_op_known_roles.
Qed.

(** No operation removes, reorders or changes an audit entry: after any run the log is the old
    one with entries appended. *)
Theorem audit_log_append_only ops w :
  ∃ entries, admin_audit (st (run_ops ops w).2) = admin_audit (st w) ++ entries.
Proof.
  apply (run_ops_evolves audit_grows (λ _, True)); [|by apply Forall_true].
  intros op _. apply run_op_audit_grows.
Qed.
End Runs.

Section Credentials.
Context `{Env}.
Context (uuid_unique : ∀ i j, hash_secret (uuid_src i) = hash_secret (uuid_src j) → i = j).

(** In every sequence of store operations from a reachable store, a device authorization is
    approved at most once and redeemed at most once, an auth session is completed and consumed
    at most once, and a CSRF token and a login state are consumed at most once. *)
Theorem credentials_are_one_shot ops w shot :
  reachable w → uses shot (run_ops ops w).1 ≤ 1.
Proof.
  intros Hw%reachable_wf; [|done]. destruct (run_ops ops w) as [trace w'] eqn:Hr.
  by eapply uses_at_most_once.
Qed.

(** Whatever operations run, every device authorization and auth session stays in its table and
    only moves along its state machine: pending, approved, consumed or pending, expired;
    pending, completed, consumed. *)
Theorem runs_follow_state_machines ops w :
  reachable w →
  (∀ id d, device_authorizations (st w) !! id = Some d →
     ∃ d', device_authorizations (st (run_ops ops w).2) !! id = Some d' ∧ rtc device_step d d')
  ∧ (∀ id s, auth_sessions (st w) !! id = Some s →
     ∃ s', auth_sessions (st (run_ops ops w).2) !! id = Some s' ∧ rtc session_step s s').
Proof.
  intros Hw%reachable_wf; [|done].
  assert (evolution w (run_ops ops w).2) as Hev.
  { apply (run_ops_evolves evolution (λ _, True)); [|by apply Forall_true].
    intros op _. by apply run_op_evolves. }
  destruct (Hev Hw) as [_ [_ Hd Hs _ _]]. done.
Qed.
End Credentials.

(** * Examples *)

(** Two groups, one nested in the other; the reverse nesting is refused. *)
Definition nest_ops : list store_op :=
  [OpAddGroup "a" ""; OpAddGroup "b" ""; OpAddGroupGroup "a" "b"; OpAddGroupGroup "b" "a"].

Lemma nest_ops_run :
  (run_ops nest_ops (mkWorld default_State 0 0)).1.*2
  = [Ok tt; Ok tt; Ok tt; Err (InvalidArgument "group nesting would create a cycle")].
Proof. vm_compute. reflexivity. Qed.

(** A session is created, completed and consumed twice. *)
Definition session_ops_run : list store_op :=
  [OpCreateAuthSession "client" (from_secs 60); OpCompleteSession (letters 2) "ann";
   OpConsumeSession (letters 2); OpConsumeSession (letters 2)].

