(* ===== verification/GraphFacts.v ===== *)
(** Group nesting: the searches of the group graph terminate and compute reachability,
    and nesting is decided, applied and undone as specified. *)

From Stdlib Require Import ZArith Lia Ascii.
From stdpp Require Import base gmap strings list.
From S2P Require Import Prelude Model MemState MemGraph MemGroups Demo.

Section Searches.
Context `{Env}.

(** C37: The closure loop over the group graph ends within one pass per group, whatever order the
    map iterates in, and contains exactly the groups above the direct groups of the user. *)
Theorem group_closure_is_reachability s user_id :
  closure_loop (S (size (group_groups s))) (hash_iter (group_groups s))
    (direct_group_ids_for_user s user_id) = Some (group_closure s user_id)
  ∧ ∀ g, g ∈ group_closure s user_id
      ↔ contains_transitively (group_groups s) (direct_group_ids_for_user s user_id) g.
Proof.
  split; [|intros g; apply elem_of_group_closure]. unfold group_closure.
  destruct (closure_loop_total (S (size (group_groups s))) (hash_iter (group_groups s))
    (direct_group_ids_for_user s user_id)) as [gs Hgs]; [|by rewrite Hgs].
  pose proof (hash_iter_keys_size (group_groups s) (direct_group_ids_for_user s user_id)). lia.
Qed.

(** The breadth-first search labels exactly the groups of the closure, each with the rendering
    of a chain of memberships from a direct group of the user. *)
Theorem group_paths_label_the_closure s user_id g :
  (is_Some (group_paths_for_user s user_id !! g) ↔ g ∈ group_closure s user_id)
  ∧ ∀ p, group_paths_for_user s user_id !! g = Some p →
      renders_chain s (direct_group_ids_for_user s user_id) g p.
Proof.
  split; [apply group_paths_for_user_dom|]. intros p.
  apply (bi_chain _ _ _ _ (group_paths_for_user_inv s user_id)).
Qed.

(** The nesting check ends within one step per edge of the group graph, also on a cyclic graph,
    and decides whether the parent is reachable from the member. *)
Theorem cycle_check_decides s parent member :
  ∃ b, cycle_loop (S (S (edge_count (group_groups s)))) (group_groups s) parent ∅ [member] = Some b
    ∧ group_group_would_cycle s parent member = b
    ∧ (b = true ↔ rtc (member_edge (group_groups s)) member parent).
Proof.
  destruct (cycle_loop_total (S (S (edge_count (group_groups s)))) (group_groups s) parent ∅ [member])
    as [b Hb]; [rewrite unseen_edges_empty; simpl; lia|].
  exists b. split; [done|].
  assert (group_group_would_cycle s parent member = b) as Hg.
  { unfold group_group_would_cycle. by rewrite Hb. }
  split; [done|]. rewrite <- Hg. apply group_group_would_cycle_spec.
Qed.
End Searches.

(** The contract of nesting the group [m] in the group [p]. *)
Inductive nest_spec (gg : gmap string (list string)) (p m : string)
    : result CoreError () → gmap string (list string) → Prop :=
  | ns_self : p = m → nest_spec gg p m (Err (InvalidArgument "group cannot contain itself")) gg
  | ns_present : p ≠ m → member_edge gg p m → nest_spec gg p m (Ok tt) gg
  | ns_cycle :
      p ≠ m → ¬ member_edge gg p m → rtc (member_edge gg) m p →
      nest_spec gg p m (Err (InvalidArgument "group nesting would create a cycle")) gg
  | ns_new gg' :
      p ≠ m → ¬ member_edge gg p m → ¬ rtc (member_edge gg) m p →
      (∀ a b, member_edge gg' a b ↔ member_edge gg a b ∨ a = p ∧ b = m) →
      nest_spec gg p m (Ok tt) gg'.

Section Nesting.
Context `{Env}.

Lemma member_edge_default gg p m : m ∈ default [] (gg !! p) ↔ member_edge gg p m.
Proof.
  unfold member_edge. destruct (gg !! p) as [ms|]; simpl.
  - split; [eauto|]. by intros (? & [= <-] & ?).
  - split; [by intros ?%not_elem_of_nil|by intros (? & ? & _)].
Qed.

Lemma member_edge_append gg p m a b :
  member_edge (<[p := default [] (gg !! p) ++ [m]]> gg) a b
  ↔ member_edge gg a b ∨ a = p ∧ b = m.
Proof.
  rewrite member_edge_insert. rewrite elem_of_app, member_edge_default, list_elem_of_singleton.
  destruct (decide (a = p)) as [->|]; naive_solver.
Qed.

(** C38: add_group_group implements its contract on every branch: unknown groups, a group in itself,
    an existing nesting, a nesting that would close a cycle, and a new nesting, which adds
    exactly that edge and changes nothing else. *)
Theorem add_group_group_refines parent member w :
  match resolve_group_id (st w) parent, resolve_group_id (st w) member with
  | Ok p, Ok m =>
      ∃ r w', Groups.add_group_group parent member w = (r, w')
        ∧ nest_spec (group_groups (st w)) p m r (group_groups (st w'))
        ∧ st w' = upd_group_groups (λ _, group_groups (st w')) (st w)
  | _, _ => Groups.add_group_group parent member w = (Err NotFound, w)
  end.
Proof.
  unfold Groups.add_group_group. mrun. unfold resolve_group_id.
  destruct (group_by_name_or_id (st w) parent) as [gp|e] eqn:Hp;
    [destruct (group_by_name_or_id (st w) member) as [gm|e] eqn:Hm|].
  - destruct (String.eqb_spec (g_id gp) (g_id gm)) as [Heq|Hne].
    { eexists _, _. split_and!; [done|by constructor|by destruct w as [[]]]. }
    case_bool_decide as Hin; rewrite member_edge_default in Hin.
    { eexists _, _. split_and!; [done|by constructor|by destruct w as [[]]]. }
    destruct (group_group_would_cycle (st w) (g_id gp) (g_id gm)) eqn:Hc.
    + apply group_group_would_cycle_spec in Hc.
      eexists _, _. split_and!; [done|by constructor|by destruct w as [[]]].
    + eexists _, _. split_and!; [done| |done]. apply ns_new; [done..| |].
      * intros Hr%group_group_would_cycle_spec. congruence.
      * intros a b. apply member_edge_append.
  - assert (e = NotFound) as ->; [|done]. unfold group_by_name_or_id in Hm.
    repeat case_match; congruence.
  - assert (e = NotFound) as ->; [|done]. unfold group_by_name_or_id in Hp.
    repeat case_match; congruence.
Qed.

(** Removing a nesting that was just added succeeds and restores the members of every group. *)
Theorem nest_then_unnest parent member p m w w1 :
  resolve_group_id (st w) parent = Ok p → resolve_group_id (st w) member = Ok m →
  ¬ member_edge (group_groups (st w)) p m →
  Groups.add_group_group parent member w = (Ok tt, w1) →
  ∃ w2, Groups.remove_group_group parent member w1 = (Ok tt, w2)
    ∧ ∀ g, default [] (group_groups (st w2) !! g) = default [] (group_groups (st w) !! g).
Proof.
  intros Hp Hm Hnew. unfold Groups.add_group_group. mrun. rewrite Hp, Hm.
  destruct (String.eqb p m); [done|]. rewrite <- member_edge_default in Hnew.
  rewrite bool_decide_false by done. destruct (group_group_would_cycle _ _ _); [done|].
  intros [= <-]. unfold Groups.remove_group_group. mrun.
  set (s1 := upd_group_groups _ (st w)).
  assert (resolve_group_id s1 parent = Ok p) as -> by exact Hp.
  assert (resolve_group_id s1 member = Ok m) as -> by exact Hm.
  subst s1. simpl. rewrite lookup_insert_eq.
  set (ms := default [] (group_groups (st w) !! p)) in *.
  assert (list_find (λ id, id = m) (ms ++ [m]) = Some (length ms, m)) as ->.
  { apply list_find_app_Some. right. split_and!; [lia| |].
    - apply list_find_None, Forall_forall. intros x Hx ->. done.
    - rewrite Nat.sub_diag. simpl. by rewrite decide_True. }
  eexists. split; [done|]. intros g. simpl.
  destruct (decide (g = p)) as [->|Hne]; [|by rewrite !lookup_insert_ne by done].
  rewrite lookup_insert_eq. simpl. rewrite delete_middle.
  by rewrite app_nil_r.
Qed.
End Nesting.

(** * Examples *)

