(* ===== verification/AuditFacts.v ===== *)
(** The audited store refines the plain store: an admin write through it gives the
    same answer and the same state, plus one audit entry when it changed something. *)

From Stdlib Require Import ZArith Lia Ascii.
From stdpp Require Import base gmap strings list.
From S2P Require Import Prelude Model MemState MemGraph MemGroups MemTokens MemAccounts.
From S2P Require Import MemGrants MemAudited MemTrace ModelFacts Demo.

(** The plain operation that an audited one wraps; [delete] is different (it keeps the row). *)
Definition plain_of (op : audited_op) : option store_op :=
  match op with
  | AOpAddGroup n d => Some (OpAddGroup n d)
  | AOpAddGroupMember g u => Some (OpAddGroupMember g u)
  | AOpRemoveGroupMember g u => Some (OpRemoveGroupMember g u)
  | AOpAddGroupGroup p m => Some (OpAddGroupGroup p m)
  | AOpRemoveGroupGroup p m => Some (OpRemoveGroupGroup p m)
  | AOpAddGrant t i r o => Some (OpAddGrant t i r o)
  | AOpRemoveGrant t i r o => Some (OpRemoveGrant t i r o)
  | AOpAddUser i => Some (OpAddUser i)
  | AOpAddInvitation i => Some (OpAddInvitation i)
  | AOpDisableUser u => Some (OpDisableUser u)
  | AOpEnableUser u => Some (OpEnableUser u)
  | AOpUpsert r => Some (OpUpsert r)
  | AOpDeleteResource _ => None
  end.

(** [s1] is [s2] with audit entries of [actor] appended: one for a change, none otherwise. *)
Inductive audit_refines (actor : string) (s0 : State)
    : result CoreError () → State → State → Prop :=
  | ar_changed e s2 :
      aa_actor e = actor →
      audit_refines actor s0 (Ok tt) (upd_admin_audit (λ l, l ++ [e]) s2) s2
  | ar_nothing_to_do : audit_refines actor s0 (Ok tt) s0 s0
  | ar_failed e : audit_refines actor s0 (Err e) s0 s0.

Section Refinement.
Context `{Env}.

Lemma bind_lift_Ok {E S A B} (a : A) (k : A → M E S B) w : bind (lift (Ok a)) k w = k a w.
Proof. done. Qed.

Lemma add_test_resource_canonical r :
  canonical_resource r →
  Resources.add_test_resource r =
    (id <- (if is_empty (r_id r) then uuid_v4 else ret (r_id r)) ;;
     let r' := mkResource id (r_name r) (r_remote_url r) (r_lore_repository_id r) (r_resource_id r)
       (if is_empty (r_status r) then "active" else r_status r) in
     modify_state (upd_resources (<[r_resource_id r := r']>)) ;;; ret r').
Proof.
  intros [Hv Hr]. apply for_repository_id_Some in Hr as (Hn & Hs & _).
  unfold Resources.add_test_resource, or_else_str.
  apply is_empty_false in Hn. rewrite Hn.
  assert (is_empty (r_resource_id r) = false) as -> by (by destruct (r_resource_id r)). done.
Qed.

Lemma upsert_refines actor r0 w :
  ∃ r w1 w2, Audited.upsert actor r0 w = (r, w1) ∧ Resources.upsert r0 w = (r, w2)
    ∧ audit_refines actor (st w) r (st w1) (st w2).
Proof.
  unfold Audited.upsert, Resources.upsert.
  destruct (normalize_resource_for_upsert r0) as [r|e] eqn:Hn; rewrite ?bind_lift_Ok.
  - apply normalize_resource_for_upsert_Ok in Hn as [Hc _].
    rewrite (add_test_resource_canonical r Hc). unfold Audited.push_audit, admin_audit_entry. mrun.
    destruct (is_empty (r_id r)); (eexists _, _, _; split_and!; [reflexivity..|]; by apply ar_changed).
  - eexists _, _, _; split_and!; [reflexivity..|]. apply ar_failed.
Qed.

(** Every admin write of the audited store, deletion apart, refines the plain store operation:
    it gives the same answer and the same state, plus one audit entry of the actor when it
    changed something, and a failed write leaves the store as it was, without an entry. *)
Theorem audited_refines_plain actor op plain w :
  plain_of op = Some plain →
  ∃ r w1 w2, run_audited actor op w = (r, w1) ∧ run_op plain w = (r, w2)
    ∧ audit_refines actor (st w) r (st w1) (st w2).
Proof.
  destruct op; simpl; intros [= <-]; simpl; [..|apply upsert_refines]; unfold unit_of;
    unfold Audited.add_group, Audited.add_group_member, Audited.remove_group_member,
      Audited.add_group_group, Audited.remove_group_group, Audited.add_grant, Audited.remove_grant,
      Audited.add_user, Audited.add_invitation, Audited.disable_user, Audited.enable_user,
      Audited.push_audit, admin_audit_entry,
      Groups.add_group, Groups.add_group_member, Groups.remove_group_member,
      Groups.add_group_group, Groups.remove_group_group, Grants.add_grant, Grants.remove_grant,
      Accounts.add_user, Accounts.add_invitation, Accounts.invited, Accounts.disable_user,
      Accounts.enable_user; mrun.
  all: repeat match goal with
    | |- context [match ?x with _ => _ end] =>
        lazymatch x with
        | context [match _ with _ => _ end] => fail
        | _ => destruct x eqn:?; simpl in *
        end
    end; try discriminate; try (eexists _, _, _; split_and!; [reflexivity|reflexivity|]; simpl;
    first [apply ar_failed | apply ar_nothing_to_do | by apply ar_changed]).
Qed.
End Refinement.

(** * Examples *)

