(* ===== verification/TokenFacts.v ===== *)
(** The token service: a repository token is only signed for repositories that the
    policy lets the user write to, and never for anything else.  Proved over any
    adapter that satisfies [ReadPorts], and for the in-memory adapter, which does. *)

From Stdlib Require Import ZArith Lia Ascii.
From stdpp Require Import base gmap strings list.
From S2P Require Import Prelude Model Ports MemState MemGraph MemTokens MemGrants.
From S2P Require Import MemAccounts MemPorts TokenSvc PermissionSvc ModelFacts Demo AuthzFacts.

(** What the services rely on: lookups and decisions do not write, and what they answer
    is a function of the state they ran in. *)
Class ReadPorts {S} (res : ResourceQuery S) (authz : AuthorizationPolicy S)
    (stored : S → string → option Resource) (allowed : S → string → string → string → bool) := {
  rp_get_readonly : ∀ id, readonly (get_by_resource_id res id);
  rp_get_sound : ∀ id w r w', get_by_resource_id res id w = (Ok r, w') → stored (st w) id = Some r;
  rp_can_readonly : ∀ u r a, readonly (can_access authz u r a);
  rp_can_sound : ∀ u r a w b w', can_access authz u r a w = (Ok b, w') → allowed (st w) u r a = b
}.

#[export] Instance store_read_ports `{Env} :
  ReadPorts store_resource_query store_authz (λ s id, resources s !! id) decision.
Proof.
  split.
  - intros id w. simpl. unfold Resources.get_by_resource_id. mrun. by destruct (_ !! id).
  - intros id w r w'. simpl. unfold Resources.get_by_resource_id. intros Hr. minv. done.
  - by intros u r a w.
  - intros u r a w b w'. simpl. rewrite can_access_run. by intros [= <- _].
Qed.

Section Exchange.
Context `{Env} {S : Type} (self : TokenService S) {stored allowed}
  (RP : ReadPorts (resource_query (ts_resources self)) (ts_authz self) stored allowed).

(** The resource behind [id] exists and the user may write to it. *)
Definition authorized (s : S) (user_id id : string) : Prop :=
  ∃ r, stored s id = Some r ∧ allowed s user_id (r_resource_id r) "write" = true.

Lemma exchange_resource_readonly user_id id : readonly (exchange_resource self user_id id).
Proof.
  apply readonly_bind; [apply (rp_get_readonly (ReadPorts := RP))|]. intros r.
  apply readonly_bind; [apply (rp_can_readonly (ReadPorts := RP))|]. intros b. by destruct b.
Qed.

Lemma exchange_resources_readonly user_id ids : readonly (map_m (exchange_resource self user_id) ids).
Proof.
  induction ids as [|id ids IH]; simpl; [done|].
  apply readonly_bind; [apply exchange_resource_readonly|]. intros rp.
  by apply readonly_bind.
Qed.

Lemma exchange_resource_Ok user_id id w rp w' :
  exchange_resource self user_id id w = (Ok rp, w') →
  ∃ r, stored (st w) id = Some r ∧ allowed (st w) user_id (r_resource_id r) "write" = true
    ∧ rp = mkResourcePermission (r_resource_id r) [PermRead; PermWrite].
Proof.
  unfold exchange_resource. intros Hx.
  apply bind_Ok_inv in Hx as (r & w1 & Hr & Hx). apply bind_Ok_inv in Hx as (b & w2 & Hb & Hx).
  pose proof ((rp_get_sound (ReadPorts := RP)) id w r w1 Hr) as Hs.
  pose proof (readonly_eq _ _ _ _ ((rp_get_readonly (ReadPorts := RP)) id) Hr) as He.
  apply (rp_can_sound (ReadPorts := RP)) in Hb. rewrite He in Hb.
  destruct b; simpl in Hx; [|done]. minv. eauto.
Qed.

Lemma exchange_resources_Ok user_id ids w rps w' :
  map_m (exchange_resource self user_id) ids w = (Ok rps, w') →
  Forall2 (λ id rp, ∃ r, stored (st w) id = Some r
    ∧ allowed (st w) user_id (r_resource_id r) "write" = true
    ∧ rp = mkResourcePermission (r_resource_id r) [PermRead; PermWrite]) ids rps.
Proof.
  revert w rps. induction ids as [|id ids IH]; intros w rps; simpl; intros Hx; minv; [constructor|].
  pose proof (readonly_eq _ _ _ _ (exchange_resource_readonly user_id id) ltac:(eassumption)) as He.
  constructor; [by eapply exchange_resource_Ok|]. rewrite <- He. by eapply IH.
Qed.

Lemma exchange_authz_authorized authn ids ttl w signed w' :
  exchange_authz self authn ids ttl w = (Ok signed, w') →
  Forall (authorized (st w) (tp_user_id (va_principal authn))) ids.
Proof.
  unfold exchange_authz. destruct (is_empty (tp_user_id _)); [done|].
  destruct ids as [|id0 ids0] eqn:Hids; [done|]. rewrite <- Hids.
  intros (rps & x0 & Hr%exchange_resources_Ok & _)%bind_Ok_inv.
  eapply Forall2_Forall_l; [exact Hr|]. apply Forall_true. intros rp id (r & ? & ? & _). by exists r.
Qed.

(** C1: Over any adapter whose lookups and decisions are read-only and answer from the state,
    exchange_authz signs a repository token only for a known user and a non-empty list of
    repositories that all exist and that the policy lets the user write to, with exactly the
    permissions read and write on each, and the signer sees that list. *)
Theorem exchange_authz_only_authorized authn ids ttl w signed w' :
  exchange_authz self authn ids ttl w = (Ok signed, w') →
  tp_user_id (va_principal authn) ≠ "" ∧ ids ≠ []
  ∧ Forall (authorized (st w) (tp_user_id (va_principal authn))) ids
  ∧ ∃ rps w1 w2,
      sign_authz (ts_signer self) (authz_input self authn rps ttl) w1 = (Ok signed, w2)
      ∧ st w1 = st w
      ∧ Forall2 (λ id rp, ∃ r, stored (st w) id = Some r ∧ rp_resource_id rp = r_resource_id r
                   ∧ rp_permission rp = [PermRead; PermWrite]) ids rps.
Proof.
  unfold exchange_authz. destruct (is_empty (tp_user_id _)) eqn:Hu; [done|].
  apply is_empty_false in Hu. destruct ids as [|id0 ids0] eqn:Hids; [done|]. rewrite <- Hids.
  intros Hx.
  apply bind_Ok_inv in Hx as (rps & x0 & Hr & Hx).
  apply bind_Ok_inv in Hx as (sg & x1 & Hsg%map_err_Ok_inv & Hx).
  assert (sg = signed) as -> by (minv; done).
  pose proof (readonly_eq _ _ _ _ (exchange_resources_readonly _ _) Hr) as He.
  apply exchange_resources_Ok in Hr.
  split_and!; [done|by subst| |].
  - eapply Forall2_Forall_l; [exact Hr|]. apply Forall_true. intros rp id (r & ? & ? & _). by exists r.
  - exists rps, x0, x1. split_and!; [done|done|]. eapply Forall2_impl; [exact Hr|].
    intros id rp (r & ? & _ & ->). by exists r.
Qed.

(** C31: One repository that is missing or not writable makes the whole exchange fail, and the store
    is left as it was: nothing is signed or logged. *)
Theorem exchange_authz_all_or_nothing authn ids ttl w :
  ¬ Forall (authorized (st w) (tp_user_id (va_principal authn))) ids →
  ∃ e w', exchange_authz self authn ids ttl w = (Err e, w') ∧ st w' = st w.
Proof.
  intros Hn. unfold exchange_authz. destruct (is_empty (tp_user_id _)); [by eexists _, w|].
  destruct ids as [|id0 ids0] eqn:Hids; [by destruct Hn|]. rewrite <- Hids in *.
  unfold bind at 1.
  destruct (map_m (exchange_resource self (tp_user_id (va_principal authn))) ids w)
    as [[rps|e] w1] eqn:Hr.
  - destruct Hn. apply exchange_resources_Ok in Hr. eapply Forall2_Forall_l; [exact Hr|].
    apply Forall_true. intros rp id (r & ? & ? & _). by exists r.
  - exists e, w1. split; [done|]. by eapply readonly_eq; [apply exchange_resources_readonly|].
Qed.

(** manual_mint_authz issues a token only for the writer role (or none given), for a user the
    directory knows and a repository of that name to which the policy lets the user write. *)
Theorem manual_mint_only_writer user_id repo_name role ttl w signed w' :
  manual_mint_authz self user_id repo_name role ttl w = (Ok signed, w') →
  (role = "" ∨ role = "writer")
  ∧ ∃ principal w1 r w2 w3,
      principal_by_user_id (ts_accounts self) user_id w = (Ok principal, w1)
      ∧ get_by_name (resource_query (ts_resources self)) repo_name w1 = (Ok r, w2)
      ∧ allowed (st w2) (tp_user_id principal) (r_resource_id r) "write" = true
      ∧ exchange_authz self (mkVerifiedAuthn (tp_token_subject principal) principal
           (user_from_token_principal principal)) [r_resource_id r] ttl w3 = (Ok signed, w')
      ∧ authorized (st w2) (tp_user_id principal) (r_resource_id r).
Proof.
  unfold manual_mint_authz.
  destruct (String.eqb_spec (if is_empty role then "writer" else role) "writer") as [Hw|]; simpl; [|done].
  intros Hx. apply bind_Ok_inv in Hx as (p & w1 & Hp & Hx).
  apply bind_Ok_inv in Hx as (r & w2 & Hr & Hx). apply bind_Ok_inv in Hx as (b & w3 & Hb & Hx).
  pose proof (readonly_eq _ _ _ _ ((rp_can_readonly (ReadPorts := RP)) _ _ _) Hb) as He.
  apply (rp_can_sound (ReadPorts := RP)) in Hb. destruct b; simpl in Hx; [|done].
  split.
  { destruct (is_empty role) eqn:Hr0; [left; by apply is_empty_true|by right]. }
  exists p, w1, r, w2, w3. split_and!; [done..|].
  apply exchange_authz_authorized in Hx. simpl in Hx.
  rewrite <- He. by inversion_clear Hx.
Qed.
End Exchange.

(** * The token service over the in-memory adapter *)

(** A UUID is a non-empty string of hexadecimal digits and dashes. *)
Definition uuid_format `{Env} : Prop :=
  ∀ n, uuid_src n ≠ "" ∧ all_bytes repository_id_byte (uuid_src n) = true.

Lemma string_snoc s : s ≠ "" → ∃ r d, s = r +:+ String d "".
Proof.
  intros Hs. destruct (String.rev s) as [|d r] eqn:Hr.
  - by rewrite <- (rev_involutive s), Hr in Hs.
  - exists (String.rev r), d. by rewrite <- (rev_involutive s), Hr, rev_cons.
Qed.

Section MemoryTokens.
Context `{Env} (cfg : TokenConfig).

Definition memory_tokens : TokenService State :=
  mkTokenService cfg store_accounts store_resources store_authz store_signer
    (Some store_issued_log).

Lemma trim_uuid_tail c s n :
  uuid_format → solid c = true → trim (String c (s +:+ uuid_src n)) = String c (s +:+ uuid_src n).
Proof.
  intros Hf Hc. destruct (Hf n) as [Hne Hb]. destruct (string_snoc _ Hne) as (r & d & Hr).
  rewrite Hr in *. rewrite <- string_app_assoc. apply trim_solid; [done|].
  rewrite all_bytes_app in Hb. apply andb_true_iff in Hb as [_ Hb]. simpl in Hb.
  rewrite andb_true_r in Hb. by apply repository_id_byte_solid.
Qed.

Lemma authn_token_bearer subject n :
  uuid_format →
  bearer_compact ("Bearer " +:+ ("authn:" +:+ subject +:+ ":" +:+ uuid_src n))
  = "authn:" +:+ subject +:+ ":" +:+ uuid_src n.
Proof.
  intros Hf. unfold bearer_compact.
  assert (∀ c s, trim (String c (s +:+ (subject +:+ ":" +:+ uuid_src n)))
    = String c (s +:+ (subject +:+ ":" +:+ uuid_src n)) ∨ solid c = false) as Ht.
  { intros c s. destruct (solid c) eqn:Hc; [left|by right].
    assert (s +:+ (subject +:+ ":" +:+ uuid_src n) = (s +:+ subject +:+ ":") +:+ uuid_src n) as ->
      by (by rewrite !string_app_assoc). by apply trim_uuid_tail. }
  change ("Bearer " +:+ ("authn:" +:+ subject +:+ ":" +:+ uuid_src n))
    with (String "B" ("earer authn:" +:+ (subject +:+ ":" +:+ uuid_src n))).
  destruct (Ht "B"%char "earer authn:") as [->|]; [|done].
  change (String "B" ("earer authn:" +:+ (subject +:+ ":" +:+ uuid_src n)))
    with ("Bearer " +:+ ("authn:" +:+ subject +:+ ":" +:+ uuid_src n)).
  rewrite strip_prefix_app. simpl.
  change ("authn:" +:+ subject +:+ ":" +:+ uuid_src n)
    with (String "a" ("uthn:" +:+ (subject +:+ ":" +:+ uuid_src n))).
  by destruct (Ht "a"%char "uthn:") as [->|].
Qed.

(** What minting writes and answers. *)
Lemma mint_authn_Ok user_id ttl w signed user w1 :
  mint_authn memory_tokens user_id ttl w = (Ok (signed, user), w1) →
  ∃ u t jti suffix,
    users (st w) !! user_id = Some u ∧ u_status u = "active"
    ∧ t = "authn:" +:+ bridge_subject u +:+ ":" +:+ uuid_src suffix ∧ jti = uuid_src (draws w)
    ∧ stk_token signed = t ∧ stk_jti signed = jti ∧ u_id user = u_id u
    ∧ stk_expires_at signed
      = wrap_i64 (unix_of (clock (ticks w)) + seconds_or_default (default (tc_authn_ttl cfg) ttl) 3600)
    ∧ tokens (st w1) !! t = Some (mkVerifiedToken (bridge_subject u) jti "bridge"
        (stk_expires_at signed) (authn_audience memory_tokens) [])
    ∧ issued_tokens (st w1) !! jti = Some (mkIssuedToken jti "authn" (u_id u) "" "" "authn" "memory"
        (authn_audience memory_tokens) (unix_of (clock (ticks w))) (stk_expires_at signed)).
Proof.
  unfold mint_authn. simpl. unfold Accounts.principal_by_user_id, active_user, record. simpl.
  unfold Tokens.sign_authn, ensure_jti, unix_or_now, Tokens.record_issued. simpl. mrun.
  destruct (users (st w) !! user_id) as [u|] eqn:Hu; [|done].
  destruct (String.eqb_spec (u_status u) "active") as [Ha|]; simpl; [|done].
  intros [= <- <- <-]. exists u. do 2 eexists. exists (S (draws w)). simpl.
  split_and!; try done; by rewrite lookup_insert_eq.
Qed.

(** A bearer token minted for a user verifies, as long as its records are kept, it has not run
    out and the user is still active, to that user: same subject, and the principal of the user
    row and groups at the time of verification. *)
Theorem mint_then_verify user_id ttl w signed user w1 w2 u :
  uuid_format →
  mint_authn memory_tokens user_id ttl w = (Ok (signed, user), w1) →
  tokens (st w2) !! stk_token signed = tokens (st w1) !! stk_token signed →
  issued_tokens (st w2) !! stk_jti signed = issued_tokens (st w1) !! stk_jti signed →
  u_id user ≠ "" → users (st w2) !! u_id user = Some u → u_status u = "active" →
  (unix_of (clock (ticks w2)) < stk_expires_at signed)%Z →
  ∃ va, verify_authn memory_tokens ("Bearer " +:+ stk_token signed) w2
        = (Ok va, mkWorld (st w2) (S (ticks w2)) (draws w2))
    ∧ va_subject va = "user:" +:+ u_id user
    ∧ va_principal va
      = principal_from_user u "bridge" (default [] (group_members (st w2) !! u_id user)).
Proof.
  intros Hf Hm Ht Hi Hne Hu Ha Hexp.
  destruct (mint_authn_Ok _ _ _ _ _ _ Hm)
    as (u0 & t & jti & n & _ & _ & Et & Ej & E1 & E2 & E3 & _ & G1 & G2).
  rewrite E1, G1 in Ht. rewrite E2, G2 in Hi. rewrite E3 in *.
  unfold verify_authn. rewrite E1, Et, authn_token_bearer by done.
  change (is_empty ("authn:" +:+ bridge_subject u0 +:+ ":" +:+ uuid_src n)) with false. cbv iota.
  rewrite <- Et. cbn [ts_signer ts_accounts memory_tokens verify store_signer store_accounts
    principal_by_authn_token_jti].
  unfold Tokens.verify.
  assert (default t (strip_prefix "Bearer " t) = t) as -> by (by rewrite Et). mrun.
  rewrite Ht. simpl. rewrite Ej. destruct (Hf (draws w)) as [Hj%is_empty_false _]. rewrite Hj. simpl.
  unfold Accounts.principal_by_authn_token_jti. mrun. rewrite <- Ej, Hi. simpl.
  apply Z.ltb_lt in Hexp. rewrite Hexp. apply is_empty_false in Hne. rewrite Hne. simpl.
  rewrite Hu, Ha. simpl. eexists. split_and!; [done|done|]. done.
Qed.

(** verify_authn accepts only a token that the signer knows, that the issued-token log records
    as an unexpired authn token, and whose user is active at that moment; it does not write, and
    answers that user. *)
Theorem verify_authn_only_active bearer w va w' :
  verify_authn memory_tokens bearer w = (Ok va, w') →
  st w' = st w
  ∧ ∃ vt it u,
      tokens (st w) !! default (bearer_compact bearer) (strip_prefix "Bearer " (bearer_compact bearer))
        = Some vt
      ∧ issued_tokens (st w) !! vt_jti vt = Some it
      ∧ it_kind it = "authn" ∧ (unix_of (clock (ticks w)) < it_expires_at it)%Z
      ∧ users (st w) !! it_user_id it = Some u ∧ u_status u = "active"
      ∧ va_subject va = vt_subject vt ∧ tp_user_id (va_principal va) = u_id u
      ∧ u_id (va_user va) = u_id u.
Proof.
  unfold verify_authn. destruct (is_empty (bearer_compact bearer)); [done|].
  cbn [ts_signer ts_accounts memory_tokens verify store_signer store_accounts
    principal_by_authn_token_jti].
  unfold Tokens.verify, Accounts.principal_by_authn_token_jti. mrun.
  destruct (tokens (st w) !! _) as [vt|] eqn:Ht; [|done]. simpl.
  destruct (is_empty (vt_jti vt)); [done|].
  destruct (issued_tokens (st w) !! vt_jti vt) as [it|] eqn:Hi; [|done].
  destruct (String.eqb_spec (it_kind it) "authn") as [Hk|]; simpl; [|done].
  destruct (Z.ltb_spec (unix_of (clock (ticks w))) (it_expires_at it)) as [He|]; simpl; [|done].
  destruct (is_empty (it_user_id it)); [done|].
  destruct (users (st w) !! it_user_id it) as [u|] eqn:Hu; [|done].
  destruct (String.eqb_spec (u_status u) "active") as [Ha|]; simpl; [|done].
  intros [= <- <-]. split; [done|]. exists vt, it, u.
  split_and!; try done; by destruct (is_empty (vt_idp vt)).
Qed.
End MemoryTokens.

(** * Lifetimes *)

Section Lifetimes.
Context `{Env}.

Lemma i64_saturate_range z : (0 <= z)%Z → (0 <= i64_saturate z <= i64_max)%Z.
Proof. unfold i64_saturate, i64_max. lia. Qed.

Lemma seconds_or_default_nonneg ttl d :
  (0 <= dur_secs ttl)%Z → (0 <= d)%Z → (0 <= seconds_or_default ttl d <= i64_max)%Z.
Proof. intros H1 H2. unfold seconds_or_default. destruct (is_zero ttl); by apply i64_saturate_range. Qed.

(** C40: A repository token is issued at the clock reading and its expiry is a 64-bit integer;
    unless the sum overflows, it expires the configured time later, and expires_in_seconds
    answers the remaining time, never below zero. *)
Theorem authz_token_lifetime input w :
  (0 <= dur_secs (azi_ttl input))%Z →
  ∃ signed w', Tokens.sign_authz input w = (Ok signed, w')
    ∧ (azi_now input = None → stk_issued_at signed = unix_of (clock (ticks w)))
    ∧ (- 2 ^ 63 <= stk_expires_at signed <= i64_max)%Z
    ∧ let secs := seconds_or_default (azi_ttl input) 900 in
      (stk_issued_at signed + secs <= i64_max)%Z →
      stk_expires_at signed = (stk_issued_at signed + secs)%Z
      ∧ ∀ now, expires_in_seconds (stk_expires_at signed) now
               = Z.max 0 (stk_issued_at signed + secs - unix_of now).
Proof.
  intros Hd. pose proof (seconds_or_default_nonneg (azi_ttl input) 900 Hd) as Hs.
  assert (∀ t secs now, (0 <= secs <= i64_max)%Z → (unix_of t + secs <= i64_max)%Z →
    expires_in_seconds (wrap_i64 (unix_of t + secs)) now = Z.max 0 (unix_of t + secs - unix_of now))%Z
    as Hexp.
  { intros t secs now H1 H2. unfold expires_in_seconds.
    pose proof (unix_of_range t). pose proof (unix_of_range now).
    rewrite (wrap_i64_small (unix_of t + secs)), wrap_i64_small by (unfold i64_max in *; lia). lia. }
  unfold Tokens.sign_authz, ensure_jti, unix_or_now. mrun.
  destruct (azi_now input) as [t|] eqn:Hn, (is_empty (azi_jti input)),
    (head (azi_resources input)); simpl; do 2 eexists; (split; [reflexivity|]); simpl;
    (split_and!; [done|apply wrap_i64_range..|]); intros Hle;
    (split; [apply wrap_i64_small|intros now; apply Hexp]; try lia);
    match goal with |- context [unix_of ?t] => pose proof (unix_of_range t) end; lia.
Qed.
End Lifetimes.

(** * Examples *)

Lemma demo_uuid_format : @uuid_format demo_env.
Proof. intros n. split; [done|apply letters_all]. Qed.

Definition demo_config : TokenConfig :=
  mkTokenConfig "https://auth" ["lore"] "auth-service" (from_secs 3600) (from_secs 900).
Definition ann_principal : TokenPrincipal := principal_from_user ann "bridge" ["devs"].
Definition ann_authn : VerifiedAuthn :=
  mkVerifiedAuthn "user:ann" ann_principal (user_from_token_principal ann_principal).

Lemma exchange_authz_only_authorized_witness :
  ∃ signed w', exchange_authz (memory_tokens demo_config) ann_authn ["urc-game"] None demo_world = (Ok signed, w')
    ∧ stk_lore_resource_id signed = "urc-game"
    ∧ Forall (authorized (stored := λ s id, resources s !! id) (allowed := decision) demo_store "ann") ["urc-game"].
Proof.
  eexists _, _. split; [vm_compute; reflexivity|]. split; [reflexivity|].
  edestruct (exchange_authz_only_authorized (memory_tokens demo_config) store_read_ports ann_authn
    ["urc-game"] None demo_world) as (_ & _ & Ha & _); [vm_compute; reflexivity|exact Ha].
Defined.

Lemma exchange_authz_all_or_nothing_witness :
  ∃ e w', exchange_authz (memory_tokens demo_config) ann_authn ["urc-game"; "urc-none"] None demo_world
    = (Err e, w') ∧ st w' = demo_store.
Proof.
  apply (exchange_authz_all_or_nothing (memory_tokens demo_config) store_read_ports).
  intros Ha. apply Forall_cons_1 in Ha as [_ Ha]. apply Forall_cons_1 in Ha as [(r & Hr & _) _].
  discriminate.
Defined.

(** The world after Ann was issued an authn token. *)
Definition minted_world : World State :=
  (mint_authn (memory_tokens demo_config) "ann" None demo_world).2.

Lemma authz_token_lifetime_witness :
  let input := authz_input (memory_tokens demo_config) ann_authn [] None in
  ∃ signed w', Tokens.sign_authz input demo_world = (Ok signed, w')
    ∧ (stk_issued_at signed <= stk_expires_at signed)%Z.
Proof.
  intros input. destruct (authz_token_lifetime input demo_world) as (signed & w' & Hs & Hi & _ & Hl);
    [vm_compute; discriminate|].
  exists signed, w'. split; [exact Hs|]. specialize (Hi eq_refl).
  destruct Hl as [He _]; [rewrite Hi; vm_compute; discriminate|].
  rewrite He, Hi. vm_compute. discriminate.
Defined.
