(* ===== verification/SqlBearer.v ===== *)
(** Bearer tokens of the production service: the RS256 signer over the SQLite store.  A minted
    token is accepted exactly while it runs, its row is not revoked and its user is active. *)

From Stdlib Require Import ZArith Lia Ascii.
From stdpp Require Import base gmap strings list.
From S2P Require Import Prelude Model Ports MemState ModelFacts Demo TokenSvc TokenFacts.
From S2P Require Import SqlRows SqlBase SqlAccounts SqlGroups SqlTokens SqlSessions SqlStore.
From S2P Require Import SqlKeep SqlSchema SqlTyped Rs256 Rs256Facts.

(** * The text of a bearer token *)

Lemma b64_byte_solid c : b64_byte c = true → solid c = true.
Proof. by destruct c as [[] [] [] [] [] [] [] []]. Qed.

Lemma solid_tail s : s ≠ "" → all_bytes solid s = true → ∃ r d, s = r +:+ String d "" ∧ solid d = true.
Proof.
  intros Hne Hs. destruct (string_snoc _ Hne) as (r & d & ->). exists r, d. split; [done|].
  rewrite all_bytes_app in Hs. apply andb_true_iff in Hs as [_ Hs]. simpl in Hs. by rewrite andb_true_r in Hs.
Qed.

Lemma bearer_of_solid token :
  token ≠ "" → all_bytes solid token = true → bearer_compact ("Bearer " +:+ token) = token.
Proof.
  intros Hne Hs. destruct (solid_tail token Hne Hs) as (r & d & -> & Hd). unfold bearer_compact.
  change ("Bearer " +:+ (r +:+ String d "")) with (String "B" ("earer " +:+ (r +:+ String d ""))).
  rewrite <- string_app_assoc, trim_solid by done. rewrite string_app_assoc.
  change (String "B" ("earer " +:+ (r +:+ String d ""))) with ("Bearer " +:+ (r +:+ String d "")).
  rewrite strip_prefix_app. by apply trim_all_solid.
Qed.

Section Bearer.
Context `{Env} `{Sqlite} `{SerdeJson} `{JwtLib} `{!JwtLaws}.

Lemma signed_text kid k key claims token :
  from_private kid k = Ok key → sign_lore_claims key claims = Ok token →
  token ≠ "" ∧ all_bytes solid token = true.
Proof.
  intros Hkey Hsign. destruct (signed_parts _ _ _ _ _ Hkey Hsign) as (rawh & raw & s & -> & _ & _ & _ & Hs).
  unfold compact_of. split; [by destruct (b64_encode rawh)|].
  assert (∀ t, b64_text t → all_bytes solid t = true) as Ht
    by (intros t Ht; by apply (all_bytes_impl _ solid) in Ht; [|apply b64_byte_solid]).
  rewrite !all_bytes_app, (Ht _ (b64_alphabet rawh)), (Ht _ (b64_alphabet raw)), (Ht s Hs). done.
Qed.

(** The row of a minted token, and its user. *)
Definition minted_row (jti user_id : string) (expires_at : Z) (db : Db) : Prop :=
  ∃ t, t ∈ db_issued_tokens db ∧ tk_jti t = jti ∧ tk_token_kind t = "authn"
    ∧ tk_user_id t = Some user_id ∧ tk_expires_at t = expires_at.

#[local] Instance minted_row_store jti user_id expires_at : StoreStatements (minted_row jti user_id expires_at).
Proof.
  split; intros; try assumption;
    match goal with Hb : minted_row _ _ _ _ |- _ => destruct Hb as (t & Hin & ? & ? & ? & ?) end.
  - exists t. split; [|done]. simpl. apply elem_of_app. by left.
  - exists (if p t then row_token_revoked now t else t). split; [|by destruct (p t)].
    simpl. apply elem_of_update_where. by exists t.
Qed.
#[local] Instance minted_row_sessions jti user_id expires_at :
  SessionStatements (minted_row jti user_id expires_at).
Proof. split; intros; assumption. Qed.

Lemma principal_Ok user_id w p w' :
  SqlAccounts.principal_by_user_id user_id w = (Ok p, w') →
  ∃ groups user, p = principal_from_user user "bridge" groups ∧ u_id user = user_id ∧ st w' = st w.
Proof.
  unfold SqlAccounts.principal_by_user_id, SqlAccounts.user_by_id_conn, query_row,
    SqlAccounts.group_names_conn, SqlAccounts.active_user. mrun.
  destruct (hd_error _) as [row|] eqn:Hrow; [|done]. simpl.
  apply elem_of_hd, elem_of_where in Hrow as [_ [Hid%String.eqb_eq _]%andb_true_iff].
  destruct (String.eqb _ _); [|done]. intros [= <- <-]. by eexists _, _.
Qed.

Context (self : TokenService Db) (sg : Signer.t).
Hypothesis Haccounts : ts_accounts self = SqlAccounts.sqlite_accounts.
Hypothesis Hsigner : ts_signer self = Signer.token_signer sg.
Hypothesis Hlog : ts_log self = Some SqlTokens.sqlite_issued_log.

(** A token without an identifier of its own gets a UUID. *)
Lemma drawn_jti {S} input (w w' : World S) signed :
  (∀ n, uuid_src n ≠ "") → ani_jti input = "" → Signer.sign_authn sg input w = (Ok signed, w') →
  stk_jti signed ≠ "".
Proof.
  intros Huuid Hjti Hrun. unfold Signer.sign_authn, Signer.ensure_jti in Hrun. rewrite Hjti in Hrun.
  simpl in Hrun. minv. match goal with H : new_authn_claims _ _ = _ |- _ =>
    apply authn_claims_Ok in H as (_ & _ & _ & _ & _ & _ & _ & _ & -> & _) end. apply Huuid.
Qed.

(** What minting leaves. *)
Lemma mint_Ok user_id ttl (w w1 : World Db) signed user :
  schema (st w) → none_if_empty user_id = Some user_id → (∀ n, uuid_src n ≠ "") →
  mint_authn self user_id ttl w = (Ok (signed, user), w1) →
  schema (st w1) ∧ stk_jti signed ≠ "" ∧ minted_row (stk_jti signed) user_id (stk_expires_at signed) (st w1)
  ∧ ∃ (wa wb : World Db) groups, signs sg wa (tc_issuer (ts_cfg self)) ("user:" +:+ user_id) "bridge"
      (authn_audience self) groups [] signed wb.
Proof.
  intros Hs Hne Huuid Hrun. unfold mint_authn in Hrun. rewrite Haccounts, Hsigner in Hrun. simpl in Hrun. minv.
  match goal with H : SqlAccounts.principal_by_user_id _ _ = _ |- _ =>
    apply principal_Ok in H as (groups & u & -> & Hid & Hst0) end.
  match goal with H : Signer.sign_authn _ _ _ = _ |- _ => rename H into Hsign end.
  match goal with H : record _ _ _ _ _ _ = _ |- _ => rename H into Hrec end.
  assert (signs sg x0 (tc_issuer (ts_cfg self)) ("user:" +:+ user_id) "bridge" (authn_audience self)
    groups [] signed x2) as Hsigns.
  { left. eexists. split; [exact Hsign|]. simpl. unfold bridge_subject. by rewrite Hid. }
  destruct (signs_claims _ _ _ _ _ _ _ _ _ _ Hsigns) as (claims & Hst2 & _).
  unfold record in Hrec. rewrite Hlog in Hrec. apply map_err_Ok_inv in Hrec. simpl in Hrec.
  split; [|split; [by eapply drawn_jti; [exact Huuid| |exact Hsign]|split; [|by eexists _, _, _]]].
  - match type of Hrec with SqlTokens.record_issued ?token _ = _ =>
      pose proof (run_sql_keeps schema (SStore (DRecordIssued token)) x2) as Hkeep end.
    simpl in Hkeep. rewrite Hrec, Hst2, Hst0 in Hkeep. by apply Hkeep.
  - unfold SqlTokens.record_issued, insert_row in Hrec. minv.
    eexists. split; [apply elem_of_app; right; by apply list_elem_of_singleton|]. simpl.
    by split_and!.
Qed.

(** The lookup of a token by its identifier. *)
Lemma hd_error_only {A} (l : list A) a (b : bool) :
  (∀ x, x ∈ l → x = a ∧ b = true) → (b = true → a ∈ l) → hd_error l = if b then Some a else None.
Proof.
  intros Hl Ha. destruct l as [|x l]; simpl.
  - destruct b; [|done]. by destruct (not_elem_of_nil a (Ha eq_refl)).
  - by destruct (Hl x) as [-> ->]; [left|].
Qed.

Definition token_accepted (t : IssuedTokenRow) (u : UserRow) (now : Z) : bool :=
  is_null (tk_revoked_at t) && (now <? tk_expires_at t)%Z && String.eqb (ur_status u) "active".

Lemma principal_jti_run (w : World Db) t u :
  schema (st w) → t ∈ db_issued_tokens (st w) → tk_token_kind t = "authn" →
  u ∈ db_users (st w) → tk_user_id t = Some (ur_id u) →
  ∃ w' groups, st w' = st w
    ∧ SqlAccounts.principal_by_authn_token_jti (tk_jti t) w
      = (if token_accepted t u (unix_of (clock (ticks w)))
         then Ok (principal_from_user (user_from_row u) "bridge" groups) else Err NotFound, w').
Proof.
  intros Hs Ht Hkind Hu Huser. unfold SqlAccounts.principal_by_authn_token_jti, SqlAccounts.group_names_conn. mrun.
  rewrite (hd_error_only _ (t, u) (token_accepted t u (unix_of (clock (ticks w))))).
  - destruct (token_accepted _ _ _); simpl; [eexists _, _; split; [|reflexivity]; done|eexists _, []; split; [|reflexivity]; done].
  - intros [t' u'] [Hin Hp]%elem_of_where. apply elem_of_join_on in Hin as (Ht' & Hu' & Hj%bool_decide_eq_true).
    simpl in Hp. repeat apply andb_true_iff in Hp as [Hp ?].
    apply String.eqb_eq in Hp. destruct (sc_issued _ Hs) as [Huniq _]. destruct (sc_users _ Hs) as [Huu _].
    assert (t' = t) as -> by (by apply (unique_key_eq tk_jti (db_issued_tokens (st w)))).
    assert (u' = u) as -> by (apply (unique_key_eq ur_id (db_users (st w))); [done..|simpl in Hj; congruence]).
    split; [done|]. unfold token_accepted. by rewrite !andb_true_iff.
  - unfold token_accepted. rewrite !andb_true_iff. intros [[Hr Hn] Ha]. apply elem_of_where.
    split; [apply elem_of_join_on; split_and!; [done..|by apply bool_decide_eq_true]|]. simpl.
    by rewrite Hkind, !String.eqb_refl, Hr, Hn, Ha.
Qed.

Lemma authn_audience_has :
  is_empty (tc_auth_service_audience (ts_cfg self))
  || existsb (λ aud, String.eqb aud (tc_auth_service_audience (ts_cfg self))) (authn_audience self) = true.
Proof.
  unfold authn_audience. destruct (is_empty _) eqn:He; [done|]. simpl.
  destruct (existsb _ (tc_audience (ts_cfg self))) eqn:Hx; [done|]. simpl.
  rewrite existsb_app. simpl. by rewrite String.eqb_refl, orb_true_r.
Qed.

Lemma sql_bearer_run kid k user_id ttl (w w1 : World Db) signed user ops :
  from_private kid k = Ok (Signer.sg_key sg) → Signer.sg_verification_time sg = None →
  (∀ n, uuid_src n ≠ "") → schema (st w) → none_if_empty user_id = Some user_id →
  mint_authn self user_id ttl w = (Ok (signed, user), w1) →
  let w2 := (run_sqls ops w1).2 in
  ∃ t u, t ∈ db_issued_tokens (st w2) ∧ tk_jti t = stk_jti signed
    ∧ u ∈ db_users (st w2) ∧ ur_id u = user_id
    ∧ let accepted := ((0 <=? clock (ticks w2)) && (clock (ticks w2) <? stk_expires_at signed))%Z
                      && token_accepted t u (unix_of (clock (S (ticks w2)))) in
      match verify_authn self ("Bearer " +:+ stk_token signed) w2 with
      | (Ok va, w3) => st w3 = st w2 ∧ accepted = true
          ∧ va_subject va = "user:" +:+ user_id ∧ tp_user_id (va_principal va) = user_id
      | (Err _, w3) => st w3 = st w2 ∧ accepted = false
      end.
Proof.
  intros Hkey Htime Huuid Hs Hne Hmint w2.
  destruct (mint_Ok _ _ _ _ _ _ Hs Hne Huuid Hmint) as (Hs1 & Hj & Hrow & wa & wb & groups & Hsigns).
  apply (run_sqls_keeps (minted_row _ _ _) ops) in Hrow as (t & Ht & Hjti & Hkind & Huser & Hexp).
  assert (schema (st w2)) as Hs2 by (by apply (run_sqls_keeps schema)).
  fold w2 in Ht. destruct (sc_issued _ Hs2) as (_ & Hrefs & _).
  pose proof (Hrefs t _ Ht Huser) as (u & Hu & Hin)%list_elem_of_fmap.
  exists t, u. split_and!; [done..|]. cbn zeta.
  destruct (signs_claims _ _ _ _ _ _ _ _ _ _ Hsigns) as (c0 & _ & Hsign & _).
  destruct (signed_text _ _ _ _ _ Hkey Hsign) as [Htok Hsolid].
  destruct (signed_tokens_run kid k sg wa wb _ _ _ _ _ _ signed Hkey Hsigns)
    as (_ & claims & raw & (_ & _ & Hiss & Hsub & _ & Haud & _ & He) & Hverify).
  specialize (Hverify sg (mkVerifyOptions (tc_issuer (ts_cfg self)) (tc_auth_service_audience (ts_cfg self)))
    w2 eq_refl).
  unfold verify_authn. rewrite bearer_of_solid by done. destruct (stk_token signed) as [|ch rest] eqn:Htext; [done|].
  cbn [is_empty]. rewrite Hsigner. simpl verify. unfold bind at 1, map_err at 1. rewrite Hverify.
  assert (accepts claims (mkVerifyOptions (tc_issuer (ts_cfg self)) (tc_auth_service_audience (ts_cfg self)))
    (verify_time sg w2) = ((0 <=? clock (ticks w2)) && (clock (ticks w2) <? stk_expires_at signed))%Z) as ->.
  { unfold accepts, verify_time. rewrite Htime, Hiss, Haud, He. simpl.
    by rewrite String.eqb_refl, orb_true_r, andb_true_r, authn_audience_has, andb_true_r. }
  unfold Signer.now. rewrite Htime. unfold system_now. cbn [snd].
  destruct (_ && _)%Z; [|done]. cbn [vt_jti].
  destruct (is_empty (stk_jti signed)) eqn:Hempty; [by destruct (stk_jti signed)|].
  unfold bind at 1. rewrite Haccounts. simpl principal_by_authn_token_jti. rewrite <- Hjti.
  destruct (principal_jti_run (mkWorld (st w2) (S (ticks w2)) (draws w2)) t u) as (w3 & names & Hst3 & Hrun);
    [done..|congruence|].
  rewrite Hrun. simpl. destruct (token_accepted t u _); [|done].
  unfold ret. simpl. split_and!; done.
Qed.

(** C2: Over SQLite and the RS256 signer, a bearer token that was minted for a user is accepted,
    whatever calls of the store follow, exactly while it runs, its row is not revoked and its
    user is active; it then answers that user as its principal, and a check never changes the
    state. *)
Theorem sql_bearer_works kid k user_id ttl (w w1 : World Db) signed user ops :
  from_private kid k = Ok (Signer.sg_key sg) → Signer.sg_verification_time sg = None →
  (∀ n, uuid_src n ≠ "") → schema (st w) → none_if_empty user_id = Some user_id →
  mint_authn self user_id ttl w = (Ok (signed, user), w1) →
  let w2 := (run_sqls ops w1).2 in
  ∃ t u, t ∈ db_issued_tokens (st w2) ∧ tk_jti t = stk_jti signed
    ∧ u ∈ db_users (st w2) ∧ ur_id u = user_id
    ∧ let accepted := ((0 <=? clock (ticks w2)) && (clock (ticks w2) <? stk_expires_at signed))%Z
                      && token_accepted t u (unix_of (clock (S (ticks w2)))) in
      match verify_authn self ("Bearer " +:+ stk_token signed) w2 with
      | (Ok va, w3) => st w3 = st w2 ∧ accepted = true
          ∧ va_subject va = "user:" +:+ user_id ∧ tp_user_id (va_principal va) = user_id
      | (Err _, w3) => st w3 = st w2 ∧ accepted = false
      end.
Proof. apply sql_bearer_run. Qed.
End Bearer.

(** * Examples: Bob's token *)

#[local] Instance no_policy : AuthorizationPolicy Db := {|
  can_access _ _ _ := throw NotFound;
  list_accessible _ _ := throw NotFound
|}.

Definition office_tokens : TokenService Db :=
  mkTokenService (mkTokenConfig "https://auth.example.org" ["lore"] "auth.example.org" (from_secs 3600)
                    (from_secs 900))
    SqlAccounts.sqlite_accounts SqlResources.sqlite_resources no_policy
    (Signer.token_signer office_signer) (Some SqlTokens.sqlite_issued_log).

Lemma bob_mints : ∃ signed user w1,
  mint_authn office_tokens bob_id None office_world = (Ok (signed, user), w1).
Proof.
  assert (match (mint_authn office_tokens bob_id None office_world).1 with Ok _ => true | Err _ => false end
          = true) as Hok by (vm_compute; reflexivity).
  destruct (mint_authn office_tokens bob_id None office_world) as [[[signed user]|] w1]; [|discriminate Hok].
  by exists signed, user, w1.
Qed.

(** Disabling Bob at any time after ends the use of his token. *)
Definition ban_bob : list sql_op := [SStore (DPlain (DDisableUser bob_id))].

Lemma banned_bob signed user w1 u :
  mint_authn office_tokens bob_id None office_world = (Ok (signed, user), w1) →
  u ∈ db_users (st (run_sqls ban_bob w1).2) → ur_id u = bob_id → ur_status u = "disabled".
Proof.
  intros Hmint Hu Hid.
  assert (forallb (λ u, negb (String.eqb (ur_id u) bob_id) || String.eqb (ur_status u) "disabled")
    (db_users (st (run_sqls ban_bob (mint_authn office_tokens bob_id None office_world).2).2)) = true)
    as Hall by (vm_compute; reflexivity).
  rewrite Hmint in Hall. simpl snd in Hall. rewrite forallb_forall in Hall.
  apply list_elem_of_In, Hall in Hu. rewrite Hid, String.eqb_refl in Hu. by apply String.eqb_eq in Hu.
Qed.

Lemma sql_bearer_works_witness : ∃ signed user w1,
  mint_authn office_tokens bob_id None office_world = (Ok (signed, user), w1)
  ∧ ∃ e, (verify_authn office_tokens ("Bearer " +:+ stk_token signed) (run_sqls ban_bob w1).2).1 = Err e.
Proof.
  destruct bob_mints as (signed & user & w1 & Hmint). exists signed, user, w1. split; [exact Hmint|].
  destruct (sql_bearer_works office_tokens office_signer eq_refl eq_refl eq_refl "k1" (7 : @RsaPrivateKey demo_jwt)
    bob_id None office_world w1 signed user ban_bob eq_refl eq_refl ltac:(done) office_schema eq_refl Hmint)
    as (t & u & _ & _ & Hu & Hid & Hx).
  destruct (verify_authn office_tokens _ _) as [[va|e] w3]; [|by exists e].
  destruct Hx as (_ & Hx & _). cbv zeta in Hx. apply andb_true_iff in Hx as [_ Hx].
  unfold token_accepted in Hx. apply andb_true_iff in Hx as [_ Hx%String.eqb_eq].
  by rewrite (banned_bob signed user w1 u Hmint Hu Hid) in Hx.
Defined.
