(* ===== verification/DeviceFacts.v ===== *)
(** The device flow over the in-memory adapter: who may approve, what a redeemed code
    yields, that a code is redeemed once, and that the flow completes. *)

From Stdlib Require Import ZArith Lia Ascii.
From stdpp Require Import base gmap strings list.
From S2P Require Import Prelude Model Ports MemState MemGraph MemTokens MemGrants.
From S2P Require Import MemSessions MemAccounts MemPorts TokenSvc DeviceSvc ModelFacts.
From S2P Require Import MemTrace Demo AuthzFacts TraceFacts TokenFacts.

Section DeviceFlow.
Context `{Env} (cfg : DeviceConfig) (tcfg : TokenConfig).

Definition memory_device : DeviceService State :=
  mkDeviceService cfg store_devices store_resources store_authz store_accounts
    (memory_tokens tcfg) uuid_device_codes.

Lemma device_by_user_code_Ok code w d w' :
  Device.device_by_user_code memory_device code w = (Ok d, w') →
  w' = w ∧ ∃ id, user_code_index (st w) !! hash_code code = Some id
    ∧ device_authorizations (st w) !! id = Some d.
Proof.
  unfold Device.device_by_user_code. simpl. unfold Devices.device_by_user_code. intros Hx. minv. eauto.
Qed.

Lemma device_by_device_code_Ok code w d w' :
  Device.device_by_device_code memory_device code w = (Ok d, w') →
  w' = w ∧ ∃ id, device_code_index (st w) !! hash_code code = Some id
    ∧ device_authorizations (st w) !! id = Some d.
Proof.
  unfold Device.device_by_device_code. simpl. unfold Devices.device_by_device_code.
  intros Hx. minv. eauto.
Qed.

Lemma ensure_pending_Ok d w w' :
  Device.ensure_pending memory_device d w = (Ok tt, w') →
  st w' = st w ∧ da_status d = "pending" ∧ (unix_of (clock (ticks w)) < da_expires_at d)%Z
  ∧ da_requested_repository_id d ≠ "".
Proof.
  unfold Device.ensure_pending. destruct (String.eqb_spec (da_status d) "pending"); simpl; [|done].
  mrun. destruct (Z.leb_spec (da_expires_at d) (unix_of (clock (ticks w)))); simpl.
  - unfold Devices.expire_device_authorization. mrun. by repeat case_match.
  - destruct (is_empty (da_requested_repository_id d)) eqn:He; [done|].
    intros [= <-]. split_and!; try done. by apply is_empty_false.
Qed.

Lemma repository_for_device_Ok d w r w' :
  Device.repository_for_device memory_device d w = (Ok r, w') →
  w' = w ∧ r_id r = da_requested_repository_id d ∧ ∃ k, resources (st w) !! k = Some r.
Proof.
  unfold Device.repository_for_device. destruct (is_empty _); [done|]. simpl.
  unfold Resources.get_by_id. intros Hx. minv. apply find_value_Some in H1 as (k & Hk & Hr).
  apply String.eqb_eq in Hr. eauto.
Qed.
Lemma status_not_ok s id d :
  devices_wf s → device_authorizations s !! id = Some d → da_status d ≠ "ok".
Proof.
  intros Hw Hd Hok. destruct (Hw id d Hd) as [_ Hs]. rewrite Hok in Hs.
  repeat (apply elem_of_cons in Hs as [Hs|Hs]; [discriminate|]). by apply not_elem_of_nil in Hs.
Qed.

(** C17: Device.approve succeeds only for the pending, unexpired authorization of the user code, for
    an active user who may write to the requested repository, and then changes nothing but that
    row, which records the user. *)
Theorem approve_requires_write user_id code w rep w' :
  devices_wf (st w) →
  Device.approve memory_device user_id code w = (Ok rep, w') →
  ∃ id d k r u t,
    user_code_index (st w) !! hash_code code = Some id
    ∧ device_authorizations (st w) !! id = Some d
    ∧ da_status d = "pending" ∧ (unix_of (clock (ticks w)) < da_expires_at d)%Z
    ∧ resources (st w) !! k = Some r ∧ r_id r = da_requested_repository_id d
    ∧ granted (st w) user_id (r_resource_id r) "write"
    ∧ users (st w) !! user_id = Some u ∧ u_status u = "active"
    ∧ st w' = upd_device_authorizations (<[id := device_approved (u_id u) t d]>) (st w)
    ∧ rep = mkRepository (r_name r) (r_remote_url r).
Proof.
  intros Hkey. unfold Device.approve. intros Hx.
  apply bind_Ok_inv in Hx as (d & w1 & (-> & id & Hi & Hd)%device_by_user_code_Ok & Hx).
  apply bind_Ok_inv in Hx as ([] & w2 & (He & Hp & Ht & _)%ensure_pending_Ok & Hx).
  apply bind_Ok_inv in Hx as (r & w3 & (-> & Hr & k & Hk)%repository_for_device_Ok & Hx).
  rewrite He in Hk. cbn [memory_device dsv_authz dsv_accounts dsv_devices can_access store_authz
    principal_by_user_id store_accounts approve_device_authorization store_devices] in Hx.
  apply bind_Ok_inv in Hx as (b & w4 & Hb & Hx). rewrite can_access_run in Hb.
  injection Hb as Hb <-. destruct b; simpl in Hx; [|done]. apply decision_spec in Hb. rewrite He in Hb.
  apply bind_Ok_inv in Hx as (p & w5 & Hpr & Hx).
  unfold Accounts.principal_by_user_id, active_user in Hpr. mrun. rewrite He in Hpr.
  destruct (users (st w) !! user_id) as [u|] eqn:Hu; [|done].
  destruct (String.eqb_spec (u_status u) "active") as [Ha|]; [|done]. simpl in Hpr.
  injection Hpr as <- <-. unfold Devices.approve_device_authorization in Hx. mrun.
  destruct (Hkey id d Hd) as [Hid _]. rewrite He, Hid, Hd, Hp in Hx. simpl in Hx.
  destruct (da_expires_at d <=? _)%Z; [done|]. injection Hx as <- <-. simpl.
  exists id, d, k, r, u. eexists. split_and!; try done. by rewrite He.
Qed.

Lemma exchange_authz_frame authn ids ttl w r w' :
  exchange_authz (memory_tokens tcfg) authn ids ttl w = (r, w') →
  ∃ f, st w' = upd_issued_tokens f (st w).
Proof.
  unfold exchange_authz. destruct (is_empty _).
  { intros [= _ <-]. exists (λ m, m). by destruct w as [[]]. }
  destruct ids as [|i ids0] eqn:Hids.
  { intros [= _ <-]. exists (λ m, m). by destruct w as [[]]. }
  rewrite <- Hids. unfold bind at 1.
  pose proof (exchange_resources_readonly (memory_tokens tcfg) store_read_ports
    (tp_user_id (va_principal authn)) ids w) as Hm.
  destruct (map_m _ ids w) as [[rps|e] w1]; simpl in Hm.
  - cbn [ts_signer memory_tokens sign_authz store_signer].
    unfold Tokens.sign_authz, ensure_jti, unix_or_now, record. simpl. mrun.
    destruct (head rps); simpl; intros [= _ <-]; simpl; rewrite Hm; by eexists.
  - intros [= _ <-]. rewrite Hm. exists (λ m, m). by destruct (st w).
Qed.

Lemma manual_mint_frame user_id name role ttl w r w' :
  manual_mint_authz (memory_tokens tcfg) user_id name role ttl w = (r, w') →
  ∃ f, st w' = upd_issued_tokens f (st w).
Proof.
  assert (∀ s, ∃ f, s = upd_issued_tokens f s) as Hid.
  { intros s. exists (λ m, m). by destruct s. }
  unfold manual_mint_authz. destruct (negb _); [intros [= _ <-]; apply Hid|]. unfold bind.
  cbn [ts_accounts ts_resources ts_authz memory_tokens principal_by_user_id store_accounts
    resource_query store_resources get_by_name store_resource_query can_access store_authz].
  unfold Accounts.principal_by_user_id, active_user, Resources.get_by_name. mrun.
  destruct (users (st w) !! user_id) as [u|]; [|intros [= _ <-]; apply Hid].
  destruct (negb _); [intros [= _ <-]; apply Hid|].
  destruct (find_value _ _) as [rs|]; [|intros [= _ <-]; apply Hid].
  destruct (existsb _ _); simpl; [|intros [= _ <-]; apply Hid].
  apply exchange_authz_frame.
Qed.

Lemma redeem_Ok d w tr w' :
  Device.redeem memory_device d w = (Ok tr, w') →
  ∃ k r signed w2 d0 t,
    resources (st w) !! k = Some r ∧ r_id r = da_requested_repository_id d
    ∧ manual_mint_authz (memory_tokens tcfg) (da_approved_user_id d) (r_name r) "writer" None w
      = (Ok signed, w2)
    ∧ device_authorizations (st w) !! da_id d = Some d0 ∧ da_status d0 = "approved"
    ∧ st w' = upd_device_authorizations (<[da_id d := device_consumed t d0]>) (st w2)
    ∧ tr_status tr = "ok" ∧ tr_access_token tr = stk_token signed
    ∧ tr_remote_url tr = r_remote_url r.
Proof.
  unfold Device.redeem. destruct (_ || _); [done|]. intros Hx.
  apply bind_Ok_inv in Hx as (r & w1 & (-> & Hr & k & Hk)%repository_for_device_Ok & Hx).
  apply bind_Ok_inv in Hx as (signed & w2 & Hm & Hx).
  destruct (manual_mint_frame _ _ _ _ _ _ _ Hm) as [f Hf].
  apply bind_Ok_inv in Hx as ([] & w3 & Hc & Hx).
  cbn [memory_device dsv_devices consume_device_authorization store_devices] in Hc.
  unfold Devices.consume_device_authorization in Hc. mrun.
  destruct (device_authorizations (st w2) !! da_id d) as [d0|] eqn:Hd; [|done]. rewrite Hf in Hd.
  destruct (String.eqb_spec (da_status d0) "approved") as [Hs|]; [|done]. simpl in Hc.
  injection Hc as <-. injection Hx as <- <-. simpl.
  exists k, r, signed, w2, d0. eexists. split_and!; done.
Qed.

(** When Device.token answers ok, the code named a device authorization that was approved, the
    approving user is active and may write to a repository of the requested name, and the
    authorization is consumed in the resulting store. *)
Theorem redeemed_code_was_approved code w tr w' :
  devices_wf (st w) →
  Device.token memory_device code w = (Ok tr, w') → tr_status tr = "ok" →
  ∃ id d k r u r',
    device_code_index (st w) !! hash_code code = Some id
    ∧ device_authorizations (st w) !! id = Some d ∧ da_status d = "approved"
    ∧ resources (st w) !! k = Some r ∧ r_id r = da_requested_repository_id d
    ∧ users (st w) !! da_approved_user_id d = Some u ∧ u_status u = "active"
    ∧ r_name r' = r_name r ∧ granted (st w) (u_id u) (r_resource_id r') "write"
    ∧ (∃ d', device_authorizations (st w') !! id = Some d' ∧ da_status d' = "consumed")
    ∧ device_code_index (st w') = device_code_index (st w)
    ∧ tr_remote_url tr = r_remote_url r.
Proof.
  intros Hkey. unfold Device.token. intros Hx Hok.
  apply bind_Ok_inv in Hx as (d & w1 & (-> & id & Hi & Hd)%device_by_device_code_Ok & Hx).
  apply bind_Ok_inv in Hx as (now & w2 & Hn & Hx).
  assert (st w2 = st w) as He by (by apply (readonly_eq now_unix w _ w2) in Hn).
  destruct ((da_expires_at d <=? now)%Z && _).
  { apply bind_Ok_inv in Hx as (? & ? & _ & Hx). injection Hx as <- <-. done. }
  destruct (String.eqb_spec (da_status d) "pending"); [by injection Hx as <- <-|].
  destruct (String.eqb_spec (da_status d) "approved") as [Ha|Hna];
    [|injection Hx as <- <-; simpl in Hok; by destruct (status_not_ok (st w) id d Hkey Hd)].
  apply redeem_Ok in Hx as (k & r & signed & w3 & d0 & t & Hk & Hr & Hm & Hd0 & _ & Hw & _ & _ & Hu).
  rewrite He in Hk, Hd0. destruct (Hkey id d Hd) as [Hid Hst]. rewrite Hid in *.
  destruct (manual_mint_frame _ _ _ _ _ _ _ Hm) as [f Hf].
  unfold manual_mint_authz in Hm. simpl in Hm.
  apply bind_Ok_inv in Hm as (p & w4 & Hp & Hm). apply bind_Ok_inv in Hm as (r' & w5 & Hr' & Hm).
  apply bind_Ok_inv in Hm as (b & w6 & Hb & Hm). rewrite can_access_run in Hb. injection Hb as Hb <-.
  unfold Accounts.principal_by_user_id, active_user in Hp. mrun. rewrite He in Hp.
  destruct (users (st w) !! da_approved_user_id d) as [u|] eqn:Hus; [|done].
  destruct (String.eqb_spec (u_status u) "active") as [Hact|]; [|done]. simpl in Hp.
  injection Hp as <- <-. unfold Resources.get_by_name in Hr'. mrun. rewrite He in Hr'.
  destruct (find_value _ (resources (st w))) as [r0|] eqn:Hf0; [|done]. injection Hr' as -> <-.
  apply find_value_Some in Hf0 as (_ & _ & Hname%String.eqb_eq).
  destruct b; simpl in Hm; [|done]. apply decision_spec in Hb. rewrite He in Hb. simpl in Hb.
  exists id, d, k, r, u, r'. split_and!; try done.
  - rewrite Hw. simpl. rewrite lookup_insert_eq. eexists. done.
  - by rewrite Hw; simpl; rewrite Hf; simpl; rewrite He.
Qed.

(** After a device code was redeemed, polling with it again answers consumed and changes
    nothing, at any later time at which device rows have only moved along their state machine. *)
Theorem redeemed_code_is_spent code w tr w1 w2 :
  devices_wf (st w) →
  Device.token memory_device code w = (Ok tr, w1) → tr_status tr = "ok" →
  device_code_index (st w2) !! hash_code code = device_code_index (st w1) !! hash_code code →
  (∀ id d, device_authorizations (st w1) !! id = Some d →
     ∃ d', device_authorizations (st w2) !! id = Some d' ∧ rtc device_step d d') →
  ∃ w3, Device.token memory_device code w2 = (Ok (status_result "consumed"), w3) ∧ st w3 = st w2.
Proof.
  intros Hkey. unfold Device.token at 1. intros Hx Hok Hidx Hstep.
  apply bind_Ok_inv in Hx as (d & w1' & (-> & id & Hi & Hd)%device_by_device_code_Ok & Hx).
  apply bind_Ok_inv in Hx as (now & w2' & Hn & Hx).
  assert (st w2' = st w) as He by (by apply (readonly_eq now_unix w _ w2') in Hn).
  destruct ((da_expires_at d <=? now)%Z && _).
  { apply bind_Ok_inv in Hx as (? & ? & _ & Hx). injection Hx as <- <-. done. }
  destruct (String.eqb_spec (da_status d) "pending"); [by injection Hx as <- <-|].
  destruct (String.eqb_spec (da_status d) "approved") as [Ha|Hna];
    [|injection Hx as <- <-; simpl in Hok; by destruct (status_not_ok (st w) id d Hkey Hd)].
  apply redeem_Ok in Hx as (k & r & signed & w3 & d0 & t & _ & _ & Hm & _ & _ & Hw & _).
  destruct (manual_mint_frame _ _ _ _ _ _ _ Hm) as [f Hf]. destruct (Hkey id d Hd) as [Hid Hst]. rewrite Hid in *.
  assert (device_code_index (st w1) = device_code_index (st w)) as Hix.
  { by rewrite Hw; simpl; rewrite Hf; simpl; rewrite He. }
  destruct (Hstep id (device_consumed t d0)) as (d' & Hd' & Hs).
  { rewrite Hw. simpl. apply lookup_insert_eq. }
  apply device_consumed_final in Hs; [|done]. subst d'.
  unfold Device.token, Device.device_by_device_code. simpl. unfold Devices.device_by_device_code. mrun.
  rewrite Hidx, Hix, Hi. simpl. rewrite Hd'. simpl. rewrite andb_false_r. by eexists.
Qed.

(** The time a code lives. *)
Definition code_ttl : Duration := first_nonzero [dc_device_code_ttl cfg; from_secs (10 * 60)].

Lemma start_Ok remote_url repo_name w sr w1 :
  Device.start memory_device remote_url repo_name w = (Ok sr, w1) →
  ∃ repo d,
    find_value (λ r, String.eqb (r_name r) repo_name) (resources (st w)) = Some repo
    ∧ da_requested_repository_id d = r_id repo ∧ is_empty (trim (r_id repo)) = false
    ∧ da_status d = "pending"
    ∧ da_expires_at d = wrap_i64 (unix_of (clock (S (ticks w))) + seconds_or_default code_ttl 0)
    ∧ st w1 = upd_device_authorizations (<[da_id d := d]>)
        (upd_user_code_index (<[hash_code (sr_user_code sr) := da_id d]>)
        (upd_device_code_index (<[hash_code (sr_device_code sr) := da_id d]>) (st w))).
Proof.
  unfold Device.start. simpl. unfold Resources.get_by_name, UuidDeviceCodeGenerator.device_code,
    UuidDeviceCodeGenerator.user_code, Devices.create_device_authorization, unix_after. mrun.
  destruct (find_value _ _) as [repo|] eqn:Hr; [|done]. simpl.
  destruct (_ || _ || _) eqn:He; [done|]. apply orb_false_iff in He as [_ He].
  intros [= <- <-]. exists repo, (mkDeviceAuthorization (uuid_src (S (S (S (draws w))))) remote_url
    (r_id repo) "" "pending" (unix_of (clock (ticks w)))
    (wrap_i64 (unix_of (clock (S (ticks w))) + seconds_or_default code_ttl 0)) 0 0).
  split_and!; done.
Qed.

Lemma approve_run user_id user_code w id d r u :
  devices_wf (st w) →
  user_code_index (st w) !! hash_code user_code = Some id →
  device_authorizations (st w) !! id = Some d → da_status d = "pending" →
  (∀ n, unix_of (clock n) < da_expires_at d)%Z →
  da_requested_repository_id d ≠ "" →
  find_value (λ x, String.eqb (r_id x) (da_requested_repository_id d)) (resources (st w)) = Some r →
  decision (st w) user_id (r_resource_id r) "write" = true →
  users (st w) !! user_id = Some u → u_status u = "active" →
  ∃ w' t, Device.approve memory_device user_id user_code w
    = (Ok (mkRepository (r_name r) (r_remote_url r)), w')
    ∧ st w' = upd_device_authorizations (<[id := device_approved (u_id u) t d]>) (st w).
Proof.
  intros Hkey Hi Hd Hp Hexp Hreq%is_empty_false Hr Ha Hu Hact. destruct (Hkey id d Hd) as [Hid _].
  assert (∀ n, (da_expires_at d <=? unix_of (clock n))%Z = false) as Hexp'.
  { intros n. specialize (Hexp n). by apply Z.leb_gt. }
  unfold Device.approve, Device.device_by_user_code, Device.ensure_pending, Device.repository_for_device.
  simpl. unfold Devices.device_by_user_code, Resources.get_by_id, Accounts.principal_by_user_id,
    active_user, Devices.approve_device_authorization. mrun.
  rewrite Hi. simpl. rewrite Hd. simpl. rewrite Hp. simpl. rewrite Hexp', Hreq. simpl. rewrite Hr.
  change (existsb _ _) with (decision (st w) user_id (r_resource_id r) "write"). rewrite Ha. simpl.
  rewrite Hu, Hact. simpl. rewrite Hid, Hd, Hp. simpl. rewrite Hexp'. eexists _, _. split; [done|]. done.
Qed.

Lemma token_run device_code w id d r r' u :
  devices_wf (st w) →
  device_code_index (st w) !! hash_code device_code = Some id →
  device_authorizations (st w) !! id = Some d → da_status d = "approved" →
  da_approved_user_id d ≠ "" → da_requested_repository_id d ≠ "" →
  find_value (λ x, String.eqb (r_id x) (da_requested_repository_id d)) (resources (st w)) = Some r →
  find_value (λ x, String.eqb (r_name x) (r_name r)) (resources (st w)) = Some r' →
  resources (st w) !! r_resource_id r' = Some r' →
  users (st w) !! da_approved_user_id d = Some u → u_status u = "active" → u_id u ≠ "" →
  decision (st w) (u_id u) (r_resource_id r') "write" = true →
  ∃ tr w', Device.token memory_device device_code w = (Ok tr, w')
    ∧ tr_status tr = "ok" ∧ tr_remote_url tr = r_remote_url r ∧ tr_token_type tr = "lore".
Proof.
  intros Hkey Hi Hd Hp Happ%is_empty_false Hreq%is_empty_false Hr Hn Hres Hu Hact Hne%is_empty_false Ha.
  destruct (Hkey id d Hd) as [Hid _].
  unfold Device.token, Device.device_by_device_code, Device.redeem, Device.repository_for_device.
  simpl. unfold Devices.device_by_device_code, Resources.get_by_id. mrun.
  rewrite Hi. simpl. rewrite Hd. simpl. rewrite Hp, Happ, Hreq. rewrite andb_false_r. simpl. rewrite Hr.
  unfold manual_mint_authz. simpl. unfold Accounts.principal_by_user_id, active_user. mrun.
  rewrite Hu, Hact. simpl. unfold Resources.get_by_name. mrun. rewrite Hn.
  change (existsb _ _) with (decision (st w) (u_id u) (r_resource_id r') "write"). rewrite Ha. simpl.
  unfold exchange_authz. simpl. rewrite Hne. unfold exchange_resource. simpl.
  unfold Resources.get_by_resource_id. mrun. rewrite Hres. simpl.
  change (existsb _ _) with (decision (st w) (u_id u) (r_resource_id r') "write"). rewrite Ha. simpl.
  unfold Tokens.sign_authz, ensure_jti, unix_or_now, record. simpl. mrun.
  unfold Devices.consume_device_authorization. mrun. rewrite Hid, Hd, Hp. simpl.
  eexists _, _. split; [done|]. done.
Qed.

End DeviceFlow.

(** * Examples *)

Definition demo_device_config : DeviceConfig :=
  mkDeviceConfig "https://auth/" "https://auth" dur_zero dur_zero.

(** A clock that stands still, so that no code runs out. *)
#[local, refine] Instance still_env : Env := {|
  clock _ := 1000%Z;
  uuid_src n := letters (S n);
  sha256_hex s := s;
  str_debug s := s;
  hash_iter K V _ _ m := map_to_list m;
  hashset_iter K _ _ s := elements s
|}.
Proof. all: done. Defined.

Definition started_world : World State :=
  (Device.start (memory_device demo_device_config demo_config) "lore://h/game" "game" demo_world).2.
Definition approved_world : World State :=
  (Device.approve (memory_device demo_device_config demo_config) "ann" "AAA-" started_world).2.
Definition redeemed_world : World State :=
  (Device.token (memory_device demo_device_config demo_config) "aaa" approved_world).2.


(** [devices_wf] of a concrete store is decided. *)
Lemma devices_wf_decide s :
  bool_decide (map_Forall (λ id d, da_id d = id
    ∧ da_status d ∈ ["pending"; "approved"; "consumed"; "expired"]) (device_authorizations s)) = true →
  devices_wf s.
Proof. intros Hs%bool_decide_eq_true id d. apply Hs. Qed.

Lemma demo_granted : @granted still_env demo_store "ann" "urc-game" "write".
Proof. apply decision_spec. vm_compute. reflexivity. Qed.


Lemma approve_requires_write_witness :
  ∃ rep w', Device.approve (memory_device demo_device_config demo_config) "ann" "AAA-" started_world
      = (Ok rep, w')
    ∧ ∃ id d, user_code_index (st started_world) !! hash_code "AAA-" = Some id
        ∧ device_authorizations (st started_world) !! id = Some d ∧ da_status d = "pending".
Proof.
  eexists _, _. split; [vm_compute; reflexivity|].
  edestruct (approve_requires_write demo_device_config demo_config "ann" "AAA-" started_world)
    as (id & d & _ & _ & _ & _ & H1 & H2 & H3 & _);
    [apply devices_wf_decide; vm_compute; reflexivity|vm_compute; reflexivity|].
  exists id, d. split; [exact H1|split; [exact H2|exact H3]].
Defined.

