(* ===== verification/LoginFacts.v ===== *)
(** Signing in: which identities resolve to an account, that an invitation is claimed
    once and the binding lasts, and when a polled session yields a token. *)

From Stdlib Require Import ZArith Lia Ascii.
From stdpp Require Import base gmap strings list.
From S2P Require Import Prelude Model Ports MemState MemAccounts MemSessions MemTokens MemPorts.
From S2P Require Import TokenSvc DeviceSvc LoginSvc ModelFacts Demo TokenFacts.

(** * Resolving an external identity *)

Section Resolve.
Context `{Env}.

(** The identity was bound before, to an active user. *)
Definition known_login (s : State) (req : LoginResolutionRequest) (p : TokenPrincipal) : Prop :=
  ∃ ei u, identities s !! external_identity_key (lrr_identity req) = Some ei
    ∧ ei_status ei = "active" ∧ users s !! ei_user_id ei = Some u ∧ u_status u = "active"
    ∧ p = principal_from_user u (ei_provider_id (lrr_identity req))
            (Accounts.groups_of s (ei_user_id ei)).

(** The identity claims a pending invitation to its verified e-mail address. *)
Record claims (s s' : State) (req : LoginResolutionRequest) (p : TokenPrincipal)
    (invitation_id : string) (now : Z) : Prop := {
  cl_verified : ei_email_verified (lrr_identity req) = true;
  cl_policy : allows_verified_email_invitation_binding (lrr_policy req) = true;
  cl_domain : email_domain_allowed (ei_email (lrr_identity req))
    (ltp_allowed_email_domains (lrr_policy req)) = true;
  cl_groups : group_members s' = group_members s;
  cl_invitation : ∃ i, invitations s !! invitation_id = Some i
    ∧ Accounts.invitation_matches (lrr_identity req) now i = true
    ∧ (∃ id, invitations s' !! invitation_id = Some (invitation_accepted id i)
         ∧ identities s' !! external_identity_key (lrr_identity req)
           = Some (Accounts.bound_identity (lrr_identity req) id (ii_user_id i)))
    ∧ ∃ u, users s !! ii_user_id i = Some u
        ∧ users s' !! ii_user_id i
          = Some (user_bound (ei_email (lrr_identity req)) (ei_display_name (lrr_identity req)) u)
        ∧ p = principal_from_user
                (user_bound (ei_email (lrr_identity req)) (ei_display_name (lrr_identity req)) u)
                (ei_provider_id (lrr_identity req)) (Accounts.groups_of s (ii_user_id i))
}.

Lemma claim_invitation_Ok req w p b w' :
  Accounts.claim_invitation req (external_identity_key (lrr_identity req)) w = (Ok (p, b), w') →
  lb_status b = "bound_invitation"
  ∧ claims (st w) (st w') req p (lb_invitation_id b) (unix_of (clock (ticks w))).
Proof.
  unfold Accounts.claim_invitation, Accounts.bind_invitation, active_user.
  destruct (ei_email_verified (lrr_identity req)) eqn:Hv; simpl; [|done].
  destruct (is_empty (trim _)); simpl; [done|].
  destruct (allows_verified_email_invitation_binding (lrr_policy req)) eqn:Hp; simpl; [|done].
  destruct (email_domain_allowed _ _) eqn:Hd; simpl; [|done]. mrun.
  destruct (find_entry _ _) as [[iid i0]|] eqn:Hf; [|done].
  apply find_entry_Some in Hf as [Hi Hm]. simpl in *. rewrite Hi. simpl.
  destruct (users (st w) !! ii_user_id i0) as [u|] eqn:Hu; [|done]. simpl.
  rewrite lookup_insert_eq. simpl. intros [= <- <- <-]. simpl. split; [done|].
  split; [done..|]. exists i0. split_and!; [done|done| |].
  - eexists. split; [|apply lookup_insert_eq]. simpl. rewrite lookup_alter_eq, Hi. done.
  - exists u. split_and!; [done|apply lookup_insert_eq|done].
Qed.

Lemma resolve_login_Ok req w p b w' :
  Accounts.resolve_login req w = (Ok (p, b), w') →
  lb_status b = "existing" ∧ st w' = st w ∧ known_login (st w) req p
  ∨ lb_status b = "bound_invitation" ∧ ¬ (∃ p, known_login (st w) req p)
    ∧ claims (st w) (st w') req p (lb_invitation_id b) (unix_of (clock (ticks w))).
Proof.
  unfold Accounts.resolve_login. unfold bind at 1, get_state at 1.
  destruct (identities (st w) !! external_identity_key (lrr_identity req)) as [ei|] eqn:Hi.
  - destruct (String.eqb_spec (ei_status ei) "active") as [Ha|Hna].
    + unfold Accounts.existing_login, active_user. mrun.
      destruct (users (st w) !! ei_user_id ei) as [u|] eqn:Hu; [|done].
      destruct (String.eqb_spec (u_status u) "active"); simpl; [|done].
      intros [= <- <- <-]. left. split_and!; [done..|]. exists ei, u. done.
    + intros Hx%claim_invitation_Ok. right. split_and!; [apply Hx| |apply Hx].
      intros (? & ei' & ? & Hi' & ? & _). congruence.
  - intros Hx%claim_invitation_Ok. right. split_and!; [apply Hx| |apply Hx].
    intros (? & ei' & ? & Hi' & ? & _). congruence.
Qed.

(** resolve_login admits an external identity only if it is bound to an active user already,
    and then changes nothing, or if it claims a pending, unexpired invitation of the same
    provider and issuer to its verified e-mail address under a policy that permits it, and then
    the invitation is accepted and the identity bound. *)
Theorem resolve_login_sound req w p b w' :
  Accounts.resolve_login req w = (Ok (p, b), w') →
  lb_status b = "existing" ∧ st w' = st w ∧ known_login (st w) req p
  ∨ lb_status b = "bound_invitation" ∧ ¬ (∃ p, known_login (st w) req p)
    ∧ claims (st w) (st w') req p (lb_invitation_id b) (unix_of (clock (ticks w))).
Proof. apply resolve_login_Ok. Qed.

(** Signing in again with an identity that resolved once gives the same principal through the
    existing binding, and no longer writes. *)
Theorem login_binding_lasts req w p b w1 t d :
  Accounts.resolve_login req w = (Ok (p, b), w1) →
  ∃ b2, Accounts.resolve_login req (mkWorld (st w1) t d) = (Ok (p, b2), mkWorld (st w1) t d)
    ∧ lb_status b2 = "existing".
Proof.
  intros Hx%resolve_login_Ok.
  assert (∃ ei u, identities (st w1) !! external_identity_key (lrr_identity req) = Some ei
    ∧ ei_status ei = "active" ∧ users (st w1) !! ei_user_id ei = Some u ∧ u_status u = "active"
    ∧ p = principal_from_user u (ei_provider_id (lrr_identity req))
            (Accounts.groups_of (st w1) (ei_user_id ei))) as (ei & u & Hi & Ha & Hu & Hua & ->).
  { destruct Hx as [(_ & -> & ei & u & ?)|(_ & _ & Hc)]; [by exists ei, u|].
    destruct Hc as [_ _ _ Hg (i & _ & _ & (id & _ & Hid) & u & _ & Hu & ->)].
    eexists _, _. split_and!; [exact Hid|done|exact Hu|done|].
    unfold Accounts.groups_of. by rewrite Hg. }
  unfold Accounts.resolve_login. unfold bind at 1, get_state at 1. simpl.
  rewrite Hi, Ha. simpl. unfold Accounts.existing_login, active_user. mrun. rewrite Hu, Hua. simpl.
  eexists. split; [done|]. done.
Qed.
End Resolve.

(** * Auth sessions *)

Section AuthSessions.
Context `{Env} (cfg : LoginConfig) (tcfg : TokenConfig) (idps : IdentityProviderRegistry State).

Definition memory_login : LoginService State :=
  mkLoginService cfg idps store_accounts store_state (memory_tokens tcfg).

Lemma record_frame signed user_id kind role w r w' :
  record (memory_tokens tcfg) signed user_id kind role w = (r, w') →
  auth_sessions (st w') = auth_sessions (st w)
  ∧ auth_session_codes (st w') = auth_session_codes (st w).
Proof. unfold record. simpl. unfold Tokens.record_issued. mrun. by intros [= _ <-]. Qed.

Lemma mint_authn_frame user_id ttl w r w' :
  mint_authn (memory_tokens tcfg) user_id ttl w = (r, w') →
  auth_sessions (st w') = auth_sessions (st w)
  ∧ auth_session_codes (st w') = auth_session_codes (st w).
Proof.
  unfold mint_authn. simpl. unfold Accounts.principal_by_user_id, active_user, Tokens.sign_authn,
    ensure_jti, unix_or_now, record. simpl. unfold Tokens.record_issued. mrun.
  destruct (users (st w) !! user_id) as [u|]; [|by intros [= _ <-]].
  destruct (negb _); simpl; by intros [= _ <-].
Qed.

Lemma session_by_code_Ok code w s w' :
  Sessions.get_auth_session_by_code code w = (Ok s, w') →
  st w' = st w ∧ (unix_of (clock (ticks w)) < as_expires_at s)%Z
  ∧ ∃ id, auth_session_codes (st w) !! hash_secret code = Some id
      ∧ auth_sessions (st w) !! id = Some s.
Proof.
  unfold Sessions.get_auth_session_by_code, not_expired. mrun.
  destruct (auth_session_codes (st w) !! hash_secret code) as [id|] eqn:Hi; [|done]. simpl.
  destruct (auth_sessions (st w) !! id) as [s0|] eqn:Hs; [|done]. simpl.
  destruct (Z.leb_spec (as_expires_at s0) (unix_of (clock (ticks w)))); simpl; [done|].
  intros [= <- <-]. eauto.
Qed.

(** Session rows are stored under their id. *)
Definition sessions_wf (s : State) : Prop :=
  ∀ id x, auth_sessions s !! id = Some x → as_id x = id.

(** What a poll that was answered with a token did. *)
Lemma get_auth_session_ready_inv code client_state w r w' :
  sessions_wf (st w) →
  Login.get_auth_session memory_login code client_state w = (Ok r, w') → ast_ready r = true →
  ∃ id s w1 w2,
    auth_session_codes (st w) !! hash_secret code = Some id ∧ auth_sessions (st w) !! id = Some s
    ∧ as_status s = "completed" ∧ as_user_id s ≠ ""
    ∧ as_client_state_hash s = hash_secret client_state
    ∧ (unix_of (clock (ticks w)) < as_expires_at s)%Z
    ∧ st w1 = st w ∧ mint_authn (memory_tokens tcfg) (as_user_id s) None w1 = (Ok (ast_token r, ast_user r), w2)
    ∧ auth_sessions (st w') = <[id := session_consumed s]> (auth_sessions (st w))
    ∧ auth_session_codes (st w') = auth_session_codes (st w).
Proof.
  intros Hkey. unfold Login.get_auth_session. intros Hx Hr.
  apply bind_Ok_inv in Hx as (s & w1 & Hs & Hx). apply map_err_Ok_inv in Hs.
  apply session_by_code_Ok in Hs as (He & Hexp & id & Hi & Hs).
  apply bind_Ok_inv in Hx as (now & w2 & Hn & Hx).
  assert (st w2 = st w) as He2.
  { rewrite <- He. by apply (readonly_eq now_unix w1 _ w2) in Hn. }
  destruct (as_expires_at s <=? now)%Z; [done|].
  destruct (match_client_state _ _ _) eqn:Hc; simpl in Hx; [|done].
  destruct (String.eqb_spec (as_status s) "completed") as [Hst|]; simpl in Hx; [|by minv].
  destruct (is_empty (as_user_id s)) eqn:Hu; [by minv|]. apply is_empty_false in Hu.
  apply bind_Ok_inv in Hx as ([tok user] & w3 & Hm & Hx).
  apply bind_Ok_inv in Hx as ([] & w4 & Hcons & Hx). injection Hx as <- <-. simpl in *.
  destruct (mint_authn_frame _ _ _ _ _ Hm) as [F1 F2].
  unfold Sessions.consume_auth_session in Hcons. mrun.
  rewrite F1, He2, (Hkey id s Hs), Hs, Hst in Hcons. simpl in Hcons.
  destruct (_ <=? _)%Z; [done|]. injection Hcons as <-. simpl.
  exists id, s, w2, w3. apply String.eqb_eq in Hc. rewrite F1, F2, He2.
  split_and!; done.
Qed.

(** Polling an auth session yields a token only for the code of an unexpired session that an
    active user completed, to a caller that presents the client state the session was started
    with, and consumes the session. *)
Theorem session_token_only_when_completed code client_state w r w' :
  sessions_wf (st w) →
  Login.get_auth_session memory_login code client_state w = (Ok r, w') → ast_ready r = true →
  ∃ id s u,
    auth_session_codes (st w) !! hash_secret code = Some id ∧ auth_sessions (st w) !! id = Some s
    ∧ as_status s = "completed" ∧ as_client_state_hash s = hash_secret client_state
    ∧ (unix_of (clock (ticks w)) < as_expires_at s)%Z
    ∧ users (st w) !! as_user_id s = Some u ∧ u_status u = "active" ∧ u_id (ast_user r) = u_id u
    ∧ auth_sessions (st w') !! id = Some (session_consumed s).
Proof.
  intros Hkey Hx Hr.
  destruct (get_auth_session_ready_inv _ _ _ _ _ Hkey Hx Hr)
    as (id & s & w1 & w2 & H1 & H2 & H3 & H4 & H5 & H6 & He & Hm & F1 & _).
  apply mint_authn_Ok in Hm as (u & _ & _ & _ & Hu & Ha & _ & _ & _ & _ & Hid & _).
  rewrite He in Hu. exists id, s, u. rewrite F1. split_and!; try done. apply lookup_insert_eq.
Qed.

(** After a poll of an auth session was answered with a token, no later poll of it is, and such
    a poll changes nothing. *)
Theorem session_token_once code client_state w r w1 t d :
  sessions_wf (st w) →
  Login.get_auth_session memory_login code client_state w = (Ok r, w1) → ast_ready r = true →
  ∀ r2 w2, Login.get_auth_session memory_login code client_state (mkWorld (st w1) t d) = (Ok r2, w2) →
    ast_ready r2 = false ∧ st w2 = st w1.
Proof.
  intros Hkey Hx Hr r2 w2 Hx2.
  destruct (get_auth_session_ready_inv _ _ _ _ _ Hkey Hx Hr)
    as (id & s & _ & _ & H1 & H2 & H3 & H4 & H5 & H6 & _ & _ & F1 & F2).
  unfold Login.get_auth_session in Hx2.
  apply bind_Ok_inv in Hx2 as (s2 & w3 & Hs%map_err_Ok_inv & Hx2).
  apply session_by_code_Ok in Hs as (He & _ & id2 & Hi & Hs). simpl in *.
  rewrite F2, H1 in Hi. injection Hi as <-. rewrite F1, lookup_insert_eq in Hs. injection Hs as <-.
  apply bind_Ok_inv in Hx2 as (now & w4 & Hn & Hx2).
  apply (readonly_eq now_unix w3 _ w4) in Hn; [|done].
  destruct (_ <=? now)%Z; [done|]. destruct (negb _); [done|]. simpl in Hx2.
  injection Hx2 as <- <-. split; [done|]. congruence.
Qed.
End AuthSessions.

(** * Completing a sign-in *)

Lemma normalize_identity_Ok i d i' :
  normalize_identity i d = Ok i' ↔
    (ei_provider_id i = "" ∨ ei_provider_id i = ipd_id d)
    ∧ (ipd_issuer d = "" ∨ ei_issuer i = "" ∨ ei_issuer i = ipd_issuer d)
    ∧ i' = with_provider_issuer (ipd_id d)
             (if is_empty (ei_issuer i) then ipd_issuer d else ei_issuer i) i.
Proof.
  unfold normalize_identity. destruct (is_empty (ei_provider_id i)) eqn:Hp.
  - apply is_empty_true in Hp. rewrite String.eqb_refl. simpl.
    destruct (is_empty (ipd_issuer d)) eqn:Hd; simpl.
    { apply is_empty_true in Hd. naive_solver. }
    apply is_empty_false in Hd. destruct (is_empty (ei_issuer i)) eqn:Hi.
    + apply is_empty_true in Hi. rewrite String.eqb_refl. simpl. naive_solver.
    + apply is_empty_false in Hi. destruct (String.eqb_spec (ei_issuer i) (ipd_issuer d)); naive_solver.
  - apply is_empty_false in Hp. destruct (String.eqb_spec (ei_provider_id i) (ipd_id d)) as [->|]; simpl;
      [|naive_solver].
    destruct (is_empty (ipd_issuer d)) eqn:Hd; simpl.
    { apply is_empty_true in Hd. naive_solver. }
    apply is_empty_false in Hd. destruct (is_empty (ei_issuer i)) eqn:Hi.
    + apply is_empty_true in Hi. rewrite String.eqb_refl. simpl. naive_solver.
    + apply is_empty_false in Hi. destruct (String.eqb_spec (ei_issuer i) (ipd_issuer d)); naive_solver.
Qed.

Section CompleteAuth.
Context `{Env} {S : Type} (self : LoginService S).

(** Over any adapter, complete_auth carries on only with an identity of the provider that was
    asked and of its issuer, and when the account directory does not know the identity the
    result has no browser session and completes no command-line session, and nothing is written
    after the lookup. *)
Theorem complete_auth_identity_of_provider provider_id req nonce w r w' :
  Login.complete_auth self provider_id req nonce w = (Ok r, w') →
  ∃ provider d raw w1,
    Login.identity_provider self provider_id = Ok (provider, d)
    ∧ Ports.complete_auth provider req w = (Ok raw, w1)
    ∧ (ei_provider_id raw = "" ∨ ei_provider_id raw = ipd_id d)
    ∧ ei_provider_id (ocr_identity r) = ipd_id d
    ∧ (ipd_issuer d ≠ "" → ei_issuer (ocr_identity r) = ipd_issuer d)
    ∧ ei_subject (ocr_identity r) = ei_subject raw
    ∧ (ocr_unknown_user r = true →
         ocr_browser_session r = default_BrowserSession ∧ ocr_cli_complete r = false
         ∧ ∃ w2, resolve_login (lsv_users self)
             (mkLoginResolutionRequest (ocr_identity r) (ipd_trust_policy d)) w1 = (Err NotFound, w2)
             ∧ w' = w2).
Proof.
  unfold Login.complete_auth. intros Hx.
  apply bind_Ok_inv in Hx as ([provider d] & w0 & Hp & Hx). unfold lift in Hp. injection Hp as Hp <-.
  apply bind_Ok_inv in Hx as (raw & w1 & Hraw%map_err_Ok_inv & Hx).
  apply bind_Ok_inv in Hx as (i & w1' & Hn & Hx). unfold lift in Hn. injection Hn as Hn <-.
  apply normalize_identity_Ok in Hn as (Hpid & Hiss & Hi).
  apply bind_Ok_inv in Hx as (res & w2 & Hres & Hx). unfold attempt in Hres.
  destruct (resolve_login _ _ w1) as [res0 w2'] eqn:Hrl. injection Hres as <- <-.
  assert (ocr_identity r = i ∧ (ocr_unknown_user r = true →
    res0 = Err NotFound ∧ w' = w2' ∧ ocr_browser_session r = default_BrowserSession
    ∧ ocr_cli_complete r = false)) as [Hid Hunk].
  { destruct res0 as [[p b]|[]]; try discriminate.
    - unfold Login.finish_login in Hx. destruct (is_empty nonce).
      + minv. done.
      + apply bind_Ok_inv in Hx as (as_ & w3 & _ & Hx). destruct as_ as [sess|[]]; minv; done.
    - injection Hx as <- <-. done. }
  exists provider, d, raw, w1. rewrite Hid, Hi. split_and!; try done.
  - simpl. intros Hne. destruct (is_empty (ei_issuer raw)) eqn:He; [done|].
    apply is_empty_false in He. naive_solver.
  - intros Hu. destruct (Hunk Hu) as (-> & -> & Hb & Hc). rewrite Hi in Hrl. eauto.
Qed.
End CompleteAuth.

(** * Examples *)

(** Bob was invited by e-mail through the provider [corp]. *)
Definition invited_world : World State :=
  (Accounts.add_invitation
     (mkAddInvitationInput "corp" "https://idp" "bob@example.org" "Bob" "" 0) demo_world).2.
Definition bob_identity : ExternalIdentity :=
  demo_identity "corp" "https://idp" "42" "Bob@Example.org".
Definition corp_policy : LoginTrustPolicy :=
  mkLoginTrustPolicy "verified_email_invitation" ["example.org"].
Definition bob_login : LoginResolutionRequest := mkLoginResolutionRequest bob_identity corp_policy.

Definition demo_login_config : LoginConfig := mkLoginConfig "https://auth" dur_zero dur_zero.

(** A provider that always signs Bob in, and a registry that knows only it. *)
Definition corp_provider : IdentityProvider State := {|
  descriptor := mkIdentityProviderDescriptor "corp" "static" "Corp" "https://idp" corp_policy;
  begin_auth _ := ret (mkBeginAuthResult "https://idp/authorize" []);
  complete_auth _ := ret bob_identity
|}.
Definition corp_registry : IdentityProviderRegistry State := {|
  idp_get id := if String.eqb id "corp" then Some corp_provider else None;
  idp_default_id := "corp";
  idp_list := [descriptor corp_provider]
|}.
Definition demo_login : LoginService State := memory_login demo_login_config demo_config corp_registry.

(** A session that was started for the client secret and completed by Ann. *)
Definition completed_session_world : World State :=
  (Sessions.complete_auth_session (letters 2) "ann"
     (Sessions.create_auth_session "secret" (from_secs 600) demo_world).2).2.

Lemma completed_sessions_wf : sessions_wf (st completed_session_world).
Proof.
  intros id x Hx. assert (bool_decide (map_Forall (λ id x, as_id x = id)
    (auth_sessions (st completed_session_world))) = true) as Hd by (vm_compute; reflexivity).
  apply bool_decide_eq_true in Hd. by apply Hd.
Qed.

