(* ===== verification/InboundFacts.v ===== *)
(** The gRPC surface: what a caller can learn from an answer, that permission checks
    agree with token exchange, who reaches the repository API, and how many requests the limiter
    admits. *)

From Stdlib Require Import ZArith Lia Ascii.
From stdpp Require Import base gmap strings list sorting.
From S2P Require Import Prelude Model Ports MemState MemGraph MemTokens MemGrants.
From S2P Require Import MemAccounts MemPorts TokenSvc PermissionSvc DeviceSvc LoginSvc Status.
From S2P Require Import RateLimit GrpcAuth GrpcRebac ModelFacts Demo AuthzFacts TokenFacts.
From S2P Require Import LoginFacts.

(** * Permission checks and token exchange *)

Section UrcAuthFacts.
Context `{Env} (login : LoginService State) (cfg : TokenConfig).

Definition memory_permissions : PermissionService State :=
  mkPermissionService store_resources store_authz.
Definition memory_server : UrcAuthServer State :=
  mkUrcAuthServer login (memory_tokens cfg) memory_permissions.

(** The repository exists and the user may write to it. *)
Definition may_write (s : State) (user_id id : string) : bool :=
  match resources s !! id with
  | Some r => decision s user_id (r_resource_id r) "write"
  | None => false
  end.

Definition checked (s : State) (user_id id : string) : CheckedPermission :=
  match resources s !! id with
  | Some r => mkCheckedPermission (r_resource_id r) (decision s user_id (r_resource_id r) "write")
                [PermRead; PermWrite]
  | None => mkCheckedPermission id false []
  end.

Lemma check_run user_id ids w :
  Permissions.check memory_permissions user_id ids w = (Ok (checked (st w) user_id <$> ids), w).
Proof.
  unfold Permissions.check. induction ids as [|id ids IH]; [done|]. simpl.
  unfold bind at 1. unfold Permissions.check_one at 1. simpl.
  unfold Resources.get_by_resource_id, bind, get_state, attempt. simpl. unfold checked at 1.
  destruct (resources (st w) !! id) as [r|]; simpl.
  - unfold bind in IH. by rewrite IH.
  - unfold bind in IH. by rewrite IH.
Qed.

Lemma exchange_resource_run user_id id w :
  exchange_resource (memory_tokens cfg) user_id id w =
    (match resources (st w) !! id with
     | Some r => if decision (st w) user_id (r_resource_id r) "write"
                 then Ok (mkResourcePermission (r_resource_id r) [PermRead; PermWrite])
                 else Err PermissionDenied
     | None => Err NotFound
     end, w).
Proof.
  unfold exchange_resource. simpl. unfold Resources.get_by_resource_id, bind, get_state. simpl.
  destruct (resources (st w) !! id) as [r|]; simpl; [|done].
  unfold decision. by destruct (existsb _ _).
Qed.

Lemma exchange_resources_run user_id ids w :
  Forall (λ id, may_write (st w) user_id id = true) ids →
  ∃ rps, map_m (exchange_resource (memory_tokens cfg) user_id) ids w = (Ok rps, w).
Proof.
  induction 1 as [|id ids Hid _ [rps IH]]; simpl; [by eexists|].
  unfold bind at 1. rewrite exchange_resource_run. unfold may_write in Hid.
  destruct (resources (st w) !! id) as [r|]; [|done]. rewrite Hid.
  unfold bind. rewrite IH. by eexists.
Qed.

Lemma exchange_resources_fail user_id ids w :
  ¬ Forall (λ id, may_write (st w) user_id id = true) ids →
  ∃ e, map_m (exchange_resource (memory_tokens cfg) user_id) ids w = (Err e, w)
    ∧ (e = NotFound ∨ e = PermissionDenied).
Proof.
  induction ids as [|id ids IH]; intros Hn; [by destruct Hn|]. simpl. unfold bind at 1.
  rewrite exchange_resource_run. destruct (resources (st w) !! id) as [r|] eqn:Hr; [|eauto].
  destruct (decision (st w) user_id (r_resource_id r) "write") eqn:Hd; [|eauto].
  destruct IH as (e & He & Hor).
  { intros Hall. apply Hn. constructor; [|done]. unfold may_write. by rewrite Hr. }
  exists e. unfold bind. by rewrite He.
Qed.

Lemma exchange_authz_fail authn ids ttl w :
  tp_user_id (va_principal authn) ≠ "" → ids ≠ [] →
  ¬ Forall (λ id, may_write (st w) (tp_user_id (va_principal authn)) id = true) ids →
  ∃ e, exchange_authz (memory_tokens cfg) authn ids ttl w = (Err e, w)
    ∧ (e = NotFound ∨ e = PermissionDenied).
Proof.
  intros Hu%is_empty_false Hids (e & He & Hor)%exchange_resources_fail. exists e. split; [|done].
  unfold exchange_authz. rewrite Hu. destruct ids as [|id0 ids0]; [done|].
  unfold bind at 1. by rewrite He.
Qed.



Definition allowed_entry (c : CheckedPermission) : PbResourcePermission :=
  mkPbResourcePermission (cp_resource_id c) (permissions_to_strings (cp_permission c)).
Definition denied_entry (c : CheckedPermission) : PbResourcePermission :=
  mkPbResourcePermission (cp_resource_id c) [].

Lemma partition_checked_spec l :
  UrcAuth.partition_checked l = mkCheckUserPermissionResponse
    (allowed_entry <$> filter (λ c, cp_allowed c = true) l)
    (denied_entry <$> filter (λ c, cp_allowed c = false) l).
Proof.
  unfold UrcAuth.partition_checked.
  assert (∀ a d, foldl (λ response item,
    if cp_allowed item
    then mkCheckUserPermissionResponse (cur_allowed response ++ [allowed_entry item]) (cur_denied response)
    else mkCheckUserPermissionResponse (cur_allowed response) (cur_denied response ++ [denied_entry item]))
    (mkCheckUserPermissionResponse a d) l
    = mkCheckUserPermissionResponse (a ++ (allowed_entry <$> filter (λ c, cp_allowed c = true) l))
        (d ++ (denied_entry <$> filter (λ c, cp_allowed c = false) l))) as Hf; [|apply (Hf [] [])].
  induction l as [|c l IH]; intros a d; simpl; [by rewrite !app_nil_r|].
  rewrite !filter_cons. destruct (cp_allowed c); simpl; rewrite IH, <- ?app_assoc; done.
Qed.

Lemma checked_fields s user_id id :
  (∀ id r, resources s !! id = Some r → r_resource_id r = id) →
  cp_allowed (checked s user_id id) = may_write s user_id id
  ∧ cp_resource_id (checked s user_id id) = id
  ∧ (cp_allowed (checked s user_id id) = true →
     cp_permission (checked s user_id id) = [PermRead; PermWrite]).
Proof.
  intros Hkey. unfold checked, may_write. destruct (resources s !! id) as [r|] eqn:Hr; [|done].
  simpl. rewrite (Hkey id r Hr). done.
Qed.

(** The gRPC permission check puts every requested repository, in order, in exactly one of the
    two lists: the allowed ones, with read and write, are those that exist and that the user may
    write to. *)
Theorem check_user_permission_partitions request w user w1 :
  UrcAuth.resolve_subject_user memory_server request w = (Ok user, w1) →
  (∀ id r, resources (st w1) !! id = Some r → r_resource_id r = id) →
  ∃ resp, UrcAuth.check_user_permission memory_server request w = (Ok resp, w1)
    ∧ prp_resource_id <$> cur_allowed resp
      = filter (λ id, may_write (st w1) (u_id user) id = true) (cur_resource_id (rq_message request))
    ∧ prp_resource_id <$> cur_denied resp
      = filter (λ id, may_write (st w1) (u_id user) id = false) (cur_resource_id (rq_message request))
    ∧ Forall (λ e, prp_permission e = ["read"; "write"]) (cur_allowed resp).
Proof.
  intros Hu Hkey. unfold UrcAuth.check_user_permission, bind at 1. rewrite Hu.
  unfold bind, map_err. cbn [uas_permissions memory_server]. rewrite check_run. eexists.
  split; [reflexivity|]. rewrite partition_checked_spec. simpl.
  induction (cur_resource_id (rq_message request)) as [|id ids (IH1 & IH2 & IH3)]; [done|].
  destruct (checked_fields (st w1) (u_id user) id Hkey) as (F1 & F2 & F3).
  rewrite fmap_cons, !filter_cons.
  repeat case_decide; try congruence; rewrite ?fmap_cons; simpl; rewrite ?IH1, ?IH2, ?F2;
    split_and!; try done; try constructor; try done; try (simpl; by rewrite F3).
Qed.
End UrcAuthFacts.

(** * The repository API *)

Section RebacFacts.
Context `{Env}.

Definition memory_rebac : RebacServer State := mkRebacServer (mkResourceService store_resources).

(** Creating a repository over the repository API stores an active row under a canonical id,
    deleting it removes that row, and deleting it again succeeds and changes nothing. *)
Theorem rebac_create_then_delete resource_id name w w1 :
  Rebac.create_resource memory_rebac (resource_id, name) w = (Ok tt, w1) →
  ∃ r, resources (st w1) !! r_resource_id r = Some r
    ∧ canonical_resource r ∧ r_name r = name ∧ r_status r = "active"
    ∧ r_lore_repository_id r = trim (repository_id_from_resource_id (trim resource_id))
    ∧ ∃ w2, Rebac.delete_resource memory_rebac (r_resource_id r) w1 = (Ok tt, w2)
        ∧ resources (st w2) = delete (r_resource_id r) (resources (st w))
        ∧ Rebac.delete_resource memory_rebac (r_resource_id r) w2 = (Ok tt, w2).
Proof.
  unfold Rebac.create_resource. simpl. destruct (is_empty resource_id) eqn:He; [done|].
  unfold ResourceSvc.create_resource. simpl. unfold Resources.upsert.
  set (r0 := mkResource "" name "" "" resource_id "").
  intros Hx%map_err_Ok_inv. apply bind_Ok_inv in Hx as (r & w0 & Hn & Hx).
  unfold lift in Hn. injection Hn as Hn <-.
  apply normalize_resource_for_upsert_Ok in Hn as (Hc & Hf & Hl). injection Hf as F1 F2 F3 F4.
  assert (trim resource_id ≠ "") as Htr.
  { intros Ht. destruct Hc as [[Hne _ _] _]. apply Hne. rewrite Hl. simpl. by rewrite Ht. }
  apply is_empty_false in Htr. simpl in Hl. rewrite Htr in Hl.
  destruct Hc as [Hv Hr]. pose proof (for_repository_id_Some _ _ Hr) as (Hn%is_empty_false & Hp & _).
  unfold Resources.add_test_resource, or_else_str in Hx. rewrite F1, F4 in Hx. simpl in Hx. mrun.
  assert (is_empty (r_resource_id r) = false) as Hrid by (by destruct (r_resource_id r)).
  rewrite Hrid, Hn in Hx. injection Hx as <-.
  eexists (mkResource _ _ _ _ _ _). simpl. split_and!; [apply lookup_insert_eq|by split|done..|].
  unfold Rebac.delete_resource. rewrite Hrid. unfold ResourceSvc.delete_resource. simpl.
  unfold Resources.delete_resource. mrun. rewrite lookup_insert_eq. eexists. split; [done|]. simpl.
  rewrite delete_insert_eq, lookup_delete_eq. done.
Qed.
End RebacFacts.

Lemma fmap_Some_eq {A B} (f : A → B) (a : A) : f <$> Some a = Some (f a).
Proof. done. Qed.

Section PeerFacts.
Context `{IpNets}.

Lemma to_ipv4_mapped_of v4 :
  (0 <= v4 < 2 ^ 32)%Z → to_ipv4_mapped (Z.lor (Z.shiftl 65535 32) v4) = Some v4.
Proof.
  intros Hv. unfold to_ipv4_mapped. rewrite Z.shiftr_lor, Z.shiftr_shiftl_l by lia.
  change (32 - 32)%Z with 0%Z. rewrite Z.shiftl_0_r.
  rewrite (Z.shiftr_div_pow2 v4), Z.div_small, Z.lor_0_r by lia. simpl.
  rewrite Z.land_lor_distr_l.
  change (Z.land (Z.shiftl 65535 32) (Z.ones 32)) with 0%Z.
  rewrite Z.lor_0_l, Z.land_ones, Z.mod_small by lia. done.
Qed.

(** A call of the repository API passes the allowlist exactly when its peer address is known
    and, read as IPv4 when it is an IPv4-mapped one, is contained in an allowed network. *)
Theorem allowlist_guards_rebac prefixes method remote :
  allowlist_call prefixes (REBAC_SERVICE_METHOD_PREFIX +:+ method) remote = None
  ↔ ∃ addr net, remote = Some addr ∧ net ∈ prefixes ∧ net_contains net (normalize_ip addr) = true.
Proof.
  unfold allowlist_call. rewrite starts_with_app. simpl.
  unfold peer_allowed, peer_ip_from_request. destruct remote as [addr|]; simpl; [|naive_solver].
  destruct (existsb _ prefixes) eqn:He; simpl.
  - apply existsb_exists in He as (net & Hin%list_elem_of_In & Hc). naive_solver.
  - split; [done|]. intros (addr' & net & [= <-] & Hin & Hc).
    rewrite (proj2 (existsb_exists _ _)) in He; [done|]. exists net. by rewrite <- list_elem_of_In.
Qed.

(** The allowlist treats an IPv4 peer and its IPv4-mapped IPv6 form alike. *)
Theorem allowlist_ignores_ipv4_mapping prefixes path v4 :
  (0 <= v4 < 2 ^ 32)%Z →
  allowlist_call prefixes path (Some (V6 (Z.lor (Z.shiftl 65535 32) v4)))
  = allowlist_call prefixes path (Some (V4 v4)).
Proof.
  intros Hv. unfold allowlist_call, peer_ip_from_request. rewrite !fmap_Some_eq.
  assert (normalize_ip (V6 (Z.lor (Z.shiftl 65535 32) v4)) = V4 v4) as ->; [|reflexivity].
  unfold normalize_ip. by rewrite to_ipv4_mapped_of.
Qed.
End PeerFacts.

(** * Examples *)

Definition demo_server : UrcAuthServer State := memory_server demo_login demo_config.
Definition ann_bearer : string := "Bearer authn:user:ann:aa".



(** * The limiter *)

(** The answers that concern one peer. *)
Definition answers_for (key : string) (calls : list (Z * string)) (answers : list bool) : list bool :=
  (filter (λ e : (Z * string) * bool, e.1.2 = key) (zip calls answers)).*2.

Section Limiter.
Context (l : Limiter) (Hlimit : lim_limit l ≠ 0) (Hwindow : (0 < lim_window l)%Z).

Lemma allow_enabled now key buckets :
  allow l now key buckets =
    let fresh := (true, prune (<[key := mkBucket now 1]> buckets) now (lim_window l)) in
    match buckets !! key with
    | Some bucket =>
        if live (lim_window l) now bucket then
          if lim_limit l <=? bk_count bucket then (false, buckets)
          else (true, <[key := mkBucket (bk_start bucket) (S (bk_count bucket))]> buckets)
        else fresh
    | None => fresh
    end.
Proof.
  unfold allow. assert (lim_limit l =? 0 = false) as -> by (by apply Nat.eqb_neq).
  assert ((lim_window l =? 0)%Z = false) as -> by (apply Z.eqb_neq; lia). done.
Qed.

Lemma prune_lookup buckets now key :
  prune buckets now (lim_window l) !! key =
    match buckets !! key with
    | Some b => if live (lim_window l) now b then Some b else None
    | None => None
    end.
Proof.
  unfold prune. destruct (buckets !! key) as [b|] eqn:Hb.
  - destruct (live (lim_window l) now b) eqn:Hl.
    + by apply map_lookup_filter_Some.
    + apply map_lookup_filter_None. right. intros b' Hb'. simplify_eq/=. congruence.
  - apply map_lookup_filter_None. by left.
Qed.

Lemma live_now now c : live (lim_window l) now (mkBucket now c) = true.
Proof. unfold live, duration_since. simpl. apply Z.ltb_lt. lia. Qed.

(** What one call does to the bucket of its own key, and of another. *)
Lemma allow_same now key buckets ok buckets' :
  allow l now key buckets = (ok, buckets') →
  match buckets !! key with
  | Some b =>
      if live (lim_window l) now b then
        if lim_limit l <=? bk_count b then ok = false ∧ buckets' !! key = Some b
        else ok = true ∧ buckets' !! key = Some (mkBucket (bk_start b) (S (bk_count b)))
      else ok = true ∧ buckets' !! key = Some (mkBucket now 1)
  | None => ok = true ∧ buckets' !! key = Some (mkBucket now 1)
  end.
Proof.
  rewrite allow_enabled. simpl. destruct (buckets !! key) as [b|] eqn:Hb.
  - destruct (live (lim_window l) now b) eqn:Hl.
    + destruct (lim_limit l <=? bk_count b); intros [= <- <-]; [done|].
      by rewrite lookup_insert_eq.
    + intros [= <- <-]. rewrite prune_lookup, lookup_insert_eq, live_now. done.
  - intros [= <- <-]. rewrite prune_lookup, lookup_insert_eq, live_now. done.
Qed.

Lemma allow_other now key key' buckets ok buckets' :
  key' ≠ key → allow l now key' buckets = (ok, buckets') →
  buckets' !! key = buckets !! key
  ∨ ∃ b, buckets !! key = Some b ∧ live (lim_window l) now b = false ∧ buckets' !! key = None.
Proof.
  intros Hne. rewrite allow_enabled. simpl.
  assert (∀ b', prune (<[key' := b']> buckets) now (lim_window l) !! key = buckets !! key
    ∨ ∃ b, buckets !! key = Some b ∧ live (lim_window l) now b = false
      ∧ prune (<[key' := b']> buckets) now (lim_window l) !! key = None) as Hp.
  { intros b'. rewrite prune_lookup, lookup_insert_ne by done.
    destruct (buckets !! key) as [b|]; [|by left].
    destruct (live (lim_window l) now b) eqn:Hl; [by left|right]. by exists b. }
  destruct (buckets !! key') as [b|]; [|intros [= <- <-]; apply Hp].
  destruct (live (lim_window l) now b); [|intros [= <- <-]; apply Hp].
  destruct (lim_limit l <=? bk_count b); intros [= <- <-]; left; [done|].
  by rewrite lookup_insert_ne.
Qed.

(** The requests of [key] that a bucket still admits. *)
Definition room (buckets : gmap string Bucket) (key : string) : nat :=
  match buckets !! key with Some b => lim_limit l - bk_count b | None => lim_limit l end.

Lemma answers_for_cons key now k ok calls answers :
  answers_for key ((now, k) :: calls) (ok :: answers) =
  if decide (k = key) then ok :: answers_for key calls answers else answers_for key calls answers.
Proof. unfold answers_for. simpl. rewrite filter_cons. simpl. by case_decide. Qed.

Lemma run_in_window t0 key calls buckets :
  Forall (λ c : Z * string, t0 <= c.1 < t0 + lim_window l)%Z calls →
  (∀ b, buckets !! key = Some b → (t0 <= bk_start b)%Z) →
  answers_for key calls (run l calls buckets)
  = (λ i, bool_decide (i < room buckets key)) <$> seq 0 (length (filter (λ c, c.2 = key) calls)).
Proof.
  revert buckets. induction calls as [|[now k] calls IH]; intros buckets Hc Hb; simpl; [done|].
  apply Forall_cons in Hc as [Ht Hc]. simpl in Ht.
  assert (∀ b, buckets !! key = Some b → live (lim_window l) now b = true) as Hlive.
  { intros b Hk%Hb. unfold live, duration_since. apply Z.ltb_lt. lia. }
  destruct (allow l now k buckets) as [ok buckets'] eqn:Ha.
  rewrite answers_for_cons, filter_cons. simpl. destruct (decide (k = key)) as [->|Hne].
  - apply allow_same in Ha. simpl. rewrite <- fmap_S_seq, <- list_fmap_compose.
    unfold room in *. destruct (buckets !! key) as [b|] eqn:Hk.
    + rewrite (Hlive b eq_refl) in Ha. specialize (Hb b eq_refl).
      destruct (Nat.leb_spec (lim_limit l) (bk_count b)); destruct Ha as [-> Hk'].
      * rewrite (IH buckets' Hc), Hk' by (intros ? ?; congruence).
        rewrite bool_decide_false by lia. f_equal. apply list_fmap_ext. intros i x _. simpl.
        apply bool_decide_ext. lia.
      * rewrite (IH buckets' Hc), Hk' by (rewrite Hk'; by intros ? [= <-]).
        rewrite bool_decide_true by lia. f_equal. apply list_fmap_ext. intros i x _. simpl.
        apply bool_decide_ext. lia.
    + destruct Ha as [-> Hk']. rewrite (IH buckets' Hc), Hk' by (rewrite Hk'; intros ? [= <-]; simpl; lia).
      rewrite bool_decide_true by lia. f_equal. apply list_fmap_ext. intros i x _. simpl.
      apply bool_decide_ext. lia.
  - apply (allow_other _ _ _ _ _ _ Hne) in Ha as [He|(b & Hk & Hl & _)].
    + rewrite IH; [|done|by rewrite He]. unfold room. by rewrite He.
    + by rewrite (Hlive b Hk) in Hl.
Qed.


(** Buckets that answer alike from [now] on. *)
Definition alike (now : Z) (key : string) (b1 b2 : gmap string Bucket) : Prop :=
  b1 !! key = b2 !! key
  ∨ ∃ b, (b1 !! key = Some b ∨ b2 !! key = Some b) ∧ (b1 !! key = None ∨ b2 !! key = None)
      ∧ live (lim_window l) now b = false.

Lemma live_mono now now' b :
  (now <= now')%Z → live (lim_window l) now b = false → live (lim_window l) now' b = false.
Proof. unfold live, duration_since. rewrite !Z.ltb_ge. lia. Qed.

Lemma run_alone now0 key calls b1 b2 :
  Sorted (λ a b : Z * string, a.1 <= b.1)%Z calls →
  Forall (λ c : Z * string, now0 <= c.1)%Z calls →
  alike now0 key b1 b2 →
  answers_for key calls (run l calls b1) = run l (filter (λ c, c.2 = key) calls) b2.
Proof.
  intros Hsort%Sorted_StronglySorted; [|intros x y z; lia].
  revert now0 b1 b2. induction Hsort as [|[now k] calls _ IH Hle]; intros now0 b1 b2 Hge Hal; [done|].
  apply Forall_cons in Hge as [Hnow _]. simpl in Hnow, Hle. simpl.
  destruct (allow l now k b1) as [ok b1'] eqn:Ha.
  rewrite answers_for_cons, filter_cons. simpl. destruct (decide (k = key)) as [->|Hne].
  - simpl. destruct (allow l now key b2) as [ok2 b2'] eqn:Ha2.
    apply allow_same in Ha, Ha2.
    assert (ok = ok2 ∧ b1' !! key = b2' !! key) as [-> He].
    { destruct Hal as [He|(b & H1 & H2 & Hl)]; [|apply (live_mono now0 now) in Hl; [|done]].
      - rewrite He in Ha. destruct (b2 !! key) as [b|];
          [destruct (live _ _ _); [destruct (_ <=? _)|]|];
          destruct Ha as [-> ->], Ha2 as [-> ->]; done.
      - destruct H1 as [H1|H1], H2 as [H2|H2]; try congruence;
          rewrite ?H1, ?H2, ?Hl in Ha; rewrite ?H1, ?H2, ?Hl in Ha2;
          destruct Ha as [-> ->], Ha2 as [-> ->]; done. }
    f_equal. apply (IH now); [done|by left].
  - apply (IH now); [done|]. apply (allow_other _ _ _ _ _ _ Hne) in Ha.
    destruct Hal as [He|(b & H1 & H2 & Hl)]; [|apply (live_mono now0 now) in Hl; [|done]].
    + destruct Ha as [Ha|(b & Hb & Hl & Hn)]; [left; congruence|].
      right. exists b. rewrite <- He, Hb, Hn. eauto.
    + destruct Ha as [Ha|(b' & Hb & Hl' & Hn)].
      * right. exists b. rewrite Ha. eauto.
      * destruct H1 as [H1|H1], H2 as [H2|H2]; simplify_eq; try congruence.
        left. congruence.
Qed.

(** For requests in time order, the answers one peer gets are those it would get alone: other
    peers, and the pruning they cause, make no difference. *)
Theorem limiter_peers_are_independent key calls :
  Sorted (λ a b : Z * string, a.1 <= b.1)%Z calls →
  answers_for key calls (run l calls ∅) = run l (filter (λ c, c.2 = key) calls) ∅.
Proof.
  intros Hs. destruct calls as [|[now k] calls]; [done|].
  apply (run_alone now); [done| |by left]. pose proof Hs as Hss.
  apply Sorted_StronglySorted in Hss; [|intros x y z; lia].
  apply StronglySorted_inv in Hss as [_ Hall]. constructor; [simpl; lia|].
  eapply Forall_impl; [exact Hall|]. done.
Qed.
End Limiter.

(** * Examples *)

Definition demo_limiter : Limiter := mkLimiter 2 60.
Definition demo_calls : list (Z * string) :=
  [(0, "a"); (1, "b"); (2, "a"); (3, "a"); (4, "b")]%Z.

