(* ===== verification/HttpMoves.v ===== *)
(** A request moves the adapter's world only by calls of its ports: if every port call moves
    the world along an order [R], so does every handler, whatever the request.  A class per
    port says that its calls do; [HttpSqlite] discharges them. *)

From Stdlib Require Import ZArith Lia Ascii.
From stdpp Require Import base gmap strings list.
From S2P Require Import Prelude Model Ports TokenSvc PermissionSvc DeviceSvc LoginSvc.
From S2P Require Import HttpBase HttpSession HttpTokens HttpLogin.
From S2P Require Import AdminBase AdminPages HttpServer.

(** A call that leaves the store alone: it may read the clock and draw UUIDs. *)
Definition aside {E S A} (m : M E S A) : Prop := ∀ w,
  st (m w).2 = st w ∧ ticks w ≤ ticks (m w).2 ∧ draws w ≤ draws (m w).2.

Lemma aside_evolves {E S A} (R : World S → World S → Prop) `{!WorldOrder R} (m : M E S A) :
  aside m → evolves R m.
Proof. intros Hm w. destruct (Hm w) as (? & ? & ?). by apply world_order_same. Qed.

Lemma aside_ret {E S A} (a : A) : aside (ret a : M E S A).
Proof. by intros w. Qed.
Lemma aside_throw {E S A} (e : E) : aside (throw e : M E S A).
Proof. by intros w. Qed.
Lemma aside_lift {E S A} (r : result E A) : aside (lift r : M E S A).
Proof. by intros w. Qed.
Lemma aside_bind {E S A B} (m : M E S A) (k : A → M E S B) :
  aside m → (∀ a, aside (k a)) → aside (bind m k).
Proof.
  intros Hm Hk w. unfold bind. destruct (Hm w) as (? & ? & ?). destruct (m w) as [[a|e] w1]; [|done].
  destruct (Hk a w1) as (? & ? & ?). simpl in *. split_and!; [congruence|lia|lia].
Qed.
Lemma aside_map_err {E E' S A} (f : E → E') (m : M E S A) : aside m → aside (map_err f m).
Proof. intros Hm w. unfold map_err. specialize (Hm w). by destruct (m w) as [[] ?]. Qed.
Lemma aside_now `{Env} {E S} : aside (system_now : M E S Z).
Proof. intros w. simpl. split_and!; lia || done. Qed.
Lemma aside_uuid `{Env} {E S} : aside (uuid_v4 : M E S string).
Proof. intros w. simpl. split_and!; lia || done. Qed.
Ltac stand_aside :=
  repeat first
    [ apply aside_ret | apply aside_throw | apply aside_lift | apply aside_now | apply aside_uuid
    | apply aside_map_err | apply aside_bind; [|intros] | case_match ].

Section Ports.
Context {S : Type} (R : World S → World S → Prop).

Class AccountQueryMoves (p : AccountQuery S) : Prop := {
  moves_user_by_id : ∀ id, evolves R (user_by_id p id);
  moves_list_users : ∀ f, evolves R (list_users p f)
}.

Class AccountsMove (p : AccountDirectory S) : Prop := {
  moves_resolve_login : ∀ req, evolves R (resolve_login p req);
  moves_principal_by_user_id : ∀ id, evolves R (principal_by_user_id p id);
  moves_principal_by_jti : ∀ jti, evolves R (principal_by_authn_token_jti p jti)
}.

Class AccountWritesMove (p : AccountDirectory S) : Prop := {
  moves_add_user : ∀ input, evolves R (add_user p input);
  moves_add_invitation : ∀ input, evolves R (add_invitation p input);
  moves_disable_user : ∀ user, evolves R (disable_user p user)
}.

Class AuthzMoves (p : AuthorizationPolicy S) : Prop := {
  moves_can_access : ∀ u r a, evolves R (can_access p u r a);
  moves_list_accessible : ∀ u f, evolves R (list_accessible p u f)
}.

Class ResourceQueryMoves (p : ResourceQuery S) : Prop := {
  moves_get_by_id : ∀ id, evolves R (get_by_id p id);
  moves_get_by_resource_id : ∀ id, evolves R (get_by_resource_id p id);
  moves_get_by_name : ∀ name, evolves R (get_by_name p name);
  moves_list_resources : evolves R (list_resources p)
}.

Class ResourcesMove (p : ResourceStore S) : Prop := {
  #[global] moves_resource_query :: ResourceQueryMoves (resource_query p);
  moves_upsert : ∀ r, evolves R (upsert p r);
  moves_delete_resource : ∀ id, evolves R (delete_resource_row p id)
}.

Class DevicesMove (p : DeviceAuthorizationStore S) : Prop := {
  moves_create_device : ∀ input, evolves R (create_device_authorization p input);
  moves_device_by_user_code : ∀ c, evolves R (Ports.device_by_user_code p c);
  moves_device_by_device_code : ∀ c, evolves R (Ports.device_by_device_code p c);
  moves_approve_device : ∀ id u, evolves R (approve_device_authorization p id u);
  moves_consume_device : ∀ id, evolves R (consume_device_authorization p id);
  moves_expire_device : ∀ id, evolves R (expire_device_authorization p id)
}.

Class CodesMove (p : DeviceCodeGenerator S) : Prop := {
  moves_gen_device_code : evolves R (gen_device_code p);
  moves_gen_user_code : evolves R (gen_user_code p)
}.

Class StateMoves (p : StateStore S) : Prop := {
  moves_session_by_nonce : ∀ n, evolves R (get_auth_session_by_nonce p n);
  moves_complete_session : ∀ id u, evolves R (complete_auth_session p id u);
  moves_create_login_state : ∀ i ttl, evolves R (create_login_state p i ttl);
  moves_set_private_state : ∀ s ps, evolves R (set_login_state_private_state p s ps);
  moves_consume_login_state : ∀ s, evolves R (consume_login_state p s);
  moves_create_browser_session : ∀ u ttl, evolves R (create_browser_session p u ttl);
  moves_user_by_session : ∀ s, evolves R (user_by_browser_session p s);
  moves_revoke_session : ∀ s, evolves R (revoke_browser_session p s);
  moves_create_csrf : ∀ s ttl, evolves R (create_csrf_token p s ttl);
  moves_consume_csrf : ∀ s t, evolves R (consume_csrf_token p s t)
}.

Class SignerMoves (p : TokenSigner S) : Prop := {
  moves_sign_authn : ∀ input, evolves R (sign_authn p input);
  moves_sign_authz : ∀ input, evolves R (sign_authz p input);
  moves_verify : ∀ c opts, evolves R (verify p c opts);
  moves_jwks : evolves R (jwks p)
}.

Class LogMoves (p : IssuedTokenLog S) : Prop := {
  moves_record_issued : ∀ t, evolves R (record_issued p t)
}.

Class GroupQueryMoves (p : GroupQuery S) : Prop := {
  moves_list_groups : evolves R (list_groups p);
  moves_list_group_members : ∀ g, evolves R (list_group_members p g);
  moves_list_group_groups : ∀ g, evolves R (list_group_groups p g)
}.

Class GroupAdminMoves (p : GroupAdmin S) : Prop := {
  moves_add_group : ∀ n d, evolves R (add_group p n d);
  moves_add_member : ∀ g u, evolves R (add_group_member p g u);
  moves_remove_member : ∀ g u, evolves R (remove_group_member p g u);
  moves_add_nest : ∀ g m, evolves R (add_group_group p g m);
  moves_remove_nest : ∀ g m, evolves R (remove_group_group p g m)
}.

Class GrantQueryMoves (p : GrantQuery S) : Prop := {
  moves_list_grants : ∀ r, evolves R (list_grants p r);
  moves_evidence : ∀ u r, evolves R (grants_for_user_on_repository p u r)
}.

Class GrantAdminMoves (p : GrantAdmin S) : Prop := {
  moves_add_grant : ∀ t i r o, evolves R (add_grant p t i r o);
  moves_remove_grant : ∀ t i r o, evolves R (remove_grant p t i r o)
}.

Class WritePortsMove (p : AdminWritePorts S) : Prop := {
  #[global] moves_write_accounts :: AccountWritesMove (awp_accounts S p);
  #[global] moves_write_resources :: ResourcesMove (awp_resources S p);
  #[global] moves_write_groups :: GroupAdminMoves (awp_groups S p);
  #[global] moves_write_grants :: GrantAdminMoves (awp_grants S p)
}.

(** An identity provider talks to its issuer, not to the store. *)
Class ProvidersMove (p : IdentityProviderRegistry S) : Prop := {
  moves_begin_auth : ∀ id provider req, idp_get p id = Some provider →
    evolves R (Ports.begin_auth provider req);
  moves_complete_auth : ∀ id provider req, idp_get p id = Some provider →
    evolves R (Ports.complete_auth provider req)
}.

(** The services, by the ports they hold. *)
Class TokensMove (self : TokenService S) : Prop := {
  #[global] moves_token_accounts :: AccountsMove (ts_accounts self);
  #[global] moves_token_resources :: ResourcesMove (ts_resources self);
  #[global] moves_token_authz :: AuthzMoves (ts_authz self);
  #[global] moves_token_signer :: SignerMoves (ts_signer self);
  moves_token_log : ∀ log, ts_log self = Some log → LogMoves log
}.

Class LoginMoves (self : LoginService S) : Prop := {
  #[global] moves_login_idps :: ProvidersMove (lsv_idps self);
  #[global] moves_login_users :: AccountsMove (lsv_users self);
  #[global] moves_login_state :: StateMoves (lsv_state self)
}.

Class DeviceMoves (self : DeviceService S) : Prop := {
  #[global] moves_device_store :: DevicesMove (dsv_devices self);
  #[global] moves_device_resources :: ResourcesMove (dsv_resources self);
  #[global] moves_device_authz :: AuthzMoves (dsv_authz self);
  #[global] moves_device_accounts :: AccountsMove (dsv_accounts self);
  #[global] moves_device_tokens :: TokensMove (dsv_tokens self);
  #[global] moves_device_codes :: CodesMove (dsv_codes self)
}.

(** What the admin pages call, the writes of the administrator apart. *)
Class AdminReadsMove (sv : Services S) : Prop := {
  #[global] moves_resources :: ResourceQueryMoves (sv_resources sv);
  #[global] moves_permissions :: AuthzMoves (ps_authz (sv_permissions sv));
  #[global] moves_accounts :: AccountQueryMoves (sv_accounts sv);
  #[global] moves_groups :: GroupQueryMoves (sv_groups sv);
  #[global] moves_grants :: GrantQueryMoves (sv_grants sv);
  #[global] moves_state :: StateMoves (sv_state sv)
}.

Class ServicesMove (sv : Services S) : Prop := {
  moves_login : ∀ login, sv_login sv = Some login → LoginMoves login;
  #[global] moves_tokens :: TokensMove (sv_tokens sv);
  #[global] moves_admin_reads :: AdminReadsMove sv;
  #[global] moves_writes :: ∀ actor, WritePortsMove (for_actor (sv_admin_writes sv) actor);
  #[global] moves_signer :: SignerMoves (sv_jwks sv);
  moves_device : ∀ device, sv_device sv = Some device → DeviceMoves device
}.
End Ports.

#[export] Hint Resolve moves_user_by_id moves_list_users moves_resolve_login
  moves_principal_by_user_id moves_principal_by_jti moves_add_user moves_add_invitation
  moves_disable_user moves_can_access moves_list_accessible moves_get_by_id
  moves_get_by_resource_id moves_get_by_name moves_list_resources moves_upsert
  moves_delete_resource moves_create_device moves_device_by_user_code moves_device_by_device_code
  moves_approve_device moves_consume_device moves_expire_device moves_gen_device_code
  moves_gen_user_code moves_session_by_nonce moves_complete_session moves_create_login_state
  moves_set_private_state moves_consume_login_state moves_create_browser_session
  moves_user_by_session moves_revoke_session moves_create_csrf moves_consume_csrf
  moves_sign_authn moves_sign_authz moves_verify moves_jwks moves_record_issued moves_list_groups
  moves_list_group_members moves_list_group_groups moves_add_group moves_add_member
  moves_remove_member moves_add_nest moves_remove_nest moves_list_grants moves_evidence
  moves_add_grant moves_remove_grant : handler.

(** * Services *)

Section Services.
Context `{Env} {S : Type} (R : World S → World S → Prop) `{!WorldOrder R}.

Lemma moves_exchange_resource (self : TokenService S) `{!TokensMove R self} user_id id :
  evolves R (exchange_resource self user_id id).
Proof. unfold exchange_resource. evolve. Qed.

Lemma moves_record (self : TokenService S) `{!TokensMove R self} signed user_id kind role :
  evolves R (record self signed user_id kind role).
Proof.
  unfold record. destruct (ts_log self) as [log|] eqn:Hlog; [|evolve].
  pose proof (moves_token_log R log Hlog). evolve.
Qed.

#[local] Hint Resolve moves_exchange_resource moves_record : handler.

Lemma moves_manual_mint (self : TokenService S) `{!TokensMove R self} user_id repo role ttl :
  evolves R (manual_mint_authz self user_id repo role ttl).
Proof. unfold manual_mint_authz, exchange_authz. evolve. Qed.

Lemma moves_permission_lookup (self : PermissionService S) `{!AuthzMoves R (ps_authz self)} u f :
  evolves R (Permissions.lookup self u f).
Proof. unfold Permissions.lookup. evolve. Qed.

Lemma moves_permission_check (self : PermissionService S) `{!AuthzMoves R (ps_authz self)} u r a :
  evolves R (Permissions.can_access self u r a).
Proof. unfold Permissions.can_access. evolve. Qed.

(** A provider that was looked up is one of the registry. *)
Lemma moves_with_provider {A} (self : LoginService S) id
    (k : IdentityProvider S * IdentityProviderDescriptor → H S A) :
  (∀ id provider d, idp_get (lsv_idps self) id = Some provider → evolves R (k (provider, d))) →
  evolves R (bind (lift (Login.identity_provider self id)) k).
Proof.
  intros Hk w. unfold bind, lift, Login.identity_provider.
  destruct (is_empty (if is_empty id then _ else id)); [apply wo_refl|].
  destruct (idp_get _ _) as [provider|] eqn:Hget; [|apply wo_refl]. by eapply Hk.
Qed.

Lemma moves_login_begin (self : LoginService S) `{!LoginMoves R self} id req :
  evolves R (Login.begin_auth self id req).
Proof. apply moves_with_provider. intros. by eapply moves_begin_auth; [typeclasses eauto|]. Qed.

Lemma moves_login_complete (self : LoginService S) `{!LoginMoves R self} id req nonce :
  evolves R (Login.complete_auth self id req nonce).
Proof.
  apply moves_with_provider. intros id' provider d Hget. unfold Login.finish_login.
  pose proof (moves_complete_auth R id' provider req Hget). evolve.
Qed.

Lemma moves_ensure_pending (self : DeviceService S) `{!DeviceMoves R self} device :
  evolves R (Device.ensure_pending self device).
Proof. unfold Device.ensure_pending. evolve. Qed.

Lemma moves_repository_for_device (self : DeviceService S) `{!DeviceMoves R self} device :
  evolves R (Device.repository_for_device self device).
Proof. unfold Device.repository_for_device. evolve. Qed.

#[local] Hint Resolve moves_manual_mint moves_ensure_pending moves_repository_for_device : handler.

Lemma moves_device_preview (self : DeviceService S) `{!DeviceMoves R self} code :
  evolves R (Device.preview self code).
Proof. unfold Device.preview, Device.device_by_user_code. evolve. Qed.

Lemma moves_device_approve (self : DeviceService S) `{!DeviceMoves R self} user_id code :
  evolves R (Device.approve self user_id code).
Proof. unfold Device.approve, Device.device_by_user_code. evolve. Qed.

Lemma moves_device_start (self : DeviceService S) `{!DeviceMoves R self} remote_url repo :
  evolves R (Device.start self remote_url repo).
Proof. unfold Device.start. evolve. Qed.

Lemma moves_device_token (self : DeviceService S) `{!DeviceMoves R self} code :
  evolves R (Device.token self code).
Proof. unfold Device.token, Device.device_by_device_code, Device.redeem. evolve. Qed.
End Services.

#[export] Hint Resolve moves_manual_mint moves_permission_lookup moves_permission_check
  moves_login_begin moves_login_complete moves_device_preview moves_device_approve
  moves_device_start moves_device_token : handler.

(** * Admin pages *)

Section Pages.
Context `{Env} `{HttpLib} `{AdminLib} {S : Type} (R : World S → World S → Prop) `{!WorldOrder R}.
Context (state : AppState S) `{!AdminReadsMove R (app_services state)}.

Lemma moves_session (headers : HeaderMap) (store : StateStore S) `{!StateMoves R store} :
  evolves R (current_browser_session store headers).
Proof. unfold current_browser_session. evolve. Qed.

#[local] Hint Resolve moves_session : handler.

Lemma moves_session_or none headers : evolves R (session_or state none headers).
Proof. unfold session_or. evolve. Qed.

Lemma moves_current_user headers : evolves R (current_user state headers).
Proof. unfold current_user. evolve. Qed.

Lemma moves_spend_csrf session_id csrf : evolves R (spend_csrf state session_id csrf).
Proof. unfold spend_csrf. evolve. Qed.

Lemma moves_require_admin request : evolves R (require_admin state request).
Proof. unfold require_admin. evolve. Qed.

Lemma moves_create_admin_csrf session : evolves R (create_admin_csrf state session).
Proof. unfold create_admin_csrf. evolve. Qed.

Lemma moves_require_admin_csrf session token : evolves R (require_admin_csrf state session token).
Proof. unfold require_admin_csrf. evolve. Qed.

#[local] Hint Resolve moves_session_or moves_current_user moves_spend_csrf moves_require_admin
  moves_create_admin_csrf moves_require_admin_csrf : handler.

Lemma moves_users_page headers session query flash :
  evolves R (render_users_page state headers session query flash).
Proof. unfold render_users_page, user_rows. evolve. Qed.

Lemma moves_group_rows query groups rows : evolves R (group_rows_loop state query groups rows).
Proof. revert rows. induction groups as [|g groups IH]; intros rows; simpl; unfold group_row; evolve. Qed.

Lemma moves_repository_rows query resources rows :
  evolves R (repository_rows_loop state query resources rows).
Proof. revert rows. induction resources as [|r resources IH]; intros rows; simpl; evolve. Qed.

#[local] Hint Resolve moves_group_rows moves_repository_rows : handler.

Lemma moves_groups_page headers session query flash :
  evolves R (render_groups_page state headers session query flash).
Proof. unfold render_groups_page, group_rows. evolve. Qed.

Lemma moves_repositories_page headers session query flash :
  evolves R (render_repositories_page state headers session query flash).
Proof. unfold render_repositories_page, repository_rows. evolve. Qed.

Lemma moves_resolve_user value : evolves R (resolve_simulator_user state value).
Proof. unfold resolve_simulator_user. evolve. Qed.

Lemma moves_resolve_resource value : evolves R (resolve_simulator_resource_id state value).
Proof. unfold resolve_simulator_resource_id. evolve. Qed.

#[local] Hint Resolve moves_resolve_user moves_resolve_resource : handler.

Lemma moves_simulator_result form lang : evolves R (simulator_result state form lang).
Proof. unfold simulator_result, simulate. evolve. Qed.

#[local] Hint Resolve moves_users_page moves_groups_page moves_repositories_page
  moves_simulator_result : handler.

Lemma moves_disable_checked session id `{!WritePortsMove R (writes_of state session)} : evolves R (disable_checked state session id).
Proof. unfold disable_checked, validate_admin_disable_target. evolve. Qed.

End Pages.

#[export] Hint Resolve moves_session moves_session_or moves_current_user moves_spend_csrf
  moves_require_admin moves_create_admin_csrf moves_require_admin_csrf moves_users_page
  moves_group_rows moves_repository_rows moves_groups_page moves_repositories_page
  moves_resolve_user moves_resolve_resource moves_simulator_result moves_disable_checked : handler.

(** * Handlers *)

Section Handlers.
Context `{Env} `{HttpLib} `{AdminLib} {S : Type} (R : World S → World S → Prop) `{!WorldOrder R}.
Context (state : AppState S) `{!ServicesMove R (app_services state)}.

Lemma moves_with_form {F} (decode : gmap string string → F) (h : F → Request → Handler S) request :
  (∀ form, evolves R (h form request)) → evolves R (with_form decode h request).
Proof. intros Hh. unfold with_form. evolve. Qed.

Lemma moves_admin htmx pico endpoint request :
  evolves R (admin_handler htmx pico state endpoint request).
Proof.
  destruct endpoint; simpl; try (apply moves_with_form; intros form).
  all: unfold handle_dashboard, handle_repositories, handle_repository_add,
    handle_repository_disable, handle_grant_add, handle_grant_remove, mutate_grant, handle_users,
    handle_user_add, handle_user_invite, handle_user_disable, handle_user_access, handle_groups,
    handle_group_add, handle_group_member_add, handle_group_member_remove, mutate_group_member,
    handle_group_nest_add, handle_group_nest_remove, mutate_group_nest, handle_simulator,
    handle_simulator_check, handle_static, group_rows, user_rows, repository_rows; evolve.
  apply evolves_attempt. apply evolves_map_ok. evolve.
Qed.

(** A service that is not configured answers for itself. *)
Lemma moves_configured {A} (service : option A) missing (k : A → Handler S) :
  (∀ a, service = Some a → evolves R (k a)) → evolves R (bind (ok_or service missing) k).
Proof. intros Hk w. destruct service as [a|]; [by apply Hk|apply wo_refl]. Qed.

Lemma moves_choose_provider login request nonce :
  evolves R (choose_provider login request nonce).
Proof. unfold choose_provider. evolve. Qed.

#[local] Hint Resolve moves_choose_provider : handler.

(** A handler moves the world as the calls of its ports do. *)
Lemma moves_handler htmx pico endpoint request :
  evolves R (handler htmx pico state endpoint request).
Proof.
  destruct endpoint; simpl.
  all: unfold handle_jwks, handle_healthz, handle_index, handle_login, handle_login_session,
    handle_auth_start, handle_auth_callback, handle_whoami, handle_me, handle_session_csrf,
    handle_logout, handle_token_page, handle_token_mint, handle_device_page, handle_device_approve,
    handle_device_start, handle_device_token, user_or_401, random_url_token, guard_middleware.
  all: try (apply moves_configured; intros service Hservice;
    idtac). all: try (match goal with H : sv_login _ = Some _ |- _ => pose proof (moves_login R _ H) | H : sv_device _ = Some _ |- _ => pose proof (moves_device R _ H) end).
  all: evolve. apply moves_admin.
Qed.

(** So does a request through the layers of the server, and any sequence of them. *)
Lemma moves_serve htmx pico now peer_key endpoint request buckets w :
  R w (serve htmx pico state now peer_key endpoint request (buckets, w)).2.2.
Proof.
  unfold serve, respond. destruct (rate_limit_public _ _ _ _) as [[] buckets']; [|apply wo_refl].
  pose proof (moves_handler htmx pico endpoint request w) as Hm.
  by destruct (handler _ _ _ _ _ w) as [[]].
Qed.

Lemma moves_serves htmx pico arrivals buckets w :
  R w (serves htmx pico state arrivals (buckets, w)).2.2.
Proof.
  revert buckets w. induction arrivals as [|[[now peer_key] [endpoint request]] arrivals IH];
    intros buckets w; [apply wo_refl|]. cbn [serves].
  pose proof (moves_serve htmx pico now peer_key endpoint request buckets w) as Hm.
  destruct (serve _ _ _ _ _ _ _ _) as [response [buckets' w']]. specialize (IH buckets' w').
  destruct (serves _ _ _ _ _) as [responses server]. simpl in *. by eapply wo_trans.
Qed.
End Handlers.

(** ** Every call moves the world somehow *)

Definition anyhow {S} (w w' : World S) : Prop := True.

Section Somehow.
Context {S : Type}.
Implicit Types (sv : Services S).

#[export] Instance anyhow_order : WorldOrder (anyhow (S := S)).
Proof. by split. Qed.

#[local] Instance anyhow_accounts p : AccountsMove (S := S) anyhow p.
Proof. by split. Qed.
#[local] Instance anyhow_resources p : ResourcesMove (S := S) anyhow p.
Proof. by split. Qed.
#[local] Instance anyhow_tokens self : TokensMove (S := S) anyhow self.
Proof. split; intros; by repeat split. Qed.

#[export] Instance anyhow_services sv : ServicesMove anyhow sv.
Proof. split; intros; repeat split; try typeclasses eauto. Qed.
End Somehow.
