(* ===== verification/HttpSqlite.v ===== *)
(** The server on SQLite: its requests move the database only by calls of the adapter, so what
    every call keeps, every sequence of requests keeps. *)

From Stdlib Require Import ZArith Lia Ascii.
From stdpp Require Import base gmap strings list.
From S2P Require Import Prelude Model Ports TokenSvc PermissionSvc DeviceSvc LoginSvc.
From S2P Require Import SqlRows SqlBase SqlAuthz SqlAccounts SqlGroups SqlGrants SqlTokens.
From S2P Require Import SqlSessions SqlAudited SqlStore.
From S2P Require Import Rs256 Oidc HttpBase HttpSession Config IdpRegistry ServiceGraph AdminBase HttpServer.
From S2P Require Import SqlKeep HttpMoves.

(** ** The providers of a configuration *)

Section Registered.
Context `{Env} `{ConfigLib}.
Context (discover : string → IdentityProviderConfig → string → option (IdentityProvider Db)).

(** A provider of the registry was discovered for an entry of the configuration and its secret. *)
Definition configured (cfg : Config) (provider : IdentityProvider Db) : Prop :=
  ∃ id provider_cfg secret,
    ips_providers (cfg_identity_providers cfg) !! id = Some provider_cfg
    ∧ read_secret_file (ipc_client_secret_file provider_cfg) = Ok secret ∧ secret ≠ ""
    ∧ discover id provider_cfg secret = Some provider.

Lemma btree_iter_lookup {A} (m : gmap string A) id value : (id, value) ∈ btree_iter m → m !! id = Some value.
Proof.
  unfold btree_iter. rewrite elem_of_sort_by. apply elem_of_map_to_list.
Qed.

Lemma registered cfg registry entry registry' :
  map_Forall (λ _, configured cfg) (Registry.by_id registry) →
  ips_providers (cfg_identity_providers cfg) !! entry.1 = Some entry.2 →
  register_provider discover (Some registry) entry = Some registry' →
  map_Forall (λ _, configured cfg) (Registry.by_id registry').
Proof.
  unfold register_provider, Registry.register. simpl. intros Hr Hentry Hreg.
  destruct (negb _); [done|]. destruct (read_secret_file _) as [secret|] eqn:Hread; [|done].
  simpl in Hreg. destruct (is_empty secret) eqn:He; [done|].
  destruct (discover _ _ _) as [provider|] eqn:Hd; [|done].
  simpl in Hreg. destruct (is_empty (ipd_id _)); [done|]. destruct (Registry.by_id registry !! _); [done|].
  injection Hreg as <-. apply map_Forall_insert_2; [|done].
  exists entry.1, entry.2, secret. split_and!; [done|done|by intros ->|done].
Qed.

Lemma registry_built cfg registry :
  build_identity_providers discover cfg = Some registry →
  map_Forall (λ _, configured cfg) (Registry.by_id registry).
Proof.
  unfold build_identity_providers.
  assert (∀ entries start,
    (∀ entry, entry ∈ entries → ips_providers (cfg_identity_providers cfg) !! entry.1 = Some entry.2) →
    (∀ r, start = Some r → map_Forall (λ _, configured cfg) (Registry.by_id r)) →
    foldl (register_provider discover) start entries = Some registry →
    map_Forall (λ _, configured cfg) (Registry.by_id registry)) as Hf.
  { intros entries. induction entries as [|entry entries IH]; simpl; intros start Hin Hstart; [apply Hstart|].
    apply IH; [intros; apply Hin; by right|].
    intros r Hr. destruct start as [start|]; [|discriminate Hr].
    eapply registered; [by apply Hstart|apply Hin; by left|exact Hr]. }
  apply Hf; [|intros r [= <-]; apply map_Forall_empty].
  intros [id value] Hin. by apply btree_iter_lookup.
Qed.
End Registered.

(** ** Reads *)

Section Reads.
Context `{Env} `{Sqlite} `{SerdeJson} `{AuthzCore} (R : World Db → World Db → Prop) `{!WorldOrder R}.

#[export] Instance sqlite_account_query_moves : AccountQueryMoves R SqlAccounts.sqlite_account_query.
Proof.
  split; intros; simpl.
  - unfold SqlAccounts.user_by_id, SqlAccounts.user_by_id_conn, query_row. evolve.
  - unfold SqlAccounts.list_users. evolve.
Qed.

Lemma moves_user_row user_id : evolves R (SqlAccounts.user_by_id_conn user_id).
Proof. unfold SqlAccounts.user_by_id_conn, query_row. evolve. Qed.

Lemma moves_group_names user_id : evolves R (SqlAccounts.group_names_conn user_id).
Proof. unfold SqlAccounts.group_names_conn. evolve. Qed.

Lemma moves_repository_row name : evolves R (SqlGrants.repository_id_by_name_conn name).
Proof. unfold SqlGrants.repository_id_by_name_conn, query_row. evolve. Qed.

Lemma moves_group_row name : evolves R (SqlGroups.group_id_by_name_or_id_conn name).
Proof. unfold SqlGroups.group_id_by_name_or_id_conn, query_row. evolve. Qed.

Lemma moves_session_clause clause : evolves R (SqlState.auth_session_by_clause clause).
Proof. unfold SqlState.auth_session_by_clause, query_row. evolve. Qed.

#[local] Hint Resolve moves_user_row moves_group_names moves_repository_row moves_group_row
  moves_session_clause : handler.
#[export] Instance sqlite_resource_query_moves : ResourceQueryMoves R SqlResources.sqlite_resource_query.
Proof.
  split; intros; simpl.
  - unfold SqlResources.get_by_id, query_row. evolve.
  - unfold SqlResources.get_by_resource_id, query_row. evolve.
  - unfold SqlResources.get_by_name, query_row. evolve.
  - unfold SqlResources.list_resources. evolve.
Qed.
#[export] Instance sqlite_group_query_moves : GroupQueryMoves R SqlGroups.sqlite_group_query.
Proof.
  split; intros; simpl.
  - unfold SqlGroups.list_groups. evolve.
  - unfold SqlGroups.list_group_members. evolve.
  - unfold SqlGroups.list_group_groups. evolve.
Qed.

#[export] Instance sqlite_grant_query_moves : GrantQueryMoves R SqlGrants.sqlite_grant_query.
Proof.
  split; intros; simpl.
  - unfold SqlGrants.list_grants. evolve.
  - unfold SqlGrants.grants_for_user_on_repository, SqlGrants.repository_id_by_resource_conn,
      SqlGrants.user_label_conn, query_row. evolve.
Qed.

Lemma moves_check_any snapshot policy resource_id user_id relations :
  evolves R (Rebac.check_any_relation_with_resolver policy snapshot resource_id user_id relations).
Proof.
  induction relations as [|relation relations IH]; simpl; unfold Rebac.check_allowed_with_resolver; evolve.
Qed.

Lemma moves_permissions_of policy snapshot user_id resource_ids :
  evolves R (Rebac.list_resources policy snapshot user_id resource_ids).
Proof.
  induction resource_ids as [|id ids IH]; simpl;
    unfold Rebac.resource_permissions_with_resolver, Rebac.check_allowed_with_resolver; evolve.
Qed.

#[local] Hint Resolve moves_check_any moves_permissions_of : handler.

#[export] Instance rebac_authz_moves policy : AuthzMoves R (Rebac.rebac_authz policy).
Proof.
  split; intros; simpl.
  - unfold Rebac.can_access, Rebac.can_access_snapshot. evolve.
  - unfold Rebac.list_accessible, Rebac.list_accessible_snapshot. evolve.
Qed.

#[export] Instance device_codes_moves : CodesMove R device_codes.
Proof.
  split; simpl; unfold UuidDeviceCodeGenerator.device_code, UuidDeviceCodeGenerator.user_code; evolve.
Qed.

Lemma moves_principal_id user_id : evolves R (SqlAccounts.principal_by_user_id user_id).
Proof. unfold SqlAccounts.principal_by_user_id. evolve. Qed.

Lemma moves_principal_jti jti : evolves R (SqlAccounts.principal_by_authn_token_jti jti).
Proof. unfold SqlAccounts.principal_by_authn_token_jti. evolve. Qed.
End Reads.

#[export] Hint Resolve moves_principal_id moves_principal_jti : handler.

(** ** Calls of the device and state stores *)

Section Sessions.
Context `{Env} `{Sqlite} `{SerdeJson} (R : World Db → World Db → Prop) `{!WorldOrder R}.
Hypothesis Hsession : ∀ op, session_call op → evolves R (run_sql op).

(** A call that [run_sql] runs, its answer dropped. *)
Ltac session_move op :=
  let Hop := fresh in pose proof (Hsession op I) as Hop; simpl in Hop; unfold dropped, silently in Hop;
  rewrite ?evolves_map_ok in Hop by done; exact Hop.

Lemma sqlite_devices_move : DevicesMove R SqlDevices.sqlite_devices.
Proof.
  split; intros; simpl.
  - session_move (SCreateDevice input).
  - session_move (SDeviceByUserCode c).
  - session_move (SDeviceByDeviceCode c).
  - session_move (SApproveDevice id u).
  - session_move (SConsumeDevice id).
  - session_move (SExpireDevice id).
Qed.

Lemma sqlite_state_moves : StateMoves R SqlState.sqlite_state.
Proof.
  split; intros; simpl.
  - session_move (SSessionByNonce n).
  - session_move (SCompleteSession id u).
  - session_move (SCreateLoginState i ttl).
  - session_move (SSetPrivateState s ps).
  - session_move (SConsumeLoginState s).
  - session_move (SCreateBrowserSession u ttl).
  - session_move (SUserByBrowserSession s).
  - session_move (SRevokeBrowserSession s).
  - session_move (SCreateCsrf s ttl).
  - session_move (SConsumeCsrf s t).
Qed.
End Sessions.

(** ** Calls of the audited store *)

Section Audited.
Context `{Env} `{Sqlite} `{SerdeJson} (R : World Db → World Db → Prop) `{!WorldOrder R} (actor : string).
Hypothesis Haudited : ∀ op, evolves R (run_audited actor op).

Ltac audited_move op :=
  let Hop := fresh in pose proof (Haudited op) as Hop; simpl in Hop; unfold silently in Hop;
  rewrite ?evolves_map_ok in Hop by done; exact Hop.

#[local] Instance audited_accounts_move : AccountWritesMove R (SqlAudited.audited_accounts actor).
Proof.
  split; intros; simpl.
  - audited_move (DAddUser input).
  - audited_move (DAddInvitation input).
  - audited_move (DDisableUser user).
Qed.

#[local] Instance audited_resources_move : ResourcesMove R (SqlAudited.audited_resources actor).
Proof.
  split; intros; simpl.
  - typeclasses eauto.
  - audited_move (DUpsert r).
  - audited_move (DDelete id).
Qed.

#[local] Instance audited_groups_move : GroupAdminMoves R (SqlAudited.audited_group_admin actor).
Proof.
  split; intros; simpl.
  - audited_move (DAddGroup n d).
  - audited_move (DAddGroupMember g u).
  - audited_move (DRemoveGroupMember g u).
  - audited_move (DAddGroupGroup g m).
  - audited_move (DRemoveGroupGroup g m).
Qed.

#[local] Instance audited_grants_move : GrantAdminMoves R (SqlAudited.audited_grant_admin actor).
Proof.
  split; intros; simpl.
  - audited_move (DAddGrant t i r o).
  - audited_move (DRemoveGrant t i r o).
Qed.

Lemma audited_writes_move :
  WritePortsMove R (for_actor SqlAudited.audited_store_factory actor).
Proof. split; simpl; typeclasses eauto. Qed.
End Audited.

(** ** Every call *)

Section Calls.
Context `{Env} `{Sqlite} `{SerdeJson} `{AuthzCore} (R : World Db → World Db → Prop) `{!WorldOrder R}.
Hypothesis Hcall : ∀ op, evolves R (run_sql op).

Ltac call op :=
  let Hop := fresh in pose proof (Hcall op) as Hop; simpl in Hop; unfold dropped, silently in Hop;
  rewrite ?evolves_map_ok in Hop by done; exact Hop.

#[local] Instance state_calls_move : StateMoves R SqlState.sqlite_state.
Proof. by apply sqlite_state_moves. Qed.

#[local] Instance device_calls_move : DevicesMove R SqlDevices.sqlite_devices.
Proof. by apply sqlite_devices_move. Qed.

Lemma audited_calls_move actor op : evolves R (run_audited actor op).
Proof.
  pose proof (Hcall (SStore (DAudited actor op))) as Hop. simpl in Hop. unfold dropped in Hop.
  by rewrite evolves_map_ok in Hop.
Qed.

#[local] Instance write_calls_move actor :
  WritePortsMove R (for_actor SqlAudited.audited_store_factory actor).
Proof. apply audited_writes_move; [done|apply audited_calls_move]. Qed.

#[local] Instance sqlite_accounts_move : AccountsMove R SqlAccounts.sqlite_accounts.
Proof.
  split; intros; simpl; [call (SStore (DResolveLogin req))|by apply moves_principal_id|by apply moves_principal_jti].
Qed.

#[local] Instance sqlite_resources_move : ResourcesMove R SqlResources.sqlite_resources.
Proof.
  split; intros; simpl.
  - typeclasses eauto.
  - call (SStore (DPlain (DUpsert r))).
  - call (SStore (DPlain (DDelete id))).
Qed.

#[local] Instance sqlite_log_moves : LogMoves R SqlTokens.sqlite_issued_log.
Proof. split; intros; simpl. call (SStore (DRecordIssued t)). Qed.

(** ** The services of production *)

#[local] Instance sqlite_tokens_move cfg signer policy :
  SignerMoves R signer →
  TokensMove R (mkTokenService cfg SqlAccounts.sqlite_accounts SqlResources.sqlite_resources
    (Rebac.rebac_authz policy) signer (Some SqlTokens.sqlite_issued_log)).
Proof. split; simpl; try typeclasses eauto. intros log [= <-]. typeclasses eauto. Qed.

Definition provider_moves (provider : IdentityProvider Db) : Prop :=
  ∀ req req', evolves R (Ports.begin_auth provider req) ∧ evolves R (Ports.complete_auth provider req').

Context `{HttpLib} `{ConfigLib}
  (discover : string → IdentityProviderConfig → string → option (IdentityProvider Db)).
Hypothesis discovered_moves : ∀ id provider_cfg secret provider,
  discover id provider_cfg secret = Some provider → provider_moves provider.

Lemma registry_providers_move cfg registry :
  build_identity_providers discover cfg = Some registry → ProvidersMove R (Registry.registry registry).
Proof.
  intros Hr%registry_built. split; intros id provider req Hget;
    destruct (Hr id provider Hget) as (id' & pcfg & secret & _ & _ & _ & Hd).
  - apply (discovered_moves _ _ _ _ Hd req default_CompleteAuthRequest).
  - apply (discovered_moves _ _ _ _ Hd default_BeginAuthRequest req).
Qed.

Lemma graph_moves signer cfg graph :
  SignerMoves R signer → build_graph discover signer cfg = Some graph →
  ServicesMove R (app_services (http_state graph)).
Proof.
  unfold build_graph. intros Hs Hg.
  apply bind_Some in Hg as (registry & Hreg & Hg).
  pose proof (registry_providers_move cfg registry Hreg).
  repeat (apply bind_Some in Hg as (? & ? & Hg)). injection Hg as <-.
  split; simpl; try typeclasses eauto.
  - intros login [= <-]. split; simpl; typeclasses eauto.
  - split; simpl; typeclasses eauto.
  - intros device [= <-]. split; simpl; typeclasses eauto.
Qed.
End Calls.

(** ** What stands beside the store *)

Section Server.
Context `{Env} `{Sqlite} `{SerdeJson} `{AuthzCore} `{HttpLib} `{AdminLib} `{ConfigLib}.
Context (discover : string → IdentityProviderConfig → string → option (IdentityProvider Db)).
Context (signer : TokenSigner Db).

(** The signer and the identity providers do not hold the store. *)
Class BesideStore : Prop := {
  beside_sign_authn : ∀ input, aside (sign_authn signer input);
  beside_sign_authz : ∀ input, aside (sign_authz signer input);
  beside_verify : ∀ compact opts, aside (verify signer compact opts);
  beside_jwks : aside (jwks signer);
  beside_begin : ∀ id provider_cfg secret provider req,
    discover id provider_cfg secret = Some provider → aside (Ports.begin_auth provider req);
  beside_complete : ∀ id provider_cfg secret provider req,
    discover id provider_cfg secret = Some provider → aside (Ports.complete_auth provider req)
}.
Context `{!BesideStore}.

(** The services of a server that started, along any order of the calls. *)
Lemma started_moves (R : World Db → World Db → Prop) `{!WorldOrder R} cfg graph :
  (∀ op, evolves R (run_sql op)) → build_graph discover signer cfg = Some graph →
  ServicesMove R (app_services (http_state graph)).
Proof.
  intros Hcall Hg. eapply (graph_moves R Hcall discover); [| |done].
  - intros id provider_cfg secret provider Hd req req'.
    split; apply (aside_evolves R); [by eapply beside_begin|by eapply beside_complete].
  - split; intros; apply (aside_evolves R);
      first [apply beside_sign_authn|apply beside_sign_authz|apply beside_verify|apply beside_jwks].
Qed.

Lemma server_moves (R : World Db → World Db → Prop) `{!WorldOrder R} htmx pico cfg graph arrivals
    buckets w :
  (∀ op, evolves R (run_sql op)) → build_graph discover signer cfg = Some graph →
  R w (serves htmx pico (http_state graph) arrivals (buckets, w)).2.2.
Proof.
  intros Hcall Hg. pose proof (started_moves R cfg graph Hcall Hg).
  by apply (moves_serves R).
Qed.
End Server.

(** ** The OIDC providers and the RS256 signer stand beside the store *)

Section Production.
Context `{Env} `{JwtLib} `{OidcLib}.

Lemma rs256_aside (signer : Signer.t) :
  (∀ input, aside (Signer.sign_authn (S := Db) signer input))
  ∧ (∀ input, aside (Signer.sign_authz (S := Db) signer input))
  ∧ (∀ compact opts, aside (Signer.verify (S := Db) signer compact opts))
  ∧ aside (Signer.jwks (S := Db) signer).
Proof.
  unfold Signer.sign_authn, Signer.sign_authz, Signer.sign, Signer.verify, Signer.jwks, Signer.now,
    new_authz_claims, new_authn_claims, map_ok, ok_or, Signer.ensure_jti, default_now.
  split_and!; intros; stand_aside; intros w; simpl; split_and!; lia || done.
Qed.

#[export] Instance production_beside signer :
  BesideStore oidc_discover (Signer.token_signer signer).
Proof.
  destruct (rs256_aside signer) as (? & ? & ? & ?).
  split; try done; intros; simpl; unfold oidc_discover in *; simplify_option_eq;
    unfold Provider.begin_auth, Provider.complete_auth,
      Provider.client, Provider.checked_redirect_url, map_ok, ok_or; stand_aside;
    intros w; simpl; split_and!; lia || done.
Qed.
End Production.
