(* ===== verification/HttpDemo.v ===== *)
(** Concrete surroundings for the examples on the HTTP server: plain-text parsers and encoders,
    a configuration that loads, the server started on SQLite from it, and one in memory. *)

From Stdlib Require Import ZArith Lia Ascii.
From stdpp Require Import base gmap strings list.
From S2P Require Import Prelude Model Ports TokenSvc PermissionSvc DeviceSvc LoginSvc GrpcRebac.
From S2P Require Import MemState MemPorts SqlRows SqlBase SqlAuthz SqlStore.
From S2P Require Import HttpBase HttpSession HttpTokens HttpLogin Config IdpRegistry.
From S2P Require Import ServiceGraph AdminBase HttpServer HttpMoves HttpSqlite.
From S2P Require Import Demo Rs256 Rs256Facts Oidc OidcFacts SqlAuthzFacts TokenFacts DeviceFacts.
From S2P Require Import LoginFacts.

(** A network is the address it consists of; an address is the length of its text. *)
#[export] Instance demo_nets : IpNets := {|
  IpNet := IpAddr;
  net_contains net addr := bool_decide (net = addr);
  net_from_str s := Ok (V4 (Z.of_nat (String.length s)));
  net_new addr _ := Ok addr;
  addr_from_str s := Ok (V4 (Z.of_nat (String.length s)))
|}.

Definition demo_pairs (s : string) : list (string * string) :=
  omap (split_once "=") (split "&" s).

(** [scheme://host/path], without ports. *)
Definition demo_url_parse (s : string) : option Url :=
  rest ← after_scheme s;
  scheme ← strip_suffix ("://" +:+ rest) s;
  let '(host, path) := default (rest, "") (split_once "/" rest) in
  Some (mkUrl scheme (Some (Domain host)) (Some host) None ("/" +:+ path)).

Definition demo_field (f : JsonField) : string :=
  match f with JStr s => s | JInt z => show_int z end.

#[export] Instance demo_http : HttpLib := {|
  header_value := Some;
  header_str := Some;
  to_bytes body limit := if (Z.of_nat (String.length body) <=? limit)%Z then Some body else None;
  form_from_bytes body := Some (list_to_map (demo_pairs body));
  form_urlencoded_parse := demo_pairs;
  form_append_pair name value := name +:+ "=" +:+ value;
  utf8_percent_encode s _ := s;
  url_parse := demo_url_parse;
  json_from_slice fields body := Some (split "," body);
  json_to_vec fields := Some (String.concat "," (demo_field ∘ snd <$> fields));
  http_nets := demo_nets
|}.

#[export] Instance demo_admin : AdminLib := {|
  render template := Some "page";
  EN_DICT := {[ "admin.flash.saved" := "Saved"; "admin.flash.error" := "Error" ]};
  JA_DICT := ∅;
  extract_form request := Ok (list_to_map (demo_pairs (req_body request)));
  to_lowercase := to_ascii_lowercase
|}.

(** ** A configuration *)

Definition demo_file : Config :=
  mkConfig (mkServerConfig "" "" "" "" "https://auth.example.org")
    (mkIdentityProvidersConfig (Some "google") {[ "google" :=
       mkIdentityProviderConfig "oidc" "google" "Corp" "https://accounts.google.com" "client" "secret.txt"
         "https://auth.example.org/auth/google/callback" [] "" (mkSubjectConfig "" "") ∅
         (mkTrustConfig "verified_email_invitation" ["example.org"] [] "") ]})
    "" "bridge.db" (mkJwtConfig "https://auth.example.org" ["lore"] 0 "keys" "")
    (mkLoreConfig "lore://lore/game" "")
    (mkSecurityConfig 0 0 0 0 ["10.0.0.0/8"] ["10.0.0.7"]) ["Root@Example.org"; "bob@example.org"].

#[export] Instance demo_config_lib : ConfigLib := {|
  read_to_string path := Some path;
  yaml_from_str raw := if String.eqb raw "bridge.yaml" then Some demo_file else None
|}.

Definition demo_loaded : Config := apply_defaults demo_file.

Example demo_config_loads : load "bridge.yaml" = Ok demo_loaded.
Proof. vm_compute. reflexivity. Qed.

(** ** The server on SQLite *)

(** It signs by RS256 and signs in over OIDC. *)
Definition demo_signer : TokenSigner Db := Signer.token_signer office_signer.
Definition demo_discover : string → IdentityProviderConfig → string → option (IdentityProvider Db) :=
  oidc_discover.

#[local] Existing Instance demo_authz_core.

Definition demo_graph : option ServiceGraph := build_graph demo_discover demo_signer demo_loaded.

Lemma demo_graph_built : is_Some demo_graph.
Proof.
  assert (match demo_graph with Some _ => true | None => false end = true) as Hg
    by (vm_compute; reflexivity).
  destruct demo_graph; [eauto|done].
Qed.

(** ** The server in memory *)

Definition demo_services : Services State :=
  mkServices (Some demo_login) (memory_tokens demo_config) store_resource_query
    (mkPermissionService store_resources store_authz) store_account_query audited_store_factory
    store_group_query store_grant_query store_state store_signer
    (Some (memory_device demo_device_config demo_config)).

Definition demo_http_config : HttpConfig :=
  mkHttpConfig "https://auth" "ucs-auth://auth" "lore://h/game" (from_secs 3600)
    (mkAdminConfig ["ann@example.org"] []).

Definition demo_app : AppState State := mkAppState demo_http_config demo_services.

(** ** Bob, an administrator by the configuration, is signed in *)

(** A test of what the server does, once it has started. *)
Definition on_demo (test : AppState Db → bool) : bool :=
  match demo_graph with Some graph => test (http_state graph) | None => false end.

Lemma on_demo_started test :
  on_demo test = true → ∃ graph, demo_graph = Some graph ∧ test (http_state graph) = true.
Proof. unfold on_demo. destruct demo_graph as [graph|]; [eauto|done]. Qed.

Definition bob_session : string := letters 33.
Definition bob_token : string := letters 37.
Definition bob_next_token : string := letters 41.

Definition bob_world : World Db :=
  (run_sqls [SCreateBrowserSession bob_id (from_secs 3600); SCreateCsrf bob_session (from_secs 600);
             SCreateCsrf bob_session (from_secs 600)] office_world).2.

(** A form that Bob sends. *)
Definition bob_request (path body : string) : Request :=
  mkRequest "POST" path "" "" ∅
    (<["origin" := ["https://auth.example.org"]]> {[ "cookie" := ["lore_auth_session=" +:+ bob_session] ]})
    body (Some (V4 8)).

Definition group_form (token : string) : Request :=
  bob_request "/admin/groups" ("csrf_token=" +:+ token +:+ "&name=crew").

Definition mint_form : Request :=
  bob_request "/tokens/mint" ("csrf_token=" +:+ bob_token +:+ "&repository=game").
