(* ===== verification/HttpText.v ===== *)
(** What the text of pages and cookies guarantees: escaped data carries no markup and can be
    read back, so the tags of every page are fixed by the code; a cookie that the server sets
    is the one it reads. *)

From Stdlib Require Import ZArith Lia Ascii.
From stdpp Require Import base gmap strings list.
From S2P Require Import Prelude Model Ports DeviceSvc LoginSvc.
From S2P Require Import HttpBase HttpSession HttpTokens HttpLogin Demo HttpDemo.

(** * Escaping *)

Lemma flat_bytes_app f a b : flat_bytes f (a +:+ b) = flat_bytes f a +:+ flat_bytes f b.
Proof.
  induction a as [|c a IH]; [done|]. rewrite string_app_cons. simpl.
  by rewrite IH, string_app_assoc.
Qed.

Lemma flat_bytes_comp f g s : flat_bytes f (flat_bytes g s) = flat_bytes (λ c, flat_bytes f (g c)) s.
Proof. induction s as [|c s IH]; [done|]. simpl. by rewrite flat_bytes_app, IH. Qed.

Lemma flat_bytes_ext f g s : (∀ c, f c = g c) → flat_bytes f s = flat_bytes g s.
Proof. intros Hfg. induction s as [|c s IH]; [done|]. simpl. by rewrite Hfg, IH. Qed.

(** The entity of a special character. *)
Definition entity (c : ascii) : string :=
  if Ascii.eqb c "&" then "&amp;"
  else if Ascii.eqb c "<" then "&lt;"
  else if Ascii.eqb c ">" then "&gt;"
  else if Ascii.eqb c DOUBLE_QUOTE then "&quot;"
  else if Ascii.eqb c "'" then "&#39;"
  else String c EmptyString.

(** The five passes of [html_escape] are one pass: no pass sees what another one wrote. *)
Lemma html_escape_entities s : html_escape s = flat_bytes entity s.
Proof.
  unfold html_escape, replace. rewrite !flat_bytes_comp. apply flat_bytes_ext.
  intros [[] [] [] [] [] [] [] []]; reflexivity.
Qed.

Lemma html_escape_app a b : html_escape (a +:+ b) = html_escape a +:+ html_escape b.
Proof. by rewrite !html_escape_entities, flat_bytes_app. Qed.

(** What a browser makes of escaped text: the five entities become characters again. *)
Definition entities : list (string * ascii) :=
  [("amp;", "&"%char); ("lt;", "<"%char); ("gt;", ">"%char); ("quot;", DOUBLE_QUOTE);
   ("#39;", "'"%char)].

Definition decode_entity (rest : string) : option (ascii * string) :=
  list_find (λ e, is_Some (strip_prefix e.1 rest)) entities ≫= λ e,
  rest ← strip_prefix e.2.1 rest; Some (e.2.2, rest).

Fixpoint unescape (fuel : nat) (s : string) : string :=
  match fuel, s with
  | 0, _ | _, EmptyString => s
  | S fuel, String c rest =>
      if Ascii.eqb c "&"
      then match decode_entity rest with
           | Some (d, rest) => String d (unescape fuel rest)
           | None => String c (unescape fuel rest)
           end
      else String c (unescape fuel rest)
  end.

Lemma unescape_entity c fuel s : unescape (S fuel) (entity c +:+ s) = String c (unescape fuel s).
Proof. destruct c as [[] [] [] [] [] [] [] []]; reflexivity. Qed.

Lemma unescape_escape s fuel : String.length s ≤ fuel → unescape fuel (html_escape s) = s.
Proof.
  rewrite html_escape_entities. revert fuel. induction s as [|c s IH]; intros fuel Hf.
  - by destruct fuel.
  - destruct fuel as [|fuel]; [simpl in Hf; lia|]. cbn [flat_bytes].
    rewrite unescape_entity. f_equal. apply IH. simpl in Hf. lia.
Qed.

(** * Markup *)

Definition is_markup (c : ascii) : bool :=
  Ascii.eqb c "<" || Ascii.eqb c ">" || Ascii.eqb c DOUBLE_QUOTE || Ascii.eqb c "'".

(** The characters of a page that can open or close a tag or an attribute value. *)
Definition markup (s : string) : string :=
  flat_bytes (λ c, if is_markup c then String c EmptyString else EmptyString) s.

Lemma markup_app a b : markup (a +:+ b) = markup a +:+ markup b.
Proof. apply flat_bytes_app. Qed.

Lemma markup_escape s : markup (html_escape s) = "".
Proof.
  rewrite html_escape_entities. induction s as [|c s IH]; [done|]. cbn [flat_bytes].
  rewrite markup_app, IH. destruct c as [[] [] [] [] [] [] [] []]; reflexivity.
Qed.

Lemma markup_quoted s : markup s = "" → markup (quoted s) = String DOUBLE_QUOTE (String DOUBLE_QUOTE "").
Proof.
  intros Hs. unfold quoted. change (String DOUBLE_QUOTE (s +:+ String DOUBLE_QUOTE ""))
    with (String DOUBLE_QUOTE "" +:+ (s +:+ String DOUBLE_QUOTE "")).
  by rewrite !markup_app, Hs.
Qed.

Lemma markup_bool b : markup (show_bool b) = "".
Proof. by destruct b. Qed.

(** A loop that appends pieces of the same markup appends it once per piece. *)
Lemma markup_foldl {A} (f : A → string) (m : string) l s :
  (∀ a, markup (f a) = m) →
  markup (foldl (λ body a, body +:+ f a) s l)
  = markup s +:+ Nat.iter (length l) (λ rest, m +:+ rest) "".
Proof.
  intros Hf. revert s. induction l as [|a l IH]; intros s; simpl.
  - by rewrite string_app_nil_r.
  - by rewrite IH, markup_app, Hf, string_app_assoc.
Qed.

Ltac markup := rewrite ?markup_app, ?markup_escape, ?markup_bool,
  ?markup_quoted by first [reflexivity|apply markup_escape].

Lemma markup_token_option repo : markup (token_option repo) = markup (token_option default_Resource).
Proof. unfold token_option. by markup. Qed.

Definition no_provider : IdentityProviderDescriptor :=
  mkIdentityProviderDescriptor "" "" "" "" (mkLoginTrustPolicy "" []).

Section Pages.
Context `{HttpLib}.

Lemma markup_provider_item nonce provider :
  markup (provider_item nonce provider) = markup (provider_item "" no_provider).
Proof. unfold provider_item. by markup. Qed.

(** C26: Escaping leaves no character that is markup in HTML and can be undone, and the markup of
    each page that the server builds itself does not depend on the text of users, repositories,
    tokens, codes or providers shown on it: no data can add an element or leave an attribute. *)
Theorem pages_carry_no_markup_of_data :
  (∀ s, markup (html_escape s) = "" ∧ unescape (String.length s) (html_escape s) = s)
  ∧ (∀ id id', markup (rsp_body (render_whoami id)) = markup (rsp_body (render_whoami id')))
  ∧ (∀ user user' repos repos' csrf csrf', length repos = length repos' →
       markup (token_page_html user repos csrf) = markup (token_page_html user' repos' csrf'))
  ∧ (∀ token auth_url remote_url repo token' auth_url' remote_url' repo',
       markup (token_result_html token auth_url remote_url repo)
       = markup (token_result_html token' auth_url' remote_url' repo'))
  ∧ (∀ code csrf preview code' csrf' preview',
       markup (device_confirm_html code csrf preview)
       = markup (device_confirm_html code' csrf' preview'))
  ∧ (∀ repo repo', markup (device_approved_html repo) = markup (device_approved_html repo'))
  ∧ (∀ providers providers' nonce nonce', length providers = length providers' →
       markup (provider_picker_html providers nonce)
       = markup (provider_picker_html providers' nonce')).
Proof.
  repeat split; intros.
  - apply markup_escape.
  - by apply unescape_escape.
  - unfold render_whoami. simpl rsp_body. by markup.
  - unfold token_page_html. markup.
    rewrite !(markup_foldl token_option _ _ _ markup_token_option). congruence.
  - unfold token_result_html. by markup.
  - unfold device_confirm_html. by markup.
  - unfold device_approved_html. by markup.
  - unfold provider_picker_html. rewrite !markup_app.
    rewrite !(markup_foldl (provider_item _) _ _ _ (markup_provider_item _)). congruence.
Qed.
End Pages.

(** * Cookies *)

(** A byte of a cookie's name or value: visible ASCII, and not the separator of cookies. *)
Definition cookie_byte (c : ascii) : bool := solid c && negb (Ascii.eqb c ";").

Definition cookie_ok (cookie : string * string) : Prop :=
  all_bytes cookie_byte cookie.1 = true ∧ no_byte "=" cookie.1 = true
  ∧ all_bytes cookie_byte cookie.2 = true.

Definition cookie_text (cookie : string * string) : string := cookie.1 +:+ String "=" cookie.2.

(** The [Cookie] header of a browser that holds these cookies. *)
Definition cookie_header (jar : list (string * string)) : string :=
  String.concat "; " (cookie_text <$> jar).

Lemma cookie_text_bytes cookie :
  cookie_ok cookie → all_bytes cookie_byte (cookie_text cookie) = true.
Proof.
  intros (Hn & _ & Hv). unfold cookie_text. rewrite all_bytes_app, Hn. simpl. by rewrite Hv.
Qed.

Lemma cookie_bytes_solid s : all_bytes cookie_byte s = true → all_bytes solid s = true.
Proof. apply all_bytes_impl. intros c [? _]%andb_true_iff. done. Qed.

Lemma cookie_bytes_split s : all_bytes cookie_byte s = true → no_byte ";" s = true.
Proof. apply all_bytes_impl. intros c [_ ?]%andb_true_iff. done. Qed.

(** The parts of the header, the blanks after the separators included. *)
Lemma split_cookie_header cookie jar :
  Forall cookie_ok (cookie :: jar) →
  split ";" (cookie_header (cookie :: jar))
  = cookie_text cookie :: (String " " <$> (cookie_text <$> jar)).
Proof.
  revert cookie. induction jar as [|cookie' jar IH]; intros cookie [Hc Hjar]%Forall_cons.
  - apply split_no_byte, cookie_bytes_split, cookie_text_bytes, Hc.
  - change (cookie_header (cookie :: cookie' :: jar))
      with (cookie_text cookie +:+ String ";" (String " " (cookie_header (cookie' :: jar)))).
    rewrite split_app by by apply cookie_bytes_split, cookie_text_bytes.
    rewrite split_cons, IH by done. done.
Qed.

Lemma cookie_part cookie :
  cookie_ok cookie →
  trim (cookie_text cookie) = cookie_text cookie
  ∧ trim (String " " (cookie_text cookie)) = cookie_text cookie.
Proof.
  intros Hc. pose proof (trim_all_solid _ (cookie_bytes_solid _ (cookie_text_bytes _ Hc))) as Ht.
  split; [done|]. change (trim (cookie_text cookie) = cookie_text cookie). done.
Qed.

Lemma cookie_in_cons part parts cookie name :
  cookie_ok cookie → trim part = cookie_text cookie →
  cookie_in (part :: parts) name
  = if String.eqb cookie.1 name then Some cookie.2 else cookie_in parts name.
Proof.
  intros (_ & Hn & _) Hpart. simpl. rewrite Hpart. unfold cookie_text.
  by rewrite split_once_app by done.
Qed.

(** The first cookie of a name. *)
Fixpoint jar_lookup (jar : list (string * string)) (name : string) : option string :=
  match jar with
  | [] => None
  | cookie :: jar => if String.eqb cookie.1 name then Some cookie.2 else jar_lookup jar name
  end.

Lemma cookie_in_rest jar name :
  Forall cookie_ok jar → cookie_in (String " " <$> (cookie_text <$> jar)) name = jar_lookup jar name.
Proof.
  induction jar as [|cookie jar IH]; [done|]. intros [Hc Hjar]%Forall_cons. rewrite !fmap_cons.
  rewrite (cookie_in_cons _ _ cookie) by (done || apply cookie_part, Hc). by rewrite IH.
Qed.

Lemma cookie_in_header jar name :
  Forall cookie_ok jar → cookie_in (split ";" (cookie_header jar)) name = jar_lookup jar name.
Proof.
  destruct jar as [|cookie jar]; [by destruct name|]. intros Hjar.
  rewrite split_cookie_header by done. apply Forall_cons in Hjar as [Hc Hjar].
  rewrite (cookie_in_cons _ _ cookie) by (done || apply cookie_part, Hc).
  simpl. by rewrite cookie_in_rest.
Qed.

(** What a browser keeps of a [Set-Cookie] value: the pair before the first semicolon. *)
Definition kept_pair (set_cookie : string) : string := default "" (hd_error (split ";" set_cookie)).

Lemma session_cookie_pair value expires_at secure :
  all_bytes cookie_byte value = true →
  kept_pair (session_cookie value expires_at secure) = cookie_text (SESSION_COOKIE_NAME, value).
Proof.
  intros Hv. unfold kept_pair, session_cookie.
  change (?a +:+ "=" +:+ ?b +:+ "; Path=/; HttpOnly; SameSite=Lax; Expires=" +:+ ?c)
    with (a +:+ String "=" (b +:+ String ";" (" Path=/; HttpOnly; SameSite=Lax; Expires=" +:+ c))).
  rewrite <- string_app_cons, <- string_app_assoc, split_app; [done|].
  apply cookie_bytes_split, (cookie_text_bytes (_, _)). done.
Qed.

Lemma jar_lookup_app jar jar' name :
  jar_lookup (jar ++ jar') name = match jar_lookup jar name with
                                  | Some value => Some value
                                  | None => jar_lookup jar' name
                                  end.
Proof. induction jar as [|cookie jar IH]; [done|]. simpl. by destruct (String.eqb _ _). Qed.

Section Cookies.
Context `{HttpLib}.

(** C30: The session cookie that the server sets is read back from the Cookie header of a browser,
    among any other cookies with a name and a value before and after it, of which none before it
    has the same name. *)
Theorem session_cookie_round_trip value expires_at secure jar jar' headers :
  all_bytes cookie_byte value = true → Forall cookie_ok jar → Forall cookie_ok jar' →
  jar_lookup jar SESSION_COOKIE_NAME = None →
  header_text headers "cookie" = Some (String.concat "; "
    ((cookie_text <$> jar) ++ kept_pair (session_cookie value expires_at secure)
       :: (cookie_text <$> jar'))) →
  cookie_value headers SESSION_COOKIE_NAME = Some value.
Proof.
  intros Hv Hjar Hjar' Hnone Hheader. unfold cookie_value. rewrite Hheader. simpl.
  rewrite session_cookie_pair by done.
  change (cookie_text (SESSION_COOKIE_NAME, value) :: (cookie_text <$> jar'))
    with (cookie_text <$> ((SESSION_COOKIE_NAME, value) :: jar')).
  rewrite <- fmap_app. rewrite (cookie_in_header (jar ++ (SESSION_COOKIE_NAME, value) :: jar')).
  - rewrite jar_lookup_app, Hnone. reflexivity.
  - apply Forall_app. split; [done|]. constructor; [|done]. by split_and!.
Qed.
End Cookies.

(** * Examples *)

Lemma pages_carry_no_markup_of_data_witness :
  markup (token_page_html ann [game] "token") = markup (token_page_html default_User [default_Resource] "")
  ∧ markup (provider_picker_html [no_provider] "nonce") = markup (provider_picker_html [no_provider] "").
Proof.
  destruct pages_carry_no_markup_of_data as (_ & _ & Htokens & _ & _ & _ & Hpicker).
  split; [apply Htokens; reflexivity|apply Hpicker; reflexivity].
Defined.

Definition two_cookies : HeaderMap := {[ "cookie" := ["admin_lang=ja; lore_auth_session=abc"] ]}.

Lemma session_cookie_round_trip_witness :
  cookie_value two_cookies SESSION_COOKIE_NAME = Some "abc".
Proof.
  apply (session_cookie_round_trip "abc" 1600 true [("admin_lang", "ja")] []); [reflexivity| |constructor|reflexivity|].
  - repeat constructor.
  - vm_compute. reflexivity.
Defined.

(** A cookie without a name before it hides the session. *)
Example nameless_cookie_hides_session :
  cookie_value {[ "cookie" := ["flag; lore_auth_session=abc"] ]} SESSION_COOKIE_NAME = None.
Proof. vm_compute. reflexivity. Qed.
