(* ===== verification/HttpGuards.v ===== *)
(** What a request must bring before it writes: over any store that keeps the small contract
    [GuardedState], a [POST] of a browser changes nothing unless a session, a CSRF token of it
    and, on the admin pages, an administrator stand behind it. *)

From Stdlib Require Import ZArith Lia Ascii.
From stdpp Require Import base gmap strings list.
From S2P Require Import Prelude Model Ports TokenSvc PermissionSvc DeviceSvc LoginSvc.
From S2P Require Import HttpBase HttpSession HttpTokens HttpLogin.
From S2P Require Import MemState MemSessions MemPorts SqlRows SqlBase SqlSessions SqlStore SqlAtomic.
From S2P Require Import AdminBase AdminPages HttpServer.
From S2P Require Import HttpMoves Demo HttpDemo.

(** Looking up a session writes nothing, and neither does refusing a CSRF token. *)
Class GuardedState {S} (store : StateStore S) : Prop := {
  session_lookup_readonly : ∀ id, readonly (user_by_browser_session store id);
  refused_csrf_keeps : ∀ id token w e w',
    consume_csrf_token store id token w = (Err e, w') → st w' = st w
}.

(** ** Steps before a write *)

Section Steps.
Context {S : Type}.

(** A run that changed the state got past a step that only reads. *)
Lemma past_read {A} (m : M Response S A) (k : A → Handler S) w r w' :
  readonly m → bind m k w = (r, w') → st w' ≠ st w →
  ∃ a w1, m w = (Ok a, w1) ∧ st w1 = st w ∧ k a w1 = (r, w') ∧ st w' ≠ st w1.
Proof.
  intros Hm Hrun Hne. specialize (Hm w). unfold bind in Hrun.
  destruct (m w) as [[a|e] w1]; simpl in *; [|by injection Hrun as <- <-].
  exists a, w1. by rewrite Hm.
Qed.

Lemma past_test (b : bool) (early : Response) (m : Handler S) w r w' :
  (if b then throw early else m) w = (r, w') → st w' ≠ st w → b = false ∧ m w = (r, w').
Proof. destruct b; [|done]. intros [= _ <-]. done. Qed.

Lemma past_lift {A} (r0 : result Response A) (k : A → Handler S) w r w' :
  bind (lift r0) k w = (r, w') → st w' ≠ st w → ∃ a, r0 = Ok a ∧ k a w = (r, w').
Proof. unfold bind, lift. destruct r0 as [a|e]; [eauto|]. intros [= _ <-]. done. Qed.

Lemma past_ok_or {A} (o : option A) (early : Response) (k : A → Handler S) w r w' :
  bind (ok_or o early) k w = (r, w') → st w' ≠ st w → ∃ a, o = Some a ∧ k a w = (r, w').
Proof. unfold bind, ok_or. destruct o as [a|]; [eauto|]. intros [= _ <-]. done. Qed.
End Steps.

Definition post_endpoint (endpoint : AdminEndpoint) : bool :=
  match endpoint with
  | RepositoryAdd | RepositoryDisable | GrantAdd | GrantRemove | UserAdd | UserInvite | UserDisable
  | GroupAdd | GroupMemberAdd | GroupMemberRemove | GroupNestAdd | GroupNestRemove
  | SimulatorCheck => true
  | _ => false
  end.

(** The endpoints that take a browser's form. *)
Definition form_endpoint (endpoint : Endpoint) : bool :=
  match endpoint with
  | Logout | TokenMint | DeviceApprove => true
  | AdminRoute endpoint => post_endpoint endpoint
  | _ => false
  end.

(** Who is signed in is only read. *)
Lemma session_readonly `{HttpLib} {S} (store : StateStore S) `{!GuardedState store} headers :
  readonly (current_browser_session store headers).
Proof.
  intros w. unfold current_browser_session. destruct (cookie_value _ _) as [id|]; [|done].
  destruct (is_empty id); [done|]. unfold bind, attempt.
  pose proof (session_lookup_readonly (store := store) id w) as Hr.
  destruct (user_by_browser_session store id w) as [[user|err] w1]; [done|]. by destruct err.
Qed.

Section Guards.
Context `{Env} `{HttpLib} `{AdminLib} {S : Type} (state : AppState S).
Let store := sv_state (app_services state).
Let cfg := app_cfg state.

(** The CSRF token that a request brings. *)
Definition carries (endpoint : Endpoint) (request : Request) (token : string) : Prop :=
  match endpoint with
  | Logout => csrf_token_from_request (req_headers request) (req_body request) = Ok token
  | TokenMint | DeviceApprove => ∃ form, parse_form_body (req_body request) = Ok form
      ∧ token = default "" (form !! "csrf_token")
  | AdminRoute _ => ∃ form, extract_form request = Ok form ∧ token = field form "csrf_token"
  | _ => False
  end.

Definition is_admin_session (request : Request) (session : HttpSession) : Prop :=
  let user := hs_user session in
  admin_peer_allowed (hc_admin cfg) (req_peer request) = true
  ∧ u_status user = "active" ∧ normalize_email (u_email user) ≠ ""
  ∧ is_admin_email (hc_admin cfg) (normalize_email (u_email user)) = true.

Context `{!GuardedState store}.

Lemma session_or_readonly none headers : readonly (session_or state none headers).
Proof.
  intros w. unfold session_or, bind, map_err. pose proof (session_readonly store headers w) as Hr.
  fold store. destruct (current_browser_session store headers w) as [[[s|]|] w1]; done.
Qed.

Lemma session_or_Ok none headers w session w1 :
  session_or state none headers w = (Ok session, w1) →
  (current_browser_session store headers w).1 = Ok (Some session).
Proof.
  unfold session_or, bind, map_err. fold store.
  destruct (current_browser_session store headers w) as [[[s|]|] w2]; simpl; unfold ret, throw; congruence.
Qed.

Lemma require_admin_readonly request : readonly (require_admin state request).
Proof.
  intros w. unfold require_admin, bind, map_err. pose proof (session_readonly store (req_headers request) w) as Hr.
  fold store. destruct (negb _); [done|]. destruct (negb _); [done|].
  destruct (current_browser_session store _ w) as [[[s|]|] w1]; try done; simpl.
  destruct (negb _); [done|]. by destruct (_ || _).
Qed.

Lemma require_admin_Ok request w session w1 :
  require_admin state request w = (Ok session, w1) →
  (current_browser_session store (req_headers request) w).1 = Ok (Some session)
  ∧ is_admin_session request session.
Proof.
  unfold require_admin, is_admin_session, bind, map_err. fold store cfg.
  destruct (negb (admin_enabled _)); [done|].
  destruct (negb (admin_peer_allowed _ _)) eqn:Hp; [done|]. apply negb_false_iff in Hp.
  destruct (current_browser_session store _ w) as [[[s|]|] w2]; simpl; try done.
  destruct (negb (String.eqb _ _)) eqn:Hs; [done|]. apply negb_false_iff, String.eqb_eq in Hs.
  destruct (_ || _) eqn:He; [done|]. apply orb_false_iff in He as [He1%is_empty_false He2%negb_false_iff].
  intros [= <- _]. done.
Qed.

(** Spending a token: it is the only step of a handler so far that may write. *)
Lemma past_spend (R : World S → World S → Prop) session_id token (k : () → Handler S) w r w' :
  bind (spend_csrf state session_id token) k w = (r, w') → st w' ≠ st w → evolves R (k tt) →
  ∃ w1, consume_csrf_token store session_id token w = (Ok tt, w1) ∧ R w1 w'.
Proof.
  unfold bind, spend_csrf, map_err. fold store. destruct (is_empty token); [by intros [= _ <-]|].
  destruct (consume_csrf_token store session_id token w) as [[[]|e] w1] eqn:Hc.
  - intros Hrun _ Hk. exists w1. split; [done|]. specialize (Hk w1). by rewrite Hrun in Hk.
  - intros [= _ <-] Hne. by apply (refused_csrf_keeps (store := store)) in Hc.
Qed.

Lemma past_admin_csrf (R : World S → World S → Prop) session token (k : () → Handler S) w r w' :
  bind (require_admin_csrf state session token) k w = (r, w') → st w' ≠ st w → evolves R (k tt) →
  ∃ w1, consume_csrf_token store (hs_session_id session) token w = (Ok tt, w1) ∧ R w1 w'.
Proof.
  intros Hrun Hne Hk. apply (past_spend R) with (r := r) (k := k); [|done..].
  revert Hrun. unfold bind, require_admin_csrf, spend_csrf, map_err. fold store.
  destruct (is_empty (trim token)) eqn:Ht; [by intros [= _ <-]|].
  destruct (is_empty token) eqn:He; [|done]. apply is_empty_true in He as ->. discriminate Ht.
Qed.
(** ** Every form *)

(** A request that changed the store, step by step: the session was read, its token was spent
    in the store as the request found it, and only then did the handler write. *)
Definition spends (R : HttpSession → World S → World S → Prop) (endpoint : Endpoint)
    (request : Request) (w w' : World S) : Prop :=
  ∃ session token w0 w1 w2,
    st w0 = st w
    ∧ (current_browser_session store (req_headers request) w0).1 = Ok (Some session)
    ∧ carries endpoint request token
    ∧ st w1 = st w ∧ consume_csrf_token store (hs_session_id session) token w1 = (Ok tt, w2)
    ∧ R session w2 w'
    ∧ match endpoint with
      | AdminRoute _ => is_admin_session request session
      | _ => same_origin cfg (req_headers request) = true
      end.

Section Admin.
Context (R : HttpSession → World S → World S → Prop) `{!∀ session, WorldOrder (R session)}.
Context `{!∀ session, AdminReadsMove (R session) (app_services state)}.
Context `{!∀ session, WritePortsMove (R session) (writes_of state session)}.

(** The shape of every admin form. *)
Lemma admin_form_spends {F} (decode : gmap string string → F) (csrf_of : F → string)
    (h : F → Request → Handler S) (k : F → HttpSession → Handler S) endpoint request w r w' :
  guard_middleware state request (with_form decode h request) w = (r, w') → st w' ≠ st w →
  (∀ f, h f request = bind (require_admin state request) (λ session,
                        bind (require_admin_csrf state session (csrf_of f)) (λ _, k f session))) →
  (∀ form, csrf_of (decode form) = field form "csrf_token") →
  (∀ f session, evolves (R session) (k f session)) →
  spends R (AdminRoute endpoint) request w w'.
Proof.
  intros Hrun Hne Hh Hcsrf Hk. unfold guard_middleware in Hrun.
  apply past_read in Hrun as (session0 & w0 & _ & Hw0 & Hrun & Hne0); [|apply require_admin_readonly|done].
  apply past_lift in Hrun as (form & Hform & Hrun); [|done]. rewrite Hh in Hrun.
  apply past_read in Hrun as (session & w1 & Hadmin & Hw1 & Hrun & Hne1);
    [|apply require_admin_readonly|done].
  apply (past_admin_csrf (R session)) in Hrun as (w2 & Hc & Hmove); [|done|apply Hk]. rewrite Hcsrf in Hc.
  apply require_admin_Ok in Hadmin as [Hsession His].
  exists session, (field form "csrf_token"), w0, w1, w2. split_and!; try done; [by exists form|congruence].
Qed.

Lemma admin_post_spends htmx pico endpoint request w r w' :
  post_endpoint endpoint = true →
  guard_middleware state request (admin_handler htmx pico state endpoint request) w = (r, w') →
  st w' ≠ st w → spends R (AdminRoute endpoint) request w w'.
Proof.
  intros Hpost Hrun Hne. destruct endpoint; try discriminate Hpost; simpl in Hrun;
    (eapply admin_form_spends;
       [exact Hrun|exact Hne|intro; reflexivity|intro; reflexivity|intros; cbv beta zeta; evolve]).
  apply evolves_attempt, evolves_map_ok. evolve.
Qed.
End Admin.

Section Forms.
Context (R : World S → World S → Prop) `{!WorldOrder R} `{!ServicesMove R (app_services state)}.

Lemma logout_spends request w r w' :
  handle_logout state request w = (r, w') → st w' ≠ st w →
  spends (λ _, R) Logout request w w'.
Proof.
  intros Hrun Hne. unfold handle_logout in Hrun.
  apply past_read in Hrun as (session & w1 & Hsession & Hw1 & Hrun & Hne1).
  - destruct session as [session|]; [|by injection Hrun as _ <-].
    apply past_test in Hrun as [Horigin Hrun]; [|done]. apply negb_false_iff in Horigin.
    apply past_lift in Hrun as (token & Htoken & Hrun); [|done].
    apply (past_spend R) in Hrun as (w2 & Hc & Hmove); [|done|evolve].
    apply map_err_Ok_inv in Hsession.
    exists session, token, w, w1, w2. split_and!; try done. subst store. simpl. by rewrite Hsession.
  - intros w0. unfold map_err. pose proof (session_readonly store (req_headers request) w0) as Hr.
    fold store. by destruct (current_browser_session store _ w0) as [[] ?].
  - done.
Qed.
Lemma mint_spends request w r w' :
  handle_token_mint state request w = (r, w') → st w' ≠ st w → spends (λ _, R) TokenMint request w w'.
Proof.
  intros Hrun Hne. unfold handle_token_mint in Hrun.
  apply past_read in Hrun as (session & w1 & Hs%session_or_Ok & Hw1 & Hrun & Hne1);
    [|apply session_or_readonly|done].
  apply past_test in Hrun as [Horigin%negb_false_iff Hrun]; [|done].
  apply past_lift in Hrun as (form & Hform & Hrun); [|done].
  apply (past_spend R) in Hrun as (w2 & Hc & Hmove); [|done|evolve].
  eexists session, _, w, w1, w2. split_and!; try done. by exists form.
Qed.

Lemma approve_spends request w r w' :
  handle_device_approve state request w = (r, w') → st w' ≠ st w →
  spends (λ _, R) DeviceApprove request w w'.
Proof.
  intros Hrun Hne. unfold handle_device_approve in Hrun.
  apply past_ok_or in Hrun as (device & Hdevice & Hrun); [|done].
  pose proof (moves_device R device Hdevice).
  apply past_read in Hrun as (session & w1 & Hs%session_or_Ok & Hw1 & Hrun & Hne1);
    [|apply session_or_readonly|done].
  apply past_test in Hrun as [Horigin%negb_false_iff Hrun]; [|done].
  apply past_lift in Hrun as (form & Hform & Hrun); [|done].
  apply past_test in Hrun as [_ Hrun]; [|done].
  apply (past_spend R) in Hrun as (w2 & Hc & Hmove); [|done|evolve].
  eexists session, _, w, w1, w2. split_and!; try done. by exists form.
Qed.

Lemma form_spends htmx pico endpoint request w r w' :
  form_endpoint endpoint = true → handler htmx pico state endpoint request w = (r, w') →
  st w' ≠ st w → spends (λ _, R) endpoint request w w'.
Proof.
  destruct endpoint; try discriminate; intros Hform Hrun Hne.
  - by eapply logout_spends.
  - by eapply mint_spends.
  - by eapply approve_spends.
  - eapply admin_post_spends; [| | |done..]; intros; typeclasses eauto.
Qed.
End Forms.

(** The [POST] routes are the forms and the two endpoints of the device flow. *)
Lemma post_routes endpoint :
  routed state "POST" endpoint →
  form_endpoint endpoint = true ∨ endpoint = DeviceStart ∨ endpoint = DeviceToken.
Proof.
  intros [pattern [Hp|Ha]%elem_of_app].
  - unfold public_routes in Hp. repeat (apply elem_of_cons in Hp as [[=]|Hp]; subst; auto).
    by apply not_elem_of_nil in Hp.
  - destruct (admin_enabled _); [|by apply not_elem_of_nil in Ha].
    apply list_elem_of_fmap in Ha as ([[method' pattern'] endpoint'] & [= <- <- ->] & Ha).
    left. unfold admin_routes in Ha. repeat (apply elem_of_cons in Ha as [[=]|Ha]; subst; auto).
    by apply not_elem_of_nil in Ha.
Qed.

(** The session of the request is alive and accepts its token. *)
Definition allowed (endpoint : Endpoint) (request : Request) (s : S) : Prop :=
  ∃ session token,
    (∃ w, st w = s ∧ (current_browser_session store (req_headers request) w).1 = Ok (Some session))
    ∧ carries endpoint request token
    ∧ (∃ w w', st w = s ∧ consume_csrf_token store (hs_session_id session) token w = (Ok tt, w'))
    ∧ match endpoint with
      | AdminRoute _ => is_admin_session request session
      | _ => same_origin cfg (req_headers request) = true
      end.

(** C10: Over any adapters, a POST to any route of the HTTP server but the two device calls changes
    the state only if the request carries the cookie of a live browser session and, in its form
    or header, a CSRF token that the store then accepts for that session, and only from the same
    origin, or on an admin page from a session of an administrator. *)
Theorem posts_need_session_and_csrf htmx pico endpoint request w r w' :
  routed state "POST" endpoint → endpoint ≠ DeviceStart → endpoint ≠ DeviceToken →
  handler htmx pico state endpoint request w = (r, w') → st w' ≠ st w →
  allowed endpoint request (st w).
Proof.
  intros [Hform|[?|?]]%post_routes ?? Hrun Hne; [|done..].
  destruct (form_spends anyhow htmx pico endpoint request w r w' Hform Hrun Hne)
    as (session & token & w0 & w1 & w2 & Hw0 & Hs & Hcarries & Hw1 & Hc & _ & Hrest).
  exists session, token. split_and!; [by exists w0|done|by exists w1, w2|done].
Qed.
End Guards.

(** ** The two stores keep the contract *)

#[export] Instance memory_guarded `{Env} : GuardedState MemPorts.store_state.
Proof.
  split; simpl.
  - intros id w. unfold MemSessions.Sessions.user_by_browser_session. mrun.
    destruct (_ !! id) as [user_id|]; [|done]. destruct (_ !! user_id) as [user|]; [|done].
    by destruct (String.eqb _ _).
  - intros id token w e w'. unfold MemSessions.Sessions.consume_csrf_token. intros Hrun. minv; done.
Qed.

#[export] Instance sqlite_guarded `{Env} `{SqlBase.Sqlite} : GuardedState SqlSessions.SqlState.sqlite_state.
Proof.
  split; simpl.
  - intros id w. unfold SqlSessions.SqlState.user_by_browser_session. mrun. by destruct (hd_error _).
  - intros id token w e w'. unfold SqlSessions.SqlState.consume_csrf_token, SqlBase.require_affected.
    mrun. destruct (SqlRows.affected _ _ =? 0) eqn:Ha; [|done].
    intros [= _ <-]. simpl. by eapply SqlAtomic.no_rows_changed; [typeclasses eauto|].
Qed.

(** ** Ann, an administrator, adds a group *)

Definition ann_signed_in : World State :=
  (Sessions.create_csrf_token (letters 1) (from_secs 600)
     (Sessions.create_browser_session "ann" (from_secs 3600) demo_world).2).2.

Definition add_group_request : Request :=
  mkRequest "POST" "/admin/groups" "" "" ∅ {[ "cookie" := ["lore_auth_session=a"] ]}
    "csrf_token=aa&name=crew" None.

Lemma posts_need_session_and_csrf_witness :
  ∃ r w', handler "" "" demo_app (AdminRoute GroupAdd) add_group_request ann_signed_in = (r, w')
    ∧ resolve_group_id (st w') "crew" = Ok (letters 3)
    ∧ allowed demo_app (AdminRoute GroupAdd) add_group_request (st ann_signed_in).
Proof.
  assert (∃ r w', handler "" "" demo_app (AdminRoute GroupAdd) add_group_request ann_signed_in = (r, w')
    ∧ resolve_group_id (st w') "crew" = Ok (letters 3)) as (r & w' & Hrun & Hg)
    by (eexists _, _; split; [vm_compute; reflexivity|vm_compute; reflexivity]).
  exists r, w'. split_and!; [done|done|].
  eapply (posts_need_session_and_csrf demo_app "" ""); [|done|done|exact Hrun|].
  - exists "/admin/groups". unfold routes. simpl. repeat first [by apply list_elem_of_here|apply list_elem_of_further].
  - intros Heq. rewrite Heq in Hg. vm_compute in Hg. discriminate.
Defined.
