(* ===== verification/ServerFacts.v ===== *)
(** The server of production, end to end: a configuration that started, its services on one
    SQLite database, and the requests that arrive.  The database stays well typed, and a token
    that is minted over HTTP stands on a grant. *)

From Stdlib Require Import ZArith Lia Ascii.
From stdpp Require Import base gmap strings list.
From S2P Require Import Prelude Model Ports TokenSvc PermissionSvc DeviceSvc LoginSvc.
From S2P Require Import SqlRows SqlBase SqlAuthz SqlAccounts SqlGroups SqlGrants SqlTokens.
From S2P Require Import SqlSessions SqlAudited SqlStore.
From S2P Require Import SqlTuples SqlAuthzFacts SqlKeep SqlSchema SqlTyped SqlReach SqlSessionFacts.
From S2P Require Import MemState MemTrace TokenFacts SqlBearer.
From S2P Require Import HttpBase HttpSession HttpTokens Config IdpRegistry ServiceGraph AdminBase.
From S2P Require Import Rs256 Rs256Facts Oidc OidcFacts LoginFacts SqlLoginFacts.
From S2P Require Import HttpServer HttpMoves HttpSqlite Demo HttpDemo HttpGuards.

(** * The services of a server that started *)

(** Lookups and checks on SQLite read only the database. *)
Section Ports.
Context `{Env} `{Sqlite} `{AuthzCore} (policy : Rebac.RebacAuthorizationPolicy).

(** What a call that only reads answers on a database. *)
Definition answer_on {A} (m : H Db A) (db : Db) : option A :=
  match (m (mkWorld db 0 0)).1 with Ok a => Some a | Err _ => None end.

Definition sqlite_stored (db : Db) (id : string) : option Resource :=
  answer_on (SqlResources.get_by_resource_id id) db.

Definition sqlite_allowed (db : Db) (user_id resource_id action : string) : bool :=
  default false (answer_on (Rebac.can_access policy user_id resource_id action) db).

(** The answer depends on the database alone. *)
Definition reads_db {A} (m : H Db A) : Prop := ∀ db, ∃ r, ∀ t d, m (mkWorld db t d) = (r, mkWorld db t d).

Lemma reads_db_ret {A} (a : A) : reads_db (ret a).
Proof. by eexists. Qed.
Lemma reads_db_throw {A} e : reads_db (throw e : H Db A).
Proof. by eexists. Qed.
Lemma reads_db_lift {A} (r : result CoreError A) : reads_db (lift r).
Proof. intros db. exists r. intros. unfold lift. by destruct r. Qed.
Lemma reads_db_get : reads_db get_state.
Proof. intros db. by exists (Ok db). Qed.
Lemma reads_db_bind {A B} (m : H Db A) (k : A → H Db B) :
  reads_db m → (∀ a, reads_db (k a)) → reads_db (bind m k).
Proof.
  intros Hm Hk db. destruct (Hm db) as [[a|e] Hr].
  - destruct (Hk a db) as [r Hr']. exists r. intros. unfold bind. by rewrite Hr.
  - exists (Err e). intros. unfold bind. by rewrite Hr.
Qed.

Lemma reads_db_query {A} (rows : Db → list A) p e : reads_db (query_row rows p e).
Proof.
  apply reads_db_bind; [apply reads_db_get|]. intros db.
  destruct (hd_error _); [apply reads_db_ret|apply reads_db_throw].
Qed.

Lemma reads_db_check snapshot ot oid rel stype sid :
  reads_db (Rebac.check_allowed_with_resolver policy snapshot ot oid rel stype sid).
Proof.
  apply reads_db_bind.
  - intros db. unfold map_err, lift. destruct (resolve_check _ _ _); by eexists.
  - intros []; [apply reads_db_ret..|apply reads_db_throw].
Qed.

Lemma reads_db_can_access user_id resource_id action :
  reads_db (Rebac.can_access policy user_id resource_id action).
Proof.
  apply reads_db_bind.
  - apply reads_db_bind; [apply reads_db_get|]. intros. apply reads_db_lift.
  - intros snapshot. induction (Rebac.relations_for_action action) as [|rel rels IH]; [apply reads_db_ret|].
    simpl. apply reads_db_bind; [apply reads_db_check|]. intros []; [apply reads_db_ret|done].
Qed.

Lemma reads_db_resource id : reads_db (SqlResources.get_by_resource_id id).
Proof. apply reads_db_bind; [apply reads_db_query|]. intros. apply reads_db_ret. Qed.

Lemma reads_db_readonly {A} (m : H Db A) : reads_db m → readonly m.
Proof. intros Hm [db t d]. destruct (Hm db) as [r Hr]. by rewrite Hr. Qed.

Lemma reads_db_Ok {A} (m : H Db A) w a w' :
  reads_db m → m w = (Ok a, w') → answer_on m (st w) = Some a ∧ w' = w.
Proof.
  destruct w as [db t d]. intros Hm Hrun. destruct (Hm db) as [r Hr]. unfold answer_on.
  rewrite Hr in *. simpl. by simplify_eq.
Qed.

#[export] Instance sqlite_read_ports :
  ReadPorts SqlResources.sqlite_resource_query (Rebac.rebac_authz policy) sqlite_stored sqlite_allowed.
Proof.
  split; simpl.
  - intros id. apply reads_db_readonly, reads_db_resource.
  - intros id w r w' Hr. by eapply reads_db_Ok in Hr as [? _]; [|apply reads_db_resource].
  - intros u r a. apply reads_db_readonly, reads_db_can_access.
  - intros u r a w b w' Hb. eapply reads_db_Ok in Hb as [Ha _]; [|apply reads_db_can_access].
    unfold sqlite_allowed. by rewrite Ha.
Qed.
End Ports.

Section Server.
Context `{Env} `{Sqlite} `{SerdeJson} `{AuthzCore} `{HttpLib} `{AdminLib} `{ConfigLib}.
Context (discover : string → IdentityProviderConfig → string → option (IdentityProvider Db)).
Context (signer : TokenSigner Db) `{!BesideStore discover signer}.

(** The services that the requests below use. *)
Lemma graph_services cfg graph :
  build_graph discover signer cfg = Some graph →
  ∃ policy token_cfg login device,
    Rebac.new = Ok policy
    ∧ app_services (http_state graph) =
      mkServices (Some login)
        (mkTokenService token_cfg SqlAccounts.sqlite_accounts SqlResources.sqlite_resources
           (Rebac.rebac_authz policy) signer (Some SqlTokens.sqlite_issued_log))
        SqlResources.sqlite_resource_query
        (mkPermissionService SqlResources.sqlite_resources (Rebac.rebac_authz policy))
        SqlAccounts.sqlite_account_query SqlAudited.audited_store_factory
        SqlGroups.sqlite_group_query SqlGrants.sqlite_grant_query SqlState.sqlite_state signer
        (Some device).
Proof.
  unfold build_graph. intros Hg. apply bind_Some in Hg as (registry & _ & Hg).
  apply bind_Some in Hg as (policy & Hp & Hg).
  repeat (apply bind_Some in Hg as (? & _ & Hg)). injection Hg as <-.
  destruct Rebac.new as [policy'|] eqn:Hnew; [|done]. injection Hp as ->.
  exists policy. do 3 eexists. split; reflexivity.
Qed.


(** ** Minting over HTTP *)

Context (n : nat) `{!ResolverLaws (S n)}.

(** The active user of an active session with this id. *)
Definition session_user (db : Db) (session_id : string) (user : User) : Prop :=
  ∃ s u, s ∈ db_sessions db ∧ u ∈ db_users db ∧ br_id s = session_id ∧ br_revoked_at s = None
    ∧ br_user_id s = ur_id u ∧ ur_status u = "active" ∧ user = user_from_row u.

Lemma user_by_session_Ok session_id w user w' :
  SqlState.user_by_browser_session session_id w = (Ok user, w') → session_user (st w) session_id user.
Proof.
  unfold SqlState.user_by_browser_session. mrun. destruct (hd_error _) as [[s u]|] eqn:Hhd; [|done].
  intros [= <- <-]. apply elem_of_hd, elem_of_where in Hhd as [Hj Hp].
  apply elem_of_join_on in Hj as (Hs & Hu & Hid%String.eqb_eq).
  rewrite !andb_true_iff in Hp. destruct Hp as [[[Hi%String.eqb_eq Hr] _] Ha%String.eqb_eq].
  exists s, u. split_and!; try done. simpl in Hr. by destruct (br_revoked_at s).
Qed.

Lemma session_Ok headers w session w' :
  current_browser_session SqlState.sqlite_state headers w = (Ok (Some session), w') →
  session_user (st w) (hs_session_id session) (hs_user session) ∧ st w' = st w.
Proof.
  intros Hrun. pose proof (session_readonly SqlState.sqlite_state headers w) as Hro.
  rewrite Hrun in Hro. split; [|done]. unfold current_browser_session in Hrun.
  destruct (cookie_value _ _) as [id|]; [|done]. destruct (is_empty id); [done|].
  unfold bind, attempt in Hrun.
  destruct (user_by_browser_session SqlState.sqlite_state id w) as [[user|[]] w1] eqn:Hu; try done.
  injection Hrun as <- <-. by eapply user_by_session_Ok.
Qed.

(** Spending a CSRF token touches no other table. *)
Lemma spend_keeps session_id token w r w' :
  SqlState.consume_csrf_token session_id token w = (r, w') →
  ∃ f, st w' = set_csrf_tokens f (st w).
Proof.
  unfold SqlState.consume_csrf_token, require_affected. mrun.
  destruct (_ =? 0); intros [= _ <-]; by eexists.
Qed.

Lemma resource_named name w r w' :
  SqlResources.get_by_name name w = (Ok r, w') →
  w' = w ∧ ∃ row, row ∈ db_repositories (st w) ∧ rep_status row = "active" ∧ rep_name row = name
    ∧ r_resource_id r = resource_of row.
Proof.
  unfold SqlResources.get_by_name, query_row. mrun.
  destruct (hd_error _) as [row|] eqn:Hrow; [|done]. intros [= <- <-]. split; [done|].
  apply elem_of_hd, elem_of_where in Hrow as [Hin Hp].
  unfold active_row in Hp. apply andb_true_iff in Hp as [Hn%String.eqb_eq Ha%String.eqb_eq].
  by exists row.
Qed.

Lemma plain_csrf f db : plain_db db → plain_db (set_csrf_tokens f db).
Proof. destruct db. intros []. by split. Qed.

(** What the policy allows on a database stands on a grant. *)
Lemma allowed_granted policy db user_id resource_id action :
  Rebac.new = Ok policy → plain_db db → no_hash user_id = true →
  sqlite_allowed policy db user_id resource_id action = true →
  ∃ role, granted_row db user_id resource_id role ∧ decisive role action.
Proof.
  intros Hp Hdb Hu Ha.
  destruct (can_access_outcome_holds n policy Hp user_id resource_id action (mkWorld db 0 0) Hdb Hu)
    as (r & Hr & Ho).
  unfold sqlite_allowed, answer_on in Ha. rewrite Hr in Ha. destruct r as [[]|]; try discriminate Ha.
  by apply Ho.
Qed.

Lemma session_user_plain db session_id user :
  drawn_ids plain_id db → session_user db session_id user → no_hash (u_id user) = true.
Proof.
  intros [Hu _] (s & u & _ & Hin & _ & _ & _ & _ & ->). rewrite Forall_fmap, Forall_forall in Hu.
  by apply Hu.
Qed.

(** C8: In the service that the configuration builds over SQLite, a token minted over HTTP stands on
    stored rows: the session of the request is an unrevoked session of an active user, the
    repository of the submitted name is an active row, and a grant of admin or of a role that
    allows writing covers that user on that repository, directly or through nested groups. *)
Theorem minted_tokens_stand_on_grants cfg graph request w response w' :
  build_graph discover signer cfg = Some graph →
  schema (st w) → typed (st w) → drawn_ids plain_id (st w) →
  handle_token_mint (http_state graph) request w = (Ok response, w') →
  ∃ form session row role,
    parse_form_body (req_body request) = Ok form
    ∧ session_user (st w) (hs_session_id session) (hs_user session)
    ∧ row ∈ db_repositories (st w) ∧ rep_status row = "active"
    ∧ rep_name row = default "" (form !! "repository")
    ∧ granted_row (st w) (u_id (hs_user session)) (resource_of row) role ∧ decisive role "write".
Proof.
  intros Hg Hs Ht Hd Hrun. destruct (graph_services cfg graph Hg) as (policy & tcfg & login & device & Hp & Hsv).
  unfold handle_token_mint, session_or, spend_csrf in Hrun. rewrite Hsv in Hrun. simpl in Hrun. minv.
  repeat match goal with
  | Hses : current_browser_session _ _ w = _ |- _ => apply session_Ok in Hses as [Hses Hw1]
  | Hcsrf : SqlState.consume_csrf_token _ _ _ = _ |- _ => apply spend_keeps in Hcsrf as [f Hw2]
  | Hmint : manual_mint_authz ?self _ _ _ _ _ = _ |- _ =>
      apply (manual_mint_only_writer self (sqlite_read_ports policy)) in Hmint
        as (_ & p & w3 & r & w4 & w5 & Hp3 & Hr4 & Ha & _)
  end.
  apply principal_Ok in Hp3 as (names & usr & -> & Hid & Hw3). simpl in Hid, Ha.
  apply resource_named in Hr4 as (-> & row & Hin & Hact & Hname & Hrid). rewrite Hid, Hrid in Ha.
  rewrite Hw3, Hw2, Hw1 in *. simpl in Hin.
  apply allowed_granted in Ha as (role & Hgr & Hdec);
    [|done|by apply plain_csrf, typed_plain|by eapply session_user_plain].
  by eexists _, _, row, role.
Qed.

(** ** Form tokens *)

Lemma carries_unique endpoint request token token' :
  carries endpoint request token → carries endpoint request token' → token = token'.
Proof.
  destruct endpoint; simpl; try done; try congruence;
    intros (form & Hf & ->) (form' & Hf' & ->); congruence.
Qed.

(** A form that changed the database used its token up. *)
Lemma form_uses_token htmx pico cfg graph endpoint request token w r w' :
  build_graph discover signer cfg = Some graph → wf_db (st w) →
  form_endpoint endpoint = true → carries endpoint request token →
  handler htmx pico (http_state graph) endpoint request w = (r, w') → st w' ≠ st w →
  ¬ row_spent (st w) (ShotCsrf token) ∧ row_spent (st w') (ShotCsrf token) ∧ wf_db (st w').
Proof.
  intros Hg Hw Hform Hcarries Hrun Hne.
  pose proof (started_moves discover signer sql_evolution cfg graph run_sql_evolves Hg) as Hmoves.
  destruct (graph_services cfg graph Hg) as (policy & tcfg & login & device & _ & Hsv).
  assert (GuardedState (sv_state (app_services (http_state graph)))) as Hguard
    by (rewrite Hsv; apply sqlite_guarded).
  destruct (form_spends (http_state graph) sql_evolution htmx pico endpoint request w r w' Hform Hrun Hne)
    as (session & token' & w0 & w1 & w2 & Hw0 & Hs & Hcarries' & Hw1 & Hc & Hmove & _).
  rewrite <- (carries_unique _ _ _ _ Hcarries Hcarries') in Hc. rewrite Hsv in Hc. simpl in Hc.
  rewrite <- Hw1 in Hw |- *.
  destruct (use_spends_csrf (hs_session_id session) token w1 w2 Hw) as [Hfresh Hspent]; [exact Hc|].
  destruct (run_sql_evolves (SConsumeCsrf (hs_session_id session) token) w1 Hw) as [Hw2 _].
  simpl in Hw2. rewrite Hc in Hw2. destruct (Hmove Hw2) as [Hw' Hp].
  split_and!; [done|by eapply row_spent_progress|done].
Qed.

(** C12: In the service built over SQLite, whatever requests of any peers are served in between and
    with whatever limits, two forms that change the database never carry the same CSRF token: a
    token that worked once works never again. *)
Theorem form_tokens_work_once htmx pico cfg graph w endpoint1 request1 token1 r1 w1
    arrivals buckets endpoint2 request2 token2 r2 w3 :
  build_graph discover signer cfg = Some graph → wf_db (st w) →
  form_endpoint endpoint1 = true → carries endpoint1 request1 token1 →
  handler htmx pico (http_state graph) endpoint1 request1 w = (r1, w1) → st w1 ≠ st w →
  let w2 := (serves htmx pico (http_state graph) arrivals (buckets, w1)).2.2 in
  form_endpoint endpoint2 = true → carries endpoint2 request2 token2 →
  handler htmx pico (http_state graph) endpoint2 request2 w2 = (r2, w3) → st w3 ≠ st w2 →
  hash_secret token1 ≠ hash_secret token2.
Proof.
  intros Hg Hw Hf1 Hc1 Hrun1 Hne1 w2 Hf2 Hc2 Hrun2 Hne2 Heq.
  destruct (form_uses_token htmx pico cfg graph endpoint1 request1 token1 w r1 w1)
    as (_ & Hspent & Hw1); [done..|].
  destruct (server_moves discover signer sql_evolution htmx pico cfg graph arrivals buckets w1
    run_sql_evolves Hg Hw1) as [Hw2 Hp].
  destruct (form_uses_token htmx pico cfg graph endpoint2 request2 token2 w2 r2 w3)
    as (Hfresh & _); [done..|].
  apply Hfresh. apply (row_spent_progress _ _ _ Hp) in Hspent. simpl in *. by rewrite Heq in Hspent.
Qed.
End Server.

(** * Signing in over OIDC *)

Section SignIn.
Context `{Env} `{Sqlite} `{SerdeJson} `{AuthzCore} `{HttpLib} `{AdminLib} `{ConfigLib}.
Context `{JwtLib} `{OidcLib} (signer : TokenSigner Db).

(** The login service of a server that started: its providers and its accounts. *)
Lemma graph_login cfg graph :
  build_graph oidc_discover signer cfg = Some graph →
  lsv_users (sg_login graph) = SqlAccounts.sqlite_accounts
  ∧ ∀ provider_id provider d,
      Login.identity_provider (sg_login graph) provider_id = Ok (provider, d) →
      configured oidc_discover cfg provider
      ∧ ipd_issuer d = ipd_issuer (descriptor provider)
      ∧ ipd_trust_policy d = ipd_trust_policy (descriptor provider)
      ∧ (ipd_id (descriptor provider) ≠ "" → d = descriptor provider).
Proof.
  unfold build_graph. intros Hg. apply bind_Some in Hg as (registry & Hreg & Hg).
  repeat (apply bind_Some in Hg as (? & _ & Hg)). injection Hg as <-. split; [done|].
  intros provider_id provider d. unfold Login.identity_provider. simpl.
  destruct (is_empty (if is_empty provider_id then _ else _)); [done|].
  destruct (Registry.by_id registry !! _) as [found|] eqn:Hfound; [|done]. intros [= <- <-].
  split; [exact (registry_built _ _ _ Hreg _ _ Hfound)|].
  destruct (is_empty (ipd_id (descriptor found))) eqn:He; split_and!; try done.
  intros Hne. by apply is_empty_true in He.
Qed.

Lemma normalized_id config c : normalized_config config = Ok c → oc_provider_id c ≠ "".
Proof.
  unfold normalized_config. destruct (is_empty (trim (oc_provider_id config))) eqn:Hid; [done|].
  apply is_empty_false in Hid. repeat case_match; intros [= <-]. done.
Qed.

Lemma discovered config p :
  Provider.discover config = Ok p → Provider.id p ≠ "".
Proof.
  unfold Provider.discover, Provider.from_metadata. intros Hd.
  destruct (normalized_config config) as [c|]; [|done]. destruct http_client_error; [done|].
  destruct (issuer_url_error _); [done|]. destruct (discover_async _) as [metadata|]; [|done].
  destruct (normalized_config c) as [c'|] eqn:Hc; [|done]. injection Hd as <-. by eapply normalized_id.
Qed.

Lemma finish_login_user self identity user nonce (w w' : World Db) r :
  Login.finish_login self identity user nonce w = (Ok r, w') → ocr_identity r = identity ∧ ocr_user r = user.
Proof.
  unfold Login.finish_login. intros Hx. destruct (is_empty nonce); [by minv|].
  apply bind_Ok_inv in Hx as (session & w3 & _ & Hx). destruct session as [session|[]]; by minv.
Qed.

(** C3: In the service that the configuration builds over SQLite, a completed sign-in stands on an
    ID token: a provider of the configuration redeemed the code of the callback, with its PKCE
    verifier where that is required, for a token that verifies, carries the nonce of the login
    and meets the tenant and domain policies, and the user who is signed in owns the identity
    row of exactly that provider, issuer and subject, or claims the invitation of the verified
    address. *)
Theorem oidc_sign_in_stands_on_id_token cfg graph provider_id req nonce w r w' :
  build_graph oidc_discover signer cfg = Some graph → schema (st w) →
  Login.complete_auth (sg_login graph) provider_id req nonce w = (Ok r, w') →
  ocr_unknown_user r = false →
  ∃ id provider_cfg secret p identity principal binding w1 w2,
    ips_providers (cfg_identity_providers cfg) !! id = Some provider_cfg
    ∧ Provider.discover (from_provider_config id provider_cfg secret) = Ok p
    ∧ id_token_vouches p req identity
    ∧ ocr_identity r = with_provider_issuer (Provider.id p) (ei_issuer (ocr_identity r)) identity
    ∧ (Provider.issuer p ≠ "" → ei_issuer (ocr_identity r) = Provider.issuer p)
    ∧ let login := mkLoginResolutionRequest (ocr_identity r)
        (mkLoginTrustPolicy (Provider.email_binding p) (Provider.allowed_email_domains p)) in
      st w1 = st w ∧ SqlAccounts.resolve_login login w1 = (Ok (principal, binding), w2)
      ∧ u_id (ocr_user r) = tp_user_id principal
      ∧ (known_sign_in login (unix_of (clock (ticks w1))) (st w) (st w2) principal
         ∨ (∀ row, ¬ bound_row login (st w) row)
           ∧ invited_sign_in login (unix_of (clock (ticks w1))) (st w) (st w2) principal binding).
Proof.
  intros Hg Hs Hx Hknown. destruct (graph_login cfg graph Hg) as [Husers Hprovider].
  unfold Login.complete_auth in Hx. rewrite Husers in Hx.
  apply bind_Ok_inv in Hx as ([provider d] & w0 & Hp & Hx). unfold lift in Hp. injection Hp as Hp <-.
  destruct (Hprovider _ _ _ Hp) as ((id & pcfg & secret & Hcfg & _ & _ & Hd) & _ & _ & Hdesc).
  unfold oidc_discover in Hd. destruct (Provider.discover _) as [p|] eqn:Hdisc; [|done]. simpl in Hd.
  injection Hd as <-. pose proof (discovered _ _ Hdisc) as Hid. rewrite (Hdesc Hid) in Hx.
  apply bind_Ok_inv in Hx as (identity & w1 & Hraw%map_err_Ok_inv & Hx).
  apply complete_auth_Ok in Hraw as [Hw1 Hvouch].
  apply bind_Ok_inv in Hx as (i & w1' & Hn & Hx). unfold lift in Hn. injection Hn as Hn <-.
  apply normalize_identity_Ok in Hn as (_ & Hiss & Hi). simpl in Hi.
  apply bind_Ok_inv in Hx as (res & w2 & Hres & Hx). unfold attempt in Hres.
  destruct (resolve_login _ _ w1) as [res0 w2'] eqn:Hrl. injection Hres as <- <-.
  destruct res0 as [[principal binding]|[]]; try discriminate; [|by injection Hx as <- <-].
  apply finish_login_user in Hx as [Hri Hru]. simpl in Hrl.
  exists id, pcfg, secret, p, identity, principal, binding, w1, w2'.
  rewrite Hri, Hru. cbv zeta. split_and!; try done.
  - by rewrite Hi.
  - intros Hne. rewrite Hi. simpl in *. destruct (is_empty (ei_issuer identity)) eqn:He; [done|].
    apply is_empty_false in He. naive_solver.
  - rewrite <- Hw1 in *. destruct (sql_resolve_login_Ok _ w1 _ _ _ Hs Hrl) as [[_ Hl]|(_ & Hno & Hl)];
      [by left|by right].
Qed.
End SignIn.

(** * Examples: Bob's requests *)

#[local] Existing Instances demo_authz_core demo_resolver_laws.

Lemma bob_schema : schema (st bob_world).
Proof. apply (run_sqls_keeps schema _ office_world), office_schema. Qed.
Lemma bob_typed : typed (st bob_world).
Proof.
  apply (run_sqls_keeps typed _ office_world), (run_sqls_keeps typed office (mkWorld empty_db 0 0)).
  exact typed_empty.
Qed.
Lemma bob_plain : drawn_ids plain_id (st bob_world).
Proof.
  pose proof (drawn_ids_store plain_id demo_plain_ids). pose proof (drawn_ids_sessions plain_id).
  apply (run_sqls_keeps (drawn_ids plain_id) _ office_world),
    (run_sqls_keeps (drawn_ids plain_id) office (mkWorld empty_db 0 0)).
  split; apply Forall_nil_2.
Qed.
Lemma bob_wf : wf_db (st bob_world).
Proof.
  apply (run_sqls_evolves _ office_world), (run_sqls_evolves office (mkWorld empty_db 0 0)), wf_empty_db.
Qed.

(** Bob adds a group, and mints a token. *)
Definition bob_arrivals : list ((Z * string) * (Endpoint * Request)) :=
  [((0%Z, "10.0.0.7"), (AdminRoute GroupAdd, group_form bob_token)); ((1%Z, "10.0.0.7"), (TokenMint, mint_form))].

Definition has_crew (w : World Db) : bool := existsb (String.eqb "crew") (gp_name <$> db_groups (st w)).


Lemma minted_tokens_stand_on_grants_witness :
  ∃ session row role,
    session_user (st bob_world) (hs_session_id session) (hs_user session)
    ∧ rep_name row = "game"
    ∧ granted_row (st bob_world) (u_id (hs_user session)) (resource_of row) role ∧ decisive role "write".
Proof.
  destruct (on_demo_started (λ state, match handle_token_mint state mint_form bob_world with
    | (Ok _, _) => true | _ => false end)) as (graph & Hg & Hmint); [vm_compute; reflexivity|].
  destruct (handle_token_mint (http_state graph) mint_form bob_world) as [[response|]] eqn:Hrun;
    [|discriminate Hmint].
  destruct (minted_tokens_stand_on_grants demo_discover demo_signer 2 demo_loaded graph mint_form bob_world
    response w Hg bob_schema bob_typed bob_plain Hrun)
    as (form & session & row & role & Hform & Hses & _ & _ & Hname & Hgr & Hdec).
  exists session, row, role. split; [exact Hses|]. split; [|split; [exact Hgr|exact Hdec]].
  rewrite Hname. injection Hform as <-. reflexivity.
Defined.

(** How many form tokens are used up. *)
Definition tokens_spent (db : Db) : nat :=
  affected (λ r, negb (is_null (cr_consumed_at r))) (db_csrf_tokens db).

Definition add_crew (token : string) (state : AppState Db) (w : World Db) : World Db :=
  (handler "" "" state (AdminRoute GroupAdd) (group_form token) w).2.

Lemma add_crew_run token state w :
  handler "" "" state (AdminRoute GroupAdd) (group_form token) w
  = ((handler "" "" state (AdminRoute GroupAdd) (group_form token) w).1, add_crew token state w).
Proof. apply surjective_pairing. Qed.

Lemma bob_spent : tokens_spent (st bob_world) = 0.
Proof. vm_compute. reflexivity. Qed.

Lemma group_form_carries token :
  field (list_to_map (demo_pairs (req_body (group_form token)))) "csrf_token" = token →
  carries (AdminRoute GroupAdd) (group_form token) token.
Proof. intros Ht. eexists. split; [reflexivity|done]. Qed.

(** Bob sends the form twice, with the two tokens he was given, and each works. *)
Lemma form_tokens_work_once_witness :
  ∃ graph, demo_graph = Some graph
    ∧ let w1 := add_crew bob_token (http_state graph) bob_world in
      let w2 := add_crew bob_next_token (http_state graph) w1 in
      tokens_spent (st w1) = 1 ∧ tokens_spent (st w2) = 2
      ∧ hash_secret bob_token ≠ hash_secret bob_next_token.
Proof.
  destruct (on_demo_started (λ state,
    let w1 := add_crew bob_token state bob_world in
    (tokens_spent (st w1) =? 1) && (tokens_spent (st (add_crew bob_next_token state w1)) =? 2)))
    as (graph & Hg & Ht); [vm_compute; reflexivity|].
  apply andb_true_iff in Ht as [H1%Nat.eqb_eq H2%Nat.eqb_eq].
  exists graph. split; [exact Hg|]. split; [exact H1|]. split; [exact H2|].
  refine (form_tokens_work_once demo_discover demo_signer "" "" demo_loaded graph bob_world
    (AdminRoute GroupAdd) (group_form bob_token) bob_token _ _ [] ∅
    (AdminRoute GroupAdd) (group_form bob_next_token) bob_next_token _ _
    Hg bob_wf eq_refl (group_form_carries bob_token eq_refl) (add_crew_run bob_token _ _) _
    eq_refl (group_form_carries bob_next_token eq_refl) (add_crew_run bob_next_token _ _) _).
  - intros Heq. rewrite Heq, bob_spent in H1. discriminate H1.
  - intros Heq%(f_equal tokens_spent). pose proof (eq_trans (eq_sym H2) (eq_trans Heq H1)). discriminate.
Defined.

(** Ann signs in over OIDC, by the invitation of her verified address. *)
Definition ann_callback : CompleteAuthRequest :=
  mkCompleteAuthRequest "for-plain" "s1" "n1" "" ∅ [].

Definition ann_signs_in (graph : ServiceGraph) : result CoreError OAuthCallbackResult * World Db :=
  Login.complete_auth (sg_login graph) "google" ann_callback "" office_world.

Lemma oidc_sign_in_stands_on_id_token_witness :
  ∃ graph r w', demo_graph = Some graph ∧ ann_signs_in graph = (Ok r, w')
    ∧ ∃ p identity, id_token_vouches p ann_callback identity
        ∧ Provider.id p = ei_provider_id (ocr_identity r).
Proof.
  destruct demo_graph_built as [graph Hg].
  assert (match demo_graph with
          | Some graph => match ann_signs_in graph with (Ok r, _) => negb (ocr_unknown_user r) | _ => false end
          | None => false end = true) as Hrun by (vm_compute; reflexivity).
  rewrite Hg in Hrun. destruct (ann_signs_in graph) as [[r|err] w'] eqn:Hx; [|discriminate Hrun].
  apply negb_true_iff in Hrun. exists graph, r, w'. split; [exact Hg|]. split; [exact Hx|].
  destruct (oidc_sign_in_stands_on_id_token demo_signer demo_loaded graph "google"
                ann_callback "" office_world r w' Hg office_schema Hx Hrun)
    as (_ & _ & _ & p & identity & _ & _ & _ & _ & _ & _ & Hvouch & Hid & _).
  exists p, identity. split; [exact Hvouch|]. rewrite Hid. reflexivity.
Defined.
