(* ===== verification/AdminFacts.v ===== *)
(** The admin pages on SQLite: every change of the administered tables is recorded in the
    audit log under the administrator who asked for it; the dates of their pages are those of the
    Gregorian calendar. *)

From Stdlib Require Import ZArith Lia Ascii.
From stdpp Require Import base gmap strings list.
From S2P Require Import Prelude Model Ports TokenSvc PermissionSvc DeviceSvc LoginSvc.
From S2P Require Import SqlRows SqlBase SqlAuthz SqlAccounts SqlGroups SqlGrants SqlTokens.
From S2P Require Import SqlSessions SqlAudited SqlStore SqlKeep SqlAtomic SqlAuthzFacts.
From S2P Require Import HttpBase HttpSession Config IdpRegistry ServiceGraph AdminBase.
From S2P Require Import HttpServer HttpMoves HttpSqlite HttpGuards Demo HttpDemo ServerFacts.

(** * Recorded changes *)

(** The tables that administration changes. *)
Definition same_administration (db db' : Db) : Prop :=
  db_users db' = db_users db ∧ db_external_identities db' = db_external_identities db
  ∧ db_identity_invitations db' = db_identity_invitations db
  ∧ db_groups db' = db_groups db ∧ db_group_members db' = db_group_members db
  ∧ db_group_groups db' = db_group_groups db ∧ db_grants db' = db_grants db
  ∧ db_repositories db' = db_repositories db ∧ db_signing_keys db' = db_signing_keys db.

(** The audit log grew, and it grew by an entry of [actor] if an administered table changed. *)
Definition recorded (actor : string) (w w' : World Db) : Prop :=
  ∃ rows, db_admin_audit (st w') = db_admin_audit (st w) ++ rows
    ∧ (same_administration (st w) (st w') ∨ ∃ row, row ∈ rows ∧ ar_actor row = actor).

(** Nothing changed, or the log ends in a new entry of [actor]. *)
Definition logged (actor : string) (db db' : Db) : Prop :=
  db' = db ∨ ∃ rows row, db_admin_audit db' = db_admin_audit db ++ (rows ++ [row]) ∧ ar_actor row = actor.

Lemma same_administration_refl db : same_administration db db.
Proof. by repeat split. Qed.

#[export] Instance recorded_order actor : WorldOrder (recorded actor).
Proof.
  split.
  - intros w. exists []. rewrite app_nil_r. split; [done|]. left. apply same_administration_refl.
  - intros w1 w2 w3 (rows & Hr & Hs) (rows' & Hr' & Hs'). exists (rows ++ rows').
    rewrite Hr', Hr, app_assoc. split; [done|].
    destruct Hs as [Hs|(row & ? & ?)]; [|right; exists row; rewrite elem_of_app; auto].
    destruct Hs' as [Hs'|(row & ? & ?)]; [|right; exists row; rewrite elem_of_app; auto].
    left. unfold same_administration in *. destruct_and!. split_and!; congruence.
  - intros s t d. exists []. rewrite app_nil_r. split; [done|]. left. apply same_administration_refl.
  - intros s t d. exists []. rewrite app_nil_r. split; [done|]. left. apply same_administration_refl.
Qed.

(** The device and state stores do not touch these tables. *)
#[local] Instance unadministered_statements db log :
  SessionStatements (λ db', same_administration db db' ∧ db_admin_audit db' = log).
Proof. split; intros; assumption. Qed.

(** The log only grows. *)
#[local] Instance log_statements `{Env} log :
  StoreStatements (λ db, ∃ rows, db_admin_audit db = log ++ rows).
Proof.
  split; intros; try assumption.
  match goal with Hgrown : ∃ _, _ = _ ++ _ |- _ => destruct Hgrown as (rows & Hr) end.
  exists (rows ++ [row]). simpl. by rewrite Hr, app_assoc.
Qed.

Section Calls.
Context `{Env} `{Sqlite} `{SerdeJson}.

Lemma session_calls_recorded actor op : session_call op → evolves (recorded actor) (run_sql op).
Proof.
  intros Hop w.
  destruct (run_session_keeps (λ db, same_administration (st w) db
      ∧ db_admin_audit db = db_admin_audit (st w)) op Hop w) as [Hs Hl].
  - split; [apply same_administration_refl|done].
  - exists []. rewrite app_nil_r. split; [done|by left].
Qed.

(** A write that refines one on the same log either changes nothing or is logged. *)
Lemma refinement_logged silent actor action plain audited w :
  (∀ db, silent (st w) db → db = st w) →
  preserves (λ db, ∃ rows, db_admin_audit db = db_admin_audit (st w) ++ rows) plain →
  audit_refines silent actor action plain audited w → logged actor (st w) (st (audited w).2).
Proof.
  intros Hsilent Hplain Hr. unfold audit_refines in Hr.
  destruct (audited w) as [[a|e] w1]; simpl; [|left; apply Hr].
  destruct Hr as (w2 & Hp & [[Hs Heq]|[_ (row & Ha & _ & Heq)]]).
  - left. rewrite Heq. by apply Hsilent.
  - right. destruct (Hplain w) as [rows Hl]; [exists []; by rewrite app_nil_r|]. rewrite Hp in Hl. simpl in Hl.
    exists rows, row. rewrite Heq. simpl. by rewrite Hl, app_assoc.
Qed.

Lemma audited_calls_logged actor op w : logged actor (st w) (st (run_audited actor op w).2).
Proof.
  assert (strips_once op ∨ ∃ id, op = DDelete id) as [Hop|[id ->]] by (destruct op; simpl; eauto).
  - eapply refinement_logged; [|apply keeps_plain; typeclasses eauto|apply sql_audited_refines, Hop].
    destruct op; simpl; naive_solver.
  - eapply (refinement_logged (λ _ _, False));
      [done| |apply (audited_unit (SqlResources.delete_resource_conn id))].
    unfold silently. rewrite <- evolves_keeps, evolves_map_ok. apply evolves_keeps, keeps_delete_resource; typeclasses eauto.
Qed.

Lemma audited_calls_recorded actor op : evolves (recorded actor) (run_audited actor op).
Proof.
  intros w. destruct (audited_calls_logged actor op w) as [Heq|(rows & row & Hrows & Ha)].
  - exists []. rewrite Heq, app_nil_r. split; [done|]. left. apply same_administration_refl.
  - exists (rows ++ [row]). split; [done|]. right. exists row. rewrite elem_of_app, list_elem_of_singleton. auto.
Qed.
End Calls.

(** * Requests *)

Section Server.
Context `{Env} `{Sqlite} `{SerdeJson} `{AuthzCore} `{HttpLib} `{AdminLib} `{ConfigLib}.
Context (discover : string → IdentityProviderConfig → string → option (IdentityProvider Db)).
Context (signer : TokenSigner Db).

Lemma admin_reads_move R `{!WorldOrder R} cfg graph :
  (∀ op, session_call op → evolves R (run_sql op)) →
  build_graph discover signer cfg = Some graph →
  AdminReadsMove R (app_services (http_state graph)).
Proof.
  intros Hsession Hg.
  destruct (graph_services discover signer cfg graph Hg) as (policy & tcfg & login & device & _ & ->).
  split; simpl; try typeclasses eauto. by apply sqlite_state_moves.
Qed.

(** C22: A form of the admin pages that changes users, identities, invitations, groups, repositories
    or grants was submitted in a session of an active administrator, and it appends an audit row
    that names that administrator; no earlier audit row is changed or lost. *)
Theorem admin_changes_are_recorded htmx pico cfg graph endpoint request w r w' :
  build_graph discover signer cfg = Some graph → post_endpoint endpoint = true →
  handler htmx pico (http_state graph) (AdminRoute endpoint) request w = (r, w') →
  ¬ same_administration (st w) (st w') →
  ∃ session rows row,
    session_user (st w) (hs_session_id session) (hs_user session)
    ∧ is_admin_session (http_state graph) request session
    ∧ db_admin_audit (st w') = db_admin_audit (st w) ++ rows
    ∧ row ∈ rows ∧ ar_actor row = admin_actor session.
Proof.
  intros Hg Hpost Hrun Hne.
  pose proof (λ session, admin_reads_move (recorded (admin_actor session)) cfg graph
    (session_calls_recorded _) Hg) as Hreads.
  destruct (graph_services discover signer cfg graph Hg) as (policy & tcfg & login & device & _ & Hsv).
  assert (∀ session, WritePortsMove (recorded (admin_actor session))
    (writes_of (http_state graph) session)) as Hwrites.
  { intros session. unfold writes_of. rewrite Hsv. simpl.
    apply audited_writes_move; [typeclasses eauto|apply audited_calls_recorded]. }
  assert (GuardedState (sv_state (app_services (http_state graph)))) as Hguard
    by (rewrite Hsv; apply sqlite_guarded).
  destruct (admin_post_spends (http_state graph) (λ session, recorded (admin_actor session))
    htmx pico endpoint request w r w' Hpost Hrun) as (session & token & w0 & w1 & w2 & Hw0 & Hs & _ & Hw1 & Hc & Hmove & His).
  { intros Heq. apply Hne. rewrite Heq. apply same_administration_refl. }
  rewrite Hsv in Hs, Hc. simpl in Hs, Hc.
  destruct (current_browser_session SqlState.sqlite_state (req_headers request) w0) as [r0 w0'] eqn:Hrun0.
  simpl in Hs. subst r0. apply session_Ok in Hrun0 as [Hses _]. rewrite Hw0 in Hses.
  pose proof (session_calls_recorded (admin_actor session) (SConsumeCsrf (hs_session_id session) token) I w1) as Hcsrf.
  simpl in Hcsrf. rewrite Hc in Hcsrf.
  destruct (wo_trans _ _ _ Hcsrf Hmove) as (rows & Hl & Hr). rewrite Hw1 in Hl, Hr.
  destruct Hr as [?|(row & Hin & Ha)]; [done|]. by exists session, rows, row.
Qed.
End Server.

(** * Example: Bob adds a group *)

#[local] Existing Instance demo_authz_core.

Lemma admin_changes_are_recorded_witness :
  ∃ graph, demo_graph = Some graph
    ∧ let w' := add_crew bob_token (http_state graph) bob_world in
      has_crew w' = true ∧ ∃ session rows row,
        is_admin_session (http_state graph) (group_form bob_token) session
        ∧ db_admin_audit (st w') = db_admin_audit (st bob_world) ++ rows
        ∧ row ∈ rows ∧ ar_actor row = admin_actor session.
Proof.
  destruct (on_demo_started (λ state, has_crew (add_crew bob_token state bob_world)))
    as (graph & Hg & Hcrew); [vm_compute; reflexivity|].
  exists graph. split; [exact Hg|]. split; [exact Hcrew|].
  destruct (admin_changes_are_recorded demo_discover demo_signer "" "" demo_loaded graph GroupAdd
    (group_form bob_token) bob_world _ _ Hg eq_refl (add_crew_run bob_token _ bob_world))
    as (session & rows & row & _ & His & Hlog & Hin & Ha).
  - intros (_ & _ & _ & Hgroups & _). unfold has_crew in Hcrew. rewrite Hgroups in Hcrew.
    vm_compute in Hcrew. discriminate Hcrew.
  - exists session, rows, row. split; [exact His|]. split; [exact Hlog|]. split; [exact Hin|exact Ha].
Defined.

(** * Dates *)

#[local] Open Scope Z_scope.

(** ** The calendar *)

Definition is_leap (y : Z) : bool :=
  (y mod 4 =? 0) && (negb (y mod 100 =? 0) || (y mod 400 =? 0)).

Definition month_length (y m : Z) : Z :=
  if m =? 2 then if is_leap y then 29 else 28
  else if (m =? 4) || (m =? 6) || (m =? 9) || (m =? 11) then 30 else 31.

(** The days of the months of [y] before [m]. *)
Definition days_before_month (y m : Z) : Z :=
  foldr Z.add 0 (month_length y <$> seqZ 1 (m - 1)).

(** The leap years from year 1 to the year before [y]. *)
Definition leaps_before (y : Z) : Z := (y - 1) / 4 - (y - 1) / 100 + (y - 1) / 400.

(** The days from 1970-01-01 to a date. *)
Definition days_of_date (y m d : Z) : Z :=
  365 * (y - 1970) + (leaps_before y - leaps_before 1970) + days_before_month y m + (d - 1).

Definition valid_date (y m d : Z) : Prop := 1 <= m <= 12 ∧ 1 <= d <= month_length y m.

(** * The computation: years begin in March, and four centuries are a period *)

Lemma quot_floor z k n :
  k = n - 1 → 0 < n → Z.quot (if 0 <=? z then z else z - k) n = z / n.
Proof.
  intros -> Hn. destruct (Z.leb_spec 0 z); [by apply Z.quot_div_nonneg|].
  rewrite <- (Z.opp_involutive (z - (n - 1))), Z.quot_opp_l, Z.quot_div_nonneg by lia.
  set (k := - (z - (n - 1)) / n). apply (Z.div_unique z n _ (z + n * k)); [|lia].
  pose proof (Z.div_mod (- (z - (n - 1))) n ltac:(lia)).
  pose proof (Z.mod_pos_bound (- (z - (n - 1))) n Hn). subst k. lia.
Qed.

Lemma year_of_era doe : 0 <= doe < 146097 →
  let yoe := (doe - doe / 1460 + doe / 36524 - doe / 146096) / 365 in
  let doy := doe - (365 * yoe + yoe / 4 - yoe / 100) in
  0 <= yoe < 400 ∧ 0 <= doy < 366 ∧ (doy = 365 → (yoe + 1) mod 4 = 0 ∧ ((yoe + 1) mod 100 = 0 → yoe = 399)).
Proof.
  intros Hdoe yoe doy. subst doy yoe.
  assert (doe / 146096 = 0 ∨ doe / 146096 = 1) as Hq3 by (Z.to_euclidean_division_equations; lia).
  assert (0 <= doe / 36524 <= 4) as Hq2 by (Z.to_euclidean_division_equations; lia).
  split_and!; Z.to_euclidean_division_equations; lia.
Qed.

Definition leap_day (y : Z) : Z := if is_leap y then 1 else 0.

Lemma leaps_through y : leaps_before y + leap_day y = y / 4 - y / 100 + y / 400.
Proof.
  unfold leaps_before, leap_day, is_leap.
  destruct (Z.eqb_spec (y mod 4) 0), (Z.eqb_spec (y mod 100) 0), (Z.eqb_spec (y mod 400) 0);
    simpl; Z.to_euclidean_division_equations; lia.
Qed.

Lemma month_of_year mp :
  0 <= mp < 12 → mp = 0 ∨ mp = 1 ∨ mp = 2 ∨ mp = 3 ∨ mp = 4 ∨ mp = 5 ∨ mp = 6 ∨ mp = 7 ∨ mp = 8
    ∨ mp = 9 ∨ mp = 10 ∨ mp = 11.
Proof. lia. Qed.

(** The months from March on, and the two before. *)
Lemma march_months y mp : 0 <= mp < 10 →
  days_before_month y (mp + 3) = (153 * mp + 2) / 5 + 59 + leap_day y
  ∧ month_length y (mp + 3) = (153 * (mp + 1) + 2) / 5 - (153 * mp + 2) / 5.
Proof.
  intros Hmp.
  destruct (month_of_year mp) as [->|[->|[->|[->|[->|[->|[->|[->|[->|[->|Hm]]]]]]]]]]; [lia|..|lia];
    cbv -[is_leap]; by destruct (is_leap y).
Qed.

(** A year is its place in its era of four centuries. *)
Lemma year_in_era yoe era : 0 <= yoe < 400 →
  leaps_before (yoe + era * 400) + leap_day (yoe + era * 400) = yoe / 4 - yoe / 100 + 97 * era.
Proof.
  intros Hyoe. rewrite leaps_through.
  replace ((yoe + era * 400) / 4) with (yoe / 4 + 100 * era) by (Z.to_euclidean_division_equations; lia).
  replace ((yoe + era * 400) / 100) with (yoe / 100 + 4 * era) by (Z.to_euclidean_division_equations; lia).
  replace ((yoe + era * 400) / 400) with era by (Z.to_euclidean_division_equations; lia).
  lia.
Qed.

(** The day and the month of a day of a year that begins in March. *)
Lemma march_date y doy mp :
  0 <= doy < 366 → mp = (5 * doy + 2) / 153 → mp < 10 →
  valid_date y (mp + 3) (doy - (153 * mp + 2) / 5 + 1)
  ∧ days_before_month y (mp + 3) + (doy - (153 * mp + 2) / 5) = doy + 59 + leap_day y.
Proof.
  intros Hdoy Hmp Hlt.
  assert (0 <= mp) by (subst; Z.to_euclidean_division_equations; lia).
  destruct (march_months y mp) as [Hbefore Hlength]; [lia|].
  assert ((153 * mp + 2) / 5 <= doy < (153 * (mp + 1) + 2) / 5)
    by (subst mp; Z.to_euclidean_division_equations; lia).
  unfold valid_date. lia.
Qed.

(** January and February belong to the next year. *)
Lemma winter_date y doy mp :
  0 <= doy < 366 → mp = (5 * doy + 2) / 153 → 10 <= mp → (doy = 365 → is_leap y = true) →
  valid_date y (mp - 9) (doy - (153 * mp + 2) / 5 + 1)
  ∧ days_before_month y (mp - 9) + (doy - (153 * mp + 2) / 5) = doy - 306.
Proof.
  intros Hdoy Hmp Hge Hleap.
  assert (mp = 10 ∧ 306 <= doy < 337 ∨ mp = 11 ∧ 337 <= doy) as [[-> Hday]|[-> Hday]]
    by (subst mp; Z.to_euclidean_division_equations; lia); clear Hmp.
  - change ((153 * 10 + 2) / 5) with 306. change (10 - 9) with 1.
    change (days_before_month y 1) with 0. unfold valid_date. change (month_length y 1) with 31. lia.
  - change ((153 * 11 + 2) / 5) with 337. change (11 - 9) with 2.
    change (days_before_month y 2) with 31. unfold valid_date, month_length. simpl.
    destruct (decide (doy = 365)) as [->|]; [rewrite Hleap by done; lia|].
    destruct (is_leap y); lia.
Qed.

Lemma last_day_is_leap yoe era : 0 <= yoe < 400 →
  (yoe + 1) mod 4 = 0 → ((yoe + 1) mod 100 = 0 → yoe = 399) → is_leap (yoe + era * 400 + 1) = true.
Proof.
  intros Hyoe H4 H100. unfold is_leap.
  replace ((yoe + era * 400 + 1) mod 4) with 0 by (Z.to_euclidean_division_equations; lia).
  destruct (Z.eqb_spec ((yoe + era * 400 + 1) mod 100) 0) as [Hc|]; simpl; [|done].
  apply Z.eqb_eq. assert (yoe = 399) as ->; Z.to_euclidean_division_equations; lia.
Qed.

(** C35: The dates of the admin pages are those of the Gregorian calendar on every day, also before
    1970: the year, month and day are a date (the month between 1 and 12, the day within the
    month, leap years included), and it is exactly the given number of days from 1970-01-01. *)
Theorem civil_from_days_is_gregorian n :
  let '(y, m, d) := civil_from_days n in valid_date y m d ∧ days_of_date y m d = n.
Proof.
  unfold civil_from_days. cbv zeta.
  rewrite (quot_floor (n + 719468) 146096 146097) by lia.
  set (z := n + 719468). set (era := z / 146097). set (doe := z - era * 146097).
  assert (0 <= doe < 146097) as Hdoe by (subst doe era; Z.to_euclidean_division_equations; lia).
  rewrite !(Z.quot_div_nonneg doe) by lia.
  pose proof (year_of_era doe Hdoe) as (Hyoe & Hdoy & Hleap). cbv zeta in *.
  assert (0 <= doe - doe / 1460 + doe / 36524 - doe / 146096) as Hnum
    by (Z.to_euclidean_division_equations; lia).
  rewrite (Z.quot_div_nonneg (doe - doe / 1460 + doe / 36524 - doe / 146096)) by lia.
  set (yoe := (doe - doe / 1460 + doe / 36524 - doe / 146096) / 365) in *. clearbody yoe.
  rewrite !(Z.quot_div_nonneg yoe) by lia.
  set (doy := doe - (365 * yoe + yoe / 4 - yoe / 100)) in *.
  assert (n = doy + 365 * yoe + yoe / 4 - yoe / 100 + 146097 * era - 719468) as Hn by lia.
  clearbody doy. clear doe Hdoe Hnum. 
  rewrite (Z.quot_div_nonneg (5 * doy + 2)) by lia.
  set (mp := (5 * doy + 2) / 153).
  assert (0 <= mp < 12) as Hmp by (subst mp; Z.to_euclidean_division_equations; lia).
  rewrite (Z.quot_div_nonneg (153 * mp + 2)) by lia.
  pose proof (year_in_era yoe era Hyoe) as Hyear. unfold days_of_date.
  change (leaps_before 1970) with 477. destruct (Z.ltb_spec mp 10) as [Hm|Hm].
  - destruct (march_date (yoe + era * 400) doy mp) as [Hvalid Hdays]; [done..|].
    destruct (Z.leb_spec (mp + 3) 2); [lia|]. rewrite Z.add_0_r. split; [done|lia].
  - destruct (winter_date (yoe + era * 400 + 1) doy mp) as [Hvalid Hdays]; [done..| |].
    { intros Hlast. destruct (Hleap Hlast). by apply last_day_is_leap. }
    replace (mp + -9) with (mp - 9) by lia. destruct (Z.leb_spec (mp - 9) 2); [|lia].
    split; [done|]. pose proof (leaps_through (yoe + era * 400)) as Hthrough.
    unfold leaps_before at 1. rewrite Z.add_simpl_r. lia.
Qed.
