(* ===== verification/CtlFacts.v ===== *)
(** Facts on the control tool: every command that changes the administration writes an audit row
    of its actor, a token that it mints signs in at the server of the same configuration, and the
    durations of its options. *)

From Stdlib Require Import ZArith Lia Ascii.
From stdpp Require Import base gmap strings list pretty.
From S2P Require Import Prelude Model Ports MemState ModelFacts Demo TokenSvc TokenFacts Files.
From S2P Require Import SqlRows SqlBase SqlAuthz SqlAccounts SqlGroups SqlGrants SqlTokens SqlAudited.
From S2P Require Import SqlStore SqlTuples SqlKeep SqlSchema SqlTyped SqlSessions SqlAuthzFacts.
From S2P Require Import Rs256 Rs256Facts KeyFacts SqlBearer HttpBase Config ServiceGraph HttpMoves.
From S2P Require Import HttpSqlite ServerFacts HttpDemo AdminFacts AuthCtl.

Notation disk w := (st w).1.
Notation store w := (st w).2.

(** * What a command may change *)

(** Tokens were issued, and nothing else changed. *)
Definition issued (db db' : Db) : Prop := ∃ tokens, db' = set_issued_tokens (λ rows, rows ++ tokens) db.

Definition reads_only (command : Command) : bool :=
  match command with
  | InitDb | SigningKeyCmd KeyList | UserCmd UserListCmd | GroupCmd GroupListCmd
  | RepoCmd RepoListCmd | GrantCmd (GrantListCmd _) | CheckCmd _ => true
  | _ => false
  end.

Definition writes_files (command : Command) : bool :=
  match command with
  | SigningKeyCmd (KeyGenerate _) => true
  | TokenCmd (Mint args) => negb (bool_decide (tm_out args = None))
  | TokenCmd (MintAuthn args) => negb (bool_decide (ta_out args = None))
  | _ => false
  end.

Definition change `{CtlLib} (command : Command) : Db → Db → Prop :=
  if reads_only command then λ db db', db' = db else
  match command with TokenCmd _ => issued | _ => logged Ctl.authctl_actor end.

#[export] Instance issued_preorder : PreOrder issued.
Proof.
  split.
  - intros []. exists []. unfold set_issued_tokens. simpl. by rewrite app_nil_r.
  - intros db1 db2 db3 [t1 ->] [t2 ->]. exists (t1 ++ t2). unfold set_issued_tokens. simpl.
    by rewrite app_assoc.
Qed.

#[export] Instance logged_preorder actor : PreOrder (logged actor).
Proof.
  split; [by left|]. intros db1 db2 db3 [->|(r1 & x1 & H1 & ?)] [->|(r2 & x2 & H2 & ?)].
  - by left.
  - right. eauto.
  - right. eauto.
  - right. exists (r1 ++ [x1] ++ r2), x2. rewrite H2, H1. by rewrite !app_assoc.
Qed.

#[export] Instance unchanged_preorder : PreOrder (λ db db' : Db, db' = db).
Proof. split; [done|]. by intros ??? -> ->. Qed.

#[export] Instance change_preorder `{CtlLib} command : PreOrder (change command).
Proof.
  unfold change. destruct (reads_only command); [typeclasses eauto|]. destruct command; typeclasses eauto.
Qed.

(** The store moves along [R], and the files stay unless [files]. *)
Definition moved (R : Db → Db → Prop) (files : bool) (w w' : World (Disk * Db)) : Prop :=
  R (store w) (store w') ∧ (files = false → disk w' = disk w).

#[export] Instance moved_order R `{!PreOrder R} files : WorldOrder (moved R files).
Proof.
  split; unfold moved.
  - by intros w.
  - intros w1 w2 w3 [H1 D1] [H2 D2]. split; [by transitivity (store w2)|]. intros Hf. by rewrite D2, D1.
  - by intros.
  - by intros.
Qed.

Section Moves.
Context `{Env} `{Sqlite} `{SerdeJson} `{FileSystem} (R : Db → Db → Prop) `{!PreOrder R}.

Lemma moved_in_store {A} files (m : H Db A) :
  (∀ w, R (st w) (st (m w).2)) → evolves (moved R files) (in_store m).
Proof.
  intros Hm w. unfold in_store, moved. specialize (Hm (mkWorld (store w) (ticks w) (draws w))).
  by destruct (m _) as [r w'].
Qed.

Lemma moved_stored {A} files (m : H Db A) :
  (∀ w, R (st w) (st (m w).2)) → evolves (moved R files) (Ctl.stored m).
Proof. intros Hm. apply evolves_map_err, moved_in_store, Hm. Qed.

Lemma moved_reads {A} files (m : H Db A) : readonly m → evolves (moved R files) (Ctl.stored m).
Proof. intros Hm. apply moved_stored. intros w. by rewrite Hm. Qed.

Lemma moved_context {A} files text (m : M Anyhow (Disk * Db) A) :
  evolves (moved R files) m → evolves (moved R files) (context text m).
Proof. apply evolves_map_err. Qed.

Lemma moved_on_disk f : evolves (moved R true) (on_disk f).
Proof. intros w. by split. Qed.

Lemma moved_allowed files op path : evolves (moved R files) (allowed_io op path).
Proof. unfold allowed_io. destruct (io_refused op path); [apply evolves_throw|apply evolves_ret]; typeclasses eauto. Qed.

Lemma moved_read_file files path : evolves (moved R files) (fs_read path).
Proof. unfold fs_read. evolve. apply moved_allowed. Qed.
End Moves.
#[export] Hint Resolve moved_reads moved_context moved_on_disk moved_allowed moved_read_file : handler.

(** ** Calls of the store *)

Section Calls.
Context `{Env} `{Sqlite} `{SerdeJson} `{AuthzCore} `{JwtLib}.

Ltac reads := apply readonly_of_preserves; intros I; preserve; try (unfold query_row; preserve).

Lemma readonly_keys : readonly SqlTokens.list_keys.
Proof. unfold SqlTokens.list_keys. reads. Qed.
Lemma readonly_active_key kid : readonly (SqlTokens.active_signing_key kid).
Proof. unfold SqlTokens.active_signing_key. reads. Qed.
Lemma readonly_users f : readonly (SqlAccounts.list_users f).
Proof. unfold SqlAccounts.list_users. reads. Qed.
Lemma readonly_groups : readonly SqlGroups.list_groups.
Proof. unfold SqlGroups.list_groups. reads. Qed.
Lemma readonly_resources : readonly SqlResources.list_resources.
Proof. unfold SqlResources.list_resources. reads. Qed.
Lemma readonly_by_resource_id id : readonly (SqlResources.get_by_resource_id id).
Proof. unfold SqlResources.get_by_resource_id. reads. Qed.
Lemma readonly_by_name name : readonly (SqlResources.get_by_name name).
Proof. unfold SqlResources.get_by_name. reads. Qed.
Lemma readonly_grants repo : readonly (SqlGrants.list_grants repo).
Proof. unfold SqlGrants.list_grants, SqlGrants.repository_id_by_name_conn. reads. Qed.
Lemma readonly_user user : readonly (SqlAccounts.resolve_user user).
Proof. unfold SqlAccounts.resolve_user. apply readonly_bind; auto with handler. Qed.
Lemma readonly_principal user_id : readonly (SqlAccounts.principal_by_user_id user_id).
Proof.
  unfold SqlAccounts.principal_by_user_id, SqlAccounts.group_names_conn.
  apply readonly_bind; [auto with handler|]. intros user. apply readonly_bind; [|auto with handler]. reads.
Qed.
Lemma readonly_can_access policy u r a : readonly (can_access (Rebac.rebac_authz policy) u r a).
Proof. apply reads_db_readonly, reads_db_can_access. Qed.

(** An audited write under the name that the tool calls. *)
Lemma audited_logged {A} actor op (m : H Db A) (f : A → admin_answer) :
  run_audited actor op = map_ok f m → ∀ w, logged actor (st w) (st (m w).2).
Proof.
  intros Hop w. pose proof (audited_calls_logged actor op w) as Hl. rewrite Hop in Hl.
  unfold map_ok, bind in Hl. by destruct (m w) as [[]].
Qed.

(** Minting appends a row, or nothing. *)
Lemma record_issues cfg policy signer signed user_id kind role w :
  let self := mkTokenService cfg SqlAccounts.sqlite_accounts SqlResources.sqlite_resources
    (Rebac.rebac_authz policy) signer (Some SqlTokens.sqlite_issued_log) in
  issued (st w) (st (record self signed user_id kind role w).2).
Proof.
  unfold record, SqlTokens.sqlite_issued_log, SqlTokens.record_issued, insert_row, map_err. mrun.
  destruct (_ && _); [|by apply (reflexivity (R := issued))]. simpl. by eexists [_].
Qed.
End Calls.
#[export] Hint Resolve readonly_keys readonly_active_key readonly_users readonly_groups readonly_resources
  readonly_by_resource_id readonly_by_name readonly_grants readonly_user readonly_principal
  readonly_can_access : handler.

(** ** Minting *)

Definition on_db (R : Db → Db → Prop) (w w' : World Db) : Prop := R (st w) (st w').

#[export] Instance on_db_order R `{!PreOrder R} : WorldOrder (on_db R).
Proof. split; unfold on_db; try done. intros w1 w2 w3 ? ?. by transitivity (st w2). Qed.

Lemma readonly_evolves {A} R `{!PreOrder R} (m : H Db A) : readonly m → evolves (on_db R) m.
Proof. intros Hm w. unfold on_db. by rewrite Hm. Qed.

Section Mint.
Context `{Env} `{Sqlite} `{SerdeJson} `{AuthzCore} `{JwtLib}.
Context (cfg : TokenConfig) (policy : Rebac.RebacAuthorizationPolicy) (signer : Signer.t).

(** The token service of the tool, and of the server. *)
Definition stored_tokens : TokenService Db :=
  mkTokenService cfg SqlAccounts.sqlite_accounts SqlResources.sqlite_resources
    (Rebac.rebac_authz policy) (Signer.token_signer signer) (Some SqlTokens.sqlite_issued_log).

Lemma record_moves signed user_id kind role : evolves (on_db issued) (record stored_tokens signed user_id kind role).
Proof. intros w. apply (record_issues cfg policy (Signer.token_signer signer)). Qed.

Lemma sign_authn_moves input : evolves (on_db issued) (Signer.sign_authn signer input).
Proof. apply aside_evolves; [typeclasses eauto|]. apply (rs256_aside signer). Qed.
Lemma sign_authz_moves input : evolves (on_db issued) (Signer.sign_authz signer input).
Proof. apply aside_evolves; [typeclasses eauto|]. apply (rs256_aside signer). Qed.

Lemma mint_authn_issues user_id ttl : evolves (on_db issued) (mint_authn stored_tokens user_id ttl).
Proof.
  unfold mint_authn. simpl. evolve; [|apply record_moves].
  apply evolves_map_err. apply sign_authn_moves.
Qed.

Lemma exchange_resource_moves user_id id : evolves (on_db issued) (exchange_resource stored_tokens user_id id).
Proof.
  apply readonly_evolves; [typeclasses eauto|].
  apply (exchange_resource_readonly stored_tokens (sqlite_read_ports policy)).
Qed.

Lemma manual_mint_issues user_id repo role ttl :
  evolves (on_db issued) (manual_mint_authz stored_tokens user_id repo role ttl).
Proof.
  unfold manual_mint_authz, exchange_authz. simpl.
  evolve; try apply record_moves; try (apply readonly_evolves; [typeclasses eauto|solve [auto with handler]]).
  - apply readonly_evolves; [typeclasses eauto|]. apply (readonly_can_access policy).
  - apply exchange_resource_moves.
  - apply evolves_map_err. apply sign_authz_moves.
Qed.
End Mint.

(** ** Commands *)

Section Commands.
Context `{Env} `{Sqlite} `{SerdeJson} `{AuthzCore} `{HttpLib} `{ConfigLib} `{JwtLib}.
Context `{FileSystem} `{CtlLib}.

(** The policy that a command goes on with is that of the store. *)
Lemma with_policy {A} R `{!PreOrder R} files (k : AuthorizationPolicy Db → M Anyhow (Disk * Db) A) :
  (∀ policy, evolves (moved R files) (k (Rebac.rebac_authz policy))) →
  evolves (moved R files) (authz <- Ctl.build_authorization_policy ;; k authz).
Proof.
  intros Hk w. unfold Ctl.build_authorization_policy. mrun.
  destruct Rebac.new as [policy|err]; simpl; [apply Hk|apply wo_refl].
Qed.

Ltac walk_step :=
  first [ apply with_policy; [typeclasses eauto|intros ?]
        | apply moved_reads; [typeclasses eauto|solve [auto with handler]]
        | apply moved_context; [typeclasses eauto..|]
        | apply evolves_map_err; [typeclasses eauto..|]
        | evolve_step ].
Ltac walk := repeat walk_step.

Ltac logs op :=
  apply moved_in_store; eapply (audited_logged _ op); reflexivity.

Lemma subject_moves R `{!PreOrder R} files value :
  evolves (moved R files) (Ctl.resolve_grant_subject value).
Proof. unfold Ctl.resolve_grant_subject, Ctl.subject_parts. walk. Qed.

Lemma idp_moves R `{!PreOrder R} files cfg idp provider issuer :
  evolves (moved R files) (Ctl.resolve_user_idp cfg idp provider issuer).
Proof. unfold Ctl.resolve_user_idp. walk. Qed.

Lemma env_moves R `{!PreOrder R} files path db : evolves (moved R files) (Ctl.open_env path db).
Proof. unfold Ctl.open_env. walk. Qed.

Lemma resolve_user_moves R `{!PreOrder R} files user : evolves (moved R files) (Ctl.resolve_user user).
Proof. unfold Ctl.resolve_user. walk. Qed.
#[local] Hint Resolve subject_moves idp_moves resolve_user_moves : handler.

Lemma user_moves env command :
  evolves (moved (change (UserCmd command)) false) (Ctl.run_user env command).
Proof.
  destruct command as [args|args| |user|user]; unfold change; simpl; walk.
  - logs (DAddInvitation (mkAddInvitationInput s s0 (ui_email args) (ui_name args) "verified_email_invitation" 0)).
  - logs (DAddUser (mkAddUserInput (ua_email args) (ua_name args))).
  - logs (DDisableUser user).
  - logs (DEnableUser user).
Qed.

Lemma group_moves command : evolves (moved (change (GroupCmd command)) false) (Ctl.run_group command).
Proof.
  destruct command as [[name description]| |[[g u]|[g u]]|[[p m]|[p m]]]; unfold change; simpl; walk.
  - logs (DAddGroup name description).
  - logs (DAddGroupMember g u).
  - logs (DRemoveGroupMember g u).
  - logs (DAddGroupGroup p m).
  - logs (DRemoveGroupGroup p m).
Qed.

Lemma repo_moves command : evolves (moved (change (RepoCmd command)) false) (Ctl.run_repo command).
Proof.
  destruct command as [args|]; unfold change; simpl; walk.
  logs (DUpsert (mkResource "" (ra_name args) (ra_remote args) (ra_lore_repository_id args) "" "")).
Qed.

Lemma grant_moves command : evolves (moved (change (GrantCmd command)) false) (Ctl.run_grant command).
Proof.
  destruct command as [args|args|repo]; unfold change; simpl; walk.
  - logs (DAddGrant s s0 (gc_repo args) (gc_role args)).
  - logs (DRemoveGrant s s0 (gc_repo args) (gc_role args)).
Qed.

Lemma check_moves args : evolves (moved (change (CheckCmd args)) false) (Ctl.run_check args).
Proof. unfold change, Ctl.run_check. simpl. walk. Qed.

(** Minting on the services of the tool. *)
Lemma minted {A} files (m : H Db A) : evolves (on_db issued) m → evolves (moved issued files) (in_store m).
Proof. intros Hm. apply moved_in_store, Hm. Qed.

Lemma evolves_assoc {A B C} (R : World (Disk * Db) → World (Disk * Db) → Prop) (m : M Anyhow (Disk * Db) A)
    (f : A → M Anyhow (Disk * Db) B) (k : B → M Anyhow (Disk * Db) C) :
  evolves R (bind m (λ a, bind (f a) k)) → evolves R (bind (bind m f) k).
Proof. intros Hm w. specialize (Hm w). unfold bind in *. by destruct (m w) as [[a|e] w1]. Qed.

Lemma load_pem_moves R `{!PreOrder R} files kid path :
  evolves (moved R files) (Signer.from_pem_file (S := Db) kid path).
Proof.
  unfold Signer.from_pem_file, load_pem, crypto, crypto_result. walk.
Qed.

Lemma with_tokens {A} R `{!PreOrder R} files env (k : TokenService Db → M Anyhow (Disk * Db) A) :
  (∀ cfg policy signer, evolves (moved R files) (k (stored_tokens cfg policy signer))) →
  evolves (moved R files) (tokens <- Ctl.build_token_service env ;; k tokens).
Proof.
  intros Hk. unfold Ctl.build_token_service.
  apply evolves_assoc. apply evolves_bind; [typeclasses eauto|walk|]. intros meta.
  apply evolves_assoc. apply evolves_bind; [typeclasses eauto|walk; apply load_pem_moves; typeclasses eauto|].
  intros signer. apply evolves_assoc. apply with_policy; [typeclasses eauto|]. intros policy.
  apply evolves_assoc. apply evolves_bind; [typeclasses eauto|walk|]. intros audience.
  apply evolves_assoc. apply evolves_bind; [typeclasses eauto|unfold Ctl.duration_secs; walk|].
  intros ttl. intros w. apply (Hk _ policy signer).
Qed.

Lemma emit_moves label token out print cfg :
  evolves (moved issued (negb (bool_decide (out = None)))) (Ctl.emit_token label token out print cfg).
Proof.
  destruct out as [path|]; [|unfold Ctl.emit_token; walk].
  unfold Ctl.emit_token, Ctl.write_secret_file, create_dir_all, open_options, write_all. simpl. walk;
    apply moved_on_disk; typeclasses eauto.
Qed.

Lemma token_moves env command :
  evolves (moved (change (TokenCmd command)) (writes_files (TokenCmd command))) (Ctl.run_token env command).
Proof.
  unfold Ctl.run_token, change. simpl. apply with_tokens; [typeclasses eauto|]. intros cfg policy signer.
  destruct command as [args|args]; simpl; walk; try apply emit_moves;
    apply minted; [apply manual_mint_issues|apply mint_authn_issues].
Qed.

Lemma key_moves env command :
  evolves (moved (change (SigningKeyCmd command)) (writes_files (SigningKeyCmd command)))
    (Ctl.run_signing_key env command).
Proof.
  destruct command as [args|]; unfold change; simpl; walk.
  intros w. simpl. destruct (SigningKeyAdmin.generate_active_key _ _ _ _ w) as [r w'] eqn:Hrun.
  apply generate_active_run in Hrun as [_ Hr]. split; [|done]. simpl. destruct r as [meta|err]; [|by left].
  destruct Hr as (_ & _ & _ & _ & row & audit & _ & _ & Haudit & Hactor). right. by exists [], audit.
Qed.

End Commands.

(** * Tokens of the tool at the server *)

Section Token.
Context `{Env} `{Sqlite} `{SerdeJson} `{AuthzCore} `{HttpLib} `{ConfigLib} `{JwtLib}.
Context `{FileSystem} `{CtlLib}.

(** What the tool and the server read of the files and of the key rows. *)
Definition pem_on (kid path : string) (d : Disk) : result Error Signer.t :=
  (Signer.from_pem_file kid path (mkWorld (d, empty_db) 0 0)).1.

Lemma from_pem_run kid path (w : World (Disk * Db)) :
  Signer.from_pem_file kid path w = (pem_on kid path (disk w), w).
Proof.
  destruct w as [[d db] t n]. unfold pem_on, Signer.from_pem_file, load_pem, crypto, fs_read, allowed_io. mrun.
  destruct (is_empty kid); [done|]. destruct (io_refused OpRead path); [done|]. simpl.
  destruct (d_files d !! path); [|done]. simpl. destruct (utf8_error _); [done|]. simpl.
  destruct (parse_rsa_private_key _); [|done]. by destruct (from_private _ _).
Qed.

Lemma pem_signer kid path d signer :
  pem_on kid path d = Ok signer →
  Signer.sg_verification_time signer = None ∧ ∃ k, from_private kid k = Ok (Signer.sg_key signer).
Proof.
  unfold pem_on, Signer.from_pem_file, load_pem. intros Hrun.
  destruct (map_ok _ _ _) as [[s|] w'] eqn:Hw; [|done]. injection Hrun as ->.
  destruct (is_empty kid); minv. destruct (utf8_error _); minv. split; [done|]. eauto.
Qed.

Definition active_on (kid : string) (rows : list SigningKeyRow) : result CoreError SigningKeyMeta :=
  match hd_error (order_by_int_desc kr_created_at (where_ (λ r,
          String.eqb (kr_status r) "active" && (is_empty kid || String.eqb (kr_kid r) kid)) rows)) with
  | Some row => Ok (signing_key_from_row row)
  | None => Err NotFound
  end.

Lemma active_run kid (w : World (Disk * Db)) :
  in_store (SqlTokens.active_signing_key kid) w = (active_on kid (db_signing_keys (store w)), w).
Proof.
  destruct w as [[d db] t n]. unfold in_store, SqlTokens.active_signing_key, active_on. mrun.
  by destruct (hd_error _).
Qed.

(** The signer of a configuration, on the files and key rows of a world. *)
Definition signer_on (cfg : Config) (w : World (Disk * Db)) (signer : Signer.t) : Prop :=
  ∃ meta, active_on (jc_active_kid (cfg_jwt cfg)) (db_signing_keys (store w)) = Ok meta
    ∧ pem_on (sk_kid meta) (sk_private_key_path meta) (disk w) = Ok signer.

Lemma preflight_same signer meta (w : World (Disk * Db)) r w' :
  preflight_signer signer meta w = (r, w') → w' = w.
Proof.
  unfold preflight_signer, Signer.jwks, context. mrun.
  destruct (value_to_vec _); simpl; [|by intros [= _ <-]].
  destruct (value_from_slice _); simpl; [|by intros [= _ <-]].
  destruct (first_key _); simpl; [|by intros [= _ <-]].
  destruct (is_empty _); [by intros [= _ <-]|].
  destruct (value_from_slice _); simpl; [|by intros [= _ <-]].
  destruct (negb _); by intros [= _ <-].
Qed.

Lemma load_signer_Ok cfg w signer w' :
  load_signer cfg w = (Ok signer, w') → w' = w ∧ signer_on cfg w signer.
Proof.
  unfold load_signer, context. intros Hrun. minv.
  match goal with H : in_store _ _ = _ |- _ => rewrite active_run in H; injection H as Hactive <- end.
  match goal with H : Signer.from_pem_file _ _ _ = _ |- _ => rewrite from_pem_run in H; injection H as Hpem <- end.
  match goal with H : preflight_signer _ _ _ = _ |- _ => apply preflight_same in H as -> end.
  split; [done|]. by eexists.
Qed.

(** The token service of a configuration: the tool and the server build the same. *)
Definition tokens_of (cfg : Config) (signer : Signer.t) (tokens : TokenService Db) : Prop :=
  ∃ policy audience,
    Rebac.new = Ok policy ∧ public_host (sc_public_base_url (cfg_server cfg)) = Ok audience
    ∧ tokens = stored_tokens
        (mkTokenConfig (jc_issuer (cfg_jwt cfg)) (jc_audience (cfg_jwt cfg)) audience
           (from_secs (jc_ttl_seconds (cfg_jwt cfg))) (from_secs (15 * 60))) policy signer.

Lemma tokens_unique cfg signer tokens tokens' :
  tokens_of cfg signer tokens → tokens_of cfg signer tokens' → tokens' = tokens.
Proof. intros (p & a & Hp & Ha & ->) (p' & a' & Hp' & Ha' & ->). congruence. Qed.

Lemma token_service_Ok env w tokens w' :
  Ctl.build_token_service env w = (Ok tokens, w') →
  w' = w ∧ ∃ signer, signer_on (Ctl.ce_cfg env) w signer ∧ tokens_of (Ctl.ce_cfg env) signer tokens.
Proof.
  unfold Ctl.build_token_service, Ctl.build_authorization_policy, Ctl.duration_secs, Ctl.stored, context.
  intros Hrun. minv.
  match goal with H : in_store _ _ = _ |- _ => rewrite active_run in H; injection H as Hactive <- end.
  match goal with H : Signer.from_pem_file _ _ _ = _ |- _ => rewrite from_pem_run in H; injection H as Hpem <- end.
  split; [done|]. eexists. split; [by eexists|]. by eexists _, _.
Qed.

Lemma graph_tokens discover signer cfg graph :
  build_graph discover (Signer.token_signer signer) cfg = Some graph → tokens_of cfg signer (sg_tokens graph).
Proof.
  unfold build_graph, duration_secs, ServiceGraph.duration_secs. intros Hg.
  apply bind_Some in Hg as (registry & _ & Hg). apply bind_Some in Hg as (policy & Hp & Hg).
  apply bind_Some in Hg as (audience & Ha & Hg). apply bind_Some in Hg as (ttl & Httl & Hg).
  repeat (apply bind_Some in Hg as (? & _ & Hg)). injection Hg as <-.
  exists policy, audience. destruct Rebac.new; [|done]. destruct (public_host _); [|done].
  destruct (_ <? 0)%Z; [done|]. simpl in *. by simplify_eq.
Qed.

Lemma env_Ok path db (w : World (Disk * Db)) env w' cfg :
  Ctl.open_env path db w = (Ok env, w') → load path = Ok cfg →
  w' = w ∧ (Ctl.ce_cfg env = cfg ∨ ∃ d, Ctl.ce_cfg env = Ctl.set_database_path d cfg).
Proof.
  unfold Ctl.open_env, context. intros Hrun Hload. rewrite Hload in Hrun. mrun.
  destruct (open_error _); [done|]. destruct (migrate_error _); [done|]. injection Hrun as <- <-.
  split; [done|]. destruct db as [d|]; [right; by exists d|by left].
Qed.

(** The database path is the one difference between the configurations of the tool and of the
    server; neither the signer nor the tokens depend on it. *)
Lemma same_tokens env cfg w signer tokens :
  Ctl.ce_cfg env = cfg ∨ (∃ d, Ctl.ce_cfg env = Ctl.set_database_path d cfg) →
  signer_on (Ctl.ce_cfg env) w signer → tokens_of (Ctl.ce_cfg env) signer tokens →
  signer_on cfg w signer ∧ tokens_of cfg signer tokens.
Proof. by intros [->|[d ->]]. Qed.

Lemma signer_unique cfg w w' signer signer' :
  disk w' = disk w → db_signing_keys (store w') = db_signing_keys (store w) →
  signer_on cfg w signer → signer_on cfg w' signer' → signer' = signer.
Proof.
  intros Hd Hk (meta & Ha & Hp) (meta' & Ha' & Hp'). rewrite Hk in Ha'. rewrite Hd in Hp'. congruence.
Qed.

Lemma stored_Ok {A} (m : H Db A) (w : World (Disk * Db)) a w' :
  Ctl.stored m w = (Ok a, w') →
  ∃ v, m (mkWorld (store w) (ticks w) (draws w)) = (Ok a, v)
    ∧ w' = mkWorld (disk w, st v) (ticks v) (draws v).
Proof.
  unfold Ctl.stored, in_store, map_err. destruct (m _) as [[?|?] v]; [|done]. intros [= -> <-]. by exists v.
Qed.

(** The store of a world, as the services see it. *)
Definition store_world (w : World (Disk * Db)) : World Db := mkWorld (store w) (ticks w) (draws w).

Lemma resolved_user user (w : World Db) u w' :
  SqlAccounts.resolve_user user w = (Ok u, w') → ∃ row, row ∈ db_users (st w) ∧ ur_id row = u_id u.
Proof.
  unfold SqlAccounts.resolve_user. intros Hrun. apply bind_Ok_inv in Hrun as (id & w1 & Hid & Hrun).
  apply (readonly_eq _ _ _ _ (readonly_resolve_user user)) in Hid.
  unfold SqlAccounts.user_by_id_conn, query_row in Hrun. minv.
  match goal with H : hd_error _ = Some ?row |- _ => apply elem_of_hd, elem_of_where in H as [Hin _]; exists row end.
  split; [congruence|done].
Qed.

(** A run of [token mint-authn] that prints its token. *)
Lemma mint_authn_run env args w lines w1 :
  ta_out args = None → Ctl.run_token env (MintAuthn args) w = (Ok lines, w1) →
  ∃ signer tokens user signed user' wa,
    signer_on (Ctl.ce_cfg env) w signer ∧ tokens_of (Ctl.ce_cfg env) signer tokens
    ∧ SqlAccounts.resolve_user (ta_user args) (store_world w) = (Ok user, wa) ∧ st wa = store w
    ∧ mint_authn tokens (u_id user) (ta_ttl args) wa = (Ok (signed, user'), store_world w1)
    ∧ disk w1 = disk w ∧ Stdout (stk_token signed) ∈ lines.
Proof.
  intros Hout Hrun. unfold Ctl.run_token in Hrun. apply bind_Ok_inv in Hrun as (tokens & w0 & Hsvc & Hrun).
  apply token_service_Ok in Hsvc as (-> & signer & Hsigner & Htokens).
  apply bind_Ok_inv in Hrun as (user & w2 & Huser & Hrun).
  unfold Ctl.resolve_user, context in Huser. apply map_err_Ok_inv in Huser.
  apply stored_Ok in Huser as (wa & Huser & ->).
  apply bind_Ok_inv in Hrun as ([signed user'] & w3 & Hmint & Hrun).
  apply stored_Ok in Hmint as (wb & Hmint & ->). unfold Ctl.emit_token in Hrun. rewrite Hout in Hrun.
  injection Hrun as <- <-. exists signer, tokens, user, signed, user', wa.
  assert (st wa = store w) as Hwa by exact (readonly_eq _ _ _ _ (readonly_user _) Huser).
  simpl in *. split_and!; try done; [|by right; left].
  destruct wa, wb. exact Hmint.
Qed.

End Token.

(** * Durations *)

Section Durations.
Context `{Env}.

Definition digit (c : ascii) : bool := (48 <=? nat_of_ascii c) && (nat_of_ascii c <=? 57).

Lemma digit_char (d : N) :
  (d < 10)%N → digit (pretty_N_char d) = true ∧ (Z.of_nat (nat_of_ascii (pretty_N_char d)) - 48 = Z.of_N d)%Z.
Proof.
  intros Hd. destruct d as [|p]; [by vm_compute|].
  repeat (destruct p as [p|p|]; try (by vm_compute); try lia).
Qed.

Lemma u64_digit (d : N) s acc :
  (d < 10)%N → (0 <= acc)%Z → (acc * 10 + Z.of_N d <= Ctl.u64_max)%Z →
  Ctl.u64_digits (String (pretty_N_char d) s) acc = Ctl.u64_digits s (acc * 10 + Z.of_N d).
Proof.
  intros Hd Hacc Hmax. simpl. destruct (digit_char d Hd) as [_ ->].
  destruct ((Z.of_N d <? 0) || (9 <? Z.of_N d))%Z eqn:Hb; [lia|].
  destruct (Z.ltb_spec Ctl.u64_max (acc * 10 + Z.of_N d)); [lia|done].
Qed.

(** The decimal digits of a number in range are read back. *)
Lemma u64_digits_pretty (n : N) s :
  (0 < n)%N → (Z.of_N n <= Ctl.u64_max)%Z →
  Ctl.u64_digits (pretty_N_go n s) 0 = Ctl.u64_digits s (Z.of_N n).
Proof.
  revert s. induction (N.lt_wf_0 n) as [n _ IH]. intros s Hpos Hmax.
  rewrite pretty_N_go_step by done.
  pose proof (N.div_mod' n 10) as Hdiv. pose proof (N.mod_lt n 10 ltac:(lia)) as Hmod.
  assert (n `div` 10 < n)%N as Hlt by (apply N.div_lt; lia).
  remember (n `div` 10)%N as q eqn:Hq. remember (n `mod` 10)%N as r eqn:Hr. clear Hq Hr.
  destruct (decide (q = 0)%N) as [->|Hz].
  - rewrite pretty_N_go_0, u64_digit by lia. f_equal. lia.
  - rewrite IH by lia. rewrite u64_digit by lia. f_equal. lia.
Qed.

Lemma digits_go (n : N) s : all_bytes digit s = true → all_bytes digit (pretty_N_go n s) = true.
Proof.
  revert s. induction (N.lt_wf_0 n) as [n _ IH]. intros s Hs.
  destruct (decide (n = 0)%N) as [->|Hn]; [by rewrite pretty_N_go_0|].
  rewrite pretty_N_go_step by lia. apply IH; [apply N.div_lt; lia|]. simpl. rewrite Hs, andb_true_r.
  apply digit_char, N.mod_lt. lia.
Qed.

Lemma digits_pretty (n : N) : all_bytes digit (pretty n) = true.
Proof. unfold pretty, pretty_N. destruct (decide _); [done|]. by apply digits_go. Qed.

Lemma parse_pretty (n : N) : (Z.of_N n <= Ctl.u64_max)%Z → Ctl.parse_u64 (pretty n) = Ok (Z.of_N n).
Proof.
  intros Hn. assert (Ctl.u64_digits (pretty n) 0 = Ok (Z.of_N n)) as Hdigits.
  { unfold pretty, pretty_N. destruct (decide (n = 0)%N) as [->|]; [done|].
    rewrite u64_digits_pretty by lia. done. }
  assert (pretty n ≠ "") as Hne by (intros Heq; rewrite Heq in Hdigits; by destruct n).
  pose proof (digits_pretty n) as Hd. destruct (pretty n) as [|c digits]; [done|].
  simpl in Hd. apply andb_true_iff in Hd as [Hc _].
  rewrite <- Hdigits. destruct c as [[] [] [] [] [] [] [] []]; done.
Qed.

(** The units of a duration, with their seconds. *)
Definition unit_seconds : list (string * Z) := [("h", 3600%Z); ("m", 60%Z); ("s", 1%Z); ("", 1%Z)].

Lemma digit_solid c : digit c = true → solid c = true.
Proof. by destruct c as [[] [] [] [] [] [] [] []]. Qed.

Lemma digits_end digits unit : all_bytes digit digits = true → digit unit = false →
  strip_suffix (String unit "") digits = None.
Proof.
  intros Hd Hu. destruct (strip_suffix _ _) as [r|] eqn:Hs; [|done].
  apply strip_suffix_Some in Hs. subst digits. rewrite all_bytes_app in Hd. simpl in Hd.
  apply andb_true_iff in Hd as [_ Hd]. by rewrite Hu in Hd.
Qed.

Lemma suffix_differs a b s : a ≠ b → strip_suffix (String a "") (s +:+ String b "") = None.
Proof.
  intros Hab. destruct (strip_suffix _ _) as [r|] eqn:Hs; [|done].
  apply strip_suffix_Some, (f_equal String.rev) in Hs. rewrite !rev_app in Hs. by injection Hs as ->.
Qed.

Lemma u64_digits_range digits acc n :
  (0 <= acc <= Ctl.u64_max)%Z → Ctl.u64_digits digits acc = Ok n → (0 <= n <= Ctl.u64_max)%Z.
Proof.
  revert acc. induction digits as [|c digits IH]; simpl; intros acc Hacc; [by intros [= <-]|].
  destruct (_ || _) eqn:Hc; [done|]. destruct (Z.ltb_spec Ctl.u64_max (acc * 10 + (Z.of_nat (nat_of_ascii c) - 48))); [done|].
  apply IH. lia.
Qed.

Lemma parse_u64_range value n : Ctl.parse_u64 value = Ok n → (0 <= n <= Ctl.u64_max)%Z.
Proof.
  assert (0 <= 0 <= Ctl.u64_max)%Z as Hzero by done. unfold Ctl.parse_u64. intros Hp.
  repeat case_match; try done; by eapply u64_digits_range in Hp.
Qed.

(** The durations of the control tool: the decimal text of any 64-bit number with the unit h,
    m, s or none is read as that many seconds, saturating at the largest 64-bit number instead
    of wrapping, and no text gives a duration outside that range. *)
Theorem durations_parse_and_saturate :
  (∀ (n : N) unit seconds,
     (Z.of_N n <= Ctl.u64_max)%Z → (unit, seconds) ∈ unit_seconds →
     Ctl.parse_duration (pretty n +:+ unit) = Ok (from_secs (Z.min (Z.of_N n * seconds) Ctl.u64_max)))
  ∧ (∀ value d, Ctl.parse_duration value = Ok d → (0 <= dur_secs d <= Ctl.u64_max)%Z ∧ dur_nanos d = 0%Z).
Proof.
  split.
  - intros n unit seconds Hn Hin. pose proof (digits_pretty n) as Hd.
    pose proof (parse_pretty n Hn) as Hp.
    assert (pretty n ≠ "") as Hne by (intros Heq; by rewrite Heq in Hp).
    assert (all_bytes solid (pretty n +:+ unit) = true) as Hsolid.
    { rewrite all_bytes_app, (all_bytes_impl digit solid _ digit_solid Hd).
      repeat (apply elem_of_cons in Hin as [[= -> ->]|Hin]; [done|]). by apply elem_of_nil in Hin. }
    unfold Ctl.parse_duration. rewrite trim_all_solid by done.
    destruct (is_empty (pretty n +:+ unit)) eqn:He; [apply is_empty_true in He; by destruct (pretty n)|].
    repeat (apply elem_of_cons in Hin as [[= -> ->]|Hin]); [..|by apply elem_of_nil in Hin];
      rewrite ?string_app_nil_r; rewrite ?suffix_differs, ?strip_suffix_app, ?digits_end by done; by rewrite Hp.
  - intros value d. unfold Ctl.parse_duration. destruct (is_empty (trim value)); [done|].
    match goal with |- (let '(_, _) := ?u in _) = _ → _ =>
      assert (0 <= u.2)%Z as Hs by (repeat case_match; simpl; lia); destruct u as [digits seconds] end.
    destruct (Ctl.parse_u64 digits) as [amount|] eqn:Hp; [|done].
    apply parse_u64_range in Hp. intros [= <-]. simpl in *. split; [|done].
    assert (0 <= Ctl.u64_max)%Z by done. nia.
Qed.
End Durations.

(** * Examples *)

#[local] Existing Instances demo_authz_core demo_files.

#[local] Instance demo_ctl : CtlLib := {|
  env_var name := if String.eqb name "USER" then Some " ann " else None;
  open_error _ := None;
  migrate_error _ := None
|}.

Lemma durations_parse_and_saturate_witness :
  Ctl.parse_duration "90m" = Ok (from_secs 5400)
  ∧ Ctl.parse_duration "18446744073709551615h" = Ok (from_secs Ctl.u64_max).
Proof.
  split.
  - apply (proj1 durations_parse_and_saturate 90%N "m" 60%Z); [done|]. by right; left.
  - apply (proj1 durations_parse_and_saturate 18446744073709551615%N "h" 3600%Z); [done|]. by left.
Defined.

(** The office with the key of its signer. *)
Definition office_meta : SigningKeyMeta :=
  mkSigningKeyMeta "k1" ALG_RS256 (json_text (jwk_to_json (jwk office_key))) "keys/k1.pem" "active".

Definition keyed_world : World Db :=
  (run_sqls [SStore (DAudited "root" (DAddSigningKey office_meta 0))] office_world).2.

Definition ctl_world : World (Disk * Db) :=
  mkWorld (mkDisk {[ "keys/k1.pem" := mkFile (letters 7) 384 ]} {[ "keys" := 448%Z ]}, st keyed_world)
    (ticks keyed_world) (draws keyed_world).

Lemma ctl_schema : schema (store ctl_world).
Proof. apply (run_sqls_keeps schema _ office_world), office_schema. Qed.

Lemma ctl_ids u : u ∈ db_users (store ctl_world) → none_if_empty (ur_id u) = Some (ur_id u).
Proof.
  assert (forallb (λ u, bool_decide (none_if_empty (ur_id u) = Some (ur_id u)))
    (db_users (store ctl_world)) = true) as Hall by (vm_compute; reflexivity).
  intros Hu. rewrite forallb_forall in Hall. by apply list_elem_of_In, Hall, bool_decide_eq_true in Hu.
Qed.

Definition ctl (command : Command) : M Anyhow (Disk * Db) (list Line) :=
  Ctl.run (mkCli "bridge.yaml" (Some "other.db") command).

Definition add_eve : Command := UserCmd (UserAddCmd (mkUserAdd "eve@example.org" "Eve")).


Definition mint_bob : TokenMintAuthn := mkTokenMintAuthn "bob@example.org" None None false.

(** Bob's printed token is accepted by the server that starts then. *)
Definition printed_works (graph : ServiceGraph) (lines : list Line) (w : World Db) : bool :=
  forallb (λ line, match line with
                   | Stdout token => match verify_authn (sg_tokens graph) ("Bearer " +:+ token) w with
                                     | (Ok _, _) => true | _ => false end
                   | Stderr _ => true
                   end) lines.


(** A repository id with spaces around it is stored without them, and then not found under the id
    that was given: the command fails after the repository was added. *)
Example padded_repository_id :
  match ctl (RepoCmd (RepoAddCmd (mkRepoAdd "art" "lore://h/art" " art "))) ctl_world with
  | (Err err, w') =>
      (err, existsb (λ r, String.eqb (rep_lore_repository_id r) "art") (db_repositories (store w')))
  | (Ok _, _) => (Message "", false)
  end = (Message (core_error_to_string NotFound), true).
Proof. vm_compute. reflexivity. Qed.
