(* ===== verification/ProbeFacts.v ===== *)
(** Facts on the claim probe: the token files of its matrix are what their labels promise to the
    server under test, and the document of keys that it serves is that of the key it generated. *)

From Stdlib Require Import ZArith Lia Ascii.
From stdpp Require Import base gmap strings list.
From S2P Require Import Prelude Model Ports Files Demo Rs256 Rs256Facts KeyFacts.
From S2P Require Import Config ServiceGraph AuthCtl Probe.

Section Probing.
Context `{Env} `{JwtLib} `{FileSystem} `{ProbeLib}.
Notation files w := (d_files (st w).1).
Notation Probed := (World (Disk * list Output)).

(** ** Loading and minting *)

(** The key in a file, if the file can be read. *)
Definition loaded (kid path : string) (file : option File) : result Error SigningKey :=
  if is_empty kid then Err MissingKid else
  match io_refused OpRead path with
  | Some err => Err (Crypto ("read private key: " +:+ err))
  | None =>
      match file with
      | None => Err (Crypto ("read private key: " +:+ io_not_found))
      | Some file =>
          match utf8_error (file_bytes file) with
          | Some err => Err (Crypto ("parse pem: " +:+ err))
          | None =>
              match parse_rsa_private_key (file_bytes file) with
              | Ok private => from_private kid private
              | Err err => Err err
              end
          end
      end
  end.

Lemma load_pem_run kid path (w : Probed) : load_pem kid path w = (loaded kid path (files w !! path), w).
Proof.
  unfold load_pem, loaded, crypto, fs_read, allowed_io. destruct (is_empty kid); [done|].
  destruct (io_refused OpRead path); mrun; [done|]. destruct (files w !! path); mrun; [|done].
  destruct (utf8_error _); mrun; [done|]. destruct (parse_rsa_private_key _); by mrun.
Qed.

Lemma loaded_private kid path file key : loaded kid path file = Ok key → ∃ k, from_private kid k = Ok key.
Proof. unfold loaded. intros Hl. repeat case_match; try done. by eexists. Qed.

(** What the options of a token say of its resources and, minted at the time [t], of its end. *)
Definition resources_of (args : Probe.Mint) : list LoreResourcePermission :=
  if Probe.mi_no_resources args then [] else
  [mkLoreResourcePermission
     (Probe.choose_resource_id (Probe.mi_resource_id args) (Probe.mi_repository_id args))
     (Probe.split_csv (Probe.mi_permissions args))].

Definition lifetime (ttl : Probe.SignedDuration) : Z :=
  let secs := dur_secs (Probe.duration ttl) in
  if Probe.negative ttl then (- secs)%Z else dur_secs (default_ttl (Probe.duration ttl)).

Lemma claim_time_run {St} ttl (w w' : World St) now d :
  dur_nanos (Probe.duration ttl) = 0%Z →
  Probe.signed_duration_to_claim_time ttl w = (Ok (now, d), w') →
  st w' = st w ∧ ticks w' = S (ticks w)
  ∧ (now + dur_secs (default_ttl d) = clock (ticks w) + lifetime ttl)%Z.
Proof.
  unfold Probe.signed_duration_to_claim_time, Probe.checked_add, Probe.checked_sub, lifetime.
  intros Hn. destruct (Probe.negative ttl); simpl; mrun; [|by intros [= <- <- <-]].
  rewrite Hn. destruct (_ <? _)%Z; mrun; [done|]. simpl.
  destruct (_ <? _)%Z; mrun; [done|]. intros [= <- <- <-]. simpl. split_and!; [done..|].
  assert ((0 + 0) `div` 10 ^ 9 = 0)%Z as -> by done. lia.
Qed.

Lemma claims_at {St} opts t (w w' : World St) c :
  new_authn_claims opts w = (Ok c, w') → no_now opts = Some t → lc_issued_at c = t ∧ w' = w.
Proof.
  unfold new_authn_claims. intros Hrun Hnow. revert Hrun. rewrite Hnow. unfold default_now, lift.
  destruct (is_empty (no_issuer opts)), (is_nil (no_audience opts)), (is_empty (no_subject opts)),
    (is_empty (no_idp opts)); try done. mrun.
  destruct (unix_seconds t) as [n|] eqn:Hn; [|done]. apply unix_seconds_Ok in Hn as [-> _].
  destruct (time_add _ _); mrun; [|done]. destruct (unix_seconds _); mrun; [|done].
  by intros [= <- <-].
Qed.

(** The claims of a token that was minted at the time [t]. *)
Record minted_claims (args : Probe.Mint) (t : Z) (c : LoreClaims) : Prop := {
  mc_issued : i64 (lc_issued_at c);
  mc_expires : lc_expires_at c = (t + lifetime (Probe.mi_ttl args))%Z ∧ (0 <= lc_expires_at c <= i64_max)%Z;
  mc_subject : lc_subject c = Probe.mi_subject args;
  mc_issuer : lc_issuer c = Probe.mi_issuer args;
  mc_audience : lc_audience c = Probe.split_csv (Probe.mi_audience args);
  mc_resources : lc_resources c = resources_of args
}.

Lemma mint_run args (w w' : Probed) token :
  dur_nanos (Probe.duration (Probe.mi_ttl args)) = 0%Z →
  Probe.mint args w = (Ok token, w') →
  st w' = st w ∧ ticks w' = S (ticks w)
  ∧ ∃ key claims, loaded (Probe.mi_kid args) (Probe.mi_key args) (files w !! Probe.mi_key args) = Ok key
      ∧ minted_claims args (clock (ticks w)) claims ∧ sign_lore_claims key claims = Ok token.
Proof.
  intros Hn. unfold Probe.mint, Probe.signing. destruct (_ && _); [done|]. intros Hrun.
  apply bind_Ok_inv in Hrun as (key & w1 & Hload & Hrun). apply map_err_Ok_inv in Hload.
  rewrite load_pem_run in Hload. injection Hload as Hload <-.
  apply bind_Ok_inv in Hrun as ([now ttl] & w2 & Htime & Hrun).
  apply claim_time_run in Htime as (Hst & Htk & Hexp); [|done].
  apply bind_Ok_inv in Hrun as (claims & w3 & Hclaims & Hsign). apply map_err_Ok_inv in Hclaims, Hsign.
  unfold lift in Hsign. injection Hsign as Hsign <-.
  assert (w3 = w2 ∧ minted_claims args (clock (ticks w)) claims) as [-> Hc]; [|by eauto 10].
  unfold resources_of. destruct (Probe.mi_no_resources args) eqn:Hres.
  - destruct (claims_at _ now _ _ _ Hclaims eq_refl) as [Hiat ->].
    apply authn_claims_Ok in Hclaims as (_ & Hi & He & Hadd & Hsub & Hiss & Haud & _ & _ & _ & Hr).
    simpl in *. split; [done|]. split; try done; [split; [lia|done]|]. unfold resources_of. by rewrite Hres.
  - unfold new_authz_claims in Hclaims. simpl in Hclaims.
    apply bind_Ok_inv in Hclaims as (c & w4 & Hclaims & Hset). injection Hset as <- <-.
    destruct (claims_at _ now _ _ _ Hclaims eq_refl) as [Hiat ->].
    apply authn_claims_Ok in Hclaims as (_ & Hi & He & Hadd & Hsub & Hiss & Haud & _ & _ & _ & _).
    simpl in *. split; [done|]. split; simpl; try done; [split; [lia|done]|]. unfold resources_of. by rewrite Hres.
Qed.

(** ** Writing the files *)

Definition same_probe (w w' : Probed) : Prop := files w' = files w ∧ ticks w' = ticks w.

Lemma create_dir_same dir (w w' : Probed) r : create_dir_all dir w = (r, w') → same_probe w w'.
Proof. unfold create_dir_all, allowed_io, on_disk. destruct (io_refused _ _); mrun; by intros [= _ <-]. Qed.

Lemma create_parent_same path (w w' : Probed) r : Probe.create_parent path w = (r, w') → same_probe w w'.
Proof.
  unfold Probe.create_parent, context, map_err. destruct (is_empty _); [by intros [= _ <-]|].
  destruct (create_dir_all _ w) as [[]] eqn:Hc; intros [= _ <-]; by apply create_dir_same in Hc.
Qed.

(** A file that is opened without [create_new] holds what is written. *)
Lemma opened_run mode path (w w' : Probed) :
  open_options false mode path w = (Ok tt, w') →
  ticks w' = ticks w ∧ ∃ m, files w' = <[path := mkFile "" m]> (files w).
Proof.
  unfold open_options, allowed_io, on_disk. destruct (io_refused OpOpen path); mrun; [done|].
  destruct (_ && _); mrun; [done|].
  destruct (files w !! path); mrun; intros [= <-]; simpl; (split; [done|]); by eexists.
Qed.

Lemma write_run path text bytes m (w w' : Probed) (before : gmap string File) :
  files w = <[path := mkFile bytes m]> before → write_all path text w = (Ok tt, w') →
  ticks w' = ticks w ∧ files w' = <[path := mkFile (bytes +:+ text) m]> before.
Proof.
  intros Hf. unfold write_all, allowed_io, on_disk. destruct (io_refused OpWrite path); mrun; [done|].
  intros [= <-]. simpl. split; [done|]. rewrite Hf. apply map_eq. intros p.
  destruct (decide (p = path)) as [->|]; by simplify_map_eq.
Qed.

Lemma write_secret_run path text (w w' : Probed) :
  Probe.write_secret_file path text w = (Ok tt, w') →
  ticks w' = ticks w ∧ ∃ m, files w' = <[path := mkFile (text +:+ Probe.newline) m]> (files w).
Proof.
  unfold Probe.write_secret_file, context. intros Hrun.
  apply bind_Ok_inv in Hrun as ([] & w1 & Hp & Hrun). apply create_parent_same in Hp as [Hf1 Ht1].
  apply bind_Ok_inv in Hrun as ([] & w2 & Ho & Hrun). apply map_err_Ok_inv, map_err_Ok_inv in Ho.
  apply opened_run in Ho as (Ht2 & m & Hf2). apply map_err_Ok_inv, map_err_Ok_inv in Hrun.
  apply bind_Ok_inv in Hrun as ([] & w3 & Hw & Hrun).
  apply (write_run _ _ _ _ _ _ _ Hf2) in Hw as [Ht3 Hf3].
  apply (write_run _ _ _ _ _ _ _ Hf3) in Hrun as [Ht4 Hf4].
  split; [congruence|]. exists m. by rewrite Hf4, Hf1.
Qed.

Lemma write_public_run path text (w w' : Probed) :
  Probe.write_public_file path text w = (Ok tt, w') →
  ticks w' = ticks w ∧ ∃ m, files w' = <[path := mkFile text m]> (files w).
Proof.
  unfold Probe.write_public_file, context. intros Hrun.
  apply bind_Ok_inv in Hrun as ([] & w1 & Hp & Hrun). apply create_parent_same in Hp as [Hf1 Ht1].
  apply map_err_Ok_inv, map_err_Ok_inv in Hrun. apply bind_Ok_inv in Hrun as ([] & w2 & Ho & Hrun).
  apply opened_run in Ho as (Ht2 & m & Hf2).
  apply (write_run _ _ _ _ _ _ _ Hf2) in Hrun as [Ht3 Hf3].
  split; [congruence|]. exists m. by rewrite Hf3, Hf1.
Qed.

(** ** The matrix *)

Definition case_path (out_dir : string) (c : Probe.Case) : string := path_join out_dir (Probe.cs_file c).

(** The file of a case holds a token of its options, minted with [key] between two readings. *)
Definition case_written (key : SigningKey) (out_dir : string) (first last : nat) (now : gmap string File)
    (c : Probe.Case) : Prop :=
  ∃ token claims n file, now !! case_path out_dir c = Some file
    ∧ file_bytes file = token +:+ Probe.newline ∧ first ≤ n < last
    ∧ minted_claims (Probe.cs_mint c) (clock n) claims ∧ sign_lore_claims key claims = Ok token.

Lemma run_case_run out_dir c (w w' : Probed) :
  dur_nanos (Probe.duration (Probe.mi_ttl (Probe.cs_mint c))) = 0%Z →
  Probe.run_case out_dir c w = (Ok tt, w') →
  let args := Probe.cs_mint c in
  ticks w' = S (ticks w) ∧ (∀ p, p ≠ case_path out_dir c → files w' !! p = files w !! p)
  ∧ ∃ key, loaded (Probe.mi_kid args) (Probe.mi_key args) (files w !! Probe.mi_key args) = Ok key
      ∧ case_written key out_dir (ticks w) (ticks w') (files w') c.
Proof.
  intros Hn. unfold Probe.run_case, Probe.println, Probe.emit, modify_state. intros Hrun.
  apply bind_Ok_inv in Hrun as (token & w1 & Hmint & Hrun).
  apply mint_run in Hmint as (Hst & Ht & key & claims & Hkey & Hc & Hsign); [|done].
  apply bind_Ok_inv in Hrun as ([] & w2 & Hwrite & Hrun). injection Hrun as <-. simpl.
  apply write_secret_run in Hwrite as (Ht2 & m & Hf). rewrite Hst in Hf.
  split; [congruence|]. rewrite Hf. unfold case_written, case_path.
  split; [intros p Hp; by simplify_map_eq|]. exists key. split; [done|].
  exists token, claims, (ticks w), (mkFile (token +:+ Probe.newline) m).
  split_and!; [by simplify_map_eq|done|lia|lia|done..].
Qed.

Lemma cases_run out_dir kid path key cases (w w' : Probed) us :
  NoDup (case_path out_dir <$> cases) → path ∉ case_path out_dir <$> cases →
  Forall (λ c, let args := Probe.cs_mint c in Probe.mi_kid args = kid ∧ Probe.mi_key args = path
                 ∧ dur_nanos (Probe.duration (Probe.mi_ttl args)) = 0%Z) cases →
  loaded kid path (files w !! path) = Ok key →
  map_m (Probe.run_case out_dir) cases w = (Ok us, w') →
  ticks w ≤ ticks w' ∧ (∀ p, p ∉ case_path out_dir <$> cases → files w' !! p = files w !! p)
  ∧ Forall (case_written key out_dir (ticks w) (ticks w') (files w')) cases.
Proof.
  intros Hnd Hpath Hall. revert w us Hnd Hpath.
  induction Hall as [|c cases (Hkid & Hp & Hn) Hall IH]; intros w us Hnd Hpath Hkey Hrun.
  { injection Hrun as <- <-. by split_and!. }
  simpl in Hrun. apply bind_Ok_inv in Hrun as ([] & w1 & Hc & Hrun).
  apply bind_Ok_inv in Hrun as (us1 & w2 & Hrun & Hret). injection Hret as <- <-.
  rewrite fmap_cons in *. apply NoDup_cons in Hnd as [Hnew Hnd]. apply not_elem_of_cons in Hpath as [Hne Hpath].
  apply run_case_run in Hc as (Ht & Hother & key' & Hkey' & Hwritten); [|done]. cbv zeta in Hkey'.
  rewrite Hkid, Hp in Hkey'. assert (key' = key) as -> by congruence.
  destruct (IH w1 us1 Hnd Hpath) as (Ht2 & Hother2 & Hrest); [by rewrite Hother|done|].
  split; [lia|]. split.
  { intros p Hnot. apply not_elem_of_cons in Hnot as [? ?]. rewrite Hother2, Hother; done. }
  constructor.
  - destruct Hwritten as (token & claims & n & file & Hf & Hb & Hi & Hc & Hs).
    exists token, claims, n, file. rewrite Hother2 by done. split_and!; first [done|lia].
  - eapply Forall_impl; [exact Hrest|]. intros c' (token & claims & n & file & Hf & Hb & Hi & Hc & Hs).
    exists token, claims, n, file. split_and!; first [done|lia].
Qed.

Lemma first_case_key out_dir c cases (w w' : Probed) us :
  map_m (Probe.run_case out_dir) (c :: cases) w = (Ok us, w') →
  dur_nanos (Probe.duration (Probe.mi_ttl (Probe.cs_mint c))) = 0%Z →
  let args := Probe.cs_mint c in
  ∃ key, loaded (Probe.mi_kid args) (Probe.mi_key args) (files w !! Probe.mi_key args) = Ok key.
Proof.
  intros Hrun Hn. simpl in Hrun. apply bind_Ok_inv in Hrun as ([] & w1 & Hc & _).
  apply run_case_run in Hc as (_ & _ & key & Hkey & _); eauto.
Qed.

Lemma path_join_inj dir f g : starts_with "/" f = false → starts_with "/" g = false →
  path_join dir f = path_join dir g → f = g.
Proof.
  unfold path_join. intros -> ->. simpl. destruct (is_empty dir); [done|].
  destruct (String.eqb _ _); intros Heq; by repeat apply (inj (String.append _)) in Heq.
Qed.

(** What the labels of the matrix promise: the file of a case, the audience and the resources of
    its token, and how many seconds after it was minted it ends. *)
Definition promised (args : Probe.Matrix)
    : list (string * list string * list LoreResourcePermission * Z) :=
  let aud := Probe.split_csv (Probe.mx_audience args) in
  let on id permissions := [mkLoreResourcePermission (default "" (for_repository_id id)) permissions] in
  let repo := on (Probe.mx_repository_id args) in
  [("token-wildcard.jwt", aud, [mkLoreResourcePermission "urc-*" ["read"; "write"; "admin"]], 3600%Z);
   ("token-exact.jwt", aud, repo ["read"; "write"], 3600%Z);
   ("token-wrong-repo.jwt", aud, on (Probe.mx_wrong_repository_id args) ["read"; "write"], 3600%Z);
   ("token-no-resources.jwt", aud, [], 3600%Z);
   ("token-expired.jwt", aud, repo ["read"; "write"], (-3600)%Z);
   ("token-missing-remote-aud.jwt", ["lore-service"], repo ["read"; "write"], 3600%Z);
   ("token-read-only.jwt", aud, repo ["read"], 3600%Z)].

Definition keeps_promise (c : Probe.Case) (p : string * list string * list LoreResourcePermission * Z) : Prop :=
  let '(name, audience, resources, life) := p in
  Probe.cs_file c = name ∧ Probe.split_csv (Probe.mi_audience (Probe.cs_mint c)) = audience
  ∧ resources_of (Probe.cs_mint c) = resources ∧ lifetime (Probe.mi_ttl (Probe.cs_mint c)) = life.

Lemma cases_promised args : Forall2 keeps_promise (Probe.matrix_cases args) (promised args).
Proof. repeat constructor. Qed.

Lemma cases_uniform args :
  Forall (λ c, let m := Probe.cs_mint c in Probe.mi_kid m = Probe.mx_kid args
                 ∧ Probe.mi_key m = Probe.mx_key args ∧ Probe.mi_issuer m = Probe.mx_issuer args
                 ∧ Probe.mi_subject m = Probe.DEFAULT_SUBJECT
                 ∧ dur_nanos (Probe.duration (Probe.mi_ttl m)) = 0%Z
                 ∧ starts_with "/" (Probe.cs_file c) = false) (Probe.matrix_cases args).
Proof. repeat constructor. Qed.

Lemma case_paths_distinct args out_dir : NoDup (case_path out_dir <$> Probe.matrix_cases args).
Proof.
  assert (NoDup (Probe.cs_file <$> Probe.matrix_cases args)) as Hnd
    by (apply (bool_decide_eq_true_1 _); reflexivity).
  pose proof (cases_uniform args) as Hall. induction Hall as [|c cases Hc Hall IH]; [constructor|].
  rewrite fmap_cons in *. apply NoDup_cons in Hnd as [Hnew Hnd]. apply NoDup_cons. split; [|by apply IH].
  intros (c' & Heq & Hin)%list_elem_of_fmap. apply Hnew, list_elem_of_fmap.
  exists c'. split; [|done]. rewrite Forall_forall in Hall. unfold case_path in Heq.
  eapply path_join_inj; [apply Hc|by apply (Hall c')|exact Heq].
Qed.

(** C23: When the matrix of the claim probe succeeds, each of its token files holds what its label
    promises: a token that the key signed for the promised audience and resources, nothing else,
    and that every verifier with this key accepts exactly until the promised end, for the issuer
    and the audience of its options. So the token of the expired case is refused from its first
    moment on, and the one without the audience of the remote by every server that asks for it. *)
Theorem matrix_files_keep_promises `{!JwtLaws} {S} args (w w' : Probed) :
  Probe.mx_key args ∉ (λ p, path_join (Probe.mx_out_dir args) p.1.1.1) <$> promised args →
  Probe.cmd_matrix args w = (Ok tt, w') →
  ∃ key, loaded (Probe.mx_kid args) (Probe.mx_key args) (files w !! Probe.mx_key args) = Ok key
  ∧ ∀ name audience resources life, (name, audience, resources, life) ∈ promised args →
    ∃ token claims n file,
      files w' !! path_join (Probe.mx_out_dir args) name = Some file
      ∧ file_bytes file = token +:+ Probe.newline
      ∧ ticks w ≤ n < ticks w'
      ∧ jwt_decode (key_decoding key) token = Ok (claims_members claims)
      ∧ claims_from_members (claims_members claims) = Some claims
      ∧ lc_audience claims = audience ∧ lc_resources claims = resources
      ∧ ∀ verifier opts (w2 : World S), Signer.sg_key verifier = key →
          let now := verify_time verifier w2 in
          let accepted := ((0 <=? now) && (now <? clock n + life))%Z
            && (is_empty (vo_issuer opts) || String.eqb (Probe.mx_issuer args) (vo_issuer opts))
            && (is_empty (vo_audience opts) || existsb (λ aud, String.eqb aud (vo_audience opts)) audience) in
          match Signer.verify verifier token opts w2 with
          | (Ok v, _) => accepted = true ∧ vt_subject v = Probe.DEFAULT_SUBJECT
          | (Err _, _) => accepted = false
          end.
Proof.
  intros Hout Hrun. unfold Probe.cmd_matrix, context in Hrun.
  apply bind_Ok_inv in Hrun as ([] & w1 & Hdir & Hrun). apply map_err_Ok_inv, map_err_Ok_inv in Hdir.
  apply create_dir_same in Hdir as [Hf1 Ht1]. apply bind_Ok_inv in Hrun as (us & w2 & Hrun & Hlast).
  unfold Probe.println, Probe.emit, modify_state in Hlast. injection Hlast as <-. cbn [st ticks fst].
  pose proof (cases_uniform args) as Hall. pose proof (cases_promised args) as Hprom.
  assert ((λ p, path_join (Probe.mx_out_dir args) p.1.1.1) <$> promised args
          = case_path (Probe.mx_out_dir args) <$> Probe.matrix_cases args) as Hpaths by reflexivity.
  rewrite Hpaths in Hout.
  destruct (first_case_key _ _ _ _ _ _ Hrun eq_refl) as [key Hkey]. simpl in Hkey.
  exists key. split; [by rewrite <- Hf1|]. intros name audience resources life Hin.
  destruct (cases_run _ (Probe.mx_kid args) (Probe.mx_key args) key _ _ _ _
    (case_paths_distinct args _) Hout ltac:(eapply Forall_impl; [exact Hall|naive_solver]) Hkey Hrun)
    as (_ & _ & Hwritten).
  apply list_elem_of_lookup in Hin as [i Hi]. destruct (Forall2_lookup_r _ _ _ _ _ Hprom Hi) as (c & Hc & Hp).
  destruct Hp as (<- & <- & <- & <-). apply list_elem_of_lookup_2 in Hc.
  rewrite Forall_forall in Hall, Hwritten. destruct (Hall c Hc) as (Hkid & Hk & Hiss & Hsub & _ & _).
  destruct (Hwritten c Hc) as (token & claims & n & file & Hfile & Hbytes & Hn & Hclaims & Hsign).
  destruct (loaded_private _ _ _ _ Hkey) as [k Hprivate]. rewrite Ht1 in Hn.
  destruct Hclaims as [Hiat [He Hrange] Hs Hi' Ha Hr].
  assert (i64 (lc_expires_at claims)) as Hexp by (unfold i64, i64_max in *; lia).
  destruct (signed_decodes _ _ _ _ _ Hprivate Hsign Hiat Hexp) as (_ & Hdecode & Hback); [lia|].
  exists token, claims, n, file. split_and!; try done; try lia.
  intros verifier opts w3 <-.
  destruct (verify_signed _ k verifier claims token opts w3 Hprivate Hsign Hiat Hexp)
    as (raw & _ & ->); [lia|].
  unfold accepts. rewrite He, Hi', Ha, Hiss.
  destruct (_ && (is_empty (vo_audience opts) || _)); [|done]. split; [done|]. simpl. congruence.
Qed.
(** ** The keys that it serves *)

(** Writing the private key over whatever is there. *)
Lemma write_pem_run key path (w w' : Probed) :
  write_private_pem key path w = (Ok tt, w') →
  ∃ pem m, to_pkcs8_pem (key_private key) = Ok pem ∧ files w' = <[path := mkFile pem m]> (files w).
Proof.
  unfold write_private_pem, write_private_pem_inner. intros Hrun.
  apply bind_Ok_inv in Hrun as (pem & w1 & Hpem & Hrun). unfold lift, crypto_result in Hpem.
  destruct (to_pkcs8_pem _) as [pem'|]; [|done]. injection Hpem as -> <-.
  apply bind_Ok_inv in Hrun as ([] & w2 & Hdir & Hrun).
  assert (files w2 = files w) as Hf2.
  { destruct (is_empty _); [by injection Hdir as <-|].
    apply bind_Ok_inv in Hdir as ([] & w3 & Hd & Hc). apply map_err_Ok_inv in Hd, Hc.
    apply create_dir_same in Hd as [Hf _]. rewrite <- Hf. revert Hc.
    unfold set_permissions, allowed_io, on_disk. destruct (io_refused _ _); mrun; by intros [= <-]. }
  apply bind_Ok_inv in Hrun as ([] & w3 & Ho & Hrun). apply map_err_Ok_inv, opened_run in Ho as (_ & m & Hf3).
  apply bind_Ok_inv in Hrun as ([] & w4 & Hw & Hsync). apply map_err_Ok_inv in Hw.
  apply (write_run _ _ _ _ _ _ _ Hf3) in Hw as [_ Hf4]. apply map_err_Ok_inv in Hsync.
  revert Hsync. unfold sync_all, allowed_io. destruct (io_refused _ _); mrun; [done|]. intros [= <-].
  exists pem, m. by rewrite Hf4, Hf2.
Qed.

(** After [keygen] with two files, the server answers a request for the well-known path with the
    public half of the key that can be loaded from the private file, whatever was in the files
    before. *)
Theorem keygen_serves_its_key `{!JwtLaws} args request (w w1 : Probed) :
  let private_path := path_join (Probe.kg_out_dir args) (Probe.kg_private_name args) in
  let jwks_path := path_join (Probe.kg_out_dir args) (Probe.kg_jwks_name args) in
  private_path ≠ jwks_path → Probe.kg_kid args ≠ "" →
  io_refused OpRead private_path = None → io_refused OpRead jwks_path = None →
  Probe.cmd_keygen args w = (Ok tt, w1) →
  Probe.request_path request = "/.well-known/jwks.json" →
  ∃ key body, loaded (Probe.kg_kid args) private_path (files w1 !! private_path) = Ok key
    ∧ Probe.jwks_bytes key = Ok body
    ∧ Probe.serve_one request jwks_path w1
      = (Ok tt, mkWorld ((st w1).1, (st w1).2
           ++ [OnStream (Probe.response_bytes "200 OK" "application/json" body)]) (ticks w1) (draws w1)).
Proof.
  intros private_path jwks_path Hne Hkid Hreadp Hreadj Hrun Hreq. unfold Probe.cmd_keygen, Probe.signing in Hrun.
  apply bind_Ok_inv in Hrun as (key & w2 & Hgen & Hrun). apply map_err_Ok_inv, generate_run in Hgen as (_ & k & Hkey).
  apply bind_Ok_inv in Hrun as ([] & w3 & Hpem & Hrun). apply map_err_Ok_inv, write_pem_run in Hpem
    as (pem & m & Hpem & Hf3).
  apply bind_Ok_inv in Hrun as (body & w4 & Hbody & Hrun). apply map_err_Ok_inv in Hbody. injection Hbody as Hbody <-.
  apply bind_Ok_inv in Hrun as ([] & w5 & Hpub & Hrun). apply write_public_run in Hpub as (_ & m' & Hf5).
  unfold Probe.println, Probe.emit, modify_state in Hrun. mrun. injection Hrun as <-. simpl.
  fold private_path in Hf3. fold jwks_path in Hf5.
  assert (key_private key = k) as Hk.
  { revert Hkey. unfold from_private. destruct (crypto_result _ _); [by intros [= <-]|done]. }
  destruct (pem_round _ _ Hpem) as [Hback Hutf]. exists key, body. split_and!; [|done|].
  - unfold loaded, parse_rsa_private_key. rewrite Hf5, Hreadp.
    destruct (is_empty (Probe.kg_kid args)) eqn:He; [by apply is_empty_true in He|].
    rewrite lookup_insert_ne, Hf3, lookup_insert_eq by done. simpl. by rewrite Hutf, Hback, Hk.
  - unfold Probe.serve_one, context, Probe.emit, fs_read, allowed_io. rewrite Hreq, Hreadj. simpl. mrun. simpl.
    rewrite Hf5. by simplify_map_eq.
Qed.
End Probing.

(** * Examples *)

#[local] Existing Instance demo_files.

#[local] Instance demo_probe : ProbeLib := {|
  from_utf8_lossy s := s;
  split_paths := None;
  process_output _ _ := None;
  stdin_text := Ok "";
  bind_error _ := None;
  anyhow_debug _ := "error";
  default_file_mode := 420
|}.

(** A directory with a private key, two hours after the epoch of the clock. *)
Definition probe_world : World (Disk * list Output) :=
  mkWorld (mkDisk {[ Probe.DEFAULT_PRIVATE_KEY := mkFile (letters 7) 384 ]} ∅, []) 7200 0.

Lemma matrix_runs : ∃ w', Probe.cmd_matrix Probe.default_matrix probe_world = (Ok tt, w').
Proof.
  assert (match (Probe.cmd_matrix Probe.default_matrix probe_world).1 with Ok _ => true | Err _ => false end
          = true) as Hok by (vm_compute; reflexivity).
  destruct (Probe.cmd_matrix _ _) as [[[]|] w']; [by exists w'|discriminate Hok].
Qed.

Definition remote_options : VerifyOptions := mkVerifyOptions Probe.DEFAULT_ISSUER "127.0.0.1".

(** The remote accepts the exact token before its end, and refuses the one without its audience. *)
Lemma matrix_files_keep_promises_witness :
  ∃ w' exact missing, Probe.cmd_matrix Probe.default_matrix probe_world = (Ok tt, w')
    ∧ file_bytes <$> d_files (st w').1 !! ".probe/token-exact.jwt" = Some (exact +:+ Probe.newline)
    ∧ file_bytes <$> d_files (st w').1 !! ".probe/token-missing-remote-aud.jwt"
      = Some (missing +:+ Probe.newline)
    ∧ ∃ key, let verifier := Signer.with_verification_time (Signer.new key) 0 in
        (∃ v, (Signer.verify verifier exact remote_options (mkWorld tt 0 0)).1 = Ok v
              ∧ vt_subject v = Probe.DEFAULT_SUBJECT)
        ∧ ∃ err, (Signer.verify verifier missing remote_options (mkWorld tt 0 0)).1 = Err err.
Proof.
  destruct matrix_runs as [w' Hrun].
  destruct (matrix_files_keep_promises (S := ()) Probe.default_matrix probe_world w'
    ltac:(apply (bool_decide_eq_true_1 _); vm_compute; reflexivity) Hrun) as (key & _ & Hfiles).
  destruct (Hfiles "token-exact.jwt" _ _ _ ltac:(right; left; reflexivity))
    as (exact & _ & n & file & Hfile & Hbytes & _ & _ & _ & _ & _ & Hexact).
  destruct (Hfiles "token-missing-remote-aud.jwt" _ _ _ ltac:(do 5 right; left; reflexivity))
    as (missing & _ & n' & file' & Hfile' & Hbytes' & _ & _ & _ & _ & _ & Hmissing).
  exists w', exact, missing. split; [exact Hrun|].
  change (path_join _ _) with ".probe/token-exact.jwt" in Hfile.
  change (path_join _ _) with ".probe/token-missing-remote-aud.jwt" in Hfile'.
  rewrite Hfile, Hfile'. simpl. rewrite Hbytes, Hbytes'. split; [reflexivity|]. split; [reflexivity|].
  exists key. simpl.
  specialize (Hexact (Signer.with_verification_time (Signer.new key) 0) remote_options (mkWorld tt 0 0) eq_refl).
  specialize (Hmissing (Signer.with_verification_time (Signer.new key) 0) remote_options (mkWorld tt 0 0) eq_refl).
  destruct (Signer.verify _ exact _ _) as [[v|err] w2].
  2: { exfalso. revert Hexact. cbv zeta. change (verify_time _ _) with 0%Z.
       rewrite (proj2 (Z.ltb_lt 0 (clock n + 3600))) by (unfold clock, demo_env; lia).
       vm_compute. discriminate. }
  destruct (Signer.verify _ missing _ _) as [[v'|err'] w3];
    [exfalso; destruct Hmissing as [Hacc _]; rewrite andb_true_iff in Hacc; by destruct Hacc|].
  split; [exists v; split; [reflexivity|apply Hexact]|by exists err'].
Defined.
